(* ===== verification/_CoqProject ===== *)
-Q . S2P
Prelude.v
Cxx.v
Debug.v
SplaySpec.v
Splay.v
PerfMmap.v
RangeSet.v
Xml.v
Metrics.v
Context.v
NewContext.v
Jvmti.v
CodeCache.v
Argument.v
Lock.v
Critical.v
OutBuf.v
Output.v
ThreadData.v
Double.v
PerfUtil.v
Scale.v
ProfilerSupport.v
PerfConfig.v
PerfEvents.v
Profiler.v
Totals.v
Registration.v
Agent.v
Shared.v
MethodIds.v
Frame.v
Process.v
Startup.v
Instrument.v
Lifetime.v
Threads.v
