(* ===== verification/Prelude.v ===== *)
(** * DroidPerf in Rocq

    DroidPerf is a native agent for the Android runtime.  It is loaded into a Java
    process through the JVM Tool Interface, opens hardware performance events for
    every thread, takes samples in a signal handler, follows method entries,
    allocations and frees, and writes one set of text files per thread.  This
    library models the C++ of [src/src/] and the output buffer of hpctoolkit that
    it compiles in, and proves what its parts do.

    ** How the parts interact

    - The runtime calls [Agent_OnLoad] or [Agent_OnAttach] ([Registration.v]), which
      parses the argument ([Argument.v]), starts the profiler ([Profiler.v]:
      [init], through [PerfConfig.v] and [Metrics.v]) and registers callbacks.
      At its own start and with every class the runtime calls back to have method
      identifiers created ([MethodIds.v]).
    - When a thread starts, [Profiler.threadStart] gives it a fresh record
      ([ThreadData.v]) with a calling context tree ([NewContext.v]) and four
      output files ([Output.v] over [OutBuf.v]), fills the black list
      ([ProfilerSupport.v]) and opens its events ([PerfEvents.v], [PerfUtil.v]).
    - On method entry and allocation the callbacks of [Agent.v] note the call path
      of the thread and write methods and allocations.
    - On overflow of a counter the handler of [PerfEvents.v] drains the ring buffer
      of the event ([PerfMmap.v]) and hands what it reads as a sample to
      [Profiler.OnSample], which writes the call path to the traces.
    - When a thread ends, [Profiler.threadEnd] closes its files, adds its totals to
      those of the process and removes its record.
    - The code cache ([CodeCache.v]) keeps compiled methods in a range set
      ([RangeSet.v]) under the spin lock ([Lock.v]) and prints them as XML
      ([Xml.v]); [Context.v] is the older context tree, [Splay.v] the interval
      tree of objects.  The agent links them; its callbacks no longer feed them.

    ** Files, and the code they follow

    - [Prelude.v]: machine integers, outcomes, the state monad [prog], triples,
      hint databases ([cxx], [cxx_arith]).  [Cxx.v]: strings, conversions and
      ordered maps of the C++ library.
    - [PerfMmap.v]: [perf_mmap.h/.cpp].  The record [perf_mmap_t] is the control
      page and the data area; [perf_read_*] and [perf_skip_*] keep their names.
    - [SplaySpec.v], [Splay.v]: [splay.h/.cpp].  [Splay.v] runs the pointer
      program on a heap; [SplaySpec.v] is the tree it implements.  [Debug.v]:
      [debug.*].
    - [RangeSet.v]: the class templates of [range.h].  [Xml.v]: [xml.h/.cpp] and
      [util.h].  [Metrics.v]: [metrics.h/.cpp].
    - [Context.v], [NewContext.v]: [context.*] and [new_context.*], a store of
      nodes that refer to each other.
    - [Jvmti.v]: the enumerations and structures of [jvmti.h] and the functions of
      the runtime that are called; [Registration.v]: [JVM::init] and the entry
      points of [agent.cpp] over them.
      [CodeCache.v]: [code_cache.h/.cpp].
    - [Argument.v]: [argument.*].  [Lock.v]: [lock.h], a step relation over
      threads.  [Critical.v]: threads that access shared variables one access at
      a time, atomically or under such locks.  [OutBuf.v]: [hpcio-buffer.c].
      [Output.v]: [io.*].
    - [ThreadData.v]: [thread_data.*] and [safe-sampling.h].  [PerfUtil.v]:
      [perf_util.*], its scaling of counters in [Scale.v], over [Double.v], the
      rounding errors of binary64 arithmetic.  [ProfilerSupport.v]:
      [profiler_support.*].
    - [PerfConfig.v], [PerfEvents.v]: [perf_interface.*], the list of events and
      the events of a thread with the signal handler.
    - [Profiler.v]: [profiler.*]; [Totals.v]: the ends of several threads, which
      add their totals at once.  [Agent.v], [MethodIds.v]: the callbacks of
      [agent.cpp], with the blocks of the runtime that they own.  [Shared.v]: the
      same callbacks cut at their accesses to the variables they share, for the
      machine of [Critical.v].
    - [Lifetime.v]: the life of a thread through these parts.  [Frame.v],
      [Process.v]: many threads over the shared variables; [Frame.v] is the
      judgement by which each callback is shown to keep the invariants.
      [Threads.v]: one thread among the others.
    - [Startup.v]: from the argument of [Agent_OnAttach] and the static variables
      to the process of [Process.v].
    - [Instrument.v]: [old_agent.cpp], the former agent, which the build leaves
      out.

    ** How programs are modelled

    A machine integer is a [Z] with its reductions ([u32], [u64], [s32], ...)
    written where the code converts or overflows.  Pure code is a function;
    code with state is a [prog S A], a function from a state to an [outcome],
    which is a value with the next state or a [fault]: a failed assertion,
    undefined behaviour, an uncaught exception, or a lock that its holder takes
    again.  Assertions are compiled in.  What is outside the sources is a
    parameter: the runtime ([jvmti], [runtime]), the dex library ([slicer]), the
    system calls ([open], [write]
    as a stream of answers, [ioctl], [perf_event_open], [mmap]), [libpfm],
    [realpath] and the iteration order of hash tables.

    ** What the theorems show

    - A thread from start to end ([Lifetime.v]): its four files hold what a reference
      that knows nothing of buffers, descriptors and records computes from the
      methods entered, the objects allocated and the samples taken; in a process
      where other threads run anything in between, its own objects are freed, and
      signals find buffers of the kernel's records, they hold the same, with the
      first sample of each buffer ([Threads.v]).
    - A process ([Process.v]): for every sequence of callbacks and signals on any
      threads, nested where Java is called, the invariants of variables and threads
      hold, no held lock is waited for, and the memory in use and the started
      threads are those of an account of the events.
    - Callbacks that run at once ([Critical.v], [Shared.v], [Totals.v]): every
      interleaving of their accesses leaves the shared variables as some
      interleaving of whole atomic operations and critical sections does; run
      alone, the parts of a callback are the callback; no two threads are in a
      section at once, and any state can run to its end; the memory in use, the
      set of live objects and the totals are accounts of what was allocated, freed
      and ended.  Examples show what method entry, which reads the text of the
      live objects outside the lock, can see of a section.
    - The start ([Startup.v]): which lists of events the agent accepts when it is
      attached with their text, and that it then leaves a process of [Process.v] with
      the events, metrics, client, callback and buffer mask that threads and handler
      use.
    - Registration: which events reach which callback, given the documented answers
      of the runtime.  Former agent: what it does to a class, and when the inserted
      instructions leave the arguments of the method in place.
    - Samples: reading and skipping follow a first-in first-out queue for every
      interleaving with the kernel, wrap-around included; the header and the fields
      of a sample that are read come out as they were written, whatever follows
      them.  What follows them in a record of the kernel, the second word of the cpu
      and the call chain, is not read: of a buffer of such records the handler
      delivers the first sample and drops what is behind it.  It ends on any
      contents, and does nothing while the agent runs.
    - Threads and callbacks: what method entry, allocation and free do to the call
      path, the lists, the memory count and the files; what a sample writes; what
      a thread has after its start and leaves after its end; which descriptors the
      events of a thread leave open.
    - Code cache: whatever operations any number of threads call, in steps that are
      what one thread does under the lock at a stretch or the construction of a
      method in the window where [addMethod] has released it, windows that cross
      included, no stored pointer dangles and the code ends in no undefined behaviour
      or deadlock; a method that is added is found at its addresses; line tables
      answer with the line the tables of the runtime give; destroying the cache
      deletes every method that a group files, once.
    - Locks: mutual exclusion as an invariant of the step relation, progress.
    - Files: the file holds the concatenation of what was written, whatever part
      of it each [write] accepts; names are tried until a free one; a full disk
      makes the writer loop for ever.
    - Configuration: splitting of the argument and of an event; at most four
      events are registered.  Scaling: how far a scaled count is from the exact
      quotient, and which readings have no defined result.
    - Data structures: the splay tree refines an ordered set of disjoint
      intervals; range sets of disjoint ranges refine maps from addresses, and what
      an overlapping range hides is said exactly; the context tree is a trie
      of call paths that is visited node by node and destroyed without a rest, and
      the new tree is equivalent to the old one; the printed XML determines tags,
      attributes and nesting of texts that need no escapes, which the printer does
      not have; metrics add up.

    Theorems that state a property of the program carry an identifier (C1, C2, ...)
    in order of importance; the [Examples] module of a file evaluates them on
    concrete inputs and has small runs that exhibit faults of the code.

    ** Fuel

    Loops over memory or the kernel take fuel; the theorems say how much is
    enough.  The splay loop ends within the number of nodes; draining a buffer
    within its unread bytes, for each record consumes at least its header or
    everything; opening a file within 256 names, since each is one character
    longer; a flush within [K] answers per byte when at most [K] answers in a row
    accept nothing; [Tokenize] within one round more than the characters.  A
    [writef] takes at most two rounds of its loop.

    ** Not modelled

    What the parts log (the macros of [Debug.v] write only when [DEBUG] is
    defined); the declarations of [watchpoint.h] and [x86-misc.h], which have no
    implementation; the table of functions of [jvmti.h], which only forwards to the
    runtime; blocks under [#if 0]; the templates [isDisjointRange] and
    [getRangesIntersect] of [range.h], which do not compile when used; the class
    [ErrnoIR] of [perf_interface.cpp], as [errno] is not part of any state; the
    formatting of ratios; weak memory, as atomics are sequentially consistent; the
    third-party code and the scripts.  A process ([Process.v]) interleaves whole
    callbacks; interleaving within one is modelled for the lock, the ring buffer,
    the code cache and the variables that method entry, allocation, free and the
    end of a thread share. *)
From stdpp Require Import base numbers option list sorting gmap strings.
From Stdlib Require Import ZArith Lia.

#[global] Open Scope Z_scope.
Declare Scope cxx_scope.
Delimit Scope cxx_scope with cxx.

(** * Machine integers

    The program mixes [uint64_t], [uint32_t], [size_t], [jint] and [int].
    A machine integer is a [Z] kept in range by the reductions below. *)

(** [static_cast] to an unsigned type of [w] bits. *)
Definition to_unsigned (w z : Z) : Z := z mod 2 ^ w.

(** [static_cast] to a two's complement signed type of [w] bits. *)
Definition to_signed (w z : Z) : Z :=
  let u := z mod 2 ^ w in if u <? 2 ^ (w - 1) then u else u - 2 ^ w.

Definition u16 : Z -> Z := to_unsigned 16.
Definition u32 : Z -> Z := to_unsigned 32.
Definition u64 : Z -> Z := to_unsigned 64.
Definition s32 : Z -> Z := to_signed 32.
Definition s64 : Z -> Z := to_signed 64.

(** Membership in the range of a type. *)
Definition is_u16 (z : Z) : Prop := 0 <= z < 2 ^ 16.
Definition is_u32 (z : Z) : Prop := 0 <= z < 2 ^ 32.
Definition is_u64 (z : Z) : Prop := 0 <= z < 2 ^ 64.
Definition is_s32 (z : Z) : Prop := - 2 ^ 31 <= z < 2 ^ 31.
Definition is_s64 (z : Z) : Prop := - 2 ^ 63 <= z < 2 ^ 63.

Create HintDb cxx discriminated.
Create Rewrite HintDb cxx_arith.
#[export] Hint Constants Opaque : cxx.
#[export] Hint Variables Transparent : cxx.

(** [lia] after unfolding every range predicate and reduction. *)
Ltac machine_unfold :=
  unfold u16, u32, u64, s32, s64, to_unsigned, to_signed,
    is_u16, is_u32, is_u64, is_s32, is_s64 in *.
Ltac machine_lia := machine_unfold; lia.

Section MachineIntegers.
Lemma to_unsigned_range w z : 0 <= w -> 0 <= to_unsigned w z < 2 ^ w.
Proof. intros. apply Z.mod_pos_bound. apply Z.pow_pos_nonneg; lia. Qed.

Lemma to_unsigned_small w z : 0 <= z < 2 ^ w -> to_unsigned w z = z.
Proof. intros. by apply Z.mod_small. Qed.

Lemma u64_range z : is_u64 (u64 z).
Proof. apply to_unsigned_range; lia. Qed.

Lemma u32_range z : is_u32 (u32 z).
Proof. apply to_unsigned_range; lia. Qed.

Lemma u64_small z : is_u64 z -> u64 z = z.
Proof. apply to_unsigned_small. Qed.

Lemma u32_small z : is_u32 z -> u32 z = z.
Proof. apply to_unsigned_small. Qed.

Lemma s32_small z : is_s32 z -> s32 z = z.
Proof.
  unfold is_s32, s32, to_signed. intros H.
  destruct (Z_lt_le_dec z 0) as [Hn|Hn].
  - replace (z mod 2 ^ 32) with (z + 2 ^ 32)
      by (apply Z.mod_unique_pos with (-1); lia).
    destruct (Z.ltb_spec (z + 2 ^ 32) (2 ^ (32 - 1))); lia.
  - rewrite Z.mod_small by lia.
    destruct (Z.ltb_spec z (2 ^ (32 - 1))); lia.
Qed.

Lemma s64_small z : is_s64 z -> s64 z = z.
Proof.
  unfold is_s64, s64, to_signed. intros H.
  destruct (Z_lt_le_dec z 0) as [Hn|Hn].
  - replace (z mod 2 ^ 64) with (z + 2 ^ 64)
      by (apply Z.mod_unique_pos with (-1); lia).
    destruct (Z.ltb_spec (z + 2 ^ 64) (2 ^ (64 - 1))); lia.
  - rewrite Z.mod_small by lia.
    destruct (Z.ltb_spec z (2 ^ (64 - 1))); lia.
Qed.

Lemma u64_add_l a b : u64 (u64 a + b) = u64 (a + b).
Proof. unfold u64, to_unsigned. by rewrite Zplus_mod_idemp_l. Qed.

Lemma u64_add_r a b : u64 (a + u64 b) = u64 (a + b).
Proof. unfold u64, to_unsigned. by rewrite Zplus_mod_idemp_r. Qed.

Lemma u64_sub_l a b : u64 (u64 a - b) = u64 (a - b).
Proof. unfold u64, to_unsigned. by rewrite Zminus_mod_idemp_l. Qed.

Lemma u64_sub_r a b : u64 (a - u64 b) = u64 (a - b).
Proof. unfold u64, to_unsigned. by rewrite Zminus_mod_idemp_r. Qed.

Lemma u64_u64 a : u64 (u64 a) = u64 a.
Proof. unfold u64, to_unsigned. by rewrite Z.mod_mod. Qed.
End MachineIntegers.

#[export] Hint Resolve u64_range u32_range : cxx.
#[export] Hint Rewrite u64_add_l u64_add_r u64_sub_l u64_sub_r u64_u64 : cxx_arith.

(** * Outcomes

    An operation ends with a value or with the fault that stops the process. *)

Inductive fault : Set :=
| AssertFailure       (* [assert] with a false argument: [abort()] *)
| UndefinedBehaviour  (* null or dangling dereference, index out of range *)
| UncaughtException   (* a standard library call throws and nothing catches it *)
| Deadlock            (* a thread waits for a lock that it holds itself *)
| OutOfFuel.          (* the bound of a modelled loop was too small *)

#[global] Instance fault_eq_dec : EqDecision fault.
Proof. solve_decision. Defined.

Inductive outcome (A : Type) : Type :=
| Val (a : A)
| Fault (f : fault).
Arguments Val {A} a.
Arguments Fault {A} f.

#[global] Instance outcome_ret : MRet outcome := fun A a => Val a.
#[global] Instance outcome_bind : MBind outcome := fun A B k m =>
  match m with Val a => k a | Fault f => Fault f end.
#[global] Instance outcome_eq_dec `{EqDecision A} : EqDecision (outcome A).
Proof. solve_decision. Defined.

(** [assert(b)]. *)
Definition cxx_assert (b : bool) : outcome unit :=
  if b then Val tt else Fault AssertFailure.

(** The state monad over outcomes. *)
Definition prog (S A : Type) : Type := S -> outcome (A * S).

#[global] Instance prog_ret {S} : MRet (prog S) := fun A a s => Val (a, s).
#[global] Instance prog_bind {S} : MBind (prog S) := fun A B k m s =>
  match m s with Val (a, s') => k a s' | Fault f => Fault f end.

Definition prog_get {S} : prog S S := fun s => Val (s, s).
Definition prog_put {S} (s : S) : prog S unit := fun _ => Val (tt, s).
Definition prog_fault {S A} (f : fault) : prog S A := fun _ => Fault f.
Definition prog_lift {S A} (m : outcome A) : prog S A := fun s =>
  match m with Val a => Val (a, s) | Fault f => Fault f end.

Section ProgLemmas.
Context {S : Type}.

Lemma outcome_bind_val {A B} (m : outcome A) (k : A -> outcome B) a :
  m = Val a -> (x ← m; k x) = k a.
Proof. by intros ->. Qed.

Lemma outcome_bind_inv {A B} (m : outcome A) (k : A -> outcome B) b :
  (x ← m; k x) = Val b -> exists a, m = Val a /\ k a = Val b.
Proof. destruct m; [by eauto | discriminate]. Qed.

Lemma prog_bind_val {A B} (m : prog S A) (k : A -> prog S B) s a s' :
  m s = Val (a, s') -> (x ← m; k x) s = k a s'.
Proof. unfold mbind, prog_bind. by intros ->. Qed.

Lemma prog_bind_fault {A B} (m : prog S A) (k : A -> prog S B) s f :
  m s = Fault f -> (x ← m; k x) s = Fault f.
Proof. unfold mbind, prog_bind. by intros ->. Qed.

Lemma prog_bind_inv {A B} (m : prog S A) (k : A -> prog S B) s b s'' :
  (x ← m; k x) s = Val (b, s'') ->
  exists a s', m s = Val (a, s') /\ k a s' = Val (b, s'').
Proof.
  unfold mbind, prog_bind. destruct (m s) as [[a s']|f]; [eauto | discriminate].
Qed.
End ProgLemmas.

(** * Safety triples

    [hoare P m Q]: from a state in [P] the program ends in [Q], or stops the
    process by a failed assertion or an uncaught exception; it never runs into
    undefined behaviour, a deadlock or the end of its fuel. *)
Definition benign (f : fault) : Prop := f = AssertFailure \/ f = UncaughtException.

Definition clean {A} (o : outcome A) (Q : A -> Prop) : Prop :=
  match o with Val a => Q a | Fault f => benign f end.

Definition hoare {S A} (P : S -> Prop) (m : prog S A) (Q : A -> S -> Prop) : Prop :=
  forall s, P s -> match m s with Val (a, s') => Q a s' | Fault f => benign f end.

Section Hoare.
Context {S : Type}.
Implicit Types P : S -> Prop.

Lemma hoare_ret {A} P (a : A) (Q : A -> S -> Prop) :
  (forall s, P s -> Q a s) -> hoare P (mret a) Q.
Proof. intros H s Hs. by apply H. Qed.

Lemma hoare_bind {A B} P (m : prog S A) (k : A -> prog S B) R Q :
  hoare P m R -> (forall a, hoare (R a) (k a) Q) -> hoare P (m ≫= k) Q.
Proof.
  intros Hm Hk s Hs. specialize (Hm s Hs). unfold mbind, prog_bind.
  destruct (m s) as [[a s']|f]; [by apply Hk|done].
Qed.

Lemma hoare_get P (Q : S -> S -> Prop) : (forall s, P s -> Q s s) -> hoare P prog_get Q.
Proof. intros H s Hs. by apply H. Qed.

Lemma hoare_lift {A} P (o : outcome A) (Q : A -> S -> Prop) :
  (forall s, P s -> clean o (fun a => Q a s)) -> hoare P (prog_lift o) Q.
Proof. intros H s Hs. specialize (H s Hs). unfold prog_lift. by destruct o. Qed.

Lemma hoare_weaken {A} P P' (m : prog S A) (Q Q' : A -> S -> Prop) :
  hoare P m Q -> (forall s, P' s -> P s) -> (forall a s, Q a s -> Q' a s) -> hoare P' m Q'.
Proof.
  intros Hm HP HQ s Hs. specialize (Hm s (HP s Hs)).
  destruct (m s) as [[a s']|f]; [by apply HQ|done].
Qed.

Lemma clean_bind {A B} (o : outcome A) (k : A -> outcome B) (R : A -> Prop) (Q : B -> Prop) :
  clean o R -> (forall a, R a -> clean (k a) Q) -> clean (o ≫= k) Q.
Proof. intros Ho Hk. destruct o; [by apply Hk|done]. Qed.

Lemma clean_assert b (Q : unit -> Prop) : (b = true -> Q tt) -> clean (cxx_assert b) Q.
Proof. intros H. destruct b; [by apply H|by left]. Qed.

Lemma clean_weaken {A} (o : outcome A) (Q R : A -> Prop) :
  clean o Q -> (forall a, Q a -> R a) -> clean o R.
Proof. intros Ho HQ. destruct o; [by apply HQ|done]. Qed.
End Hoare.

(** * Lists *)

(** Right-associates appends through conses. *)
Ltac app_norm := simpl; repeat (rewrite <- app_assoc; simpl).

Section Filter.
Context {A : Type} (P : A -> Prop) {Hdec : forall x, Decision (P x)}.

Lemma filter_all (l : list A) : (forall x, x ∈ l -> P x) -> filter P l = l.
Proof.
  induction l as [|a l IH]; intros H; [done|].
  rewrite filter_cons_True by (apply H; constructor).
  f_equal. apply IH. intros x Hx. apply H. by constructor.
Qed.

Lemma filter_none (l : list A) : (forall x, x ∈ l -> ~ P x) -> filter P l = [].
Proof.
  induction l as [|a l IH]; intros H; [done|].
  rewrite filter_cons_False by (apply H; constructor).
  apply IH. intros x Hx. apply H. by constructor.
Qed.

(** A predicate that holds exactly on the middle part of a list. *)
Lemma filter_mid (l1 l2 l3 : list A) :
  (forall x, x ∈ l1 -> ~ P x) -> (forall x, x ∈ l2 -> P x) ->
  (forall x, x ∈ l3 -> ~ P x) -> filter P (l1 ++ l2 ++ l3) = l2.
Proof.
  intros. rewrite !filter_app, (filter_none l1), (filter_all l2), (filter_none l3);
    auto. by rewrite app_nil_r.
Qed.

Lemma filter_sides (l1 l2 l3 : list A) :
  (forall x, x ∈ l1 -> P x) -> (forall x, x ∈ l2 -> ~ P x) ->
  (forall x, x ∈ l3 -> P x) -> filter P (l1 ++ l2 ++ l3) = l1 ++ l3.
Proof.
  intros. by rewrite !filter_app, (filter_all l1), (filter_none l2), (filter_all l3).
Qed.
End Filter.
