(* ===== verification/Cxx.v ===== *)
(** The parts of the C++ standard library that the program uses: strings with
    their searches and conversions, and ordered maps with their iterators. *)
From stdpp Require Import base numbers option list gmap strings pretty sorting.
From Stdlib Require Import ZArith Lia.
From Stdlib Require Import Ascii.
From S2P Require Import Prelude.

(** * std::string *)

Abbreviation str := (list ascii).

(** A literal of the source. *)
Definition lit (s : string) : str := String.list_ascii_of_string s.
Arguments lit s%_string_scope.

(** [std::string::npos] *)
Definition npos : Z := 2 ^ 64 - 1.

Definition size (s : str) : Z := Z.of_nat (length s).

(** [c_str()] read back as a C string stops at the first NUL. *)
Definition NUL : ascii := ascii_of_nat 0.

Fixpoint c_str (s : str) : str :=
  match s with
  | [] => []
  | c :: s => if decide (c = NUL) then [] else c :: c_str s
  end.

(** [s.find(pat)] from position 0. *)
Fixpoint is_prefix (pat s : str) : bool :=
  match pat, s with
  | [], _ => true
  | _, [] => false
  | p :: pat, c :: s => if decide (p = c) then is_prefix pat s else false
  end.

Fixpoint find_from (pat s : str) (i : Z) : Z :=
  if is_prefix pat s then i
  else match s with [] => npos | _ :: s => find_from pat s (i + 1) end.

Definition find (s pat : str) : Z := find_from pat s 0.

(** The first position at or after [pos] whose character satisfies [f]. *)
Fixpoint scan (f : ascii -> bool) (s : str) (i : Z) : Z :=
  match s with
  | [] => npos
  | c :: s => if f c then i else scan f s (i + 1)
  end.

Definition find_if (f : ascii -> bool) (s : str) (pos : Z) : Z :=
  scan f (drop (Z.to_nat (Z.min pos (size s))) s) (Z.min pos (size s)).

Definition mem (c : ascii) (s : str) : bool := existsb (Ascii.eqb c) s.

Definition find_first_of (s delimiters : str) (pos : Z) : Z :=
  find_if (fun c => mem c delimiters) s pos.
Definition find_first_not_of (s delimiters : str) (pos : Z) : Z :=
  find_if (fun c => negb (mem c delimiters)) s pos.

(** [s.substr(pos, n)] throws [std::out_of_range] past the end. *)
Definition substr (s : str) (pos n : Z) : outcome str :=
  if size s <? pos then Fault UncaughtException
  else Val (take (Z.to_nat (Z.min n (size s - pos))) (drop (Z.to_nat pos) s)).

Definition in_range (c : ascii) (lo hi : nat) : bool :=
  (lo <=? nat_of_ascii c)%nat && (nat_of_ascii c <=? hi)%nat.

(** [toupper] in the C locale, over a string. *)
Definition toupper (c : ascii) : ascii :=
  if in_range c 97 122 then ascii_of_nat (nat_of_ascii c - 32) else c.
Definition to_upper (s : str) : str := toupper <$> s.

(** [std::replace(begin, end, a, b)] *)
Definition replace_char (a b : ascii) (s : str) : str :=
  (fun c => if decide (c = a) then b else c) <$> s.

Definition isspace (c : ascii) : bool := in_range c 9 13 || (nat_of_ascii c =? 32)%nat.
Definition isdigit (c : ascii) : bool := in_range c 48 57.

Fixpoint drop_spaces (s : str) : str :=
  match s with
  | c :: s' => if isspace c then drop_spaces s' else s
  | [] => []
  end.

(** The leading decimal digits, accumulated. *)
Fixpoint digits (s : str) (acc : Z) : Z :=
  match s with
  | c :: s => if isdigit c then digits s (acc * 10 + Z.of_nat (nat_of_ascii c - 48)) else acc
  | [] => acc
  end.

Definition starts_with_digit (s : str) : bool :=
  match s with c :: _ => isdigit c | [] => false end.

Definition split_sign (s : str) : bool * str :=
  match s with
  | c :: s' => if decide (c = "-"%char) then (true, s')
               else if decide (c = "+"%char) then (false, s') else (false, s)
  | [] => (false, [])
  end.

(** [std::stoull(s, nullptr, 10)]: no digits throws [std::invalid_argument], a
    magnitude over 64 bits [std::out_of_range], a minus sign negates modulo
    2^64. *)
Definition stoull (s : str) : outcome Z :=
  let '(neg, s) := split_sign (drop_spaces s) in
  if starts_with_digit s then
    let v := digits s 0 in
    if 2 ^ 64 <=? v then Fault UncaughtException
    else Val (if neg then u64 (- v) else v)
  else Fault UncaughtException.

(** [std::stoi(s)]: the same for a 32-bit [int]. *)
Definition stoi (s : str) : outcome Z :=
  let '(neg, s) := split_sign (drop_spaces s) in
  if starts_with_digit s then
    let v := if neg then - digits s 0 else digits s 0 in
    if (v <? - 2 ^ 31) || (2 ^ 31 <=? v) then Fault UncaughtException else Val v
  else Fault UncaughtException.

(** [std::to_string] and the decimal output of an integer. *)
Definition dec (z : Z) : str := lit (pretty z).

(** The decimal digits that [dec] prints read back as the number. *)
Lemma pretty_N_go_digits x s t :
  lit s = t ->
  exists ds, lit (pretty_N_go x s) = ds ++ t /\ Forall (fun c => isdigit c = true) ds /\
    ((0 < x)%N -> ds <> []) /\ digits (ds ++ t) 0 = digits t (Z.of_N x).
Proof.
  revert s t. induction (N.lt_wf_0 x) as [x _ IH]. intros s t Ht.
  destruct (decide (x = 0)%N) as [->|Hx].
  { exists []. rewrite pretty_N_go_0. split_and!; try done. }
  rewrite pretty_N_go_step by lia.
  set (c := pretty_N_char (x `mod` 10)).
  assert (isdigit c = true /\ Z.of_nat (nat_of_ascii c - 48) = Z.of_N (x `mod` 10)) as [Hc Hv].
  { subst c. assert (x `mod` 10 < 10)%N as Hlt by (apply N.mod_lt; lia).
    destruct (x `mod` 10)%N as [|[[[|[]|]|[[]|[]|]|]|[[[]|[]|]|[[]|[]|]|]|]]; try (split; reflexivity); lia. }
  destruct (IH (x `div` 10)%N ltac:(apply N.div_lt; lia) (String c s) (c :: t)) as (ds & H1 & H2 & _ & H4).
  { by rewrite <- Ht. }
  exists (ds ++ [c]). rewrite <- app_assoc. split_and!; [done| |by destruct ds|].
  - apply Forall_app. split; [done|by constructor].
  - simpl. rewrite H4. simpl. rewrite Hc, Hv. f_equal. rewrite N2Z.inj_div, N2Z.inj_mod.
    change (Z.of_N 10) with 10. pose proof (Z.div_mod (Z.of_N x) 10). lia.
Qed.

Lemma dec_digits z :
  0 <= z -> dec z <> [] /\ Forall (fun c => isdigit c = true) (dec z) /\ digits (dec z) 0 = z.
Proof.
  intros Hz. destruct z as [|x|x]; [split_and!; [done|by repeat constructor|done]| |lia].
  destruct (pretty_N_go_digits (N.pos x) EmptyString [] eq_refl) as (ds & H1 & H2 & H3 & H4).
  assert (dec (Z.pos x) = ds) as ->.
  { rewrite app_nil_r in H1. rewrite <- H1. reflexivity. }
  rewrite app_nil_r in H4. split_and!; [by apply H3|done|done].
Qed.

Lemma stoi_dec z : 0 <= z < 2 ^ 31 -> stoi (dec z) = Val z.
Proof.
  intros Hz. destruct (dec_digits z) as (Hne & Hd & Hv); [lia|].
  destruct (dec z) as [|c s]; [done|]. apply Forall_cons_1 in Hd as [Hc _]. unfold stoi.
  assert (isspace c = false /\ c <> "-"%char /\ c <> "+"%char) as (H1 & H2 & H3).
  { unfold isdigit, isspace, in_range in *. split_and!; [|by intros ->|by intros ->].
    destruct (Nat.leb_spec 48 (nat_of_ascii c)); [|done].
    repeat match goal with |- context[(?a <=? ?b)%nat] => destruct (Nat.leb_spec a b) end; try lia.
    all: simpl; apply Nat.eqb_neq; lia. }
  cbn [drop_spaces]. rewrite H1. unfold split_sign. rewrite !decide_False by done.
  unfold starts_with_digit. rewrite Hc, Hv.
  destruct (Z.ltb_spec z (- 2 ^ 31)); [lia|]. destruct (Z.leb_spec (2 ^ 31) z); [lia|done].
Qed.

Lemma size_app a b : size (a ++ b) = size a + size b.
Proof. unfold size. rewrite length_app. lia. Qed.

Lemma substr_app p w t n :
  (n = size w \/ t = [] /\ size w <= n) -> substr (p ++ w ++ t) (size p) n = Val w.
Proof.
  intros Hn. unfold substr, size in *. rewrite !length_app.
  destruct (Z.ltb_spec (Z.of_nat (length p + (length w + length t))) (Z.of_nat (length p))); [lia|].
  f_equal. rewrite Nat2Z.id, drop_app_length.
  destruct Hn as [->|[-> Hn]].
  - replace (Z.to_nat _) with (length w) by lia. apply take_app_length.
  - rewrite app_nil_r. apply take_ge. simpl. lia.
Qed.

(** * std::map over integer keys

    An ordered map is the list of its entries in increasing key order; an
    iterator is a position in it. *)
Abbreviation ordmap V := (list (Z * V)).

Section OrderedMap.
Context {V : Type}.

Fixpoint map_find (k : Z) (m : ordmap V) : option V :=
  match m with
  | [] => None
  | (k', v) :: m => if k =? k' then Some v else map_find k m
  end.

(** [emplace] inserts only when the key is absent. *)
Fixpoint map_emplace (k : Z) (v : V) (m : ordmap V) : ordmap V :=
  match m with
  | [] => [(k, v)]
  | (k', v') :: m' =>
    if k <? k' then (k, v) :: m
    else if k =? k' then m
    else (k', v') :: map_emplace k v m'
  end.

(** [m[k] = v] *)
Fixpoint map_assign (k : Z) (v : V) (m : ordmap V) : ordmap V :=
  match m with
  | [] => [(k, v)]
  | (k', v') :: m' =>
    if k <? k' then (k, v) :: m
    else if k =? k' then (k, v) :: m'
    else (k', v') :: map_assign k v m'
  end.

(** [erase(key)] *)
Fixpoint map_erase (k : Z) (m : ordmap V) : ordmap V :=
  match m with
  | [] => []
  | (k', v) :: m => if k =? k' then m else (k', v) :: map_erase k m
  end.

(** The first position whose key is greater than [k] (not less than [k]). *)
Fixpoint upper_bound (k : Z) (m : ordmap V) : nat :=
  match m with
  | [] => O
  | (k', _) :: m => if k <? k' then O else S (upper_bound k m)
  end.

Fixpoint lower_bound (k : Z) (m : ordmap V) : nat :=
  match m with
  | [] => O
  | (k', _) :: m => if k <=? k' then O else S (lower_bound k m)
  end.

Definition key_lt (a b : Z * V) : Prop := a.1 < b.1.

Definition sorted (m : ordmap V) : Prop := StronglySorted key_lt m.

Lemma sorted_cons_inv k v m :
  sorted ((k, v) :: m) -> sorted m /\ forall e, e ∈ m -> k < e.1.
Proof.
  intros H. inversion H as [|? ? Hs HF]; subst. split; [done|]. rewrite Forall_forall in HF.
  intros e He. by apply (HF e).
Qed.

Lemma sorted_cons k v m : sorted m -> (forall e, e ∈ m -> k < e.1) -> sorted ((k, v) :: m).
Proof. intros. constructor; [done|]. by apply Forall_forall. Qed.

Lemma sorted_lookup m i j a b :
  sorted m -> m !! i = Some a -> m !! j = Some b -> (i < j)%nat -> a.1 < b.1.
Proof.
  revert i j. induction m as [|[k v] m IH]; intros i j Hs Hi Hj Hij; [done|].
  apply sorted_cons_inv in Hs as [Hs Hlt]. destruct j as [|j]; [lia|]. simpl in Hj.
  destruct i as [|i]; simpl in Hi.
  - injection Hi as <-. apply Hlt. by eapply list_elem_of_lookup_2.
  - apply (IH i j); auto with lia.
Qed.

Lemma map_find_gt k m : (forall e, e ∈ m -> k < e.1) -> map_find k m = None.
Proof.
  induction m as [|[k' v] m IH]; intros H; simpl; [done|].
  pose proof (H (k', v) ltac:(constructor)) as Hk. simpl in Hk.
  destruct (Z.eqb_spec k k'); [lia|]. apply IH. intros e He. apply H. by constructor.
Qed.

Lemma map_find_elem k v m : sorted m -> map_find k m = Some v <-> (k, v) ∈ m.
Proof.
  induction m as [|[k' v'] m IH]; intros Hs; simpl; [by split; [|inversion 1]|].
  apply sorted_cons_inv in Hs as [Hs Hlt].
  destruct (Z.eqb_spec k k') as [->|Hne]; rewrite elem_of_cons.
  - split; [intros [= ->]; by left|]. intros [[= ->]|Hin]; [done|].
    apply Hlt in Hin. simpl in Hin. lia.
  - rewrite IH by done. split; [by right|]. intros [[= -> ->]|Hin]; done.
Qed.

Lemma elem_emplace e k v m :
  e ∈ map_emplace k v m -> e = (k, v) \/ e ∈ m.
Proof.
  induction m as [|[k' v'] m IH]; simpl.
  - intros H%list_elem_of_singleton. by left.
  - repeat case_match; rewrite !elem_of_cons; tauto.
Qed.

Lemma sorted_emplace k v m : sorted m -> sorted (map_emplace k v m).
Proof.
  induction m as [|[k' v'] m IH]; intros Hs; simpl.
  - apply sorted_cons; [done|]. by inversion 1.
  - pose proof Hs as [Hs' Hlt]%sorted_cons_inv.
    destruct (Z.ltb_spec k k'); [|destruct (Z.eqb_spec k k'); [done|]].
    + apply sorted_cons; [done|]. intros e [->|He]%elem_of_cons; [done|].
      apply Hlt in He. lia.
    + apply sorted_cons; [by apply IH|]. intros e [->|He]%elem_emplace; [simpl; lia|by apply Hlt].
Qed.

Lemma map_find_emplace k v k0 m :
  sorted m ->
  map_find k0 (map_emplace k v m) =
  if k0 =? k then Some (default v (map_find k m)) else map_find k0 m.
Proof.
  induction m as [|[k' v'] m IH]; intros Hs; simpl; [done|].
  pose proof Hs as [Hs' Hlt]%sorted_cons_inv.
  destruct (Z.ltb_spec k k') as [Hk|Hk]; simpl.
  - rewrite (map_find_gt k m) by (intros e He; specialize (Hlt e He); lia).
    destruct (Z.eqb_spec k0 k); [|done]. by destruct (Z.eqb_spec k k'); [lia|].
  - destruct (Z.eqb_spec k k') as [->|Hne]; simpl.
    + by destruct (Z.eqb_spec k0 k').
    + rewrite IH by done. destruct (Z.eqb_spec k0 k'); [|done].
      by destruct (Z.eqb_spec k0 k); [lia|].
Qed.

Lemma map_emplace_present k v m : sorted m -> is_Some (map_find k m) -> map_emplace k v m = m.
Proof.
  induction m as [|[k' v'] m IH]; intros Hs Hsome; simpl in *; [by destruct Hsome|].
  pose proof Hs as [Hs' Hlt]%sorted_cons_inv. destruct (Z.ltb_spec k k') as [Hk|Hk].
  - destruct (Z.eqb_spec k k'); [lia|]. rewrite (map_find_gt k m) in Hsome; [by destruct Hsome|].
    intros e He. specialize (Hlt e He). lia.
  - destruct (Z.eqb_spec k k'); [done|]. by rewrite IH.
Qed.

Lemma elem_erase e k m : e ∈ map_erase k m -> e ∈ m.
Proof.
  induction m as [|[k' v'] m IH]; simpl; [done|].
  case_match; rewrite !elem_of_cons; [tauto|]. intros [->|He]; [tauto|]. right. by apply IH.
Qed.

Lemma sorted_erase k m : sorted m -> sorted (map_erase k m).
Proof.
  induction m as [|[k' v'] m IH]; intros Hs; simpl; [done|].
  apply sorted_cons_inv in Hs as [Hs' Hlt]. case_match; [done|].
  apply sorted_cons; [by apply IH|]. intros e He%elem_erase. by apply Hlt.
Qed.

Lemma map_find_erase k k0 m :
  sorted m -> map_find k0 (map_erase k m) = if k0 =? k then None else map_find k0 m.
Proof.
  induction m as [|[k' v'] m IH]; intros Hs; simpl; [by case_match|].
  apply sorted_cons_inv in Hs as [Hs' Hlt].
  destruct (Z.eqb_spec k k') as [->|Hne]; simpl.
  - destruct (Z.eqb_spec k0 k') as [->|]; [by apply map_find_gt|done].
  - rewrite IH by done. destruct (Z.eqb_spec k0 k'); [|done].
    by destruct (Z.eqb_spec k0 k); [lia|].
Qed.

Lemma sorted_assign k v m : sorted m -> sorted (map_assign k v m).
Proof.
  assert (forall e m, e ∈ map_assign k v m -> e = (k, v) \/ e ∈ m) as Helem.
  { intros e m0. induction m0 as [|[k' v'] m0 IH]; simpl.
    - intros H%list_elem_of_singleton. by left.
    - repeat case_match; rewrite !elem_of_cons; tauto. }
  induction m as [|[k' v'] m IH]; intros Hs; simpl.
  - apply sorted_cons; [done|]. by inversion 1.
  - pose proof Hs as [Hs' Hlt]%sorted_cons_inv.
    destruct (Z.ltb_spec k k'); [|destruct (Z.eqb_spec k k') as [->|]].
    + apply sorted_cons; [done|]. intros e [->|He]%elem_of_cons; [done|].
      apply Hlt in He. lia.
    + by apply sorted_cons.
    + apply sorted_cons; [by apply IH|]. intros e [->|He]%Helem; [simpl; lia|by apply Hlt].
Qed.

Lemma map_find_assign k v k0 m :
  sorted m ->
  map_find k0 (map_assign k v m) = if k0 =? k then Some v else map_find k0 m.
Proof.
  induction m as [|[k' v'] m IH]; intros Hs; simpl; [done|].
  pose proof Hs as [Hs' Hlt]%sorted_cons_inv.
  destruct (Z.ltb_spec k k') as [Hk|Hk]; simpl; [done|].
  destruct (Z.eqb_spec k k') as [->|Hne]; simpl; [by destruct (Z.eqb_spec k0 k')|].
  rewrite IH by done. destruct (Z.eqb_spec k0 k'); [|done].
  by destruct (Z.eqb_spec k0 k); [lia|].
Qed.

(** The entry before [upper_bound k] is the last one with a key at most [k]. *)
Lemma upper_bound_split k m :
  sorted m ->
  (forall e, e ∈ take (upper_bound k m) m -> e.1 <= k) /\
  (forall e, e ∈ drop (upper_bound k m) m -> k < e.1).
Proof.
  induction m as [|[k' v'] m IH]; intros Hs; simpl; [by split; inversion 1|].
  apply sorted_cons_inv in Hs as [Hs' Hlt]. destruct (Z.ltb_spec k k') as [Hk|Hk]; simpl.
  - split; [by inversion 1|]. intros e [->|He]%elem_of_cons; [done|]. apply Hlt in He. lia.
  - destruct (IH Hs') as [H1 H2]. split; [|done]. intros e [->|He]%elem_of_cons; [done|by apply H1].
Qed.

Lemma lower_bound_split k m :
  sorted m ->
  (forall e, e ∈ take (lower_bound k m) m -> e.1 < k) /\
  (forall e, e ∈ drop (lower_bound k m) m -> k <= e.1).
Proof.
  induction m as [|[k' v'] m IH]; intros Hs; simpl; [by split; inversion 1|].
  apply sorted_cons_inv in Hs as [Hs' Hlt]. destruct (Z.leb_spec k k') as [Hk|Hk]; simpl.
  - split; [by inversion 1|]. intros e [->|He]%elem_of_cons; [done|]. apply Hlt in He. lia.
  - destruct (IH Hs') as [H1 H2]. split; [|done]. intros e [->|He]%elem_of_cons; [done|by apply H1].
Qed.
End OrderedMap.
