(* ===== verification/Debug.v ===== *)
(** Messages ([debug.h], [debug.cpp]): the macros write a prefix and a block of
    fixed size; without [DEBUG] they are empty. *)
From stdpp Require Import base numbers option list strings.
From Stdlib Require Import ZArith Lia Ascii.
From S2P Require Import Prelude.
From S2P Require Import Cxx.

Definition MAX_BUFFER_SIZE : nat := 256.

(** What has been written to the two standard streams. *)
Record streams := mk_streams { std_out : str; std_err : str }.
Definition write_err (s : str) (w : streams) : streams := mk_streams (std_out w) (std_err w ++ s).
Definition write_out (s : str) (w : streams) : streams := mk_streams (std_out w ++ s) (std_err w).

(** [memset] and [vsnprintf] of an already formatted text, and the whole buffer. *)
Definition print_buffer (text : str) : str :=
  let printed := take (MAX_BUFFER_SIZE - 1) (c_str text) in
  printed ++ replicate (MAX_BUFFER_SIZE - length printed) NUL.
Definition print_error_or_info (text : str) (w : streams) : streams := write_err (print_buffer text) w.

(** The macros; [sizeof] of a literal counts its terminator. *)
Definition ERROR (debug : bool) (text : str) (w : streams) : streams :=
  if debug then print_error_or_info text (write_err (lit "ERROR: " ++ [NUL]) w) else w.
Definition WARNING (debug : bool) (text : str) (w : streams) : streams :=
  if debug then print_error_or_info text (write_err (lit "WARNING: " ++ [NUL]) w) else w.
Definition INFO (debug : bool) (text : str) (w : streams) : streams :=
  if debug then print_error_or_info text (write_out (lit "INFO: " ++ [NUL]) w) else w.

Lemma c_str_app_nul s n : c_str (c_str s ++ replicate (S n) NUL) = c_str s.
Proof.
  induction s as [|c s IH]; [done|]. cbn [c_str]. destruct (decide (c = NUL)) as [->|Hc]; [done|].
  cbn [app c_str]. rewrite decide_False by done. f_equal. exact IH.
Qed.

Lemma c_str_take n s : c_str (take n (c_str s)) = take n (c_str s).
Proof.
  revert n. induction s as [|c s IH]; intros [|n]; try done. cbn [c_str].
  destruct (decide (c = NUL)) as [->|Hc]; [done|]. cbn [take c_str]. rewrite decide_False by done.
  by rewrite IH.
Qed.

(** A message is a block of 256 bytes that reads, up to its first NUL, as the first
    255 characters of the text; the prefix of [INFO] goes to the other stream. *)
Theorem print_buffer_block text :
  length (print_buffer text) = MAX_BUFFER_SIZE /\
  c_str (print_buffer text) = take (MAX_BUFFER_SIZE - 1) (c_str text).
Proof.
  assert (length (take (MAX_BUFFER_SIZE - 1) (c_str text)) <= MAX_BUFFER_SIZE - 1)%nat as Hl
    by (rewrite length_take; lia).
  pose proof (c_str_take (MAX_BUFFER_SIZE - 1) text) as Hp.
  unfold print_buffer. set (p := take _ _) in *. split.
  - rewrite length_app, length_replicate. unfold MAX_BUFFER_SIZE in *. lia.
  - assert (exists n, (MAX_BUFFER_SIZE - length p)%nat = S n) as [n ->].
    { exists (MAX_BUFFER_SIZE - length p - 1)%nat. unfold MAX_BUFFER_SIZE in *. lia. }
    rewrite <- Hp at 1. by rewrite c_str_app_nul.
Qed.

Example info_splits :
  INFO true (lit "x") (mk_streams [] []) =
  mk_streams (lit "INFO: " ++ [NUL]) (lit "x" ++ replicate 255 NUL).
Proof. reflexivity. Qed.
