(* ===== verification/SplaySpec.v ===== *)
(** The interval splay tree as a mathematical object.

    [tree] is the shape that a well-formed set of [interval_tree_node]s has in
    memory; every node keeps the address it lives at.  [splay] is the top-down
    splay of [SplayTree::interval_tree_splay] on that shape: the two pointers
    [ltree_max] and [rtree_min] of the code become two zippers.  The file shows
    that splaying keeps the in-order sequence and separates it around the
    address, and gives the abstract operations (on sorted lists of disjoint
    intervals) that the heap program of [Splay.v] is proved to implement. *)
From stdpp Require Import base numbers option list sorting sets.
From Stdlib Require Import Lia.
From S2P Require Import Prelude.

(** An interval with its payload: the fields [start], [end], [node_ctxt] of
    [struct splay_interval_s], and the address of the node. *)
Record ivl := mk_ivl {
  iv_loc : positive;
  iv_start : Z;
  iv_end : Z;
  iv_ctxt : Z
}.

Inductive tree :=
| Leaf
| Node (l : tree) (d : ivl) (r : tree).

Fixpoint inorder (t : tree) : list ivl :=
  match t with
  | Leaf => []
  | Node l d r => inorder l ++ d :: inorder r
  end.

Fixpoint tree_size (t : tree) : nat :=
  match t with
  | Leaf => 0
  | Node l _ r => S (tree_size l + tree_size r)
  end.

(** The left zipper lists the nodes hanging on [ltree_max], innermost first,
    each with its left subtree; the right zipper is symmetric. *)
Definition lzip := list (tree * ivl).
Definition rzip := list (ivl * tree).

Fixpoint lfill (L : lzip) (t : tree) : tree :=
  match L with
  | [] => t
  | (l, d) :: L => lfill L (Node l d t)
  end.

Fixpoint rfill (R : rzip) (t : tree) : tree :=
  match R with
  | [] => t
  | (d, r) :: R => rfill R (Node t d r)
  end.

Fixpoint linorder (L : lzip) : list ivl :=
  match L with
  | [] => []
  | (l, d) :: L => linorder L ++ inorder l ++ [d]
  end.

Fixpoint rinorder (R : rzip) : list ivl :=
  match R with
  | [] => []
  | (d, r) :: R => d :: inorder r ++ rinorder R
  end.

(** The final assembly of the code. *)
Definition assemble (l : tree) (d : ivl) (r : tree) (L : lzip) (R : rzip) : tree :=
  Node (lfill L l) d (rfill R r).

Fixpoint splay_go (addr : Z) (t : tree) (L : lzip) (R : rzip) : tree :=
  match t with
  | Leaf => Leaf
  | Node l d r =>
    if addr <? iv_start d then
      match l with
      | Leaf => assemble l d r L R
      | Node ll dl lr =>
        if addr <? iv_start dl then
          match ll with
          | Leaf => assemble ll dl (Node lr d r) L R
          | _ => splay_go addr ll L ((dl, Node lr d r) :: R)
          end
        else splay_go addr l L ((d, r) :: R)
      end
    else if iv_end d <=? addr then
      match r with
      | Leaf => assemble l d r L R
      | Node rl dr rr =>
        if iv_end dr <=? addr then
          match rr with
          | Leaf => assemble (Node l d rl) dr rr L R
          | _ => splay_go addr rr ((Node l d rl, dr) :: L) R
          end
        else splay_go addr r ((l, d) :: L) R
      end
    else assemble l d r L R
  end.

Definition splay (addr : Z) (t : tree) : tree := splay_go addr t [] [].

Lemma inorder_lfill L t : inorder (lfill L t) = linorder L ++ inorder t.
Proof.
  revert t; induction L as [|[l d] L IH]; intros t; simpl; [done|].
  rewrite IH; simpl. by rewrite <- !app_assoc.
Qed.

Lemma inorder_rfill R t : inorder (rfill R t) = inorder t ++ rinorder R.
Proof.
  revert t; induction R as [|[d r] R IH]; intros t; simpl; [by rewrite app_nil_r|].
  rewrite IH; simpl. by rewrite <- app_assoc.
Qed.

Lemma inorder_assemble l d r L R :
  inorder (assemble l d r L R) =
  linorder L ++ inorder l ++ d :: inorder r ++ rinorder R.
Proof.
  unfold assemble; simpl. rewrite inorder_lfill, inorder_rfill, <- app_assoc. done.
Qed.

(** Induction on trees in which the hypothesis covers every smaller tree, as
    the loop descends by one or two levels at a time. *)
Lemma tree_size_ind (P : tree -> Prop) :
  (forall t, (forall t', (tree_size t' < tree_size t)%nat -> P t') -> P t) ->
  forall t, P t.
Proof.
  intros H t. assert (forall n t', (tree_size t' < n)%nat -> P t') as Hn.
  { induction n as [|n IH]; intros t' Ht; [lia|].
    apply H. intros t'' Ht'. apply IH. lia. }
  apply (Hn (S (tree_size t))). lia.
Qed.

(** Case analysis on one iteration of the loop. *)
Ltac splay_cases :=
  repeat match goal with
  | |- context [if ?a <? ?b then _ else _] => destruct (Z.ltb_spec a b)
  | |- context [if ?a <=? ?b then _ else _] => destruct (Z.leb_spec a b)
  | |- context [match ?t with Leaf => _ | Node _ _ _ => _ end] =>
      is_var t; destruct t
  end.

Lemma splay_go_inorder addr t L R :
  t <> Leaf ->
  inorder (splay_go addr t L R) = linorder L ++ inorder t ++ rinorder R.
Proof.
  revert L R. induction t as [t IH] using tree_size_ind. intros L R Ht.
  destruct t as [|l d r]; [done|]. clear Ht. cbn [splay_go].
  splay_cases;
    first [ rewrite inorder_assemble | rewrite IH by (done || simpl; lia) ];
    app_norm; done.
Qed.

Lemma splay_inorder addr t : inorder (splay addr t) = inorder t.
Proof.
  destruct t as [|l d r]; [done|]. unfold splay.
  rewrite splay_go_inorder by done. simpl. by rewrite app_nil_r.
Qed.

(** * Sorted sequences of disjoint intervals *)

Definition before (a b : ivl) : Prop := iv_end a <= iv_start b.
Definition proper (a : ivl) : Prop := iv_start a < iv_end a.

Record ordered (l : list ivl) : Prop := mk_ordered {
  ordered_proper : Forall proper l;
  ordered_sorted : StronglySorted before l
}.

(** The interval contains the address; the interval meets [s, e). *)
Definition contains (addr : Z) (a : ivl) : bool :=
  (iv_start a <=? addr) && (addr <? iv_end a).
Definition overlaps (s e : Z) (a : ivl) : bool :=
  (iv_start a <? e) && (s <? iv_end a).

Lemma ordered_app l1 l2 :
  ordered (l1 ++ l2) <->
  ordered l1 /\ ordered l2 /\ (forall a b, a ∈ l1 -> b ∈ l2 -> before a b).
Proof.
  split.
  - intros [Hp Hs]. apply Forall_app in Hp as [Hp1 Hp2].
    apply StronglySorted_app in Hs as (Hb & Hs1 & Hs2).
    split_and!; [done..|]. eauto.
  - intros ([Hp1 Hs1] & [Hp2 Hs2] & Hb). split.
    + by apply Forall_app.
    + apply StronglySorted_app_2; eauto.
Qed.

Lemma ordered_cons d l :
  ordered (d :: l) <->
  proper d /\ ordered l /\ (forall b, b ∈ l -> before d b).
Proof.
  split.
  - intros [Hp Hs]. inversion Hp; subst. inversion Hs; subst.
    split_and!; [done..|]. by apply Forall_forall.
  - intros (Hd & [Hp Hs] & Hb). split; constructor; auto. by apply Forall_forall.
Qed.

Lemma ordered_nil : ordered [].
Proof. split; constructor. Qed.

(** What a splay at [addr] leaves on each side of the root. *)
Record splits (addr : Z) (l : list ivl) (r : list ivl) : Prop := mk_splits {
  splits_l : forall a, a ∈ l -> iv_end a <= addr;
  splits_r : forall a, a ∈ r -> addr < iv_start a
}.

Lemma splits_assemble addr l d r L R :
  splits addr (linorder L ++ inorder l) (inorder r ++ rinorder R) ->
  exists l' r', assemble l d r L R = Node l' d r' /\
    splits addr (inorder l') (inorder r').
Proof.
  intros H. unfold assemble. do 2 eexists. split; [done|].
  by rewrite inorder_lfill, inorder_rfill.
Qed.

Lemma ordered_mid X d Y :
  ordered (X ++ d :: Y) ->
  proper d /\ (forall a, a ∈ X -> iv_end a <= iv_start d) /\
  (forall b, b ∈ Y -> iv_end d <= iv_start b).
Proof.
  intros (_ & (Hd & _ & HY)%ordered_cons & HX)%ordered_app.
  split_and!; [done | | done].
  intros a Ha. apply HX; [done | constructor].
Qed.

Lemma ordered_prefix X S : ordered S -> X `prefix_of` S -> ordered X.
Proof. intros Ho [Y ->]. by apply ordered_app in Ho as [? _]. Qed.

Lemma ordered_suffix Y S : ordered S -> Y `suffix_of` S -> ordered Y.
Proof. intros Ho [X ->]. by apply ordered_app in Ho as [_ [? _]]. Qed.

(** Everything before (after) a node that starts or ends at or before (starts or
    ends after) the address is on its left (right). *)
Lemma left_of addr S X d :
  ordered S -> X ++ [d] `prefix_of` S ->
  iv_start d <= addr \/ iv_end d <= addr ->
  forall a, a ∈ X -> iv_end a <= addr.
Proof.
  intros Ho Hp Hd a Ha. eapply ordered_prefix in Hp; [|done].
  apply ordered_mid in Hp as (Hpr & H & _). specialize (H a Ha).
  unfold proper in Hpr. lia.
Qed.

Lemma right_of addr S d Y :
  ordered S -> d :: Y `suffix_of` S ->
  addr < iv_end d \/ addr < iv_start d ->
  forall b, b ∈ Y -> addr < iv_start b.
Proof.
  intros Ho Hp Hd b Hb. eapply ordered_suffix in Hp; [|done].
  apply ordered_cons in Hp as (Hpr & _ & H). specialize (H b Hb).
  unfold before, proper in *. lia.
Qed.

Lemma left_of_incl addr S P d :
  ordered S -> P `prefix_of` S -> last P = Some d -> iv_end d <= addr ->
  forall a, a ∈ P -> iv_end a <= addr.
Proof.
  intros Ho Hp [X ->]%last_Some Hd a [Ha|Ha%list_elem_of_singleton]%elem_of_app;
    [|by subst].
  eapply left_of; [done..|by right|done].
Qed.

Lemma right_of_incl addr S d Y :
  ordered S -> d :: Y `suffix_of` S -> addr < iv_start d ->
  forall b, b ∈ d :: Y -> addr < iv_start b.
Proof.
  intros Ho Hp Hd b [->|Hb]%elem_of_cons; [done|].
  eapply right_of; [done..|by right|done].
Qed.

(** The two sides of the root in the in-order sequence [S]: the side ends with
    (starts with) a node compared with the address, or stops before it. *)
Ltac prefix_solve := eexists; app_norm; reflexivity.
Ltac suffix_solve :=
  app_norm; solve [repeat first [reflexivity | apply suffix_app_r | apply suffix_cons_r]].
Ltac last_solve := rewrite ?last_app, ?last_cons, ?last_app; reflexivity.
Ltac side_solve Ho :=
  app_norm; rewrite ?app_nil_r; try assumption;
  match goal with
  | d : ivl |- forall a, a ∈ _ -> iv_end a <= _ =>
      first
      [ refine (left_of_incl _ _ _ d Ho _ _ _); [prefix_solve | last_solve | lia]
      | refine (left_of _ _ _ d Ho _ _); [prefix_solve | lia] ]
  | d : ivl |- forall a, a ∈ _ -> _ < iv_start a =>
      first
      [ refine (right_of_incl _ _ d _ Ho _ _); [suffix_solve | lia]
      | refine (right_of _ _ d _ Ho _ _); [suffix_solve | lia] ]
  end.

Lemma splits_sub addr l r l' r' :
  splits addr l r -> l' ⊆ l -> r' ⊆ r -> splits addr l' r'.
Proof. intros [Hl Hr] ??. split; auto. Qed.

Lemma splay_go_splits addr t L R :
  t <> Leaf ->
  ordered (linorder L ++ inorder t ++ rinorder R) ->
  splits addr (linorder L) (rinorder R) ->
  exists l d r, splay_go addr t L R = Node l d r /\
    splits addr (inorder l) (inorder r).
Proof.
  revert L R. induction t as [t IH] using tree_size_ind. intros L R Ht Ho HLR.
  destruct t as [|l d r]; [done|]. clear Ht.
  assert (forall t' L' R', (tree_size t' < tree_size (Node l d r))%nat ->
    t' <> Leaf ->
    linorder L' ++ inorder t' ++ rinorder R' =
    linorder L ++ inorder (Node l d r) ++ rinorder R ->
    splits addr (linorder L') (rinorder R') ->
    exists l d r, splay_go addr t' L' R' = Node l d r /\
      splits addr (inorder l) (inorder r)) as IH'.
  { intros t' L' R' Hs Ht HS HS'. apply IH; [done|done| |done]. by rewrite HS. }
  clear IH.
  assert (forall l' d' r' L' R',
    splits addr (linorder L' ++ inorder l') (inorder r' ++ rinorder R') ->
    exists l d r, assemble l' d' r' L' R' = Node l d r /\
      splits addr (inorder l) (inorder r)) as Hfin.
  { intros l' d' r' L' R' H. apply (splits_assemble _ _ d') in H as (l0 & r0 & ? & ?).
    eauto. }
  destruct HLR as [HL HR]. cbn [splay_go].
  splay_cases;
    first [ apply Hfin | apply IH'; [simpl; lia | done | by app_norm | ] ];
    clear Hfin IH'; simpl in Ho; rewrite <- ?app_assoc in Ho; simpl in Ho;
    rewrite <- ?app_assoc in Ho; simpl in Ho.
  all: split; side_solve Ho.
Qed.

Lemma splay_splits addr t :
  t <> Leaf -> ordered (inorder t) ->
  exists l d r, splay addr t = Node l d r /\
    splits addr (inorder l) (inorder r) /\
    inorder t = inorder l ++ d :: inorder r.
Proof.
  intros Ht Ho.
  destruct (splay_go_splits addr t [] []) as (l & d & r & Heq & Hs); [done| | |].
  { simpl. by rewrite app_nil_r. }
  { split; intros a Ha; by inversion Ha. }
  exists l, d, r. split_and!; [done|done|].
  rewrite <- (splay_inorder addr t). unfold splay. by rewrite Heq.
Qed.

Lemma splay_not_leaf addr t : splay addr t = Leaf -> t = Leaf.
Proof.
  intros H. destruct t as [|l d r]; [done|exfalso].
  apply (f_equal inorder) in H. rewrite splay_inorder in H. simpl in H.
  by destruct (inorder l).
Qed.

Lemma inorder_nil t : inorder t = [] -> t = Leaf.
Proof. destruct t as [|l d r]; [done|]. simpl. by destruct (inorder l). Qed.

Lemma tree_size_inorder t : tree_size t = length (inorder t).
Proof.
  induction t as [|l IHl d r IHr]; simpl; [done|].
  rewrite length_app, IHl, IHr. simpl. lia.
Qed.

(** * The operations on trees *)

Definition tree_lookup (addr : Z) (t : tree) : tree * option ivl :=
  match splay addr t with
  | Leaf => (Leaf, None)
  | Node l d r => (Node l d r, if contains addr d then Some d else None)
  end.

Definition tree_insert (d : ivl) (t : tree) : tree * Z :=
  if iv_end d <=? iv_start d then (t, 1)
  else
    match splay (iv_start d) t with
    | Leaf => (Node Leaf d Leaf, 0)
    | Node l d0 r =>
      if iv_end d <=? iv_start d0 then (Node l d (Node Leaf d0 r), 0)
      else
        let t2 := splay (iv_start d0) r in
        if (iv_end d0 <=? iv_start d)
           && match t2 with Leaf => true | Node _ d2 _ => iv_end d <=? iv_start d2 end
        then (Node (Node l d0 Leaf) d t2, 0)
        else (Node l d0 t2, 1)
    end.

(** [tree_delete s e t] is the new tree and the tree of deleted intervals. *)
Definition tree_split (s : Z) (t : tree) : tree * tree :=
  match splay s t with
  | Leaf => (Leaf, Leaf)
  | Node l d r => if iv_end d <=? s then (Node l d Leaf, r) else (l, Node Leaf d r)
  end.

Definition tree_cut (e : Z) (t : tree) : tree * tree :=
  match splay e t with
  | Leaf => (Leaf, Leaf)
  | Node l d r => if e <=? iv_start d then (l, Node Leaf d r) else (Node l d Leaf, r)
  end.

Definition tree_delete (s e : Z) (t : tree) : tree * tree :=
  let '(ltree, t1) := tree_split s t in
  let '(del, rtree) := tree_cut e t1 in
  match ltree, rtree with
  | Leaf, _ => (rtree, del)
  | _, Leaf => (ltree, del)
  | _, _ =>
    match splay e ltree with
    | Leaf => (Leaf, del)
    | Node l d _ => (Node l d rtree, del)
    end
  end.

(** * The abstract specification: an ordered list of disjoint intervals *)

Definition set_lookup (addr : Z) (S : list ivl) : option ivl := find (contains addr) S.

Definition set_overlaps (s e : Z) (S : list ivl) : bool := existsb (overlaps s e) S.

Definition set_insert (d : ivl) (S : list ivl) : list ivl :=
  filter (fun a => iv_end a <= iv_start d) S ++
  d :: filter (fun a => ~ iv_end a <= iv_start d) S.

Definition set_removed (s e : Z) (S : list ivl) : list ivl :=
  filter (fun a => overlaps s e a = true) S.

Definition set_kept (s e : Z) (S : list ivl) : list ivl :=
  filter (fun a => overlaps s e a <> true) S.

Lemma contains_spec addr d : contains addr d = true <-> iv_start d <= addr < iv_end d.
Proof. unfold contains. rewrite andb_true_iff, Z.leb_le, Z.ltb_lt. lia. Qed.

Lemma overlaps_spec s e d : overlaps s e d = true <-> iv_start d < e /\ s < iv_end d.
Proof. unfold overlaps. by rewrite andb_true_iff, !Z.ltb_lt. Qed.

Lemma find_none_all {A} (f : A -> bool) l :
  (forall x, x ∈ l -> f x = false) -> find f l = None.
Proof.
  induction l as [|a l IH]; intros H; simpl; [done|].
  rewrite H by constructor. apply IH. intros x Hx. apply H. by constructor.
Qed.

Lemma find_app {A} (f : A -> bool) l1 l2 :
  find f (l1 ++ l2) = match find f l1 with Some x => Some x | None => find f l2 end.
Proof. induction l1 as [|a l1 IH]; simpl; [done|]. by destruct (f a). Qed.

Lemma not_contains addr d :
  iv_end d <= addr \/ addr < iv_start d -> contains addr d = false.
Proof. intros H. apply not_true_iff_false. rewrite contains_spec. lia. Qed.

Lemma tree_lookup_spec addr t :
  ordered (inorder t) ->
  inorder (fst (tree_lookup addr t)) = inorder t /\
  snd (tree_lookup addr t) = set_lookup addr (inorder t).
Proof.
  intros Ho. unfold tree_lookup, set_lookup. destruct t as [|l0 d0 r0] eqn:Ht; [done|].
  rewrite <- Ht in *.
  destruct (splay_splits addr t) as (l & d & r & Hsp & [Hl Hr] & Hin); [congruence|done|].
  rewrite Hsp, Hin. split; [done|]. simpl.
  rewrite find_app, find_none_all by (intros; apply not_contains; auto). simpl.
  destruct (contains addr d); [done|].
  symmetry. apply find_none_all. intros; apply not_contains; auto.
Qed.

(** The left part of the split ends at or before [s]; the rest ends after it. *)
Lemma tree_split_spec s t l r :
  ordered (inorder t) -> tree_split s t = (l, r) ->
  inorder t = inorder l ++ inorder r /\
  (forall a, a ∈ inorder l -> iv_end a <= s) /\
  (forall a, a ∈ inorder r -> s < iv_end a).
Proof.
  intros Ho. unfold tree_split. destruct t as [|l0 d0 r0] eqn:Ht.
  { intros [= <- <-]; simpl. split_and!; [done| |]; intros ? Ha; by inversion Ha. }
  rewrite <- Ht in *.
  destruct (splay_splits s t) as (l' & d & r' & Hsp & [Hl Hr] & Hin); [congruence|done|].
  rewrite Hsp, Hin.
  assert (forall a, a ∈ inorder r' -> s < iv_end a) as Hr'.
  { intros a Ha. specialize (Hr a Ha). destruct Ho as [Hp _].
    rewrite Hin, Forall_forall in Hp. enough (proper a) by (unfold proper in *; lia).
    apply Hp. apply elem_of_app. right. by constructor. }
  destruct (Z.leb_spec (iv_end d) s); intros [= <- <-]; simpl.
  - split_and!; [by rewrite <- app_assoc| |done].
    intros a [Ha| ->%list_elem_of_singleton]%elem_of_app; auto.
  - split_and!; [done|done|]. intros a [->|Ha]%elem_of_cons; auto.
Qed.

Lemma ordered_proper_in l a : ordered l -> a ∈ l -> iv_start a < iv_end a.
Proof. intros [Hp _] Ha. rewrite Forall_forall in Hp. by apply Hp. Qed.

(** The deleted part starts before [e]; the rest starts at or after it. *)
Lemma tree_cut_spec e t l r :
  ordered (inorder t) -> tree_cut e t = (l, r) ->
  inorder t = inorder l ++ inorder r /\
  (forall a, a ∈ inorder l -> iv_start a < e) /\
  (forall a, a ∈ inorder r -> e <= iv_start a).
Proof.
  intros Ho. unfold tree_cut. destruct t as [|l0 d0 r0] eqn:Ht.
  { intros [= <- <-]; simpl. split_and!; [done| |]; intros ? Ha; by inversion Ha. }
  rewrite <- Ht in *.
  destruct (splay_splits e t) as (l' & d & r' & -> & [Hl Hr] & Hin); [congruence|done|].
  assert (forall a, a ∈ inorder l' -> iv_start a < e) as Hl'.
  { intros a Ha. specialize (Hl a Ha).
    pose proof (ordered_proper_in _ a Ho) as H. rewrite Hin in H.
    specialize (H ltac:(set_solver)). lia. }
  assert (forall a, a ∈ inorder r' -> e <= iv_start a) as Hr'.
  { intros a Ha. specialize (Hr a Ha). lia. }
  rewrite Hin.
  destruct (Z.leb_spec e (iv_start d)); intros [= <- <-]; simpl.
  - split_and!; [done|done|]. intros a [->|Ha]%elem_of_cons; auto.
  - split_and!; [by rewrite <- app_assoc| |done].
    intros a [Ha| ->%list_elem_of_singleton]%elem_of_app; auto.
Qed.

(** Splaying at an address past every interval brings the last one to the root. *)
Lemma splay_max e t :
  t <> Leaf -> ordered (inorder t) -> (forall a, a ∈ inorder t -> iv_end a <= e) ->
  exists l d, splay e t = Node l d Leaf /\ inorder t = inorder l ++ [d].
Proof.
  intros Ht Ho He.
  destruct (splay_splits e t) as (l & d & r & Hsp & [_ Hr] & Hin); [done|done|].
  assert (r = Leaf) as ->; [|eauto].
  apply inorder_nil. destruct (inorder r) as [|a r'] eqn:Hr'; [done|exfalso].
  assert (a ∈ inorder t) as Ha by (rewrite Hin; set_solver).
  specialize (He a Ha). specialize (Hr a ltac:(constructor)).
  apply (ordered_proper_in _ a Ho) in Ha. lia.
Qed.

Lemma tree_delete_spec s e t root del :
  ordered (inorder t) -> s <= e -> tree_delete s e t = (root, del) ->
  inorder root = set_kept s e (inorder t) /\
  inorder del = set_removed s e (inorder t).
Proof.
  intros Ho Hse. unfold tree_delete.
  destruct (tree_split s t) as [lt t1] eqn:Hsplit.
  apply tree_split_spec in Hsplit as (Hin & Hlt & Ht1); [|done].
  rewrite Hin in Ho. apply ordered_app in Ho as (Hol & Ho1 & _).
  destruct (tree_cut e t1) as [d rt] eqn:Hcut.
  apply tree_cut_spec in Hcut as (Hin1 & Hd & Hrt); [|done].
  assert (set_removed s e (inorder t) = inorder d /\
          set_kept s e (inorder t) = inorder lt ++ inorder rt) as [-> ->].
  { unfold set_removed, set_kept. rewrite Hin, Hin1.
    rewrite filter_mid, filter_sides; [done|..]; intros a Ha; rewrite overlaps_spec;
      try (specialize (Hlt a Ha)); try (specialize (Hrt a Ha));
      try (specialize (Hd a Ha)); try lia.
    all: assert (s < iv_end a) by (apply Ht1; rewrite Hin1; set_solver); lia. }
  destruct lt as [|ll ld lr] eqn:Hltq; [by intros [= <- <-]|].
  destruct rt as [|rl rd rr] eqn:Hrtq; [intros [= <- <-]; by rewrite app_nil_r|].
  rewrite <- Hltq, <- Hrtq in *.
  destruct (splay_max e lt) as (l' & m & -> & Hin'); [congruence|done| |].
  { intros a Ha. specialize (Hlt a Ha). lia. }
  intros [= <- <-]. split; [|done]. rewrite Hin'. simpl. by rewrite <- app_assoc.
Qed.

Lemma set_overlaps_false s e S :
  set_overlaps s e S = false <-> forall a, a ∈ S -> iv_end a <= s \/ e <= iv_start a.
Proof.
  unfold set_overlaps. rewrite <- not_true_iff_false, existsb_exists. split.
  - intros H a Ha. destruct (overlaps s e a) eqn:Hov.
    + exfalso. apply H. exists a. by rewrite <- list_elem_of_In.
    + apply not_true_iff_false in Hov. rewrite overlaps_spec in Hov. lia.
  - intros H (a & Ha & Hov). rewrite <- list_elem_of_In in Ha.
    apply overlaps_spec in Hov. specialize (H a Ha). lia.
Qed.

Lemma set_overlaps_true s e S a :
  a ∈ S -> iv_start a < e -> s < iv_end a -> set_overlaps s e S = true.
Proof.
  intros. destruct (set_overlaps s e S) eqn:H2; [done|].
  rewrite set_overlaps_false in H2. specialize (H2 a ltac:(done)). lia.
Qed.

(** Insertion between a prefix that ends before the new interval and a suffix
    that starts after it. *)
Lemma set_insert_mid d l r :
  proper d -> (forall a, a ∈ l -> iv_end a <= iv_start d) ->
  (forall a, a ∈ r -> iv_end d <= iv_start a) -> ordered (l ++ r) ->
  set_insert d (l ++ r) = l ++ d :: r /\
  set_overlaps (iv_start d) (iv_end d) (l ++ r) = false /\
  ordered (l ++ d :: r).
Proof.
  intros Hd Hl Hr Ho. unfold proper in Hd. split_and!.
  - unfold set_insert.
    assert (forall a, a ∈ r -> ~ iv_end a <= iv_start d) as Hr'.
    { intros a Ha. specialize (Hr a Ha). apply (ordered_proper_in _ a) in Ho;
        [lia | set_solver]. }
    rewrite !filter_app, (filter_all _ l), (filter_none _ r), (filter_none _ l),
      (filter_all _ r), app_nil_r; auto.
  - apply set_overlaps_false. intros a [Ha|Ha]%elem_of_app; auto.
  - apply ordered_app in Ho as (Hol & Hor & Hb). apply ordered_app.
    split_and!; [done| |].
    + apply ordered_cons. split_and!; auto.
    + intros a b Ha [->|Hb']%elem_of_cons; unfold before; [by apply Hl | by apply Hb].
Qed.

(** Splaying at an address before every interval brings the first one to the root. *)
Lemma splay_min a t :
  ordered (inorder t) -> (forall b, b ∈ inorder t -> a < iv_start b) ->
  match splay a t with
  | Leaf => inorder t = []
  | Node l d r => l = Leaf /\ inorder t = d :: inorder r
  end.
Proof.
  intros Ho Ha. destruct t as [|l0 d0 r0] eqn:Ht; [done|]. rewrite <- Ht in *.
  destruct (splay_splits a t) as (l & d & r & -> & [Hl _] & Hin); [congruence|done|].
  assert (l = Leaf) as ->; [|done].
  apply inorder_nil. destruct (inorder l) as [|b l'] eqn:Hl'; [done|exfalso].
  assert (b ∈ inorder t) as Hb by (rewrite Hin; set_solver).
  specialize (Ha b Hb). specialize (Hl b ltac:(constructor)).
  apply (ordered_proper_in _ b Ho) in Hb. lia.
Qed.

(** What an insertion must give on the tree [t] and the outcome it reports. *)
Definition insert_contract (d : ivl) (S : list ivl) (t' : tree) (code : Z) : Prop :=
  if bool_decide (proper d) && negb (set_overlaps (iv_start d) (iv_end d) S)
  then code = 0 /\ inorder t' = set_insert d S /\ ordered (inorder t')
  else code = 1 /\ inorder t' = S.

Lemma insert_contract_ok d l r t' :
  proper d -> (forall a, a ∈ l -> iv_end a <= iv_start d) ->
  (forall a, a ∈ r -> iv_end d <= iv_start a) -> ordered (l ++ r) ->
  inorder t' = l ++ d :: r -> insert_contract d (l ++ r) t' 0.
Proof.
  intros Hd Hl Hr Ho Ht'. unfold insert_contract.
  destruct (set_insert_mid d l r) as (-> & -> & Ho'); [done..|].
  rewrite bool_decide_eq_true_2 by done. simpl. by rewrite Ht'.
Qed.

Lemma insert_contract_overlap d S t' a :
  a ∈ S -> iv_start a < iv_end d -> iv_start d < iv_end a ->
  inorder t' = S -> insert_contract d S t' 1.
Proof.
  intros Ha ?? Ht'. unfold insert_contract. rewrite (set_overlaps_true _ _ _ a) by done.
  by rewrite andb_false_r.
Qed.

(** The contract of an insertion: a zero-length or overlapping interval is
    refused with code 1, any other is placed in order and the code is 0. *)
Lemma tree_insert_spec d t :
  ordered (inorder t) ->
  insert_contract d (inorder t) (fst (tree_insert d t)) (snd (tree_insert d t)).
Proof.
  intros Ho. unfold tree_insert.
  destruct (Z.leb_spec (iv_end d) (iv_start d)) as [Hd|Hd].
  { unfold insert_contract. by rewrite bool_decide_eq_false_2 by (unfold proper; lia). }
  destruct t as [|l0 d0' r0] eqn:Ht.
  { apply (insert_contract_ok d [] []); [done|set_solver..|done|done]. }
  rewrite <- Ht in *.
  destruct (splay_splits (iv_start d) t) as (l & d0 & r & -> & [Hl Hr] & Hin);
    [congruence|done|].
  rewrite Hin in *. pose proof (ordered_mid _ _ _ Ho) as (Hd0 & Hl0 & Hr0).
  unfold proper in Hd0.
  destruct (Z.leb_spec (iv_end d) (iv_start d0)) as [He|He].
  { apply insert_contract_ok; [done|done| |done|done].
    intros a [->|Ha]%elem_of_cons; [done|]. specialize (Hr0 a Ha). lia. }
  pose proof (splay_inorder (iv_start d0) r) as Hr2.
  assert (match splay (iv_start d0) r with
    | Leaf => inorder r = []
    | Node l d r' => l = Leaf /\ inorder r = d :: inorder r' end) as Hmin.
  { apply splay_min.
    - by apply ordered_app in Ho as (_ & (_ & ? & _)%ordered_cons & _).
    - intros b Hb. specialize (Hr0 b Hb). lia. }
  destruct (Z.leb_spec (iv_end d0) (iv_start d)) as [Hs|Hs]; simpl.
  2: { apply insert_contract_overlap with d0; [set_solver|lia..|]. simpl. by rewrite Hr2. }
  destruct (splay (iv_start d0) r) as [|l2 d2 r2] eqn:Hsp; simpl.
  - rewrite Hmin in *. rewrite <- (app_nil_r (inorder l ++ [d0])).
    apply insert_contract_ok; [done| |set_solver|by rewrite app_nil_r|simpl; by app_norm].
    intros a [Ha| ->%list_elem_of_singleton]%elem_of_app; [|lia].
    specialize (Hl0 a Ha). lia.
  - destruct Hmin as [-> Hmin].
    destruct (Z.leb_spec (iv_end d) (iv_start d2)) as [He2|He2]; simpl.
    + replace (inorder l ++ d0 :: inorder r) with ((inorder l ++ [d0]) ++ inorder r) in *
        by by app_norm.
      apply insert_contract_ok; [done| | |done|simpl; rewrite Hmin; by app_norm].
      * intros a [Ha| ->%list_elem_of_singleton]%elem_of_app; [|lia].
        specialize (Hl0 a Ha). lia.
      * rewrite Hmin in *. apply ordered_app in Ho as (_ & (Hd2 & _ & Hb)%ordered_cons & _).
        unfold proper, before in *.
        intros a [->|Ha]%elem_of_cons; [done|]. specialize (Hb a Ha). lia.
    + assert (d2 ∈ inorder r) as Hd2 by (rewrite Hmin; constructor).
      specialize (Hr d2 Hd2).
      apply insert_contract_overlap with d2; [set_solver|lia| |].
      * apply (ordered_proper_in _ d2) in Ho; [lia|set_solver].
      * simpl. by rewrite Hmin.
Qed.
