(* ===== verification/Splay.v ===== *)
(** The interval splay tree as the program runs it ([splay.h], [splay.cpp]).

    Nodes live in a heap and the operations follow and overwrite the [next] and
    [prev] pointers exactly as the code does, the local [dummy] node included.
    Every function is a [prog heap]; a null or dangling dereference is
    [UndefinedBehaviour].  The second half relates heaps to the trees of
    [SplaySpec.v] and proves that each operation implements its contract. *)
From stdpp Require Import base numbers option list gmap.
From Stdlib Require Import Lia.
From S2P Require Import Prelude.
From S2P Require Import SplaySpec.

Abbreviation ptr := (option positive).

(** [struct splay_interval_s] *)
Record interval_tree_node := mk_node {
  next : ptr;
  prev : ptr;
  start : Z;
  end_ : Z;
  node_ctxt : Z
}.

Abbreviation heap := (gmap positive interval_tree_node).
Abbreviation M := (prog (gmap positive interval_tree_node)).

(** [p->field]: reading through a null or dangling pointer is undefined. *)
Definition deref (p : ptr) : M interval_tree_node := fun h =>
  match p with
  | Some l => match h !! l with
              | Some n => Val (n, h)
              | None => Fault UndefinedBehaviour
              end
  | None => Fault UndefinedBehaviour
  end.

Definition update (f : interval_tree_node -> interval_tree_node) (p : ptr) : M unit := fun h =>
  match p with
  | Some l => match h !! l with
              | Some n => Val (tt, <[l := f n]> h)
              | None => Fault UndefinedBehaviour
              end
  | None => Fault UndefinedBehaviour
  end.

Definition with_next (v : ptr) (n : interval_tree_node) : interval_tree_node :=
  mk_node v (prev n) (start n) (end_ n) (node_ctxt n).
Definition with_prev (v : ptr) (n : interval_tree_node) : interval_tree_node :=
  mk_node (next n) v (start n) (end_ n) (node_ctxt n).

(** The accessor macros of [splay.h]. *)
Definition START (p : ptr) : M Z := n ← deref p; mret (start n).
Definition END (p : ptr) : M Z := n ← deref p; mret (end_ n).
Definition RIGHT (p : ptr) : M ptr := n ← deref p; mret (next n).
Definition LEFT (p : ptr) : M ptr := n ← deref p; mret (prev n).
Definition set_RIGHT (p : ptr) (v : ptr) : M unit := update (with_next v) p.
Definition set_LEFT (p : ptr) (v : ptr) : M unit := update (with_prev v) p.

(** The [for (;;)] loop of [interval_tree_splay]; the result is the values of
    [root], [ltree_max] and [rtree_min] when the loop breaks. *)
Fixpoint splay_loop (fuel : nat) (addr : Z) (root ltree_max rtree_min : ptr)
  : M (ptr * ptr * ptr) :=
  match fuel with
  | O => prog_fault OutOfFuel
  | S fuel =>
    s ← START root;
    if addr <? s then
      y ← LEFT root;
      match y with
      | None => mret (root, ltree_max, rtree_min)
      | Some _ =>
        sy ← START y;
        if addr <? sy then
          (* rotate right *)
          ry ← RIGHT y;
          set_LEFT root ry;;
          set_RIGHT y root;;
          let root := y in
          y ← LEFT root;
          match y with
          | None => mret (root, ltree_max, rtree_min)
          | Some _ =>
            set_LEFT rtree_min root;;
            splay_loop fuel addr y ltree_max root
          end
        else
          (* link new root into right tree *)
          set_LEFT rtree_min root;;
          splay_loop fuel addr y ltree_max root
      end
    else
      e ← END root;
      if e <=? addr then
        y ← RIGHT root;
        match y with
        | None => mret (root, ltree_max, rtree_min)
        | Some _ =>
          ey ← END y;
          if ey <=? addr then
            (* rotate left *)
            ly ← LEFT y;
            set_RIGHT root ly;;
            set_LEFT y root;;
            let root := y in
            y ← RIGHT root;
            match y with
            | None => mret (root, ltree_max, rtree_min)
            | Some _ =>
              set_RIGHT ltree_max root;;
              splay_loop fuel addr y root rtree_min
            end
          else
            (* link new root into left tree *)
            set_RIGHT ltree_max root;;
            splay_loop fuel addr y root rtree_min
        end
      else mret (root, ltree_max, rtree_min)
  end.

(** A local variable of type [interval_tree_node]: allocated on entry with
    whatever the stack holds ([junk]), gone on return. *)
Definition with_local {A} (junk : interval_tree_node) (body : ptr -> M A) : M A := fun h =>
  let l := fresh (dom h) in
  match body (Some l) (<[l := junk]> h) with
  | Val (a, h') => Val (a, delete l h')
  | Fault f => Fault f
  end.

(** [Assemble the new root]: the four writes after the loop. *)
Definition assemble_root (root ltree_max rtree_min dummy : ptr) : M ptr :=
  l ← LEFT root; set_RIGHT ltree_max l;;
  r ← RIGHT root; set_LEFT rtree_min r;;
  dr ← RIGHT dummy; set_LEFT root dr;;
  dl ← LEFT dummy; set_RIGHT root dl;;
  mret root.

Section Operations.
(** The bound on loop iterations and the indeterminate contents of [dummy]. *)
Context (fuel : nat) (junk : interval_tree_node).

Definition interval_tree_splay (root : ptr) (addr : Z) : M ptr :=
  match root with
  | None => mret None
  | Some _ =>
    with_local junk (fun dummy =>
      '(root, ltree_max, rtree_min) ← splay_loop fuel addr root dummy dummy;
      assemble_root root ltree_max rtree_min dummy)
  end.

(** Returns the new [*root], the node found and, when there is one, the value
    written to [*startaddress]. *)
Definition interval_tree_lookup (root : ptr) (addr : Z) : M (ptr * ptr * option Z) :=
  root ← interval_tree_splay root addr;
  match root with
  | None => mret (root, None, None)
  | Some _ =>
    s ← START root; e ← END root;
    if (s <=? addr) && (addr <? e) then mret (root, root, Some s)
    else mret (root, None, None)
  end.

(** Returns the new [*root] and the return code. *)
Definition interval_tree_insert (root : ptr) (node : ptr) : M (ptr * Z) :=
  ns ← START node; ne ← END node;
  (* Reversed order or zero-length. *)
  if ne <=? ns then mret (root, 1)
  else
    match root with
    | None =>
      (* Empty tree. *)
      set_LEFT node None;; set_RIGHT node None;; mret (node, 0)
    | Some _ =>
      (* Insert left of root. *)
      root ← interval_tree_splay root ns;
      rs ← START root;
      if ne <=? rs then
        l ← LEFT root; set_LEFT node l;;
        set_RIGHT node root;;
        set_LEFT root None;;
        mret (node, 0)
      else
        (* Insert right of root. *)
        r ← RIGHT root; rs ← START root;
        t ← interval_tree_splay r rs;
        re ← END root;
        fits ← (if re <=? ns then
                  match t with
                  | None => mret true
                  | Some _ => ts ← START t; mret (ne <=? ts)
                  end
                else mret false : M bool);
        if fits : bool then
          set_LEFT node root;;
          set_RIGHT node t;;
          set_RIGHT root None;;
          mret (node, 0)
        else
          (* Must overlap with something in the tree. *)
          set_RIGHT root t;;
          mret (root, 1)
    end.

(** Returns the new [*root] and [*del_tree]. *)
Definition interval_tree_delete (root : ptr) (node : ptr) : M (ptr * ptr) :=
  match root with
  | None => mret (root, None)
  | Some _ =>
    ns ← START node;
    '(ltree, t) ←
      (t ← interval_tree_splay root ns;
       te ← END t; ns ← START node;
       (if te <=? ns then
          let ltree := t in
          t ← RIGHT t; set_RIGHT ltree None;; mret (ltree, t)
        else
          ltree ← LEFT t; set_LEFT t None;; mret (ltree, t)) : M (ptr * ptr));
    ne ← END node;
    '(del_tree, rtree) ←
      (t ← interval_tree_splay t ne;
       match t with
       | None => mret (None, None)
       | Some _ =>
         ne ← END node; ts ← START t;
         if ne <=? ts then
           del_tree ← LEFT t; set_LEFT t None;; mret (del_tree, t)
         else
           rtree ← RIGHT t; set_RIGHT t None;; mret (t, rtree)
       end : M (ptr * ptr));
    (* Combine the left and right pieces to make the new tree. *)
    match ltree with
    | None => mret (rtree, del_tree)
    | Some _ =>
      match rtree with
      | None => mret (ltree, del_tree)
      | Some _ =>
        ne ← END node;
        root ← interval_tree_splay ltree ne;
        set_RIGHT root rtree;;
        mret (root, del_tree)
      end
    end
  end.

(** [malloc] either fails, and [START(node) = start] then writes through null,
    or returns a fresh block with indeterminate contents. *)
Definition node_make (malloc_ok : bool) (start end_ ctxt : Z) : M ptr := fun h =>
  if malloc_ok then
    let l := fresh (dom h) in
    Val (Some l, <[l := mk_node None None start end_ ctxt]> h)
  else Fault UndefinedBehaviour.
End Operations.

(** * Heaps that hold a tree *)

(** The memory of the node [d] with children [nx] and [pv]. *)
Definition cell (nx pv : ptr) (d : ivl) : interval_tree_node :=
  mk_node nx pv (iv_start d) (iv_end d) (iv_ctxt d).

Fixpoint rep (h : heap) (p : ptr) (t : tree) : Prop :=
  match t with
  | Leaf => p = None
  | Node l d r =>
    p = Some (iv_loc d) /\
    exists pl pr, h !! iv_loc d = Some (cell pr pl d) /\ rep h pl l /\ rep h pr r
  end.

Definition locs (l : list ivl) : list positive := iv_loc <$> l.

(** A tree in memory: its nodes sit at distinct addresses. *)
Definition rep_tree (h : heap) (p : ptr) (t : tree) : Prop :=
  rep h p t /\ NoDup (locs (inorder t)).

(** The two trees under construction: [hole] is the node whose [next] ([prev])
    field is the next one to be linked, [dm] the local dummy. *)
Fixpoint lctx (h : heap) (dm hole : positive) (L : lzip) : Prop :=
  match L with
  | [] => hole = dm
  | (l, d) :: L =>
    hole = iv_loc d /\
    (exists pl x, h !! iv_loc d = Some (cell x pl d) /\ rep h pl l) /\
    (exists up n, lctx h dm up L /\ h !! up = Some n /\ next n = Some (iv_loc d))
  end.

Fixpoint rctx (h : heap) (dm hole : positive) (R : rzip) : Prop :=
  match R with
  | [] => hole = dm
  | (d, r) :: R =>
    hole = iv_loc d /\
    (exists pr x, h !! iv_loc d = Some (cell pr x d) /\ rep h pr r) /\
    (exists up n, rctx h dm up R /\ h !! up = Some n /\ prev n = Some (iv_loc d))
  end.

Section Frames.
Implicit Types h : heap.

Lemma rep_insert h p t x n :
  rep h p t -> x ∉ locs (inorder t) -> rep (<[x := n]> h) p t.
Proof.
  revert p. induction t as [|l IHl d r IHr]; intros p; simpl; [done|].
  intros (-> & pl & pr & Hd & Hl & Hr) Hx. split; [done|]. exists pl, pr.
  unfold locs in Hx. rewrite fmap_app, fmap_cons in Hx.
  rewrite lookup_insert_ne by set_solver.
  split_and!; [done|apply IHl; set_solver|apply IHr; set_solver].
Qed.

Lemma rep_insert2 h p t x y n m :
  rep h p t -> x ∉ locs (inorder t) -> y ∉ locs (inorder t) ->
  rep (<[x := n]> (<[y := m]> h)) p t.
Proof. intros. by do 2 (apply rep_insert; [|done]). Qed.

Lemma rep_agree h h' p t :
  rep h p t -> (forall x, x ∈ locs (inorder t) -> h' !! x = h !! x) -> rep h' p t.
Proof.
  revert p. induction t as [|l IHl d r IHr]; intros p; simpl; [done|].
  intros (-> & pl & pr & Hd & Hl & Hr) Hx. split; [done|]. exists pl, pr.
  unfold locs in Hx. rewrite fmap_app, fmap_cons in Hx.
  rewrite Hx by set_solver.
  split_and!; [done|apply IHl; set_solver|apply IHr; set_solver].
Qed.

Lemma lctx_insert h dm hole L x n :
  lctx h dm hole L -> x ∉ dm :: locs (linorder L) ->
  lctx (<[x := n]> h) dm hole L /\ x <> hole.
Proof.
  revert hole. induction L as [|[l d] L IH]; intros hole; simpl; [set_solver|].
  intros (-> & (pl & y & Hd & Hl) & (up & n' & Hup & Hn' & Hnext)) Hx.
  unfold locs in *. rewrite !fmap_app in Hx. simpl in Hx.
  assert (x <> iv_loc d) by set_solver.
  destruct (IH up Hup) as [Hup' Hne]; [set_solver|].
  split; [|done]. split; [done|]. split.
  - exists pl, y. rewrite lookup_insert_ne by done. split; [done|].
    apply rep_insert; [done|]. unfold locs. set_solver.
  - exists up, n'. rewrite lookup_insert_ne by done. done.
Qed.

Lemma rctx_insert h dm hole R x n :
  rctx h dm hole R -> x ∉ dm :: locs (rinorder R) ->
  rctx (<[x := n]> h) dm hole R /\ x <> hole.
Proof.
  revert hole. induction R as [|[d r] R IH]; intros hole; simpl; [set_solver|].
  intros (-> & (pr & y & Hd & Hr) & (up & n' & Hup & Hn' & Hprev)) Hx.
  unfold locs in *. rewrite !fmap_app in Hx.
  assert (x <> iv_loc d) by set_solver.
  destruct (IH up Hup) as [Hup' Hne]; [set_solver|].
  split; [|done]. split; [done|]. split.
  - exists pr, y. rewrite lookup_insert_ne by done. split; [done|].
    apply rep_insert; [done|]. unfold locs. set_solver.
  - exists up, n'. rewrite lookup_insert_ne by done. done.
Qed.
End Frames.

(** * The loop invariant *)

Lemma locs_app l1 l2 : locs (l1 ++ l2) = locs l1 ++ locs l2.
Proof. apply fmap_app. Qed.

Lemma lctx_hole_in h dm hole L :
  lctx h dm hole L -> hole = dm \/ hole ∈ locs (linorder L).
Proof.
  destruct L as [|[l d] L]; simpl; [by left|]. intros (-> & _). right.
  unfold locs. set_solver.
Qed.

Lemma rctx_hole_in h dm hole R :
  rctx h dm hole R -> hole = dm \/ hole ∈ locs (rinorder R).
Proof.
  destruct R as [|[d r] R]; simpl; [by left|]. intros (-> & _). right.
  unfold locs. set_solver.
Qed.

(** Only the outgoing link of the dummy matters to each side. *)
Lemma lctx_dummy h dm hole L n n' :
  lctx h dm hole L -> dm ∉ locs (linorder L) -> h !! dm = Some n ->
  next n' = next n -> lctx (<[dm := n']> h) dm hole L.
Proof.
  revert hole. induction L as [|[l d] L IH]; intros hole; simpl; [done|].
  intros (-> & (pl & x & Hd & Hl) & (up & nu & Hup & Hnu & Hnext)) Hx Hdm Hn.
  rewrite !locs_app in Hx. simpl in Hx.
  split; [done|]. split.
  - exists pl, x. rewrite lookup_insert_ne by set_solver. split; [done|].
    apply rep_insert; [done|set_solver].
  - destruct (decide (up = dm)) as [->|Hne].
    + exists dm, n'. rewrite lookup_insert_eq. split_and!; [|done|congruence].
      apply IH; [done|set_solver|done|done].
    + exists up, nu. rewrite lookup_insert_ne by done. split_and!; [|done|done].
      apply IH; [done|set_solver|done|done].
Qed.

Lemma rctx_dummy h dm hole R n n' :
  rctx h dm hole R -> dm ∉ locs (rinorder R) -> h !! dm = Some n ->
  prev n' = prev n -> rctx (<[dm := n']> h) dm hole R.
Proof.
  revert hole. induction R as [|[d r] R IH]; intros hole; simpl; [done|].
  intros (-> & (pr & x & Hd & Hr) & (up & nu & Hup & Hnu & Hprev)) Hx Hdm Hn.
  rewrite !locs_app in Hx.
  split; [done|]. split.
  - exists pr, x. rewrite lookup_insert_ne by set_solver. split; [done|].
    apply rep_insert; [done|set_solver].
  - destruct (decide (up = dm)) as [->|Hne].
    + exists dm, n'. rewrite lookup_insert_eq. split_and!; [|done|congruence].
      apply IH; [done|set_solver|done|done].
    + exists up, nu. rewrite lookup_insert_ne by done. split_and!; [|done|done].
      apply IH; [done|set_solver|done|done].
Qed.

(** Writing the link of the hole itself. *)
Lemma lctx_hole h dm hole L n v :
  lctx h dm hole L -> NoDup (dm :: locs (linorder L)) -> h !! hole = Some n ->
  lctx (<[hole := with_next v n]> h) dm hole L.
Proof.
  destruct L as [|[l d] L]; simpl; [done|].
  intros (-> & (pl & x & Hd & Hl) & (up & nu & Hup & Hnu & Hnext)) Hnd Hn.
  rewrite Hd in Hn. injection Hn as <-.
  rewrite !locs_app in Hnd. simpl in Hnd.
  apply NoDup_cons in Hnd as [Hdm Hnd].
  apply NoDup_app in Hnd as (_ & HLl & (_ & Hld & _)%NoDup_app).
  assert (iv_loc d ∉ dm :: locs (linorder L)) as Hout by set_solver.
  destruct (lctx_insert _ _ _ _ (iv_loc d) (cell v pl d) Hup Hout) as [Hup' Hne].
  split; [done|]. split.
  - exists pl, v. rewrite lookup_insert_eq. split; [done|].
    apply rep_insert; [done|set_solver].
  - exists up, nu. rewrite lookup_insert_ne by done. done.
Qed.

Lemma rctx_hole h dm hole R n v :
  rctx h dm hole R -> NoDup (dm :: locs (rinorder R)) -> h !! hole = Some n ->
  rctx (<[hole := with_prev v n]> h) dm hole R.
Proof.
  destruct R as [|[d r] R]; simpl; [done|].
  intros (-> & (pr & x & Hd & Hr) & (up & nu & Hup & Hnu & Hprev)) Hnd Hn.
  rewrite Hd in Hn. injection Hn as <-.
  rewrite !locs_app in Hnd.
  apply NoDup_cons in Hnd as [Hdm Hnd].
  apply NoDup_cons in Hnd as [Hd' Hnd].
  assert (iv_loc d ∉ dm :: locs (rinorder R)) as Hout by set_solver.
  destruct (rctx_insert _ _ _ _ (iv_loc d) (cell pr v d) Hup Hout) as [Hup' Hne].
  split; [done|]. split.
  - exists pr, v. rewrite lookup_insert_eq. split; [done|].
    apply rep_insert; [done|set_solver].
  - exists up, nu. rewrite lookup_insert_ne by done. done.
Qed.

(** [env] is everything of the loop state but the current tree, of which only
    the in-order sequence [I] is known here. *)
Record env (S : list ivl) (dm : positive) (h : heap) (I : list ivl)
    (ol or : positive) (L : lzip) (R : rzip) : Prop := mk_env {
  env_l : lctx h dm ol L;
  env_r : rctx h dm or R;
  env_dummy : is_Some (h !! dm);
  env_seq : S = linorder L ++ I ++ rinorder R;
  env_nodup : NoDup (dm :: locs S)
}.

(** The three regions and the dummy are pairwise disjoint. *)
Lemma env_disjoint S dm h I ol or L R :
  env S dm h I ol or L R ->
  NoDup (dm :: locs (linorder L)) /\ NoDup (locs I) /\
  NoDup (dm :: locs (rinorder R)) /\ dm ∉ locs I /\
  (forall x, x ∈ locs (linorder L) -> x ∉ locs I /\ x ∉ locs (rinorder R)) /\
  (forall x, x ∈ locs I -> x ∉ locs (rinorder R)).
Proof.
  intros [_ _ _ -> Hnd]. rewrite !locs_app in Hnd.
  apply NoDup_cons in Hnd as [Hdm (HL & HL' & (Ht & Ht' & HR)%NoDup_app)%NoDup_app].
  rewrite !NoDup_cons. set_solver.
Qed.

Lemma lctx_lookup h dm hole L :
  lctx h dm hole L -> is_Some (h !! dm) -> is_Some (h !! hole).
Proof. destruct L as [|[l d] L]; simpl; [by intros ->|]. naive_solver. Qed.

Lemma rctx_lookup h dm hole R :
  rctx h dm hole R -> is_Some (h !! dm) -> is_Some (h !! hole).
Proof. destruct R as [|[d r] R]; simpl; [by intros ->|]. naive_solver. Qed.

(** Writing through [rtree_min] or [ltree_max] keeps every region. *)
Lemma env_write_right S dm h I ol or L R v :
  env S dm h I ol or L R ->
  exists n, h !! or = Some n /\ or ∉ locs I /\
    env S dm (<[or := with_prev v n]> h) I ol or L R.
Proof.
  intros Hi. pose proof (env_disjoint _ _ _ _ _ _ _ _ Hi) as (HL & Ht & HR & Hdt & HLx & Htx).
  destruct Hi as [Hl Hr Hdm Hseq Hnd].
  destruct (rctx_lookup _ _ _ _ Hr Hdm) as [n Hn].
  pose proof (rctx_hole_in _ _ _ _ Hr) as Hor. apply NoDup_cons in HL as [HL _].
  exists n. split_and!; [done|destruct Hor as [->|Hor]; naive_solver|].
  split; [|by apply rctx_hole| |done|done].
  - destruct Hor as [->|Hor]; [by eapply lctx_dummy|].
    apply lctx_insert; [done|]. apply NoDup_cons in HR as [HR _]. set_solver.
  - rewrite lookup_insert. case_decide; [by eexists|done].
Qed.

Lemma env_write_left S dm h I ol or L R v :
  env S dm h I ol or L R ->
  exists n, h !! ol = Some n /\ ol ∉ locs I /\
    env S dm (<[ol := with_next v n]> h) I ol or L R.
Proof.
  intros Hi. pose proof (env_disjoint _ _ _ _ _ _ _ _ Hi) as (HL & Ht & HR & Hdt & HLx & Htx).
  destruct Hi as [Hl Hr Hdm Hseq Hnd].
  destruct (lctx_lookup _ _ _ _ Hl Hdm) as [n Hn].
  pose proof (lctx_hole_in _ _ _ _ Hl) as Hol. apply NoDup_cons in HR as [HR _].
  exists n. split_and!; [done|destruct Hol as [->|Hol]; naive_solver|].
  split; [by apply lctx_hole| | |done|done].
  - destruct Hol as [->|Hol]; [by eapply rctx_dummy|].
    apply rctx_insert; [done|]. apply NoDup_cons in HL as [HL _]. set_solver.
  - rewrite lookup_insert. case_decide; [by eexists|done].
Qed.

(** Rewriting a cell of the current tree keeps both contexts. *)
Lemma env_rewrite S dm h I ol or L R x n :
  env S dm h I ol or L R -> x ∈ locs I -> env S dm (<[x := n]> h) I ol or L R.
Proof.
  intros Hi Hx. pose proof (env_disjoint _ _ _ _ _ _ _ _ Hi) as (HL & Ht & HR & Hdt & HLx & Htx).
  destruct Hi as [Hl Hr Hdm Hseq Hnd].
  assert (x <> dm) by set_solver.
  split; [apply lctx_insert; [done|] | apply rctx_insert; [done|] | | done | done].
  - apply not_elem_of_cons. split; [done|]. naive_solver.
  - apply not_elem_of_cons. split; [done|]. naive_solver.
  - by rewrite lookup_insert_ne.
Qed.

(** Heaps that differ on the addresses [X] only. *)
Definition agree_off (X : list positive) (h h' : heap) : Prop :=
  forall x, x ∉ X -> h' !! x = h !! x.

Lemma agree_off_refl X h : agree_off X h h.
Proof. done. Qed.

Lemma agree_off_trans X h1 h2 h3 :
  agree_off X h1 h2 -> agree_off X h2 h3 -> agree_off X h1 h3.
Proof. intros H1 H2 x Hx. by rewrite H2, H1. Qed.

Lemma agree_off_insert X (h : heap) x n : x ∈ X -> agree_off X h (<[x := n]> h).
Proof. intros Hx y Hy. rewrite lookup_insert_ne; [done|set_solver]. Qed.

Lemma agree_off_insert2 X (h : heap) x y n m :
  x ∈ X -> y ∈ X -> agree_off X h (<[x := n]> (<[y := m]> h)).
Proof. intros. eapply agree_off_trans; by apply agree_off_insert. Qed.

Lemma agree_off_mono X Y h h' : X ⊆ Y -> agree_off X h h' -> agree_off Y h h'.
Proof. intros HXY H x Hx. apply H. set_solver. Qed.

Lemma agree_off_seq X Y Z h1 h2 h3 :
  agree_off X h1 h2 -> agree_off Y h2 h3 -> X ⊆ Z -> Y ⊆ Z -> agree_off Z h1 h3.
Proof. intros H1 H2 HX HY x Hx. by rewrite H2, H1 by set_solver. Qed.

Lemma env_holes S dm h I ol or L R :
  env S dm h I ol or L R ->
  ol ∈ dm :: locs S /\ or ∈ dm :: locs S /\ locs I ⊆ dm :: locs S.
Proof.
  intros [Hl%lctx_hole_in Hr%rctx_hole_in _ -> _]. rewrite !locs_app. set_solver.
Qed.

Definition inv (S : list ivl) (dm : positive) (h : heap) (p : ptr) (t : tree)
    (ol or : positive) (L : lzip) (R : rzip) : Prop :=
  rep h p t /\ env S dm h (inorder t) ol or L R.

(** The two link steps: the link is written through the hole, the root becomes
    the new hole and its inner subtree the tree that remains. *)
Lemma inv_link_right S dm h l d r ol or L R pr pl :
  inv S dm h (Some (iv_loc d)) (Node l d r) ol or L R ->
  h !! iv_loc d = Some (cell pr pl d) ->
  exists n, h !! or = Some n /\ or ∈ dm :: locs S /\
    inv S dm (<[or := with_prev (Some (iv_loc d)) n]> h) pl l ol (iv_loc d) L ((d, r) :: R).
Proof.
  intros [(_ & pl' & pr' & Hd' & Hrl & Hrr) He] Hd.
  rewrite Hd in Hd'. injection Hd' as <- <-.
  destruct (env_write_right _ _ _ _ _ _ _ _ (Some (iv_loc d)) He) as (n & Hn & Hor & He').
  pose proof (env_holes _ _ _ _ _ _ _ _ He) as (_ & ? & _).
  exists n. split; [done|]. split; [done|].
  simpl in Hor. rewrite locs_app in Hor. simpl in Hor.
  split; [apply rep_insert; [done|set_solver]|].
  destruct He' as [Hl Hr Hdm Hseq Hnd].
  split; [done| |done| |done].
  - simpl. split; [done|]. split.
    + exists pr, pl. rewrite lookup_insert_ne by set_solver. split; [done|].
      apply rep_insert; [done|set_solver].
    + exists or, (with_prev (Some (iv_loc d)) n). by rewrite lookup_insert_eq.
  - rewrite Hseq. simpl. by app_norm.
Qed.

Lemma inv_link_left S dm h l d r ol or L R pr pl :
  inv S dm h (Some (iv_loc d)) (Node l d r) ol or L R ->
  h !! iv_loc d = Some (cell pr pl d) ->
  exists n, h !! ol = Some n /\ ol ∈ dm :: locs S /\
    inv S dm (<[ol := with_next (Some (iv_loc d)) n]> h) pr r (iv_loc d) or ((l, d) :: L) R.
Proof.
  intros [(_ & pl' & pr' & Hd' & Hrl & Hrr) He] Hd.
  rewrite Hd in Hd'. injection Hd' as <- <-.
  destruct (env_write_left _ _ _ _ _ _ _ _ (Some (iv_loc d)) He) as (n & Hn & Hol & He').
  pose proof (env_holes _ _ _ _ _ _ _ _ He) as (? & _ & _).
  exists n. split; [done|]. split; [done|].
  simpl in Hol. rewrite locs_app in Hol. simpl in Hol.
  split; [apply rep_insert; [done|set_solver]|].
  destruct He' as [Hl Hr Hdm Hseq Hnd].
  split; [|done|done| |done].
  - simpl. split; [done|]. split.
    + exists pl, pr. rewrite lookup_insert_ne by set_solver. split; [done|].
      apply rep_insert; [done|set_solver].
    + exists ol, (with_next (Some (iv_loc d)) n). by rewrite lookup_insert_eq.
  - rewrite Hseq. simpl. by app_norm.
Qed.

(** The two rotations. *)
Lemma inv_rotate_right S dm h ll dl lr d r ol or L R pr pll plr :
  inv S dm h (Some (iv_loc d)) (Node (Node ll dl lr) d r) ol or L R ->
  h !! iv_loc d = Some (cell pr (Some (iv_loc dl)) d) ->
  h !! iv_loc dl = Some (cell plr pll dl) ->
  iv_loc dl <> iv_loc d /\
  inv S dm (<[iv_loc dl := cell (Some (iv_loc d)) pll dl]> (<[iv_loc d := cell pr plr d]> h))
    (Some (iv_loc dl)) (Node ll dl (Node lr d r)) ol or L R.
Proof.
  intros [Hrep He] Hd Hdl.
  pose proof (env_disjoint _ _ _ _ _ _ _ _ He) as (_ & Ht & _).
  assert (inorder (Node ll dl (Node lr d r)) = inorder (Node (Node ll dl lr) d r)) as Hin.
  { simpl. by app_norm. }
  rewrite <- Hin in Ht, He. clear Hin.
  destruct Hrep as (_ & pl & pr' & Hd' & (_ & pll' & plr' & Hdl' & Hll & Hlr) & Hr).
  rewrite Hd in Hd'. injection Hd' as <- ?. rewrite Hdl in Hdl'. injection Hdl' as <- <-.
  simpl in Ht. rewrite locs_app in Ht. simpl in Ht. rewrite locs_app in Ht. simpl in Ht.
  apply NoDup_app in Ht as (_ & Hlld & [Hdd (_ & Hlrd & [Hdr2 _]%NoDup_cons)%NoDup_app]%NoDup_cons).
  assert (iv_loc dl <> iv_loc d) as Hne by set_solver.
  split; [done|]. split.
  - simpl. split; [done|]. exists pll, (Some (iv_loc d)). rewrite lookup_insert_eq.
    split; [done|]. split; [apply rep_insert; [apply rep_insert; [done|]|]; set_solver|].
    split; [done|]. exists plr, pr. rewrite lookup_insert_ne, lookup_insert_eq by done.
    split_and!; [done|..]; apply rep_insert; [apply rep_insert; [done|]| |apply rep_insert; [done|]|];
      set_solver.
  - do 2 (apply env_rewrite; [|unfold locs; simpl; set_solver]). done.
Qed.

Lemma inv_rotate_left S dm h l d rl dr rr ol or L R pl prl prr :
  inv S dm h (Some (iv_loc d)) (Node l d (Node rl dr rr)) ol or L R ->
  h !! iv_loc d = Some (cell (Some (iv_loc dr)) pl d) ->
  h !! iv_loc dr = Some (cell prr prl dr) ->
  iv_loc dr <> iv_loc d /\
  inv S dm (<[iv_loc dr := cell prr (Some (iv_loc d)) dr]> (<[iv_loc d := cell prl pl d]> h))
    (Some (iv_loc dr)) (Node (Node l d rl) dr rr) ol or L R.
Proof.
  intros [Hrep He] Hd Hdr.
  pose proof (env_disjoint _ _ _ _ _ _ _ _ He) as (_ & Ht & _).
  assert (inorder (Node (Node l d rl) dr rr) = inorder (Node l d (Node rl dr rr))) as Hin.
  { simpl. by app_norm. }
  rewrite <- Hin in He.
  destruct Hrep as (_ & pl' & pr' & Hd' & Hl & (_ & prl' & prr' & Hdr' & Hrl & Hrr)).
  rewrite Hd in Hd'. injection Hd' as ? <-. rewrite Hdr in Hdr'. injection Hdr' as <- <-.
  simpl in Ht. rewrite locs_app in Ht. simpl in Ht. rewrite locs_app in Ht. simpl in Ht.
  apply NoDup_app in Ht as (_ & Hld & [Hdd (_ & Hrld & [Hdr2 _]%NoDup_cons)%NoDup_app]%NoDup_cons).
  assert (iv_loc dr <> iv_loc d) as Hne by set_solver.
  split; [done|]. split.
  - simpl. split; [done|]. exists (Some (iv_loc d)), prr. rewrite lookup_insert_eq.
    split; [done|]. split; [|apply rep_insert; [apply rep_insert; [done|]|]; set_solver].
    split; [done|]. exists pl, prl. rewrite lookup_insert_ne, lookup_insert_eq by done.
    split_and!; [done|..]; apply rep_insert; [apply rep_insert; [done|]| |apply rep_insert; [done|]|];
      set_solver.
  - do 2 (apply env_rewrite; [|unfold locs; simpl; set_solver]). done.
Qed.

(** * Running the primitives *)

Section Run.
Context (h : heap) (l : positive) (n : interval_tree_node) (Hl : h !! l = Some n).

Lemma run_START : START (Some l) h = Val (start n, h).
Proof. unfold START, mbind, prog_bind, deref. by rewrite Hl. Qed.

Lemma run_END : END (Some l) h = Val (end_ n, h).
Proof. unfold END, mbind, prog_bind, deref. by rewrite Hl. Qed.

Lemma run_LEFT : LEFT (Some l) h = Val (prev n, h).
Proof. unfold LEFT, mbind, prog_bind, deref. by rewrite Hl. Qed.

Lemma run_RIGHT : RIGHT (Some l) h = Val (next n, h).
Proof. unfold RIGHT, mbind, prog_bind, deref. by rewrite Hl. Qed.

Lemma run_set_LEFT v : set_LEFT (Some l) v h = Val (tt, <[l := with_prev v n]> h).
Proof. unfold set_LEFT, update. by rewrite Hl. Qed.

Lemma run_set_RIGHT v : set_RIGHT (Some l) v h = Val (tt, <[l := with_next v n]> h).
Proof. unfold set_RIGHT, update. by rewrite Hl. Qed.
End Run.

(** Folds the fields written back into cells. *)
Ltac fold_cells :=
  repeat match goal with
  | |- context [mk_node ?nx ?pv (iv_start ?d) (iv_end ?d) (iv_ctxt ?d)] =>
      change (mk_node nx pv (iv_start d) (iv_end d) (iv_ctxt d)) with (cell nx pv d)
  end.

(** Runs the next primitive, whose node is found with the hypothesis [H]. *)
Ltac run_with H :=
  first
  [ rewrite (prog_bind_val _ _ _ _ _ (run_START _ _ _ H))
  | rewrite (prog_bind_val _ _ _ _ _ (run_END _ _ _ H))
  | rewrite (prog_bind_val _ _ _ _ _ (run_LEFT _ _ _ H))
  | rewrite (prog_bind_val _ _ _ _ _ (run_RIGHT _ _ _ H))
  | rewrite (prog_bind_val _ _ _ _ _ (run_set_LEFT _ _ _ H _))
  | rewrite (prog_bind_val _ _ _ _ _ (run_set_RIGHT _ _ _ H _)) ];
  cbn [start end_ next prev node_ctxt cell with_next with_prev];
  fold_cells.

Definition loop_result (S : list ivl) (dm : positive) (h : heap) (m : outcome (ptr * ptr * ptr * heap))
    (t' : tree) : Prop :=
  exists h' l d r ol or L R,
    m = Val (Some (iv_loc d), Some ol, Some or, h') /\
    inv S dm h' (Some (iv_loc d)) (Node l d r) ol or L R /\
    t' = assemble l d r L R /\ agree_off (dm :: locs S) h h'.

Lemma loop_result_done S dm h l d r ol or L R :
  inv S dm h (Some (iv_loc d)) (Node l d r) ol or L R ->
  loop_result S dm h (Val (Some (iv_loc d), Some ol, Some or, h)) (assemble l d r L R).
Proof. intros Hi. by exists h, l, d, r, ol, or, L, R. Qed.

Lemma loop_result_step S dm h h' m t' :
  agree_off (dm :: locs S) h h' -> loop_result S dm h' m t' -> loop_result S dm h m t'.
Proof.
  intros Ha (h2 & l & d & r & ol & or & L & R & ? & ? & ? & ?).
  exists h2, l, d, r, ol, or, L, R. split_and!; [done..|]. by eapply agree_off_trans.
Qed.

Lemma rep_node h p l d r :
  rep h p (Node l d r) ->
  p = Some (iv_loc d) /\
  exists pl pr, h !! iv_loc d = Some (cell pr pl d) /\ rep h pl l /\ rep h pr r.
Proof. done. Qed.

Lemma rep_leaf_iff h p t : rep h p t -> p = None <-> t = Leaf.
Proof. destruct t; simpl; [done|]. intros [-> _]. split; discriminate. Qed.

(** One iteration of the loop, given the result of the following ones. *)
Section Iteration.
Context (addr : Z) (fuel : nat) (S : list ivl) (dm : positive).
Context (IH : forall t h p ol or L R,
  t <> Leaf -> (tree_size t <= fuel)%nat -> inv S dm h p t ol or L R ->
  loop_result S dm h (splay_loop fuel addr p (Some ol) (Some or) h) (splay_go addr t L R)).

Lemma continue_right h l d r ol or L R pr pl :
  l <> Leaf -> (tree_size l <= fuel)%nat ->
  inv S dm h (Some (iv_loc d)) (Node l d r) ol or L R ->
  h !! iv_loc d = Some (cell pr pl d) ->
  loop_result S dm h
    ((set_LEFT (Some or) (Some (iv_loc d));;
      splay_loop fuel addr pl (Some ol) (Some (iv_loc d))) h)
    (splay_go addr l L ((d, r) :: R)).
Proof.
  intros Hl Hf Hi Hd.
  destruct (inv_link_right _ _ _ _ _ _ _ _ _ _ _ _ Hi Hd) as (n & Hn & Hin & Hi').
  run_with Hn. eapply loop_result_step; [by apply agree_off_insert|]. by apply IH.
Qed.

Lemma continue_left h l d r ol or L R pr pl :
  r <> Leaf -> (tree_size r <= fuel)%nat ->
  inv S dm h (Some (iv_loc d)) (Node l d r) ol or L R ->
  h !! iv_loc d = Some (cell pr pl d) ->
  loop_result S dm h
    ((set_RIGHT (Some ol) (Some (iv_loc d));;
      splay_loop fuel addr pr (Some (iv_loc d)) (Some or)) h)
    (splay_go addr r ((l, d) :: L) R).
Proof.
  intros Hl Hf Hi Hd.
  destruct (inv_link_left _ _ _ _ _ _ _ _ _ _ _ _ Hi Hd) as (n & Hn & Hin & Hi').
  run_with Hn. eapply loop_result_step; [by apply agree_off_insert|]. by apply IH.
Qed.

(** The branch [addr < START(root)]. *)
Lemma iterate_right h l d r ol or L R pl pr :
  (tree_size (Node l d r) <= Datatypes.S fuel)%nat ->
  inv S dm h (Some (iv_loc d)) (Node l d r) ol or L R ->
  h !! iv_loc d = Some (cell pr pl d) -> addr < iv_start d ->
  loop_result S dm h (splay_loop (Datatypes.S fuel) addr (Some (iv_loc d)) (Some ol) (Some or) h)
    (splay_go addr (Node l d r) L R).
Proof.
  intros Hfuel Hi Hd Hlt. cbn [splay_loop splay_go]. run_with Hd.
  rewrite (proj2 (Z.ltb_lt _ _) Hlt). run_with Hd.
  pose proof Hi as [(_ & pl' & pr' & Hd' & Hl & _) He].
  rewrite Hd in Hd'. injection Hd' as <- <-.
  destruct l as [|ll dl lr].
  { simpl in Hl. subst pl. by apply loop_result_done. }
  apply rep_node in Hl as (-> & pll & plr & Hdl & Hll & _).
  run_with Hdl. destruct (Z.ltb_spec addr (iv_start dl)) as [Hlt2|Hge2].
  2: { eapply continue_right; [done|simpl in *; lia|done|done]. }
  destruct (inv_rotate_right _ _ _ _ _ _ _ _ _ _ _ _ _ _ _ Hi Hd Hdl) as [Hne Hi'].
  run_with Hdl. run_with Hd.
  assert ((<[iv_loc d := cell pr plr d]> h) !! iv_loc dl = Some (cell plr pll dl)) as Hdl'
    by by rewrite lookup_insert_ne.
  run_with Hdl'.
  pose proof (lookup_insert_eq (<[iv_loc d := cell pr plr d]> h) (iv_loc dl)
    (cell (Some (iv_loc d)) pll dl)) as Hdl2.
  run_with Hdl2.
  apply env_holes in He as (_ & _ & Hsub).
  refine (loop_result_step _ _ _ _ _ _ (agree_off_insert2 _ h (iv_loc dl) (iv_loc d) _ _ _ _) _);
    [apply Hsub; unfold locs; simpl; set_solver..|].
  destruct ll as [|lll dll llr].
  - simpl in Hll. subst pll. by apply loop_result_done.
  - pose proof (rep_node _ _ _ _ _ Hll) as (-> & _).
    eapply continue_right; [done|simpl in *; lia|done|done].
Qed.

(** The branch [addr >= END(root)]. *)
Lemma iterate_left h l d r ol or L R pl pr :
  (tree_size (Node l d r) <= Datatypes.S fuel)%nat ->
  inv S dm h (Some (iv_loc d)) (Node l d r) ol or L R ->
  h !! iv_loc d = Some (cell pr pl d) -> iv_start d <= addr -> iv_end d <= addr ->
  loop_result S dm h (splay_loop (Datatypes.S fuel) addr (Some (iv_loc d)) (Some ol) (Some or) h)
    (splay_go addr (Node l d r) L R).
Proof.
  intros Hfuel Hi Hd Hge Hle. cbn [splay_loop splay_go]. run_with Hd.
  rewrite (proj2 (Z.ltb_ge _ _) Hge). run_with Hd.
  rewrite (proj2 (Z.leb_le _ _) Hle). run_with Hd.
  pose proof Hi as [(_ & pl' & pr' & Hd' & _ & Hr) He].
  rewrite Hd in Hd'. injection Hd' as <- <-.
  destruct r as [|rl dr rr].
  { simpl in Hr. subst pr. by apply loop_result_done. }
  apply rep_node in Hr as (-> & prl & prr & Hdr & _ & Hrr).
  run_with Hdr. destruct (Z.leb_spec (iv_end dr) addr) as [Hle2|Hgt2].
  2: { eapply continue_left; [done|simpl in *; lia|done|done]. }
  destruct (inv_rotate_left _ _ _ _ _ _ _ _ _ _ _ _ _ _ _ Hi Hd Hdr) as [Hne Hi'].
  run_with Hdr. run_with Hd.
  assert ((<[iv_loc d := cell prl pl d]> h) !! iv_loc dr = Some (cell prr prl dr)) as Hdr'
    by by rewrite lookup_insert_ne.
  run_with Hdr'.
  pose proof (lookup_insert_eq (<[iv_loc d := cell prl pl d]> h) (iv_loc dr)
    (cell prr (Some (iv_loc d)) dr)) as Hdr2.
  run_with Hdr2.
  apply env_holes in He as (_ & _ & Hsub).
  refine (loop_result_step _ _ _ _ _ _ (agree_off_insert2 _ h (iv_loc dr) (iv_loc d) _ _ _ _) _);
    [apply Hsub; unfold locs; simpl; set_solver..|].
  destruct rr as [|rrl drr rrr].
  - simpl in Hrr. subst prr. by apply loop_result_done.
  - pose proof (rep_node _ _ _ _ _ Hrr) as (-> & _).
    eapply continue_left; [done|simpl in *; lia|done|done].
Qed.
End Iteration.

Lemma splay_loop_spec addr fuel S dm t h p ol or L R :
  t <> Leaf -> (tree_size t <= fuel)%nat -> inv S dm h p t ol or L R ->
  loop_result S dm h (splay_loop fuel addr p (Some ol) (Some or) h) (splay_go addr t L R).
Proof.
  revert t h p ol or L R. induction fuel as [|fuel IH]; intros t h p ol or L R Ht Hfuel Hi;
    (destruct t as [|l d r]; [done|]); [simpl in Hfuel; lia|].
  pose proof Hi as [(-> & pl & pr & Hd & _ & _) _].
  destruct (Z.lt_ge_cases addr (iv_start d)) as [Hlt|Hge]; [by eapply iterate_right|].
  destruct (Z.le_gt_cases (iv_end d) addr) as [Hle|Hgt]; [by eapply iterate_left|].
  cbn [splay_loop splay_go]. run_with Hd.
  rewrite (proj2 (Z.ltb_ge _ _) Hge). run_with Hd.
  rewrite (proj2 (Z.leb_gt _ _) Hgt). by apply loop_result_done.
Qed.

(** * [interval_tree_splay] *)

(** Once the hole links to a tree, the dummy links to the whole side. *)
Lemma lfill_rep h dm hole L n t :
  lctx h dm hole L -> h !! hole = Some n -> rep h (next n) t ->
  exists nd, h !! dm = Some nd /\ rep h (next nd) (lfill L t).
Proof.
  revert hole n t. induction L as [|[l d] L IH]; intros hole n t; simpl.
  - intros -> Hn Hrep. by exists n.
  - intros (-> & (pl & x & Hd & Hl) & (up & nu & Hup & Hnu & Hnext)) Hn Hrep.
    rewrite Hd in Hn. injection Hn as <-. simpl in Hrep.
    apply (IH up nu); [done|done|]. rewrite Hnext. simpl. split; [done|]. by exists pl, x.
Qed.

Lemma rfill_rep h dm hole R n t :
  rctx h dm hole R -> h !! hole = Some n -> rep h (prev n) t ->
  exists nd, h !! dm = Some nd /\ rep h (prev nd) (rfill R t).
Proof.
  revert hole n t. induction R as [|[d r] R IH]; intros hole n t; simpl.
  - intros -> Hn Hrep. by exists n.
  - intros (-> & (pr & x & Hd & Hr) & (up & nu & Hup & Hnu & Hprev)) Hn Hrep.
    rewrite Hd in Hn. injection Hn as <-. simpl in Hrep.
    apply (IH up nu); [done|done|]. rewrite Hprev. simpl. split; [done|]. by exists x, pr.
Qed.

Lemma assemble_root_spec S dm h l d r ol or L R :
  inv S dm h (Some (iv_loc d)) (Node l d r) ol or L R ->
  exists h', assemble_root (Some (iv_loc d)) (Some ol) (Some or) (Some dm) h =
    Val (Some (iv_loc d), h') /\
    rep h' (Some (iv_loc d)) (assemble l d r L R) /\ agree_off (dm :: locs S) h h'.
Proof.
  intros [(_ & pl & pr & Hd & Hl & Hr) He].
  pose proof (env_holes _ _ _ _ _ _ _ _ He) as (HolS & HorS & HIS).
  pose proof (env_seq _ _ _ _ _ _ _ _ He) as HS.
  destruct (env_write_left _ _ _ _ _ _ _ _ pl He) as (n & Hn & Hol & He1).
  destruct (env_write_right _ _ _ _ _ _ _ _ pr He1) as (m & Hm & Hor & He2).
  set (h1 := <[ol := with_next pl n]> h) in *.
  set (h2 := <[or := with_prev pr m]> h1) in *.
  simpl in Hol, Hor. rewrite locs_app in Hol, Hor. simpl in Hol, Hor.
  apply not_elem_of_app in Hol as [Holl [Hold Holr]%not_elem_of_cons].
  apply not_elem_of_app in Hor as [Horl [Hord Horr]%not_elem_of_cons].
  assert (h1 !! iv_loc d = Some (cell pr pl d)) as Hd1
    by (unfold h1; by rewrite lookup_insert_ne).
  assert (rep h2 pl l /\ rep h2 pr r) as [Hl2 Hr2].
  { split; by apply rep_insert2. }
  assert (exists n2, h2 !! ol = Some n2 /\ next n2 = pl) as (n2 & Hn2 & Hnext).
  { unfold h2, h1 in *. rewrite lookup_insert. case_decide as Heq.
    - subst. rewrite lookup_insert_eq in Hm. injection Hm as <-. by eexists.
    - rewrite lookup_insert_eq. by eexists. }
  assert (h2 !! or = Some (with_prev pr m)) as Hm2 by apply lookup_insert_eq.
  destruct (lfill_rep h2 dm ol L n2 l) as (nd & Hnd & Hlf);
    [apply He2|done|by rewrite Hnext|].
  destruct (rfill_rep h2 dm or R (with_prev pr m) r) as (nd' & Hnd' & Hrf);
    [apply He2|done|done|].
  rewrite Hnd in Hnd'. injection Hnd' as <-.
  assert (h2 !! iv_loc d = Some (cell pr pl d)) as Hd2
    by (unfold h2; by rewrite lookup_insert_ne).
  assert (NoDup (locs (inorder (assemble l d r L R))) /\ dm <> iv_loc d) as [Hnodup Hdm].
  { pose proof (env_nodup _ _ _ _ _ _ _ _ He) as [Hdm Hnodup]%NoDup_cons.
    rewrite inorder_assemble. rewrite HS in Hdm, Hnodup. simpl in *.
    rewrite <- app_assoc in Hdm, Hnodup. split; [done|].
    rewrite !locs_app in Hdm. simpl in Hdm.
    apply not_elem_of_app in Hdm as [_ Hdm].
    apply not_elem_of_app in Hdm as [_ Hdm].
    by apply not_elem_of_cons in Hdm as [? _]. }
  pose proof (lookup_insert_eq h2 (iv_loc d) (cell pr (next nd) d)) as Hd3.
  set (h3 := <[iv_loc d := cell pr (next nd) d]> h2) in *.
  assert (h3 !! dm = Some nd) as Hnd3 by (unfold h3; by rewrite lookup_insert_ne).
  exists (<[iv_loc d := cell (prev nd) (next nd) d]> h3). split_and!.
  - unfold assemble_root. run_with Hd. run_with Hn. run_with Hd1. run_with Hm.
    run_with Hnd. run_with Hd2. run_with Hnd3. run_with Hd3. done.
  - unfold assemble in *. simpl in *. split; [done|].
    exists (next nd), (prev nd). rewrite lookup_insert_eq. split; [done|].
    rewrite !locs_app in Hnodup. simpl in Hnodup.
    apply NoDup_app in Hnodup as (_ & HA & [HB _]%NoDup_cons).
    assert (iv_loc d ∉ locs (inorder (lfill L l))).
    { intros Hx. apply (HA _ Hx). constructor. }
    split; by apply rep_insert2.
  - assert (iv_loc d ∈ dm :: locs S).
    { apply HIS. simpl. rewrite locs_app. apply elem_of_app. right. constructor. }
    eapply agree_off_trans; [|by apply agree_off_insert2].
    by apply agree_off_insert2.
Qed.

Lemma fresh_dom_lookup (h : heap) : h !! fresh (dom h) = None.
Proof. apply not_elem_of_dom, is_fresh. Qed.

Lemma rep_locs h p t : rep h p t -> forall x, x ∈ locs (inorder t) -> is_Some (h !! x).
Proof.
  revert p. induction t as [|l IHl d r IHr]; intros p; simpl; [by intros _ x Hx; inversion Hx|].
  intros (_ & pl & pr & Hd & Hl & Hr) x. rewrite locs_app. simpl.
  intros [Hx|[->|Hx]%elem_of_cons]%elem_of_app; [by eapply IHl|by eexists|by eapply IHr].
Qed.

Lemma inv_start h dm junk p t :
  rep_tree h p t -> h !! dm = None ->
  inv (inorder t) dm (<[dm := junk]> h) p t dm dm [] [].
Proof.
  intros [Hrep Hnd] Hdm.
  assert (dm ∉ locs (inorder t)) as Hfresh.
  { intros Hx. destruct (rep_locs _ _ _ Hrep dm Hx). congruence. }
  split; [by apply rep_insert|]. split; simpl; [done|done| | |].
  - rewrite lookup_insert_eq. by eexists.
  - by rewrite app_nil_r.
  - by apply NoDup_cons.
Qed.

(** Splaying in memory is splaying the tree; nothing else changes and the
    contents of the uninitialised dummy do not matter. *)
Lemma interval_tree_splay_spec fuel junk addr h p t :
  rep_tree h p t -> (tree_size t <= fuel)%nat ->
  exists h' p', interval_tree_splay fuel junk p addr h = Val (p', h') /\
    rep_tree h' p' (splay addr t) /\ agree_off (locs (inorder t)) h h'.
Proof.
  intros Hrt Hfuel. unfold interval_tree_splay, splay.
  destruct t as [|l0 d0 r0] eqn:Ht.
  { destruct Hrt as [Hp _]. simpl in Hp. subst p. exists h, None.
    split_and!; [done|split; [done|constructor]|done]. }
  rewrite <- Ht in *. destruct p as [p|].
  2: { destruct Hrt as [Hp _]. rewrite Ht in Hp. by destruct Hp. }
  unfold with_local. set (dm := fresh (dom h)).
  pose proof (inv_start h dm junk (Some p) t Hrt (fresh_dom_lookup h)) as Hi.
  destruct (splay_loop_spec addr fuel (inorder t) dm t _ _ _ _ _ _ ltac:(congruence) Hfuel Hi)
    as (h1 & l & d & r & ol & or & L & R & Hrun & Hi1 & Hgo & Ha1).
  rewrite (prog_bind_val _ _ _ _ _ Hrun).
  destruct (assemble_root_spec _ _ _ _ _ _ _ _ _ _ Hi1) as (h2 & -> & Hrep2 & Ha2).
  assert (inorder (assemble l d r L R) = inorder t) as Hin.
  { rewrite <- Hgo. apply splay_inorder. }
  exists (delete dm h2), (Some (iv_loc d)). rewrite Hgo.
  pose proof (env_nodup _ _ _ _ _ _ _ _ (proj2 Hi)) as [Hdm Hnd]%NoDup_cons.
  split_and!; [done| |].
  - split; [|by rewrite Hin]. eapply rep_agree; [done|].
    intros x Hx. rewrite lookup_delete_ne; [done|]. rewrite Hin in Hx. set_solver.
  - intros x Hx. destruct (decide (x = dm)) as [->|Hne].
    + rewrite lookup_delete_eq. symmetry. apply fresh_dom_lookup.
    + rewrite lookup_delete_ne by done. rewrite Ha2, Ha1 by set_solver.
      by rewrite lookup_insert_ne.
Qed.

(** * The operations against their contracts *)

(** The memory at [p] holds the ordered set of disjoint intervals [S]. *)
Definition holds (h : heap) (p : ptr) (S : list ivl) : Prop :=
  ordered S /\ exists t, rep_tree h p t /\ inorder t = S.

Lemma holds_nil h : holds h None [].
Proof. split; [apply ordered_nil|]. exists Leaf. split; [split; [done|constructor]|done]. Qed.

Lemma holds_agree h h' p S X :
  holds h p S -> agree_off X h h' -> (forall x, x ∈ locs S -> x ∉ X) -> holds h' p S.
Proof.
  intros [Ho (t & [Hrep Hnd] & <-)] Ha Hx. split; [done|]. exists t. split; [|done].
  split; [|done]. eapply rep_agree; [done|]. intros x Hin. by apply Ha, Hx.
Qed.

(** Splaying keeps the set; the tree it leaves is the splayed tree. *)
Lemma splay_holds fuel junk addr h p t :
  rep_tree h p t -> (length (inorder t) <= fuel)%nat ->
  exists h' p', interval_tree_splay fuel junk p addr h = Val (p', h') /\
    rep_tree h' p' (splay addr t) /\ agree_off (locs (inorder t)) h h'.
Proof.
  intros Hrt Hf. apply interval_tree_splay_spec; [done|]. by rewrite tree_size_inorder.
Qed.

Lemma lookup_holds fuel junk addr h p S :
  holds h p S -> (length S <= fuel)%nat ->
  exists h' p',
    interval_tree_lookup fuel junk p addr h =
      Val (p', iv_loc <$> set_lookup addr S, iv_start <$> set_lookup addr S, h') /\
    holds h' p' S /\ agree_off (locs S) h h'.
Proof.
  intros [Ho (t & Hrt & <-)] Hf.
  destruct (splay_holds fuel junk addr h p t Hrt Hf) as (h' & p' & Hrun & Hrt' & Ha).
  exists h', p'.
  destruct (tree_lookup_spec addr t Ho) as [Hin <-]. unfold tree_lookup in *.
  split_and!; [|split; [done|]; exists (splay addr t); split; [done|apply splay_inorder]|done].
  unfold interval_tree_lookup. rewrite (prog_bind_val _ _ _ _ _ Hrun).
  destruct (splay addr t) as [|l d r].
  - destruct Hrt' as [Hp _]. simpl in Hp. by subst p'.
  - destruct Hrt' as [(-> & pl & pr & Hd & _) _].
    run_with Hd. run_with Hd. unfold contains.
    by destruct (iv_start d <=? addr), (addr <? iv_end d).
Qed.

Lemma rep_root h p l d r :
  rep_tree h p (Node l d r) ->
  p = Some (iv_loc d) /\ exists pl pr, h !! iv_loc d = Some (cell pr pl d) /\
    rep_tree h pl l /\ rep_tree h pr r /\
    iv_loc d ∉ locs (inorder l) /\ iv_loc d ∉ locs (inorder r) /\
    (forall x, x ∈ locs (inorder l) -> x ∉ locs (inorder r)).
Proof.
  intros [(-> & pl & pr & Hd & Hl & Hr) Hnd]. split; [done|]. exists pl, pr.
  simpl in Hnd. rewrite locs_app in Hnd. simpl in Hnd.
  apply NoDup_app in Hnd as (HndL & Hx & [Hdr HndR]%NoDup_cons).
  split_and!; [done|by split|by split| |done|].
  - intros Hdl. apply (Hx _ Hdl). constructor.
  - intros x Hl' Hr'. apply (Hx _ Hl'). by constructor.
Qed.

(** Frame rules at the level of whole trees. *)
Lemma rep_tree_agree h h' p t X :
  rep_tree h p t -> agree_off X h h' -> (forall x, x ∈ locs (inorder t) -> x ∉ X) ->
  rep_tree h' p t.
Proof.
  intros [Hrep Hnd] Ha Hx. split; [|done]. eapply rep_agree; [done|].
  intros x Hin. by apply Ha, Hx.
Qed.

Lemma rep_tree_insert h p t x n :
  rep_tree h p t -> x ∉ locs (inorder t) -> rep_tree (<[x := n]> h) p t.
Proof. intros [Hrep Hnd] Hx. split; [|done]. by apply rep_insert. Qed.

Lemma rep_tree_leaf h : rep_tree h None Leaf.
Proof. split; [done|constructor]. Qed.

(** Two disjoint trees and a node joined, the converse of [rep_root]. *)
Lemma rep_tree_join h d l r pl pr :
  h !! iv_loc d = Some (cell pr pl d) -> rep_tree h pl l -> rep_tree h pr r ->
  iv_loc d ∉ locs (inorder l) -> iv_loc d ∉ locs (inorder r) ->
  (forall x, x ∈ locs (inorder l) -> x ∉ locs (inorder r)) ->
  rep_tree h (Some (iv_loc d)) (Node l d r).
Proof.
  intros Hd [Hl HndL] [Hr HndR] Hdl Hdr Hx. split; [split; [done|by exists pl, pr]|].
  simpl. rewrite locs_app. simpl. apply NoDup_app. split_and!; [done| |by apply NoDup_cons].
  intros x Hxl [->|Hxr]%elem_of_cons; [done|]. by apply (Hx x).
Qed.

(** Membership of an address in the parts of a tree. *)
Lemma locs_node l d r :
  locs (inorder (Node l d r)) = locs (inorder l) ++ iv_loc d :: locs (inorder r).
Proof. simpl. by rewrite locs_app. Qed.

Lemma not_in_node x l d r :
  x ∉ locs (inorder (Node l d r)) <->
  x ∉ locs (inorder l) /\ x <> iv_loc d /\ x ∉ locs (inorder r).
Proof. rewrite locs_node, not_elem_of_app, not_elem_of_cons. done. Qed.

Lemma insert_before h d nx pv l d0 r :
  rep_tree h (Some (iv_loc d0)) (Node l d0 r) ->
  h !! iv_loc d = Some (cell nx pv d) ->
  iv_loc d ∉ locs (inorder (Node l d0 r)) ->
  exists h', (l ← LEFT (Some (iv_loc d0)); set_LEFT (Some (iv_loc d)) l;;
      set_RIGHT (Some (iv_loc d)) (Some (iv_loc d0));;
      set_LEFT (Some (iv_loc d0)) None;; mret (Some (iv_loc d), 0) : M (ptr * Z)) h =
      Val (Some (iv_loc d), 0, h') /\
    rep_tree h' (Some (iv_loc d)) (Node l d (Node Leaf d0 r)) /\
    agree_off [iv_loc d; iv_loc d0] h h'.
Proof.
  intros (_ & pl & pr & Hd0 & Hl & Hr & Hdl & Hdr & Hx)%rep_root Hd
    (Hnl & Hne & Hnr)%not_in_node.
  run_with Hd0. run_with Hd.
  pose proof (lookup_insert_eq h (iv_loc d) (cell nx pl d)) as H1. run_with H1.
  assert ((<[iv_loc d := cell (Some (iv_loc d0)) pl d]> (<[iv_loc d := cell nx pl d]> h))
    !! iv_loc d0 = Some (cell pr pl d0)) as H2 by by simplify_map_eq.
  run_with H2. eexists. split; [done|]. split.
  - apply rep_tree_join with pl (Some (iv_loc d0)).
    + by simplify_map_eq.
    + by do 3 (apply rep_tree_insert; [|done]).
    + apply rep_tree_join with None pr; [by simplify_map_eq|apply rep_tree_leaf| |set_solver|done|set_solver].
      by do 3 (apply rep_tree_insert; [|done]).
    + done.
    + simpl. apply not_elem_of_cons. done.
    + simpl. intros x Hxl [->|Hxr]%elem_of_cons; [done|]. by apply (Hx x).
  - intros x Hx'. apply not_elem_of_cons in Hx' as [? [? _]%not_elem_of_cons].
    by rewrite !lookup_insert_ne.
Qed.

(** The accepting tail of the insertion right of the root. *)
Lemma insert_after h d nx pv l d0 t2 r0 p2 :
  h !! iv_loc d0 = Some (cell r0 p2 d0) -> rep_tree h p2 l ->
  h !! iv_loc d = Some (cell nx pv d) ->
  forall pt, rep_tree h pt t2 ->
  iv_loc d ∉ locs (inorder (Node l d0 t2)) ->
  iv_loc d0 ∉ locs (inorder l) -> iv_loc d0 ∉ locs (inorder t2) ->
  (forall x, x ∈ locs (inorder l) -> x ∉ locs (inorder t2)) ->
  exists h', (set_LEFT (Some (iv_loc d)) (Some (iv_loc d0));;
      set_RIGHT (Some (iv_loc d)) pt;;
      set_RIGHT (Some (iv_loc d0)) None;; mret (Some (iv_loc d), 0) : M (ptr * Z)) h =
      Val (Some (iv_loc d), 0, h') /\
    rep_tree h' (Some (iv_loc d)) (Node (Node l d0 Leaf) d t2) /\
    agree_off [iv_loc d; iv_loc d0] h h'.
Proof.
  intros Hd0 Hl Hd pt Ht2 (Hnl & Hne & Hnr)%not_in_node Hdl Hdr Hx.
  run_with Hd.
  pose proof (lookup_insert_eq h (iv_loc d) (cell nx (Some (iv_loc d0)) d)) as H1. run_with H1.
  assert ((<[iv_loc d := cell pt (Some (iv_loc d0)) d]>
    (<[iv_loc d := cell nx (Some (iv_loc d0)) d]> h))
    !! iv_loc d0 = Some (cell r0 p2 d0)) as H2 by by simplify_map_eq.
  run_with H2. eexists. split; [done|]. split.
  - apply rep_tree_join with (Some (iv_loc d0)) pt.
    + by simplify_map_eq.
    + apply rep_tree_join with p2 None; [by simplify_map_eq| |apply rep_tree_leaf|done|set_solver|set_solver].
      by do 3 (apply rep_tree_insert; [|done]).
    + by do 3 (apply rep_tree_insert; [|done]).
    + rewrite not_in_node. set_solver.
    + done.
    + intros x. rewrite locs_node. intros [Hxl|Hxl]%elem_of_app; [by apply Hx|].
      simpl in Hxl. apply list_elem_of_singleton in Hxl as ->. done.
  - intros x Hx'. apply not_elem_of_cons in Hx' as [? [? _]%not_elem_of_cons].
    by rewrite !lookup_insert_ne.
Qed.

(** The refusing tail: the splayed right subtree is put back. *)
Lemma put_back_right h l d0 t2 r0 p2 pt code :
  h !! iv_loc d0 = Some (cell r0 p2 d0) -> rep_tree h p2 l -> rep_tree h pt t2 ->
  iv_loc d0 ∉ locs (inorder l) -> iv_loc d0 ∉ locs (inorder t2) ->
  (forall x, x ∈ locs (inorder l) -> x ∉ locs (inorder t2)) ->
  exists h', (set_RIGHT (Some (iv_loc d0)) pt;; mret (Some (iv_loc d0), code) : M (ptr * Z)) h =
      Val (Some (iv_loc d0), code, h') /\
    rep_tree h' (Some (iv_loc d0)) (Node l d0 t2) /\ agree_off [iv_loc d0] h h'.
Proof.
  intros Hd0 Hl Ht2 Hdl Hdr Hx. run_with Hd0. eexists. split; [done|]. split.
  - apply rep_tree_join with p2 pt; [by simplify_map_eq| | |done|done|done];
      by apply rep_tree_insert.
  - apply agree_off_insert. constructor.
Qed.

Lemma incl_locs_node l d r (X : list positive) :
  locs (inorder l) ⊆ X -> iv_loc d ∈ X -> locs (inorder r) ⊆ X ->
  locs (inorder (Node l d r)) ⊆ X.
Proof. rewrite locs_node. set_solver. Qed.

(** The part of the insertion that follows the comparison with the root: the
    right subtree is splayed at the root's start, which brings its leftmost
    node up, and the new node goes between the two or is refused. *)
Lemma insert_right_spec fuel junk h d nx pv l d0 r :
  rep_tree h (Some (iv_loc d0)) (Node l d0 r) ->
  (length (inorder r) <= fuel)%nat ->
  h !! iv_loc d = Some (cell nx pv d) -> iv_loc d ∉ locs (inorder (Node l d0 r)) ->
  let t2 := splay (iv_start d0) r in
  let ok := (iv_end d0 <=? iv_start d)
            && match t2 with Leaf => true | Node _ d2 _ => iv_end d <=? iv_start d2 end in
  exists h' p',
    (r ← RIGHT (Some (iv_loc d0)); rs ← START (Some (iv_loc d0));
     t ← interval_tree_splay fuel junk r rs;
     re ← END (Some (iv_loc d0));
     fits ← (if re <=? iv_start d then
               match t with
               | None => mret true
               | Some _ => ts ← START t; mret (iv_end d <=? ts)
               end
             else mret false : M bool);
     if fits : bool then
       set_LEFT (Some (iv_loc d)) (Some (iv_loc d0));;
       set_RIGHT (Some (iv_loc d)) t;;
       set_RIGHT (Some (iv_loc d0)) None;;
       mret (Some (iv_loc d), 0)
     else
       set_RIGHT (Some (iv_loc d0)) t;;
       mret (Some (iv_loc d0), 1) : M (ptr * Z)) h =
      Val (p', if ok then 0 else 1, h') /\
    rep_tree h' p' (if ok then Node (Node l d0 Leaf) d t2 else Node l d0 t2) /\
    agree_off (iv_loc d :: locs (inorder (Node l d0 r))) h h'.
Proof.
  intros Hrt Hf Hd Hfresh t2 ok.
  pose proof (rep_root _ _ _ _ _ Hrt) as (_ & pl & pr & Hd0 & Hl & Hr & Hdl & Hdr & Hx).
  pose proof Hfresh as (Hnl & Hne & Hnr)%not_in_node.
  run_with Hd0. run_with Hd0.
  destruct (splay_holds fuel junk (iv_start d0) h pr r Hr Hf) as (h2 & pt & Hrun2 & Ht2 & Ha2).
  rewrite (prog_bind_val _ _ _ _ _ Hrun2).
  pose proof (Ha2 _ Hnr) as Hd2. rewrite Hd in Hd2.
  pose proof (Ha2 _ Hdr) as Hd02. rewrite Hd0 in Hd02.
  assert (rep_tree h2 pl l) as Hl2 by by eapply rep_tree_agree.
  assert (locs (inorder t2) = locs (inorder r)) as Hlocs by (unfold t2; by rewrite splay_inorder).
  assert ((locs (inorder r)) ⊆ iv_loc d :: locs (inorder (Node l d0 r)))
    by (rewrite locs_node; set_solver).
  assert ([iv_loc d; iv_loc d0] ⊆ iv_loc d :: locs (inorder (Node l d0 r)))
    by (rewrite locs_node; set_solver).
  run_with Hd02.
  erewrite (prog_bind_val _ _ h2 ok h2).
  2: { unfold ok. fold t2 in Ht2. destruct (iv_end d0 <=? iv_start d); [|done].
       destruct t2 as [|l2 d2 r2]; [by destruct Ht2 as [-> _]|].
       apply rep_root in Ht2 as (-> & pl2 & pr2 & Hs & _). by run_with Hs. }
  assert (iv_loc d ∉ locs (inorder (Node l d0 t2))) by (rewrite not_in_node, Hlocs; done).
  rewrite <- Hlocs in Hdr, Hx. fold t2 in Ht2.
  destruct ok.
  - destruct (insert_after h2 d nx pv l d0 t2 pr pl) with (pt := pt)
      as (h3 & -> & Hrt3 & Ha3); [done..|].
    exists h3, (Some (iv_loc d)). split_and!; [done..|].
    eapply agree_off_seq; done.
  - destruct (put_back_right h2 l d0 t2 pr pl pt 1) as (h3 & -> & Hrt3 & Ha3); [done..|].
    exists h3, (Some (iv_loc d0)). split_and!; [done..|].
    eapply agree_off_seq; [done|done|set_solver..].
Qed.

(** Insertion in memory is insertion in the tree. *)
Lemma interval_tree_insert_spec fuel junk h p t d nx pv :
  rep_tree h p t -> (length (inorder t) <= fuel)%nat ->
  h !! iv_loc d = Some (cell nx pv d) -> iv_loc d ∉ locs (inorder t) ->
  exists h' p', interval_tree_insert fuel junk p (Some (iv_loc d)) h =
      Val (p', snd (tree_insert d t), h') /\
    rep_tree h' p' (fst (tree_insert d t)) /\
    agree_off (iv_loc d :: locs (inorder t)) h h'.
Proof.
  intros Hrt Hf Hd Hfresh. unfold interval_tree_insert, tree_insert.
  run_with Hd. run_with Hd.
  destruct (Z.leb_spec (iv_end d) (iv_start d)); [by exists h, p|].
  destruct p as [p|].
  2: { destruct Hrt as [Hp _]. destruct t; [|by destruct Hp].
       run_with Hd. pose proof (lookup_insert_eq h (iv_loc d) (cell nx None d)) as H1.
       run_with H1. do 2 eexists. split; [done|]. split.
       - apply rep_tree_join with None None;
           [by rewrite lookup_insert_eq|apply rep_tree_leaf|apply rep_tree_leaf|set_solver..].
       - apply agree_off_insert2; constructor. }
  destruct (splay_holds fuel junk (iv_start d) h _ t Hrt Hf) as (h1 & p1 & Hrun & Hrt1 & Ha1).
  rewrite (prog_bind_val _ _ _ _ _ Hrun).
  rewrite <- (splay_inorder (iv_start d) t) in *.
  destruct (splay (iv_start d) t) as [|l d0 r] eqn:Hsp.
  { apply splay_not_leaf in Hsp. subst t. destruct Hrt as [Hp _]. done. }
  pose proof (Ha1 _ Hfresh) as Hd1. rewrite Hd in Hd1.
  pose proof (rep_root _ _ _ _ _ Hrt1) as (-> & pl & pr & Hd0 & _).
  assert (iv_loc d0 ∈ locs (inorder (Node l d0 r))) as Hd0in
    by (rewrite locs_node; set_solver).
  run_with Hd0. destruct (Z.leb_spec (iv_end d) (iv_start d0)).
  { destruct (insert_before h1 d nx pv l d0 r) as (h2 & -> & Hrt2 & Ha2); [done..|].
    exists h2, (Some (iv_loc d)). split_and!; [done|done|].
    eapply agree_off_seq; [done|done|set_solver..]. }
  destruct (insert_right_spec fuel junk h1 d nx pv l d0 r) as (h2 & p2 & -> & Hrt2 & Ha2);
    [done| |done|done|].
  { simpl in Hf. rewrite length_app in Hf. simpl in Hf. lia. }
  exists h2, p2. cbv zeta in *.
  destruct (_ && _); (split_and!; [done..|]);
    (eapply agree_off_seq; [done|done|set_solver..]).
Qed.

(** * Deletion *)

Lemma detach_right h p l d r :
  rep_tree h p (Node l d r) ->
  exists h' pr, RIGHT p h = Val (pr, h) /\ set_RIGHT p None h = Val (tt, h') /\
    rep_tree h' p (Node l d Leaf) /\ rep_tree h' pr r /\ agree_off [iv_loc d] h h'.
Proof.
  intros (-> & pl & pr & Hd & Hl & Hr & Hdl & Hdr & Hx)%rep_root.
  do 2 eexists. rewrite (run_RIGHT _ _ _ Hd), (run_set_RIGHT _ _ _ Hd). fold_cells.
  split_and!; [done|done| |by apply rep_tree_insert|apply agree_off_insert; constructor].
  apply rep_tree_join with pl None; [by simplify_map_eq|by apply rep_tree_insert
    |apply rep_tree_leaf|done|set_solver|set_solver].
Qed.

Lemma detach_left h p l d r :
  rep_tree h p (Node l d r) ->
  exists h' pl, LEFT p h = Val (pl, h) /\ set_LEFT p None h = Val (tt, h') /\
    rep_tree h' p (Node Leaf d r) /\ rep_tree h' pl l /\ agree_off [iv_loc d] h h'.
Proof.
  intros (-> & pl & pr & Hd & Hl & Hr & Hdl & Hdr & Hx)%rep_root.
  do 2 eexists. rewrite (run_LEFT _ _ _ Hd), (run_set_LEFT _ _ _ Hd). fold_cells.
  split_and!; [done|done| |by apply rep_tree_insert|apply agree_off_insert; constructor].
  apply rep_tree_join with None pr; [by simplify_map_eq|apply rep_tree_leaf
    |by apply rep_tree_insert|set_solver|done|set_solver].
Qed.

Lemma attach_right h p l d r0 pt t :
  rep_tree h p (Node l d r0) -> rep_tree h pt t ->
  iv_loc d ∉ locs (inorder t) ->
  (forall x, x ∈ locs (inorder l) -> x ∉ locs (inorder t)) ->
  exists h', set_RIGHT p pt h = Val (tt, h') /\
    rep_tree h' p (Node l d t) /\ agree_off [iv_loc d] h h'.
Proof.
  intros (-> & pl & pr & Hd & Hl & Hr & Hdl & Hdr & _)%rep_root Ht Hdt Hx.
  eexists. rewrite (run_set_RIGHT _ _ _ Hd). fold_cells.
  split_and!; [done| |apply agree_off_insert; constructor].
  apply rep_tree_join with pl pt; [by simplify_map_eq| | |done|done|done];
    by apply rep_tree_insert.
Qed.

Lemma rep_tree_null h t : rep_tree h None t -> t = Leaf.
Proof. intros [Hrep _]. by apply (rep_leaf_iff _ _ _ Hrep). Qed.

Lemma rep_tree_nonnull h p t : rep_tree h (Some p) t -> t <> Leaf.
Proof. intros [Hrep _] Ht. apply (rep_leaf_iff _ _ _ Hrep) in Ht. done. Qed.

Section Delete.
Context (fuel : nat) (junk : interval_tree_node).

(** First phase: the nodes that end at or before the query's start leave. *)
Lemma split_spec h p t q n :
  rep_tree h p t -> t <> Leaf -> (length (inorder t) <= fuel)%nat ->
  h !! q = Some n -> q ∉ locs (inorder t) ->
  exists h' pl pr,
    (t ← interval_tree_splay fuel junk p (start n);
     te ← END t; ns ← START (Some q);
     (if te <=? ns then
        let ltree := t in
        t ← RIGHT t; set_RIGHT ltree None;; mret (ltree, t)
      else
        ltree ← LEFT t; set_LEFT t None;; mret (ltree, t)) : M (ptr * ptr)) h =
      Val (pl, pr, h') /\
    rep_tree h' pl (fst (tree_split (start n) t)) /\
    rep_tree h' pr (snd (tree_split (start n) t)) /\ agree_off (locs (inorder t)) h h'.
Proof.
  intros Hrt Hleaf Hf Hq Hnq.
  destruct (splay_holds fuel junk (start n) h p t Hrt Hf) as (h1 & p1 & Hrun & Hrt1 & Ha1).
  rewrite (prog_bind_val _ _ _ _ _ Hrun). unfold tree_split.
  pose proof (Ha1 _ Hnq) as Hq1. rewrite Hq in Hq1.
  rewrite <- (splay_inorder (start n) t) in *.
  destruct (splay (start n) t) as [|l d r] eqn:Hsp; [by apply splay_not_leaf in Hsp|].
  pose proof (rep_root _ _ _ _ _ Hrt1) as (-> & pl & pr & Hd & _).
  run_with Hd. run_with Hq1.
  assert ([iv_loc d] ⊆ locs (inorder (Node l d r))) by (rewrite locs_node; set_solver).
  destruct (iv_end d <=? start n).
  - destruct (detach_right _ _ _ _ _ Hrt1) as (h2 & pr2 & H1 & H2 & Hl2 & Hr2 & Ha2).
    rewrite (prog_bind_val _ _ _ _ _ H1). cbv zeta. rewrite (prog_bind_val _ _ _ _ _ H2).
    do 3 eexists. split_and!; [done|done|done|]. by eapply agree_off_seq.
  - destruct (detach_left _ _ _ _ _ Hrt1) as (h2 & pl2 & H1 & H2 & Hl2 & Hr2 & Ha2).
    rewrite (prog_bind_val _ _ _ _ _ H1), (prog_bind_val _ _ _ _ _ H2).
    do 3 eexists. split_and!; [done|done|done|]. by eapply agree_off_seq.
Qed.

(** Second phase: the rest is cut at the query's end. *)
Lemma cut_spec h p t q n :
  rep_tree h p t -> (length (inorder t) <= fuel)%nat ->
  h !! q = Some n -> q ∉ locs (inorder t) ->
  exists h' pl pr,
    (t ← interval_tree_splay fuel junk p (end_ n);
     match t with
     | None => mret (None, None)
     | Some _ =>
       ne ← END (Some q); ts ← START t;
       if ne <=? ts then
         del_tree ← LEFT t; set_LEFT t None;; mret (del_tree, t)
       else
         rtree ← RIGHT t; set_RIGHT t None;; mret (t, rtree)
     end : M (ptr * ptr)) h =
      Val (pl, pr, h') /\
    rep_tree h' pl (fst (tree_cut (end_ n) t)) /\
    rep_tree h' pr (snd (tree_cut (end_ n) t)) /\ agree_off (locs (inorder t)) h h'.
Proof.
  intros Hrt Hf Hq Hnq.
  destruct (splay_holds fuel junk (end_ n) h p t Hrt Hf) as (h1 & p1 & Hrun & Hrt1 & Ha1).
  rewrite (prog_bind_val _ _ _ _ _ Hrun). unfold tree_cut.
  pose proof (Ha1 _ Hnq) as Hq1. rewrite Hq in Hq1.
  rewrite <- (splay_inorder (end_ n) t) in *.
  destruct (splay (end_ n) t) as [|l d r] eqn:Hsp.
  { pose proof Hrt1 as [Hp _]. simpl in Hp. subst p1. by exists h1, None, None. }
  pose proof (rep_root _ _ _ _ _ Hrt1) as (-> & pl & pr & Hd & _).
  run_with Hq1. run_with Hd.
  assert ([iv_loc d] ⊆ locs (inorder (Node l d r))) by (rewrite locs_node; set_solver).
  destruct (end_ n <=? iv_start d).
  - destruct (detach_left _ _ _ _ _ Hrt1) as (h2 & pl2 & H1 & H2 & Hl2 & Hr2 & Ha2).
    rewrite (prog_bind_val _ _ _ _ _ H1), (prog_bind_val _ _ _ _ _ H2).
    do 3 eexists. split_and!; [done|done|done|]. by eapply agree_off_seq.
  - destruct (detach_right _ _ _ _ _ Hrt1) as (h2 & pr2 & H1 & H2 & Hl2 & Hr2 & Ha2).
    rewrite (prog_bind_val _ _ _ _ _ H1), (prog_bind_val _ _ _ _ _ H2).
    do 3 eexists. split_and!; [done|done|done|]. by eapply agree_off_seq.
Qed.

(** Third phase: the two remaining pieces are joined. *)
Lemma combine_spec h pl lt pr rt q n del_tree :
  rep_tree h pl lt -> rep_tree h pr rt -> (length (inorder lt) <= fuel)%nat ->
  (forall x, x ∈ locs (inorder lt) -> x ∉ locs (inorder rt)) ->
  h !! q = Some n -> q ∉ locs (inorder lt) ->
  exists h' p,
    (match pl with
     | None => mret (pr, del_tree)
     | Some _ =>
       match pr with
       | None => mret (pl, del_tree)
       | Some _ =>
         ne ← END (Some q);
         root ← interval_tree_splay fuel junk pl ne;
         set_RIGHT root pr;;
         mret (root, del_tree)
       end
     end : M (ptr * ptr)) h = Val (p, del_tree, h') /\
    rep_tree h' p (match lt, rt with
      | Leaf, _ => rt
      | _, Leaf => lt
      | _, _ => match splay (end_ n) lt with Leaf => Leaf | Node l d _ => Node l d rt end
      end) /\ agree_off (locs (inorder lt)) h h'.
Proof.
  intros Hl Hr Hf Hx Hq Hnq.
  destruct pl as [pl|]; [|apply rep_tree_null in Hl as ->; by exists h, pr].
  pose proof (rep_tree_nonnull _ _ _ Hl).
  destruct pr as [pr|]; [|apply rep_tree_null in Hr as ->; exists h, (Some pl); by destruct lt].
  pose proof (rep_tree_nonnull _ _ _ Hr).
  replace (match lt, rt with Leaf, _ => rt | _, Leaf => lt | _, _ =>
    match splay (end_ n) lt with Leaf => Leaf | Node l d _ => Node l d rt end end)
    with (match splay (end_ n) lt with Leaf => Leaf | Node l d _ => Node l d rt end)
    by (by destruct lt, rt).
  run_with Hq.
  destruct (splay_holds fuel junk (end_ n) h _ lt Hl Hf) as (h1 & p1 & Hrun & Hrt1 & Ha1).
  rewrite (prog_bind_val _ _ _ _ _ Hrun).
  rewrite <- (splay_inorder (end_ n) lt) in *.
  destruct (splay (end_ n) lt) as [|l d r] eqn:Hsp; [apply splay_not_leaf in Hsp; congruence|].
  destruct (attach_right h1 p1 l d r (Some pr) rt) as (h2 & H2 & Hrt2 & Ha2); [done| | | |].
  { eapply rep_tree_agree; [done..|]. intros x ??. by apply (Hx x). }
  { apply Hx. rewrite locs_node. set_solver. }
  { intros x Hxl. apply Hx. rewrite locs_node. set_solver. }
  rewrite (prog_bind_val _ _ _ _ _ H2). exists h2, p1.
  split_and!; [done|done|].
  eapply agree_off_seq; [done|done|done|]. rewrite locs_node. set_solver.
Qed.
End Delete.

Lemma combine_fst e lt rt (dt : tree) :
  fst (match lt, rt with
       | Leaf, _ => (rt, dt)
       | _, Leaf => (lt, dt)
       | _, _ => match splay e lt with Leaf => (Leaf, dt) | Node l d _ => (Node l d rt, dt) end
       end) =
  match lt, rt with
  | Leaf, _ => rt
  | _, Leaf => lt
  | _, _ => match splay e lt with Leaf => Leaf | Node l d _ => Node l d rt end
  end.
Proof. destruct lt, rt; try done. by destruct (splay e _). Qed.

Lemma combine_snd e lt rt (dt : tree) :
  snd (match lt, rt with
       | Leaf, _ => (rt, dt)
       | _, Leaf => (lt, dt)
       | _, _ => match splay e lt with Leaf => (Leaf, dt) | Node l d _ => (Node l d rt, dt) end
       end) = dt.
Proof. destruct lt, rt; try done. by destruct (splay e _). Qed.

(** Deletion in memory is deletion in the tree. *)
Lemma interval_tree_delete_spec fuel junk h p t q n :
  rep_tree h p t -> ordered (inorder t) -> (length (inorder t) <= fuel)%nat ->
  h !! q = Some n -> q ∉ locs (inorder t) ->
  exists h' p' pd, interval_tree_delete fuel junk p (Some q) h = Val (p', pd, h') /\
    rep_tree h' p' (fst (tree_delete (start n) (end_ n) t)) /\
    rep_tree h' pd (snd (tree_delete (start n) (end_ n) t)) /\
    agree_off (locs (inorder t)) h h'.
Proof.
  intros Hrt Ho Hf Hq Hnq. unfold interval_tree_delete, tree_delete.
  destruct p as [p|].
  2: { apply rep_tree_null in Hrt as ->. exists h, None, None. split_and!; [done| | |done];
       apply rep_tree_leaf. }
  pose proof (rep_tree_nonnull _ _ _ Hrt) as Hleaf.
  pose proof (proj2 Hrt) as Hnd. run_with Hq.
  destruct (split_spec fuel junk h _ t q n Hrt Hleaf Hf Hq Hnq)
    as (h1 & pl & p1 & Hrun1 & Hl1 & Ht1 & Ha1).
  rewrite (prog_bind_val _ _ _ _ _ Hrun1).
  destruct (tree_split (start n) t) as [lt t1] eqn:Hsplit.
  apply tree_split_spec in Hsplit as (Hin & _ & _); [|done].
  rewrite Hin in Ho. apply ordered_app in Ho as (_ & Ho1 & _).
  rewrite Hin, locs_app in Hnd, Hnq, Ha1 |- *. rewrite Hin, length_app in Hf.
  apply NoDup_app in Hnd as (_ & Hdisj1 & Hnd1).
  apply not_elem_of_app in Hnq as [Hnql Hnq1].
  assert (h1 !! q = Some n) as Hq1 by (rewrite Ha1; [done|set_solver]).
  run_with Hq1. simpl in Hl1, Ht1.
  destruct (cut_spec fuel junk h1 p1 t1 q n Ht1 ltac:(lia) Hq1 Hnq1)
    as (h2 & pd & pr & Hrun2 & Hd2 & Hr2 & Ha2).
  rewrite (prog_bind_val _ _ _ _ _ Hrun2).
  destruct (tree_cut (end_ n) t1) as [dt rt] eqn:Hcut.
  apply tree_cut_spec in Hcut as (Hin1 & _ & _); [|done]. simpl in Hd2, Hr2.
  rewrite Hin1, locs_app in Hdisj1, Hnq1, Ha2 |- *. rewrite Hin1, length_app in Hf.
  destruct (combine_spec fuel junk h2 pl lt pr rt q n pd) as (h3 & p3 & -> & Hrt3 & Ha3);
    [|done|lia|set_solver| |done|].
  { eapply rep_tree_agree; [done..|]. set_solver. }
  { rewrite Ha2; [done|set_solver]. }
  exists h3, p3, pd. split_and!; [done|rewrite combine_fst; done| |].
  - rewrite combine_snd. eapply rep_tree_agree; [done..|]. set_solver.
  - rewrite Hin1, locs_app in Ha1. intros x Hx.
    rewrite Ha3, Ha2, Ha1; [done|done|..]; apply not_elem_of_app in Hx as [??]; done.
Qed.

(** * The operations on ordered interval sets *)

Lemma ordered_filter (P : ivl -> Prop) `{forall x, Decision (P x)} S :
  ordered S -> ordered (filter P S).
Proof.
  induction S as [|a S IH]; [done|]. intros (Ha & HS & Hb)%ordered_cons.
  destruct (decide (P a)); [rewrite filter_cons_True by done|rewrite filter_cons_False by done; auto].
  apply ordered_cons. split_and!; [done|auto|].
  intros b [_ Hin]%list_elem_of_filter. auto.
Qed.

Lemma insert_holds fuel junk h p S d nx pv :
  holds h p S -> (length S <= fuel)%nat ->
  h !! iv_loc d = Some (cell nx pv d) -> iv_loc d ∉ locs S ->
  let ok := bool_decide (proper d) && negb (set_overlaps (iv_start d) (iv_end d) S) in
  exists h' p', interval_tree_insert fuel junk p (Some (iv_loc d)) h =
      Val (p', if ok then 0 else 1, h') /\
    holds h' p' (if ok then set_insert d S else S) /\
    agree_off (iv_loc d :: locs S) h h'.
Proof.
  intros [Ho (t & Hrt & <-)] Hf Hd Hnd ok.
  destruct (interval_tree_insert_spec fuel junk h p t d nx pv Hrt Hf Hd Hnd)
    as (h' & p' & -> & Hrt' & Ha).
  pose proof (tree_insert_spec d t Ho) as Hc. unfold insert_contract in Hc. fold ok in Hc.
  exists h', p'. destruct ok.
  - destruct Hc as (-> & Hin & Ho'). split_and!; [done|split|done].
    + by rewrite <- Hin.
    + by eexists.
  - destruct Hc as (-> & Hin). split_and!; [done|split; [done|]|done]. by eexists.
Qed.

Lemma delete_holds fuel junk h p S q n :
  holds h p S -> (length S <= fuel)%nat ->
  h !! q = Some n -> q ∉ locs S -> start n <= end_ n ->
  exists h' p' pd, interval_tree_delete fuel junk p (Some q) h = Val (p', pd, h') /\
    holds h' p' (set_kept (start n) (end_ n) S) /\
    holds h' pd (set_removed (start n) (end_ n) S) /\
    agree_off (locs S) h h'.
Proof.
  intros [Ho (t & Hrt & <-)] Hf Hq Hnq Hse.
  destruct (interval_tree_delete_spec fuel junk h p t q n Hrt Ho Hf Hq Hnq)
    as (h' & p' & pd & -> & H1 & H2 & Ha).
  destruct (tree_delete (start n) (end_ n) t) as [t1 t2] eqn:Hdel. simpl in *.
  apply tree_delete_spec in Hdel as [Hk Hr]; [|done..].
  exists h', p', pd. split_and!; [done| | |done]; (split; [by apply ordered_filter|by eexists]).
Qed.

Lemma node_make_run h s e c :
  exists l, h !! l = None /\
    node_make true s e c h = Val (Some l, <[l := cell None None (mk_ivl l s e c)]> h).
Proof. exists (fresh (dom h)). split; [apply fresh_dom_lookup|done]. Qed.

Lemma holds_locs h p S x : holds h p S -> x ∈ locs S -> is_Some (h !! x).
Proof. intros [_ (t & [Hrep _] & <-)]. by eapply rep_locs. Qed.

Lemma holds_insert h p S x n : holds h p S -> x ∉ locs S -> holds (<[x := n]> h) p S.
Proof.
  intros Hh Hx. eapply holds_agree; [done|by apply (agree_off_insert [x]); constructor|].
  intros y Hy ->%list_elem_of_singleton. done.
Qed.

Lemma set_lookup_insert addr d S :
  contains addr d = true -> set_overlaps (iv_start d) (iv_end d) S = false ->
  set_lookup addr (set_insert d S) = Some d.
Proof.
  intros Hd Ho. unfold set_lookup, set_insert. rewrite find_app, find_none_all.
  - simpl. by rewrite Hd.
  - intros a [Ha _]%list_elem_of_filter. apply contains_spec in Hd. apply not_contains. lia.
Qed.

Lemma rep_det h1 h2 p1 p2 t :
  rep h1 p1 t -> rep h2 p2 t ->
  p1 = p2 /\ forall x, x ∈ locs (inorder t) -> h1 !! x = h2 !! x.
Proof.
  revert p1 p2. induction t as [|l IHl d r IHr]; intros p1 p2; simpl.
  { intros -> ->. split; [done|]. intros x Hx. inversion Hx. }
  intros (-> & pl1 & pr1 & Hd1 & Hl1 & Hr1) (-> & pl2 & pr2 & Hd2 & Hl2 & Hr2).
  destruct (IHl _ _ Hl1 Hl2) as [-> Hl]. destruct (IHr _ _ Hr1 Hr2) as [-> Hr].
  split; [done|]. intros x. rewrite locs_app. simpl.
  intros [?|[->|?]%elem_of_cons]%elem_of_app; [by apply Hl|congruence|by apply Hr].
Qed.

Lemma length_set_insert d l : length (set_insert d l) = S (length l).
Proof.
  unfold set_insert. rewrite length_app. simpl.
  induction l as [|a l IH]; [done|].
  rewrite !filter_cons. repeat case_decide; simpl; try tauto; lia.
Qed.

Section Theorems.
Context (fuel : nat) (junk : interval_tree_node) (h : heap) (p : ptr) (S : list ivl).
Context (Hholds : holds h p S) (Hfuel : (length S <= fuel)%nat).

(** C29: on memory that holds the ordered set [S] of disjoint intervals,
    [interval_tree_lookup] returns, without fault and in a number of loop
    iterations bounded by the size of [S], the node of the unique interval that
    contains the address and its start (and null when there is none), and
    leaves memory that holds [S] under the new root with every other address
    untouched. *)
Theorem interval_tree_lookup_correct addr :
  exists h' p',
    interval_tree_lookup fuel junk p addr h =
      Val (p', iv_loc <$> set_lookup addr S, iv_start <$> set_lookup addr S, h') /\
    holds h' p' S /\ agree_off (locs S) h h'.
Proof. by apply lookup_holds. Qed.

(** C30: [interval_tree_insert] returns 1 and keeps the set when the new
    interval is empty, reversed or overlaps one of the set; otherwise it
    returns 0 and memory then holds the set with the interval at its place in
    the order.  Only the nodes of the set and the new node are written. *)
Theorem interval_tree_insert_correct d nx pv
  (Hcell : h !! iv_loc d = Some (cell nx pv d)) (Hnew : iv_loc d ∉ locs S) :
  let accepted := bool_decide (proper d) && negb (set_overlaps (iv_start d) (iv_end d) S) in
  exists h' p', interval_tree_insert fuel junk p (Some (iv_loc d)) h =
      Val (p', if accepted then 0 else 1, h') /\
    holds h' p' (if accepted then set_insert d S else S) /\
    agree_off (iv_loc d :: locs S) h h'.
Proof. by eapply insert_holds. Qed.

(** C31: [interval_tree_delete] with the query interval [start, end) splits the
    set: the new root holds exactly the intervals that do not meet the query,
    [*del_tree] exactly those that do, and nothing outside the set is written. *)
Theorem interval_tree_delete_correct q n
  (Hquery : h !! q = Some n) (Hout : q ∉ locs S) (Horder : start n <= end_ n) :
  exists h' p' pd, interval_tree_delete fuel junk p (Some q) h = Val (p', pd, h') /\
    holds h' p' (set_kept (start n) (end_ n) S) /\
    holds h' pd (set_removed (start n) (end_ n) S) /\
    agree_off (locs S) h h'.
Proof. by apply delete_holds. Qed.

(** Splaying terminates within as many iterations as there are nodes, and
    neither the bound nor the indeterminate contents of the local [dummy] can
    be observed: two runs give the same root and the same memory. *)
Theorem interval_tree_splay_deterministic fuel' junk' addr (Hfuel' : (length S <= fuel')%nat) :
  interval_tree_splay fuel junk p addr h = interval_tree_splay fuel' junk' p addr h /\
  exists p' h', interval_tree_splay fuel junk p addr h = Val (p', h') /\ holds h' p' S.
Proof.
  destruct Hholds as [Ho (t & Hrt & <-)].
  destruct (splay_holds fuel junk addr h p t Hrt Hfuel) as (h1 & p1 & -> & Hrt1 & Ha1).
  destruct (splay_holds fuel' junk' addr h p t Hrt Hfuel') as (h2 & p2 & -> & Hrt2 & Ha2).
  destruct (rep_det _ _ _ _ _ (proj1 Hrt1) (proj1 Hrt2)) as [-> Heq].
  rewrite splay_inorder in Heq. split.
  - do 2 f_equal. apply map_eq. intros x.
    destruct (decide (x ∈ locs (inorder t))); [by apply Heq|by rewrite Ha1, Ha2].
  - exists p2, h1. split; [done|]. split; [done|]. exists (splay addr t).
    split; [exact Hrt1|apply splay_inorder].
Qed.

(** A tracked allocation is found again.  After [node_make] and an accepted
    [interval_tree_insert], looking up any address of the new interval returns
    the new node and the interval's start, whatever the set held before. *)
Theorem node_make_insert_lookup s e c addr
  (Hs : s <= addr < e) (Hfree : set_overlaps s e S = false)
  (Hfuel1 : (length S < fuel)%nat) :
  exists l h' p', h !! l = None /\
    (node ← node_make true s e c;
     '(root, code) ← interval_tree_insert fuel junk p node;
     '(root, found, startaddress) ← interval_tree_lookup fuel junk root addr;
     mret (root, code, found, startaddress) : M (ptr * Z * ptr * option Z)) h =
      Val (p', 0, Some l, Some s, h') /\
    holds h' p' (set_insert (mk_ivl l s e c) S).
Proof.
  destruct (node_make_run h s e c) as (l & Hl & Hmake). set (d := mk_ivl l s e c) in *.
  rewrite (prog_bind_val _ _ _ _ _ Hmake).
  assert (l ∉ locs S) as Hnew.
  { intros Hx. destruct (holds_locs _ _ _ _ Hholds Hx). congruence. }
  destruct (insert_holds fuel junk (<[l := cell None None d]> h) p S d None None)
    as (h1 & p1 & Hins & Hh1 & Ha1);
    [by apply holds_insert|done|by rewrite lookup_insert_eq|done|].
  rewrite bool_decide_eq_true_2 in Hins, Hh1 by (unfold proper; simpl; lia).
  simpl in Hins, Hh1. rewrite Hfree in Hins, Hh1. simpl in Hins, Hh1.
  rewrite (prog_bind_val _ _ _ _ _ Hins).
  destruct (lookup_holds fuel junk addr h1 p1 _ Hh1) as (h2 & p2 & Hlook & Hh2 & _).
  { rewrite length_set_insert. lia. }
  rewrite set_lookup_insert in Hlook; [|apply contains_spec; simpl; lia|done].
  exists l, h2, p2. split; [done|]. split; [|done].
  by rewrite (prog_bind_val _ _ _ _ _ Hlook).
Qed.
End Theorems.

(** * Witnesses on a concrete heap *)

Module Examples.
Definition d1 := mk_ivl 1 10 20 7.
Definition d2 := mk_ivl 2 30 40 8.
Definition d3 := mk_ivl 3 50 60 9.
Definition set3 : list ivl := [d1; d2; d3].
Definition junk : interval_tree_node := mk_node (Some 9%positive) None 77 88 99.

(** Three nodes under the root 2, a detached node 4 and a query node 5. *)
Definition heap3 : heap :=
  list_to_map [(1%positive, cell None None d1);
               (2%positive, cell (Some 3%positive) (Some 1%positive) d2);
               (3%positive, cell None None d3);
               (4%positive, cell None None (mk_ivl 4 20 30 5));
               (5%positive, mk_node None None 35 55 0)].

Lemma heap3_holds : holds heap3 (Some 2%positive) set3.
Proof.
  split.
  - split; [repeat constructor|]. repeat constructor; unfold before; simpl; lia.
  - exists (Node (Node Leaf d1 Leaf) d2 (Node Leaf d3 Leaf)). split; [|done]. split.
    + simpl. split; [done|]. exists (Some 1%positive), (Some 3%positive).
      split_and!; [done|done| |done|]; (exists None, None; done).
    + apply (bool_decide_unpack _). by vm_compute.
Qed.

Lemma interval_tree_lookup_correct_witness :
  exists h' p', interval_tree_lookup 3 junk (Some 2%positive) 55 heap3 =
      Val (p', Some 3%positive, Some 50, h') /\
    holds h' p' set3 /\ agree_off (locs set3) heap3 h'.
Proof. apply (interval_tree_lookup_correct 3 junk heap3 _ set3 heap3_holds ltac:(simpl; lia) 55). Defined.

Lemma interval_tree_insert_correct_witness :
  exists h' p', interval_tree_insert 3 junk (Some 2%positive) (Some 4%positive) heap3 =
      Val (p', 0, h') /\
    holds h' p' [d1; mk_ivl 4 20 30 5; d2; d3] /\
    agree_off (4%positive :: locs set3) heap3 h'.
Proof.
  apply (interval_tree_insert_correct 3 junk heap3 _ set3 heap3_holds ltac:(simpl; lia)
    (mk_ivl 4 20 30 5) None None); [reflexivity|].
  apply (bool_decide_unpack _). vm_compute. exact I.
Defined.

Lemma interval_tree_delete_correct_witness :
  exists h' p' pd, interval_tree_delete 3 junk (Some 2%positive) (Some 5%positive) heap3 =
      Val (p', pd, h') /\
    holds h' p' [d1] /\ holds h' pd [d2; d3] /\ agree_off (locs set3) heap3 h'.
Proof.
  apply (interval_tree_delete_correct 3 junk heap3 _ set3 heap3_holds ltac:(simpl; lia)
    5 (mk_node None None 35 55 0)); [reflexivity| |simpl; lia].
  apply (bool_decide_unpack _). vm_compute. exact I.
Defined.

Lemma node_make_insert_lookup_witness :
  exists l h' p', heap3 !! l = None /\
    (node ← node_make true 40 50 6;
     '(root, code) ← interval_tree_insert 4 junk (Some 2%positive) node;
     '(root, found, startaddress) ← interval_tree_lookup 4 junk root 45;
     mret (root, code, found, startaddress) : M (ptr * Z * ptr * option Z)) heap3 =
      Val (p', 0, Some l, Some 40, h') /\
    holds h' p' (set_insert (mk_ivl l 40 50 6) set3).
Proof.
  apply (node_make_insert_lookup 4 junk heap3 _ set3 heap3_holds ltac:(simpl; lia)
    40 50 6 45); [lia|reflexivity|simpl; lia].
Defined.

Lemma interval_tree_splay_deterministic_witness :
  interval_tree_splay 3 junk (Some 2%positive) 55 heap3 =
    interval_tree_splay 9 (mk_node None None 0 0 0) (Some 2%positive) 55 heap3 /\
  exists p' h', interval_tree_splay 3 junk (Some 2%positive) 55 heap3 = Val (p', h') /\
    holds h' p' set3.
Proof.
  apply (interval_tree_splay_deterministic 3 junk heap3 _ set3 heap3_holds ltac:(simpl; lia)).
  simpl; lia.
Defined.
End Examples.
