(* ===== verification/PerfMmap.v ===== *)
(** The perf event ring buffer ([perf_mmap.h], [perf_mmap.cpp]).

    A mapped buffer is a control page, of which the program uses [data_head]
    and [data_tail], followed by a data area of [PERF_BUFFER_PAGES] pages.  The
    kernel appends at [data_head]; the program consumes at [data_tail].  The
    file shows that the buffer is a first-in first-out queue of bytes for any
    interleaving of the two, and what decoding a sample consumes. *)
From stdpp Require Import base numbers option list.
From Stdlib Require Import ZArith Lia.
From S2P Require Import Prelude.

(** [perf_mmap_t]: the two 64-bit counters and the bytes of the data area. *)
Record perf_mmap_t := mk_mmap {
  data_head : Z;
  data_tail : Z;
  mm_data : list Z
}.

(** [perf_event_header_t] *)
Record perf_event_header_t := mk_ehdr {
  eh_type : Z;
  eh_misc : Z;
  eh_size : Z
}.
Definition sizeof_header : Z := 8.

(** [perf_sample_data_t] *)
Record perf_sample_data_t := mk_sample {
  sd_ip : Z;
  sd_pid : Z;
  sd_tid : Z;
  sd_addr : Z;
  sd_cpu : Z;
  isPrecise : bool
}.

(** [memset(&sample_data, 0, sizeof(perf_sample_data_t))] *)
Definition zero_sample : perf_sample_data_t := mk_sample 0 0 0 0 0 false.

Definition PERF_SAMPLE_IP : Z := Z.shiftl 1 0.
Definition PERF_SAMPLE_TID : Z := Z.shiftl 1 1.
Definition PERF_SAMPLE_ADDR : Z := Z.shiftl 1 3.
Definition PERF_SAMPLE_CALLCHAIN : Z := Z.shiftl 1 5.
Definition PERF_SAMPLE_CPU : Z := Z.shiftl 1 7.
Definition PERF_RECORD_SAMPLE : Z := 9.
Definition PERF_RECORD_MISC_EXACT_IP : Z := Z.shiftl 1 14.

Definition PERF_BUFFER_PAGES : Z := 1.

Definition set_tail (v : Z) (r : perf_mmap_t) : perf_mmap_t :=
  mk_mmap (data_head r) v (mm_data r).

(** A buffer pointer is null or points to a mapping. *)
Abbreviation M := (prog (option perf_mmap_t)).

Definition deref_mmap : M perf_mmap_t := fun b =>
  match b with Some r => Val (r, b) | None => Fault UndefinedBehaviour end.

(** [memcpy(_, data + off, len)] from the data area. *)
Definition memcpy_from (data : list Z) (off len : Z) : outcome (list Z) :=
  if off + len <=? Z.of_nat (length data)
  then Val (take (Z.to_nat len) (drop (Z.to_nat off) data))
  else Fault UndefinedBehaviour.

(** Little-endian reading of an integer field. *)
Fixpoint le_combine (bs : list Z) : Z :=
  match bs with
  | [] => 0
  | b :: bs => b + 256 * le_combine bs
  end.

Fixpoint le_split (n : nat) (z : Z) : list Z :=
  match n with
  | O => []
  | S n => z mod 256 :: le_split n (z / 256)
  end.

(** The values [perf_mmap_init] gives to the globals from [sysconf]. *)
Definition perf_mmap_init (sc_pagesize : Z) : Z * Z :=
  let page_size := u32 sc_pagesize in
  (page_size, u32 (u32 (PERF_BUFFER_PAGES * page_size) - 1)).

(** [mmap] either fails or gives a mapping; the control page is then zeroed. *)
Definition perf_set_mmap (mapped : option perf_mmap_t) : option perf_mmap_t :=
  match mapped with
  | None => None
  | Some buf => Some (mk_mmap 0 0 (mm_data buf))
  end.

Section Ring.
(** The global [page_mask]. *)
Context (page_mask : Z).

Definition perf_skip_buffer_nbytes (n : Z) : M unit :=
  r ← deref_mmap;
  let n := if data_head r <? u64 (data_tail r + n)
           then u64 (data_head r - data_tail r) else n in
  prog_put (Some (set_tail (u64 (data_tail r + n)) r)).

(** The return value and the bytes stored in [buf]. *)
Definition perf_read_buffer_nbytes (n : Z) : M (Z * list Z) := fun b =>
  match b with
  | None => Val (-1, [], b)
  | Some r =>
    let bytes_available := u64 (data_head r - data_tail r) in
    if bytes_available <? n then Val (1, [], b)
    else
      let tail := Z.land (data_tail r) page_mask in
      let bytes_at_right := u64 (u32 (page_mask + 1) - tail) in
      let right := if bytes_at_right <? n then bytes_at_right else n in
      match memcpy_from (mm_data r) tail right with
      | Fault f => Fault f
      | Val bs1 =>
        match (if right <? n then memcpy_from (mm_data r) 0 (n - right) else Val []) with
        | Fault f => Fault f
        | Val bs2 => Val (0, bs1 ++ bs2, Some (set_tail (u64 (data_tail r + n)) r))
        end
      end
  end.

(** The header when the read succeeds. *)
Definition perf_read_header : M (option perf_event_header_t) :=
  '(ret, bs) ← perf_read_buffer_nbytes sizeof_header;
  if ret =? 0
  then mret (Some (mk_ehdr (le_combine (take 4 bs)) (le_combine (take 2 (drop 4 bs)))
                           (le_combine (take 2 (drop 6 bs)))))
  else mret None.

(** [COPY_SAMPLE_DATA(field, size)] *)
Definition COPY_SAMPLE_DATA (size : Z) : M Z :=
  '(ret, bs) ← perf_read_buffer_nbytes size;
  prog_lift (cxx_assert (ret =? 0));;
  mret (le_combine bs).

Definition has_flag (sample_type flag : Z) : bool := negb (Z.land sample_type flag =? 0).

Definition perf_read_record_sample (sample_type : Z) (sd : perf_sample_data_t)
  : M perf_sample_data_t :=
  sd ← (if has_flag sample_type PERF_SAMPLE_IP then
          ip ← COPY_SAMPLE_DATA 8;
          mret (mk_sample ip (sd_pid sd) (sd_tid sd) (sd_addr sd) (sd_cpu sd) (isPrecise sd))
        else mret sd);
  sd ← (if has_flag sample_type PERF_SAMPLE_TID then
          pid ← COPY_SAMPLE_DATA 4;
          tid ← COPY_SAMPLE_DATA 4;
          mret (mk_sample (sd_ip sd) pid tid (sd_addr sd) (sd_cpu sd) (isPrecise sd))
        else mret sd);
  sd ← (if has_flag sample_type PERF_SAMPLE_ADDR then
          addr ← COPY_SAMPLE_DATA 8;
          mret (mk_sample (sd_ip sd) (sd_pid sd) (sd_tid sd) addr (sd_cpu sd) (isPrecise sd))
        else mret sd);
  (if has_flag sample_type PERF_SAMPLE_CPU then
     cpu ← COPY_SAMPLE_DATA 4;
     mret (mk_sample (sd_ip sd) (sd_pid sd) (sd_tid sd) (sd_addr sd) cpu (isPrecise sd))
   else mret sd).

(** The [int] conversion of the 64-bit difference. *)
Definition perf_num_of_remaining_data : M Z :=
  r ← deref_mmap; mret (s32 (u64 (data_head r - data_tail r))).

Definition perf_skip_record (ehdr : perf_event_header_t) : M bool := fun b =>
  match b with
  | None => Val (false, b)
  | Some _ => (perf_skip_buffer_nbytes (u64 (eh_size ehdr - sizeof_header));; mret true) b
  end.

Definition perf_skip_all : M bool := fun b =>
  match b with
  | None => Val (false, b)
  | Some _ =>
    (remains ← perf_num_of_remaining_data;
     (if 0 <? remains then perf_skip_buffer_nbytes remains else mret tt);;
     mret true) b
  end.
End Ring.

(** * The queue view *)

(** A data area of [2 ^ k] bytes, at most 32-bit addressable. *)
Record ring_size (page_mask : Z) (k : Z) : Prop := mk_ring_size {
  rs_range : 0 <= k < 32;
  rs_mask : page_mask = 2 ^ k - 1
}.

(** The counters are in order and at most one data area apart. *)
Record wf_ring (k : Z) (r : perf_mmap_t) : Prop := mk_wf_ring {
  wf_tail : 0 <= data_tail r <= data_head r;
  wf_head : data_head r < 2 ^ 63;
  wf_avail : data_head r - data_tail r <= 2 ^ k;
  wf_len : Z.of_nat (length (mm_data r)) = 2 ^ k
}.

Definition byte_at (k : Z) (r : perf_mmap_t) (i : Z) : Z :=
  mm_data r !!! Z.to_nat (i mod 2 ^ k).

Definition available (r : perf_mmap_t) : Z := data_head r - data_tail r.

(** The bytes the kernel has written and the program has not consumed. *)
Definition unread (k : Z) (r : perf_mmap_t) : list Z :=
  byte_at k r <$> seqZ (data_tail r) (available r).

Lemma length_unread k r : length (unread k r) = Z.to_nat (available r).
Proof. unfold unread. by rewrite length_fmap, length_seqZ. Qed.

Lemma take_seqZ n m l : 0 <= n <= l -> take (Z.to_nat n) (seqZ m l) = seqZ m n.
Proof.
  intros H. replace l with (n + (l - n)) by lia. rewrite seqZ_app by lia.
  rewrite <- (length_seqZ m n) at 1. apply take_app_length.
Qed.

Lemma drop_seqZ n m l : 0 <= n <= l -> drop (Z.to_nat n) (seqZ m l) = seqZ (m + n) (l - n).
Proof.
  intros H. replace l with (n + (l - n)) at 1 by lia. rewrite seqZ_app by lia.
  rewrite <- (length_seqZ m n) at 1. apply drop_app_length.
Qed.

Section Queue.
Context (page_mask k : Z) (Hsize : ring_size page_mask k).

Lemma mask_mod t : Z.land t page_mask = t mod 2 ^ k.
Proof.
  destruct Hsize as [Hk ->]. replace (2 ^ k - 1) with (Z.ones k) by (rewrite Z.ones_equiv; lia).
  by rewrite Z.land_ones by lia.
Qed.

Lemma mask_size : u32 (page_mask + 1) = 2 ^ k.
Proof.
  destruct Hsize as [Hk ->]. rewrite Z.sub_add. apply u32_small. unfold is_u32.
  split; [lia|]. apply Z.pow_lt_mono_r; lia.
Qed.

Lemma size_pos : 0 < 2 ^ k <= 2 ^ 31.
Proof. destruct Hsize as [Hk _]. split; [lia|]. apply Z.pow_le_mono_r; lia. Qed.

(** A contiguous slice of the data area is a range of stream positions. *)
Lemma memcpy_slice r t n off :
  wf_ring k r -> 0 <= n -> off = t mod 2 ^ k -> off + n <= 2 ^ k ->
  memcpy_from (mm_data r) off n = Val (byte_at k r <$> seqZ t n).
Proof.
  intros Hwf Hn -> Hoff. pose proof size_pos as Hk. destruct Hwf as [_ _ _ Hlen].
  pose proof (Z.mod_pos_bound t (2 ^ k) ltac:(lia)) as Ht.
  unfold memcpy_from. rewrite Hlen. destruct (Z.leb_spec (t mod 2 ^ k + n) (2 ^ k)); [|lia].
  f_equal. apply list_eq. intros i. rewrite list_lookup_fmap.
  destruct (decide (i < Z.to_nat n)%nat) as [Hi|Hi].
  - rewrite lookup_take_lt by done. rewrite lookup_drop, lookup_seqZ_lt by lia. simpl.
    unfold byte_at. rewrite (list_lookup_lookup_total_lt (mm_data r)) by lia.
    do 2 f_equal. rewrite Z.add_mod by lia. rewrite (Z.mod_small (Z.of_nat i)) by lia.
    rewrite (Z.mod_small (_ + _)) by lia. lia.
  - rewrite lookup_take_ge by lia. rewrite lookup_seqZ_ge by lia. done.
Qed.

(** Moving the tail forward is dropping from the queue. *)
Lemma wf_set_tail r n : wf_ring k r -> 0 <= n <= available r ->
  wf_ring k (set_tail (data_tail r + n) r).
Proof. intros [? ? ? ?] ?. unfold available in *. split; simpl; lia. Qed.

Lemma unread_set_tail r n : wf_ring k r -> 0 <= n <= available r ->
  unread k (set_tail (data_tail r + n) r) = drop (Z.to_nat n) (unread k r).
Proof.
  intros _ Hn. unfold unread, available in *. simpl. rewrite <- fmap_drop, drop_seqZ by lia.
  unfold byte_at. simpl. do 2 f_equal. lia.
Qed.

Lemma available_u64 r : wf_ring k r -> u64 (data_head r - data_tail r) = available r.
Proof. intros [? ? ? ?]. apply u64_small. unfold is_u64, available. lia. Qed.

Lemma tail_u64 r n : wf_ring k r -> 0 <= n <= available r ->
  u64 (data_tail r + n) = data_tail r + n.
Proof. intros [? ? ? ?] ?. apply u64_small. unfold is_u64, available in *. lia. Qed.

Lemma read_enough r n :
  wf_ring k r -> 0 <= n <= available r ->
  perf_read_buffer_nbytes page_mask n (Some r) =
    Val (0, take (Z.to_nat n) (unread k r), Some (set_tail (data_tail r + n) r)).
Proof.
  intros Hwf Hn. pose proof size_pos as Hk. unfold perf_read_buffer_nbytes.
  rewrite available_u64, mask_mod, mask_size, tail_u64 by done.
  set (t := data_tail r). pose proof (Z.mod_pos_bound t (2 ^ k) ltac:(lia)) as Ht.
  rewrite u64_small by (unfold is_u64; lia).
  assert (available r <= 2 ^ k) by (destruct Hwf; unfold available; lia).
  destruct (Z.ltb_spec (available r) n); [lia|].
  unfold unread. rewrite <- fmap_take, take_seqZ by lia. fold t.
  destruct (Z.ltb_spec (2 ^ k - t mod 2 ^ k) n) as [Hwrap|Hfit].
  - set (m := 2 ^ k - t mod 2 ^ k) in *.
    rewrite (memcpy_slice r t) by (done || lia). destruct (Z.ltb_spec m n); [|lia].
    rewrite (memcpy_slice r (t + m)); [|done|lia| |lia].
    + replace n with (m + (n - m)) at 3 by lia. by rewrite seqZ_app, fmap_app by lia.
    + unfold m. replace (t + (2 ^ k - t mod 2 ^ k)) with (2 ^ k + (t - t mod 2 ^ k)) by lia.
      symmetry. apply Z.mod_divide; [lia|]. exists (t / 2 ^ k + 1).
      pose proof (Z.div_mod t (2 ^ k) ltac:(lia)). lia.
  - rewrite (memcpy_slice r t) by (done || lia). destruct (Z.ltb_spec n n); [lia|].
    by rewrite app_nil_r.
Qed.

Lemma read_short r n :
  wf_ring k r -> available r < n ->
  perf_read_buffer_nbytes page_mask n (Some r) = Val (1, [], Some r).
Proof.
  intros Hwf Hn. unfold perf_read_buffer_nbytes. rewrite available_u64 by done.
  destruct (Z.ltb_spec (available r) n); [done|lia].
Qed.

(** Skipping stops at the head. *)
Lemma skip_spec r n :
  wf_ring k r -> 0 <= n < 2 ^ 63 ->
  perf_skip_buffer_nbytes n (Some r) =
    Val (tt, Some (set_tail (data_tail r + Z.min n (available r)) r)).
Proof.
  intros Hwf Hn. pose proof Hwf as [? ? ? ?]. unfold perf_skip_buffer_nbytes, mbind, prog_bind.
  simpl. rewrite available_u64 by done. unfold prog_put.
  rewrite (u64_small (data_tail r + n)) by (unfold is_u64; lia).
  unfold available in *. destruct (Z.ltb_spec (data_head r) (data_tail r + n));
    rewrite u64_small by (unfold is_u64; lia); do 4 f_equal; lia.
Qed.

Lemma available_unread r : wf_ring k r -> available r = Z.of_nat (length (unread k r)).
Proof. intros [? ? ? ?]. rewrite length_unread. unfold available. lia. Qed.

(** Reading what is at the front of the queue. *)
Lemma read_app r bs rest :
  wf_ring k r -> unread k r = bs ++ rest ->
  exists r', perf_read_buffer_nbytes page_mask (Z.of_nat (length bs)) (Some r) =
      Val (0, bs, Some r') /\
    wf_ring k r' /\ unread k r' = rest /\
    data_tail r' = data_tail r + Z.of_nat (length bs) /\ data_head r' = data_head r.
Proof.
  intros Hwf Hu. pose proof (available_unread r Hwf) as Ha. rewrite Hu, length_app in Ha.
  rewrite read_enough by (done || lia). rewrite Hu, Nat2Z.id, take_app_length.
  eexists. split; [done|]. split_and!; [apply wf_set_tail; done || lia| |done|done].
  rewrite unread_set_tail by (done || lia). by rewrite Hu, Nat2Z.id, drop_app_length.
Qed.

(** * Interleavings with the kernel *)

Inductive ring_event := Written (bs : list Z) | Consumed (bs : list Z).

(** One step of the kernel or of the program.  The kernel appends to what is
    unread and keeps the tail, which only the program moves. *)
Inductive ring_step : perf_mmap_t -> ring_event -> perf_mmap_t -> Prop :=
| kernel_writes r r' bs :
    wf_ring k r' -> data_tail r' = data_tail r -> unread k r' = unread k r ++ bs ->
    ring_step r (Written bs) r'
| program_reads r r' n ret bs :
    0 <= n -> perf_read_buffer_nbytes page_mask n (Some r) = Val (ret, bs, Some r') ->
    ring_step r (Consumed bs) r'
| program_skips r r' n :
    0 <= n < 2 ^ 63 -> perf_skip_buffer_nbytes n (Some r) = Val (tt, Some r') ->
    ring_step r (Consumed (take (Z.to_nat n) (unread k r))) r'.

Inductive ring_run : perf_mmap_t -> list ring_event -> perf_mmap_t -> Prop :=
| run_nil r : ring_run r [] r
| run_cons r e r1 es r2 : ring_step r e r1 -> ring_run r1 es r2 -> ring_run r (e :: es) r2.

Definition written (es : list ring_event) : list Z :=
  es ≫= fun e => match e with Written bs => bs | Consumed _ => [] end.
Definition consumed (es : list ring_event) : list Z :=
  es ≫= fun e => match e with Written _ => [] | Consumed bs => bs end.

Lemma ring_step_queue r e r' :
  wf_ring k r -> ring_step r e r' ->
  wf_ring k r' /\ unread k r ++ written [e] = consumed [e] ++ unread k r'.
Proof.
  intros Hwf Hstep. destruct Hstep as [r r' bs Hwf' _ Hu|r r' n ret bs Hn Hr|r r' n Hn Hs];
    unfold written, consumed; simpl; rewrite ?app_nil_r.
  - by rewrite Hu.
  - destruct (Z_lt_le_dec (available r) n) as [Hlt|Hle].
    + rewrite read_short in Hr by done. injection Hr as <- <- <-. by rewrite ?app_nil_r.
    + rewrite read_enough in Hr by (done || lia). injection Hr as <- <- <-.
      split; [by apply wf_set_tail|]. rewrite unread_set_tail by (done || lia).
      by rewrite take_drop.
  - rewrite (skip_spec r n) in Hs by done. injection Hs as <-.
    assert (0 <= Z.min n (available r) <= available r)
      by (destruct Hwf; unfold available in *; lia).
    split; [by apply wf_set_tail|]. rewrite unread_set_tail by done.
    rewrite (available_unread r Hwf).
    destruct (Z.min_spec n (Z.of_nat (length (unread k r)))) as [[? ->]|[? ->]].
    + by rewrite take_drop.
    + rewrite Nat2Z.id, drop_all, app_nil_r. by rewrite take_ge by lia.
Qed.

(** * Decoding *)

Lemma le_combine_split n z : 0 <= z < 256 ^ Z.of_nat n -> le_combine (le_split n z) = z.
Proof.
  revert z. induction n as [|n IH]; intros z Hz; simpl; [change (256 ^ Z.of_nat 0) with 1 in Hz; lia|].
  rewrite Nat2Z.inj_succ, Z.pow_succ_r in Hz by lia. rewrite IH.
  - pose proof (Z.div_mod z 256 ltac:(lia)). lia.
  - split; [apply Z.div_pos; lia|]. apply Z.div_lt_upper_bound; lia.
Qed.

Lemma length_le_split n z : length (le_split n z) = n.
Proof. revert z. induction n as [|n IH]; intros z; simpl; [done|]. by rewrite IH. Qed.

Lemma copy_field r n z rest :
  wf_ring k r -> 0 <= z < 256 ^ Z.of_nat n -> unread k r = le_split n z ++ rest ->
  exists r', COPY_SAMPLE_DATA page_mask (Z.of_nat n) (Some r) = Val (z, Some r') /\
    wf_ring k r' /\ unread k r' = rest.
Proof.
  intros Hwf Hz Hu. destruct (read_app r _ _ Hwf Hu) as (r' & Hr & Hwf' & Hu' & _).
  rewrite length_le_split in Hr. exists r'. split_and!; [|done|done].
  unfold COPY_SAMPLE_DATA. rewrite (prog_bind_val _ _ _ _ _ Hr). cbn -[le_combine].
  by rewrite le_combine_split.
Qed.

(** The bytes of a header and of the fields a sample type selects. *)
Definition encode_header (e : perf_event_header_t) : list Z :=
  le_split 4 (eh_type e) ++ le_split 2 (eh_misc e) ++ le_split 2 (eh_size e).

Definition encode_sample (st : Z) (sd : perf_sample_data_t) : list Z :=
  (if has_flag st PERF_SAMPLE_IP then le_split 8 (sd_ip sd) else []) ++
  (if has_flag st PERF_SAMPLE_TID then le_split 4 (sd_pid sd) ++ le_split 4 (sd_tid sd) else []) ++
  (if has_flag st PERF_SAMPLE_ADDR then le_split 8 (sd_addr sd) else []) ++
  (if has_flag st PERF_SAMPLE_CPU then le_split 4 (sd_cpu sd) else []).

Record header_ok (e : perf_event_header_t) : Prop := mk_header_ok {
  ho_type : is_u32 (eh_type e); ho_misc : is_u16 (eh_misc e); ho_size : is_u16 (eh_size e)
}.

Record sample_ok (sd : perf_sample_data_t) : Prop := mk_sample_ok {
  so_ip : is_u64 (sd_ip sd); so_pid : is_u32 (sd_pid sd); so_tid : is_u32 (sd_tid sd);
  so_addr : is_u64 (sd_addr sd); so_cpu : is_u32 (sd_cpu sd)
}.

(** [sd] restricted to the selected fields, the others as in [old]. *)
Definition select (st : Z) (old sd : perf_sample_data_t) : perf_sample_data_t :=
  mk_sample (if has_flag st PERF_SAMPLE_IP then sd_ip sd else sd_ip old)
    (if has_flag st PERF_SAMPLE_TID then sd_pid sd else sd_pid old)
    (if has_flag st PERF_SAMPLE_TID then sd_tid sd else sd_tid old)
    (if has_flag st PERF_SAMPLE_ADDR then sd_addr sd else sd_addr old)
    (if has_flag st PERF_SAMPLE_CPU then sd_cpu sd else sd_cpu old) (isPrecise old).

Lemma read_header_encoded r e rest :
  wf_ring k r -> header_ok e -> unread k r = encode_header e ++ rest ->
  exists r', perf_read_header page_mask (Some r) = Val (Some e, Some r') /\
    wf_ring k r' /\ unread k r' = rest.
Proof.
  intros Hwf [H1 H2 H3] Hu. destruct (read_app r _ _ Hwf Hu) as (r' & Hr & Hwf' & Hu' & _).
  exists r'. split_and!; [|done|done]. unfold perf_read_header, sizeof_header.
  unfold encode_header in Hr. rewrite !length_app, !length_le_split in Hr.
  rewrite (prog_bind_val _ _ _ _ _ Hr). cbn [Z.eqb].
  rewrite take_app_length' by by rewrite length_le_split.
  rewrite drop_app_length' by by rewrite length_le_split.
  rewrite take_app_length' by by rewrite length_le_split.
  rewrite (app_assoc (le_split 4 _)), drop_app_length' by by rewrite length_app, !length_le_split.
  rewrite take_ge by by rewrite length_le_split.
  unfold is_u32, is_u16 in *. rewrite !le_combine_split by lia. by destruct e.
Qed.

(** One optional field, and the pair selected by [PERF_SAMPLE_TID]. *)
Lemma optional_field (b : bool) n upd (old : perf_sample_data_t) z r rest :
  wf_ring k r -> 0 <= z < 256 ^ Z.of_nat n ->
  unread k r = (if b then le_split n z else []) ++ rest ->
  exists r', (if b then f ← COPY_SAMPLE_DATA page_mask (Z.of_nat n); mret (upd f)
              else mret old : M perf_sample_data_t) (Some r) =
      Val (if b then upd z else old, Some r') /\ wf_ring k r' /\ unread k r' = rest.
Proof.
  intros Hwf Hz Hu. destruct b; [|by exists r].
  destruct (copy_field r n z rest Hwf Hz Hu) as (r' & Hr & ? & ?).
  exists r'. by rewrite (prog_bind_val _ _ _ _ _ Hr).
Qed.

Lemma optional_pair (b : bool) n upd (old : perf_sample_data_t) z1 z2 r rest :
  wf_ring k r -> 0 <= z1 < 256 ^ Z.of_nat n -> 0 <= z2 < 256 ^ Z.of_nat n ->
  unread k r = (if b then le_split n z1 ++ le_split n z2 else []) ++ rest ->
  exists r', (if b then f ← COPY_SAMPLE_DATA page_mask (Z.of_nat n);
                       g ← COPY_SAMPLE_DATA page_mask (Z.of_nat n); mret (upd f g)
              else mret old : M perf_sample_data_t) (Some r) =
      Val (if b then upd z1 z2 else old, Some r') /\ wf_ring k r' /\ unread k r' = rest.
Proof.
  intros Hwf Hz1 Hz2 Hu. destruct b; [|by exists r]. rewrite <- app_assoc in Hu.
  destruct (copy_field r n z1 _ Hwf Hz1 Hu) as (r1 & Hr1 & Hwf1 & Hu1).
  destruct (copy_field r1 n z2 rest Hwf1 Hz2 Hu1) as (r2 & Hr2 & ? & ?).
  exists r2. by rewrite (prog_bind_val _ _ _ _ _ Hr1), (prog_bind_val _ _ _ _ _ Hr2).
Qed.

Lemma read_sample_encoded st r old sd rest :
  wf_ring k r -> sample_ok sd -> unread k r = encode_sample st sd ++ rest ->
  exists r', perf_read_record_sample page_mask st old (Some r) =
      Val (select st old sd, Some r') /\
    wf_ring k r' /\ unread k r' = rest.
Proof.
  intros Hwf [H1 H2 H3 H4 H5] Hu. unfold is_u64, is_u32 in *.
  unfold perf_read_record_sample, encode_sample, select in *. rewrite <- !app_assoc in Hu.
  edestruct (optional_field (has_flag st PERF_SAMPLE_IP) 8
    (fun ip => mk_sample ip (sd_pid old) (sd_tid old) (sd_addr old) (sd_cpu old) (isPrecise old))
    old (sd_ip sd)) as (r1 & Hr1 & Hwf1 & Hu1); [done|lia|done|].
  rewrite (prog_bind_val _ _ _ _ _ Hr1). set (sd1 := if has_flag st PERF_SAMPLE_IP then _ else _).
  edestruct (optional_pair (has_flag st PERF_SAMPLE_TID) 4
    (fun pid tid => mk_sample (sd_ip sd1) pid tid (sd_addr sd1) (sd_cpu sd1) (isPrecise sd1))
    sd1 (sd_pid sd) (sd_tid sd)) as (r2 & Hr2 & Hwf2 & Hu2); [done|lia|lia|done|].
  rewrite (prog_bind_val _ _ _ _ _ Hr2). set (sd2 := if has_flag st PERF_SAMPLE_TID then _ else _).
  edestruct (optional_field (has_flag st PERF_SAMPLE_ADDR) 8
    (fun addr => mk_sample (sd_ip sd2) (sd_pid sd2) (sd_tid sd2) addr (sd_cpu sd2) (isPrecise sd2))
    sd2 (sd_addr sd)) as (r3 & Hr3 & Hwf3 & Hu3); [done|lia|done|].
  rewrite (prog_bind_val _ _ _ _ _ Hr3). set (sd3 := if has_flag st PERF_SAMPLE_ADDR then _ else _).
  edestruct (optional_field (has_flag st PERF_SAMPLE_CPU) 4
    (fun cpu => mk_sample (sd_ip sd3) (sd_pid sd3) (sd_tid sd3) (sd_addr sd3) cpu (isPrecise sd3))
    sd3 (sd_cpu sd)) as (r4 & Hr4 & Hwf4 & Hu4); [done|lia|done|].
  exists r4. split_and!; [|done|done]. etransitivity; [exact Hr4|]. unfold sd3, sd2, sd1. destruct old.
  by destruct (has_flag st PERF_SAMPLE_IP), (has_flag st PERF_SAMPLE_TID),
    (has_flag st PERF_SAMPLE_ADDR), (has_flag st PERF_SAMPLE_CPU).
Qed.

(** What a sample read consumes, or that it stops the process. *)
Definition sample_bytes (st : Z) : Z :=
  (if has_flag st PERF_SAMPLE_IP then 8 else 0) +
  (if has_flag st PERF_SAMPLE_TID then 8 else 0) +
  (if has_flag st PERF_SAMPLE_ADDR then 8 else 0) +
  (if has_flag st PERF_SAMPLE_CPU then 4 else 0).

(** [m] consumes exactly [c] bytes or fails its assertion for want of them. *)
Definition consumes {A} (c : Z) (m : M A) : Prop := forall r, wf_ring k r ->
  (c <= available r /\ exists a, m (Some r) = Val (a, Some (set_tail (data_tail r + c) r))) \/
  (available r < c /\ m (Some r) = Fault AssertFailure).

Lemma consumes_ret {A} (a : A) : consumes 0 (mret a).
Proof.
  intros r Hwf. left. split; [destruct Hwf; unfold available; lia|].
  exists a. rewrite Z.add_0_r. by destruct r.
Qed.

Lemma consumes_bind {A B} c d (m : M A) (f : A -> M B) :
  0 <= c -> 0 <= d -> consumes c m -> (forall a, consumes d (f a)) -> consumes (c + d) (m ≫= f).
Proof.
  intros Hc Hd Hm Hf r Hwf. destruct (Hm r Hwf) as [[Hle (a & Hrun)]|[Hlt Hrun]].
  - rewrite (prog_bind_val _ _ _ _ _ Hrun).
    destruct (Hf a _ (wf_set_tail r c Hwf ltac:(lia))) as [[Hle' (b & Hrun')]|[Hlt' Hrun']];
      unfold available in *; simpl in *.
    + left. split; [lia|]. exists b. rewrite Hrun'. unfold set_tail. simpl.
      by rewrite Z.add_assoc.
    + right. split; [lia|done].
  - right. split; [lia|]. by rewrite (prog_bind_fault _ _ _ _ Hrun).
Qed.

Lemma consumes_copy n : 0 <= n -> consumes n (COPY_SAMPLE_DATA page_mask n).
Proof.
  intros Hn r Hwf. unfold COPY_SAMPLE_DATA. destruct (Z_lt_le_dec (available r) n).
  - right. split; [done|]. by rewrite (prog_bind_val _ _ _ _ _ (read_short r n Hwf ltac:(done))).
  - left. split; [done|].
    by rewrite (prog_bind_val _ _ _ _ _ (read_enough r n Hwf ltac:(lia))); eexists.
Qed.

Lemma consumes_copy_ret {A} n (f : Z -> A) :
  0 <= n -> consumes n (x ← COPY_SAMPLE_DATA page_mask n; mret (f x)).
Proof.
  intros Hn. replace n with (n + 0) at 1 by lia.
  apply consumes_bind; [done|done|by apply consumes_copy|]. intros x. apply consumes_ret.
Qed.

Lemma consumes_if {A} (b : bool) c (m : M A) a :
  consumes c m -> consumes (if b then c else 0) (if b then m else mret a).
Proof. intros. destruct b; [done|]. apply consumes_ret. Qed.

Lemma consumes_sample st sd : consumes (sample_bytes st) (perf_read_record_sample page_mask st sd).
Proof.
  unfold sample_bytes, perf_read_record_sample. rewrite <- !Z.add_assoc.
  repeat (apply consumes_bind; [by case_match|by repeat case_match| |intros ?]).
  - apply consumes_if, consumes_copy_ret. lia.
  - apply consumes_if. apply (consumes_bind 4 4); [lia|lia|apply consumes_copy; lia|].
    intros pid. apply consumes_copy_ret. lia.
  - apply consumes_if, consumes_copy_ret. lia.
  - apply consumes_if, consumes_copy_ret. lia.
Qed.
End Queue.

Lemma ring_run_queue page_mask k r es r' :
  ring_size page_mask k -> wf_ring k r -> ring_run page_mask k r es r' ->
  wf_ring k r' /\ unread k r ++ written es = consumed es ++ unread k r'.
Proof.
  intros Hsize Hwf Hrun. induction Hrun as [r|r e r1 es r2 Hstep _ IH].
  - by rewrite app_nil_r.
  - destruct (ring_step_queue page_mask k Hsize r e r1 Hwf Hstep) as [Hwf1 He].
    destruct (IH Hwf1) as [Hwf2 Hes]. split; [done|].
    unfold written, consumed in *. simpl in *. rewrite !app_nil_r in He.
    rewrite app_assoc, He, <- !app_assoc. by f_equal.
Qed.

Section Theorems.
Context (page_mask k : Z) (Hsize : ring_size page_mask k).
Context (r : perf_mmap_t) (Hwf : wf_ring k r).

(** C9: every interleaving of kernel appends with reads and skips of the
    program, across any number of wraps of the data area, treats the buffer as
    a first-in first-out queue: what was unread followed by what was written is
    what was consumed followed by what is still unread. *)
Theorem ring_buffer_fifo es r' (Hrun : ring_run page_mask k r es r') :
  wf_ring k r' /\ unread k r ++ written es = consumed es ++ unread k r'.
Proof. by eapply ring_run_queue. Qed.

(** A read of [n] bytes returns the next [n] unread bytes and consumes
    exactly them when there are that many, also when they wrap around the end
    of the data area; otherwise it returns 1 and changes nothing. *)
Theorem perf_read_buffer_nbytes_correct n (Hn : 0 <= n) :
  perf_read_buffer_nbytes page_mask n (Some r) =
    (if n <=? available r
     then Val (0, take (Z.to_nat n) (unread k r), Some (set_tail (data_tail r + n) r))
     else Val (1, [], Some r)) /\
  (n <= available r ->
   unread k (set_tail (data_tail r + n) r) = drop (Z.to_nat n) (unread k r)).
Proof.
  split.
  - destruct (Z.leb_spec n (available r)); [by apply read_enough|by eapply read_short].
  - intros. by apply unread_set_tail.
Qed.

(** C10: a record written as a header and the fields its sample type selects, in
    the order of the code, is read back exactly, and the bytes after it are
    what the next read sees. *)
Theorem perf_read_record_roundtrip e st old sd rest
  (He : header_ok e) (Hsd : sample_ok sd)
  (Hu : unread k r = encode_header e ++ encode_sample st sd ++ rest) :
  exists r1 r2,
    perf_read_header page_mask (Some r) = Val (Some e, Some r1) /\
    perf_read_record_sample page_mask st old (Some r1) = Val (select st old sd, Some r2) /\
    wf_ring k r2 /\ unread k r2 = rest.
Proof.
  destruct (read_header_encoded page_mask k Hsize r e _ Hwf He Hu) as (r1 & Hr1 & Hwf1 & Hu1).
  destruct (read_sample_encoded page_mask k Hsize st r1 old sd _ Hwf1 Hsd Hu1)
    as (r2 & Hr2 & Hwf2 & Hu2).
  by exists r1, r2.
Qed.

(** C11: the size of a record is not consulted when a sample is decoded:
    [perf_read_record_sample] consumes exactly the 8, 8, 8 and 4 bytes of the
    selected fields (28 with the sample type that [perf_attr_init] requests,
    whose call chain and second CPU word stay in the buffer), and aborts when
    fewer are available. *)
Theorem perf_read_record_sample_consumes st sd :
  (sample_bytes st <= available r /\
   exists sd', perf_read_record_sample page_mask st sd (Some r) =
     Val (sd', Some (set_tail (data_tail r + sample_bytes st) r))) \/
  (available r < sample_bytes st /\
   perf_read_record_sample page_mask st sd (Some r) = Fault AssertFailure).
Proof. by apply (consumes_sample page_mask k Hsize st sd r). Qed.
End Theorems.

Module Examples.
(** A ring of 64 bytes whose unread record wraps around the end. *)
Definition e0 := mk_ehdr PERF_RECORD_SAMPLE 16384 36.
Definition sd0 := mk_sample 4660 77 78 3735928559 3 false.
Definition st0 : Z := Z.lor (Z.lor PERF_SAMPLE_IP PERF_SAMPLE_TID) (Z.lor PERF_SAMPLE_ADDR PERF_SAMPLE_CPU).
Definition record0 : list Z := encode_header e0 ++ encode_sample st0 sd0.
Definition ring0 : perf_mmap_t :=
  mk_mmap 136 100 (drop 28 record0 ++ replicate 28 0 ++ take 28 record0).

Lemma size6 : ring_size 63 6.
Proof. split; [lia|done]. Qed.

Lemma ring0_wf : wf_ring 6 ring0.
Proof. split; [simpl; lia|simpl; lia|simpl; lia|reflexivity]. Qed.

Lemma ring_buffer_fifo_witness :
  let r1 := set_tail 108 ring0 in
  ring_run 63 6 ring0 [Consumed (take 8 record0)] r1 /\
  wf_ring 6 r1 /\ unread 6 ring0 ++ [] = take 8 record0 ++ unread 6 r1.
Proof.
  intros r1. assert (ring_run 63 6 ring0 [Consumed (take 8 record0)] r1) as Hrun.
  { eapply run_cons; [|apply run_nil]. apply program_reads with 8 0; [lia|].
    vm_compute. reflexivity. }
  split; [exact Hrun|]. exact (ring_buffer_fifo 63 6 size6 ring0 ring0_wf _ r1 Hrun).
Defined.

Lemma perf_read_buffer_nbytes_correct_witness :
  perf_read_buffer_nbytes 63 30 (Some ring0) =
    Val (0, take 30 record0, Some (set_tail 130 ring0)).
Proof.
  destruct (perf_read_buffer_nbytes_correct 63 6 size6 ring0 ring0_wf 30 ltac:(lia)) as [H _].
  etransitivity; [exact H|]. vm_compute. reflexivity.
Defined.

Lemma perf_read_record_roundtrip_witness :
  exists r1 r2,
    perf_read_header 63 (Some ring0) = Val (Some e0, Some r1) /\
    perf_read_record_sample 63 st0 zero_sample (Some r1) = Val (sd0, Some r2) /\
    wf_ring 6 r2 /\ unread 6 r2 = [].
Proof.
  apply (perf_read_record_roundtrip 63 6 size6 ring0 ring0_wf e0 st0 zero_sample sd0 []).
  - split; vm_compute; (split; [discriminate|reflexivity]).
  - split; vm_compute; (split; [discriminate|reflexivity]).
  - vm_compute. reflexivity.
Defined.

Lemma perf_read_record_sample_consumes_witness :
  perf_read_record_sample 63 st0 zero_sample (Some (set_tail 120 ring0)) = Fault AssertFailure.
Proof.
  destruct (perf_read_record_sample_consumes 63 6 size6 (set_tail 120 ring0)
    (wf_set_tail 6 ring0 20 ring0_wf ltac:(vm_compute; split; discriminate)) st0 zero_sample)
    as [[H _]|[_ H]]; [|exact H].
  vm_compute in H. contradiction H. reflexivity.
Defined.
End Examples.
