(* ===== verification/RangeSet.v ===== *)
(** Sets of address ranges ([range.h]): a [std::map] from the start of a range
    to the range.  The operations are those of the class template; the second
    part relates them to the set of ranges and to the function from addresses
    to data that a set of disjoint ranges denotes. *)
From stdpp Require Import base numbers option list sorting strings.
From Stdlib Require Import ZArith Lia Ascii.
From S2P Require Import Prelude.
From S2P Require Import Cxx.

(** [class Range]: both bounds belong to the range. *)
Record Range (D : Type) := mk_range {
  r_start : Z;
  r_end : Z;
  r_data : D
}.
Arguments mk_range {D}.
Arguments r_start {D}.
Arguments r_end {D}.
Arguments r_data {D}.

(** [class RangeSet]: its [_start_map]. *)
Abbreviation RangeSet D := (ordmap (Range D)).

Section Operations.
Context {D : Type}.
Implicit Types m : RangeSet D.

(** The constructor of [Range] asserts the order of the bounds. *)
Definition make_range (start end_ : Z) (data : D) : outcome (Range D) :=
  cxx_assert (start <=? end_);; mret (mk_range start end_ data).

Definition isEmpty m : bool := match m with [] => true | _ => false end.

Definition insert (start end_ : Z) (data : D) m : outcome (bool * RangeSet D) :=
  r ← make_range start end_ data;
  mret (true, map_emplace start r m).

Definition getRange (probe_key : Z) m : option (Range D) :=
  match m with
  | [] => None
  | _ =>
    match upper_bound probe_key m with
    | O => None
    | S i =>
      match m !! i with
      | Some (_, r) => if r_end r <? probe_key then None else Some r
      | None => None
      end
    end
  end.

Definition getData (probe_key : Z) m : option D :=
  match getRange probe_key m with
  | Some target_range => Some (r_data target_range)
  | None => None
  end.

(** The [for] loop of [getRangesInside] from an iterator to the end. *)
Fixpoint ranges_inside_from (end_ : Z) m : list (Range D) :=
  match m with
  | [] => []
  | (_, r) :: m => if r_end r <=? end_ then r :: ranges_inside_from end_ m else []
  end.

Definition getRangesInside (start end_ : Z) m : outcome (list (Range D)) :=
  cxx_assert (start <=? end_);;
  mret (match m with
        | [] => []
        | _ => ranges_inside_from end_ (drop (lower_bound start m) m)
        end).

(** The two overloads of [remove]. *)
Definition remove_range (start end_ : Z) m : outcome (bool * RangeSet D) :=
  inside_ranges ← getRangesInside start end_ m;
  mret (match inside_ranges with
        | [r] => if (r_start r =? start) && (r_end r =? end_)
                 then (true, map_erase (r_start r) m) else (false, m)
        | _ => (false, m)
        end).

Definition remove (start : Z) m : bool * RangeSet D :=
  match getRange start m with
  | Some probe_range =>
    if r_start probe_range =? start then (true, map_erase start m) else (false, m)
  | None => (false, m)
  end.

Definition getAllRanges m : list (Range D) := snd <$> m.

(** [RangeSet::iterator]: a place of the map, its length for the end. *)
Abbreviation iterator := nat (only parsing).
Definition begin (m : RangeSet D) : iterator := O.
Definition end_of m : iterator := length m.

(** Each gives the value of the expression and the iterator after it; the end has no next
    place and the beginning none before. *)
Definition pre_increment m (it : iterator) : outcome (iterator * iterator) :=
  if (it <? length m)%nat then Val (S it, S it) else Fault UndefinedBehaviour.
Definition post_increment m (it : iterator) : outcome (iterator * iterator) :=
  if (it <? length m)%nat then Val (S it, S it) else Fault UndefinedBehaviour.
Definition pre_decrement (it : iterator) : outcome (iterator * iterator) :=
  match it with O => Fault UndefinedBehaviour | S it => Val (it, it) end.
Definition post_decrement (it : iterator) : outcome (iterator * iterator) :=
  match it with O => Fault UndefinedBehaviour | S it => Val (it, it) end.
Definition iter_eq (it other : iterator) : bool := (it =? other)%nat.
Definition deref m (it : iterator) : outcome (Range D) :=
  match m !! it with Some (_, r) => Val r | None => Fault UndefinedBehaviour end.

(** A loop from one iterator to the end, [for (; it != s.end(); it++)]. *)
Fixpoint walk (fuel : nat) m (it : iterator) : outcome (list (Range D)) :=
  if iter_eq it (end_of m) then Val [] else
  match fuel with
  | O => Fault OutOfFuel
  | S fuel =>
    r ← deref m it;
    next ← post_increment m it;
    rs ← walk fuel m (snd next);
    mret (r :: rs)
  end.
End Operations.

(** [operator<<]: one line per range. *)
Definition print_ranges {D} (print_data : D -> str) (m : RangeSet D) : str :=
  m ≫= fun e => lit "[" ++ dec (e.1) ++ lit "," ++ dec (r_end (e.2)) ++ lit "] --> " ++
    print_data (r_data (e.2)) ++ [ascii_of_nat 10].

(** * Well-formed sets *)

Record wf_set {D} (m : RangeSet D) : Prop := mk_wf_set {
  ws_sorted : sorted m;
  ws_keys : forall k r, (k, r) ∈ m -> r_start r = k /\ r_start r <= r_end r
}.

Section Facts.
Context {D : Type}.
Implicit Types (m : RangeSet D) (r : Range D).

Definition covers r (a : Z) : Prop := r_start r <= a <= r_end r.

Lemma wf_nil : wf_set ([] : ordmap (Range D)).
Proof. split; [constructor|]. by inversion 1. Qed.

Lemma wf_emplace m r : wf_set m -> r_start r <= r_end r -> wf_set (map_emplace (r_start r) r m).
Proof.
  intros [Hs Hk] Hr. split; [by apply sorted_emplace|].
  intros k r' [[= -> ->]|He]%elem_emplace; [done|by apply Hk].
Qed.

Lemma wf_erase m k : wf_set m -> wf_set (map_erase k m).
Proof.
  intros [Hs Hk]. split; [by apply sorted_erase|].
  intros k' r He%elem_erase. by apply Hk.
Qed.

(** What [getRange] selects: the range with the greatest start at or before
    the key, provided it reaches the key. *)
Lemma getRange_spec m a r :
  wf_set m ->
  getRange a m = Some r <->
  (r_start r, r) ∈ m /\ covers r a /\
  (forall k r', (k, r') ∈ m -> k <= a -> k <= r_start r).
Proof.
  intros [Hs Hk]. unfold getRange. pose proof (upper_bound_split a m Hs) as [Hle Hgt].
  assert (match m with [] => None | _ => match upper_bound a m with
    | O => None | S i => match m !! i with
      | Some (_, r) => if r_end r <? a then None else Some r | None => None end end end =
    match upper_bound a m with
    | O => None | S i => match m !! i with
      | Some (_, r) => if r_end r <? a then None else Some r | None => None end end) as ->.
  { by destruct m. }
  destruct (upper_bound a m) as [|i] eqn:Hub.
  { split; [done|]. intros (Hin & [Hc _] & _). specialize (Hgt _ Hin). simpl in Hgt. lia. }
  assert (exists e, m !! i = Some e) as [[k r0] Hi].
  { apply lookup_lt_is_Some. assert (upper_bound a m <= length m)%nat; [|lia].
    clear. induction m as [|[k v] m IH]; simpl; [lia|]. case_match; lia. }
  rewrite Hi. assert ((k, r0) ∈ m) as Hin0 by by eapply list_elem_of_lookup_2.
  destruct (Hk _ _ Hin0) as [Hstart Hr0].
  assert (k <= a) as Hka.
  { apply (Hle (k, r0)). apply list_elem_of_lookup_2 with i. rewrite lookup_take_lt by lia. done. }
  assert (forall k' r', (k', r') ∈ m -> k' <= a -> k' <= k) as Hmax.
  { intros k' r' Hin' Hle'. apply list_elem_of_lookup_1 in Hin' as [j Hj].
    destruct (decide (j < i)%nat) as [Hji|].
    { pose proof (sorted_lookup m j i _ _ Hs Hj Hi Hji). simpl in *. lia. }
    destruct (decide (j = i)) as [->|]; [assert (k' = k) by congruence; lia|].
    specialize (Hgt (k', r')). simpl in Hgt.
    enough (a < k') by lia. apply Hgt. apply list_elem_of_lookup_2 with (j - S i)%nat.
    rewrite lookup_drop. by replace (S i + (j - S i))%nat with j by lia. }
  destruct (Z.ltb_spec (r_end r0) a) as [Hend|Hend].
  - split; [done|]. intros (Hin & [Hc1 Hc2] & Hm). exfalso.
    assert (r_start r = k).
    { specialize (Hm _ _ Hin0 Hka). specialize (Hmax _ _ Hin Hc1). lia. }
    subst k. assert (r = r0) as ->; [|lia].
    apply (map_find_elem _ _ _ Hs) in Hin. apply (map_find_elem _ _ _ Hs) in Hin0.
    rewrite H, Hin0 in Hin. by injection Hin.
  - split.
    + intros [= <-]. rewrite Hstart. split_and!; [done|unfold covers; lia|done].
    + intros (Hin & [Hc1 Hc2] & Hm). f_equal.
      assert (r_start r = k) as Heq.
      { specialize (Hm _ _ Hin0 Hka). specialize (Hmax _ _ Hin Hc1). lia. }
      rewrite Heq in Hin.
      apply (map_find_elem _ _ _ Hs) in Hin. apply (map_find_elem _ _ _ Hs) in Hin0. congruence.
Qed.
End Facts.

(** * Disjoint sets denote functions *)

Definition disjoint_set {D} (m : RangeSet D) : Prop :=
  forall k1 r1 k2 r2, (k1, r1) ∈ m -> (k2, r2) ∈ m -> k1 < k2 -> r_end r1 < k2.

(** The new range meets no range of the set. *)
Definition free {D} (start end_ : Z) (m : RangeSet D) : Prop :=
  forall k r, (k, r) ∈ m -> r_end r < start \/ end_ < k.

Section Denotation.
Context {D : Type}.
Implicit Types (m : RangeSet D) (r : Range D).

Lemma disjoint_nil : disjoint_set ([] : ordmap (Range D)).
Proof. by intros ? ? ? ? ?%elem_of_nil. Qed.

Lemma free_nil start end_ : free start end_ ([] : ordmap (Range D)).
Proof. by intros ? ? ?%elem_of_nil. Qed.

Lemma disjoint_cover_unique m k1 r1 k2 r2 a :
  wf_set m -> disjoint_set m -> (k1, r1) ∈ m -> (k2, r2) ∈ m ->
  covers r1 a -> covers r2 a -> r1 = r2.
Proof.
  intros [Hs Hk] Hd H1 H2 [Hc1 Hc1'] [Hc2 Hc2'].
  destruct (Hk _ _ H1) as [E1 _]. destruct (Hk _ _ H2) as [E2 _].
  assert (k1 = k2) as ->.
  { destruct (Z.lt_trichotomy k1 k2) as [Hlt|[?|Hlt]]; [|done|].
    - specialize (Hd _ _ _ _ H1 H2 Hlt). lia.
    - specialize (Hd _ _ _ _ H2 H1 Hlt). lia. }
  apply (map_find_elem _ _ _ Hs) in H1. apply (map_find_elem _ _ _ Hs) in H2. congruence.
Qed.

Lemma getRange_disjoint m a r :
  wf_set m -> disjoint_set m ->
  getRange a m = Some r <-> (r_start r, r) ∈ m /\ covers r a.
Proof.
  intros Hwf Hd. rewrite getRange_spec by done. split; [tauto|].
  intros [Hin Hc]. split_and!; [done|done|]. intros k r' Hin' Hle.
  destruct (Z_lt_le_dec (r_start r) k) as [Hlt|]; [|done].
  specialize (Hd _ _ _ _ Hin Hin' Hlt). destruct Hc. lia.
Qed.

Lemma getData_disjoint m a d :
  wf_set m -> disjoint_set m ->
  getData a m = Some d <-> exists r, (r_start r, r) ∈ m /\ covers r a /\ r_data r = d.
Proof.
  intros Hwf Hd. unfold getData. destruct (getRange a m) as [r|] eqn:Hr.
  - apply getRange_disjoint in Hr as [Hin Hc]; [|done..]. split.
    + intros [= <-]. by exists r.
    + intros (r' & Hin' & Hc' & <-). do 2 f_equal.
      by eapply (disjoint_cover_unique m _ r _ r').
  - split; [done|]. intros (r & Hin & Hc & _).
    assert (getRange a m = Some r) by by apply getRange_disjoint. congruence.
Qed.

Lemma elem_emplace_absent start r m e :
  wf_set m -> map_find start m = None -> e ∈ map_emplace start r m <-> e = (start, r) \/ e ∈ m.
Proof.
  intros [Hs Hk] Hnone. split; [apply elem_emplace|]. intros [->|Hin].
  - apply map_find_elem; [by apply sorted_emplace|].
    rewrite map_find_emplace by done. rewrite Z.eqb_refl. by rewrite Hnone.
  - destruct e as [k r']. apply map_find_elem; [by apply sorted_emplace|].
    rewrite map_find_emplace by done. apply (map_find_elem _ _ _ Hs) in Hin.
    destruct (Z.eqb_spec k start) as [->|]; [congruence|done].
Qed.

Lemma free_absent start end_ m :
  wf_set m -> free start end_ m -> start <= end_ -> map_find start m = None.
Proof.
  intros [Hs Hk] Hf Hle. destruct (map_find start m) as [r0|] eqn:Hfind; [|done].
  apply (map_find_elem _ _ _ Hs) in Hfind. destruct (Hk _ _ Hfind). destruct (Hf _ _ Hfind); lia.
Qed.

Lemma elem_emplace_free start end_ r m e :
  wf_set m -> free start end_ m -> start <= end_ ->
  e ∈ map_emplace start r m <-> e = (start, r) \/ e ∈ m.
Proof. intros Hwf Hf Hle. apply elem_emplace_absent; [done|by eapply free_absent]. Qed.

(** No range of the set begins behind [start] and at [a] or before. *)
Definition none_between (start a : Z) (m : RangeSet D) : Prop :=
  Forall (fun e => ~ (start < e.1 <= a)) m.

#[global] Instance none_between_dec start a m : Decision (none_between start a m).
Proof. unfold none_between. apply _. Defined.

(** A range with a new start answers from its start up to the next start; behind its
    end nothing is found there, whatever was found before. *)
Lemma getData_emplace_absent start end_ d m a :
  wf_set m -> map_find start m = None -> start <= end_ ->
  getData a (map_emplace start (mk_range start end_ d) m) =
  if decide (start <= a /\ none_between start a m)
  then (if a <=? end_ then Some d else None) else getData a m.
Proof.
  intros Hwf Hnone Hle. set (r := mk_range start end_ d).
  pose proof (wf_emplace m r Hwf Hle) as Hwf'. cbn [r_start r] in Hwf'.
  assert (forall e, e ∈ map_emplace start r m <-> e = (start, r) \/ e ∈ m) as Hin'
    by (intros e; by apply elem_emplace_absent).
  unfold none_between. case_decide as Hnew.
  - destruct Hnew as [Hsa Hno]. rewrite Forall_forall in Hno. unfold getData.
    destruct (Z.leb_spec a end_) as [Ha|Ha].
    + assert (getRange a (map_emplace start r m) = Some r) as ->; [|done].
      apply getRange_spec; [done|]. split_and!; [by apply Hin'; left|done|].
      intros k r' [[= -> ->]|Hk]%Hin' Hka; [done|]. specialize (Hno _ Hk). cbn in *. lia.
    + destruct (getRange a _) as [r'|] eqn:Hr; [|done].
      apply getRange_spec in Hr as (Hr & [Hc1 Hc2] & Hmax); [|done].
      pose proof (Hmax start r ltac:(apply Hin'; by left) Hsa) as Hge.
      apply Hin' in Hr as [Hr|Hr]; [injection Hr as _ ->; cbn in *; lia|].
      specialize (Hno _ Hr). cbn in Hno. destruct Hwf as [Hs _].
      assert (r_start r' <> start) by (intros Heq; rewrite Heq in Hr; apply (map_find_elem _ _ _ Hs) in Hr; congruence).
      lia.
  - assert (start <= a -> exists k r', (k, r') ∈ m /\ start < k <= a) as Hex.
    { intros Hsa. destruct (decide (Forall (fun e => ~ (start < e.1 <= a)) m)) as [|Hno]; [tauto|].
      apply not_Forall_Exists in Hno; [|intros e; apply _]. apply Exists_exists in Hno as ([k r'] & Hk & Hno).
      exists k, r'. split; [done|]. by apply dec_stable. }
    unfold getData. f_equal. enough (getRange a (map_emplace start r m) = getRange a m) as -> by done.
    apply option_eq. intros r0. rewrite !getRange_spec by done. split.
    + intros (H0 & [Hc1 Hc2] & Hmax). apply Hin' in H0 as [H0|H0].
      * injection H0 as Heq ->. cbn in *. destruct (Hex Hc1) as (k & r' & Hk & Hk').
        specialize (Hmax k r' ltac:(apply Hin'; by right) ltac:(lia)). cbn in Hmax. lia.
      * split_and!; [done|done|]. intros k r' Hk. apply (Hmax k r'), Hin'. by right.
    + intros (H0 & Hc & Hmax). split_and!; [by apply Hin'; right|done|].
      intros k r' [[= -> ->]|Hk]%Hin' Hka; [|by eapply Hmax].
      destruct (Hex Hka) as (k' & r'' & Hk' & Hkk). specialize (Hmax k' r'' Hk' ltac:(lia)). lia.
Qed.

Lemma disjoint_emplace start end_ d m :
  wf_set m -> disjoint_set m -> free start end_ m -> start <= end_ ->
  disjoint_set (map_emplace start (mk_range start end_ d) m).
Proof.
  intros Hwf Hd Hf Hle k1 r1 k2 r2 H1 H2 Hlt.
  apply (elem_emplace_free start end_) in H1; [|done..].
  apply (elem_emplace_free start end_) in H2; [|done..].
  destruct H1 as [[= -> ->]|H1], H2 as [[= -> ->]|H2]; [lia| | |by eapply Hd].
  - simpl. destruct (Hf _ _ H2) as [H|H]; [|done].
    destruct (ws_keys _ Hwf _ _ H2). lia.
  - destruct (Hf _ _ H1) as [H|H]; [done|lia].
Qed.

Lemma getData_emplace start end_ d m a :
  wf_set m -> disjoint_set m -> free start end_ m -> start <= end_ ->
  getData a (map_emplace start (mk_range start end_ d) m) =
  if decide (start <= a <= end_) then Some d else getData a m.
Proof.
  intros Hwf Hd Hf Hle.
  pose proof (disjoint_emplace _ _ d _ Hwf Hd Hf Hle) as Hd'.
  pose proof (wf_emplace m (mk_range start end_ d) Hwf Hle) as Hwf'. simpl in Hwf'.
  case_decide as Ha.
  - apply getData_disjoint; [done..|]. exists (mk_range start end_ d).
    split_and!; [|done|done]. apply (elem_emplace_free start end_); auto.
  - apply option_eq. intros d'. rewrite !getData_disjoint by done.
    split; intros (r & Hin & Hc & <-); exists r; split_and!; try done.
    + apply (elem_emplace_free start end_) in Hin as [[= Heq ->]|]; [|done..].
      destruct Hc; simpl in *; lia.
    + apply (elem_emplace_free start end_); auto.
Qed.

(** [getRangesInside] on a disjoint set: its break on the first range that
    sticks out loses nothing. *)
Lemma ranges_inside_from_filter end_ m :
  wf_set m -> disjoint_set m ->
  ranges_inside_from end_ m = filter (fun r => r_end r <= end_) (snd <$> m).
Proof.
  induction m as [|[k r] m IH]; intros [Hs Hk] Hd; simpl; [done|].
  pose proof Hs as [Hs' Hlt]%sorted_cons_inv.
  assert (wf_set m) as Hwf' by (split; [done|intros k' r' Hin; apply (Hk k' r'); by constructor]).
  assert (disjoint_set m) as Hd' by (intros k1 r1 k2 r2 H1 H2; apply (Hd k1 r1 k2 r2); by constructor).
  rewrite filter_cons. destruct (Z.leb_spec (r_end r) end_); case_decide; try lia.
  - by rewrite IH.
  - symmetry. apply filter_none. intros r' Hin Hr'.
    apply list_elem_of_fmap in Hin as ([k' r''] & -> & Hin). simpl in Hr'.
    pose proof (Hlt _ Hin) as Hkk. simpl in Hkk.
    pose proof (Hd k r k' r'' ltac:(constructor) ltac:(by constructor) Hkk).
    destruct (Hk k' r'' ltac:(by constructor)). lia.
Qed.

Lemma fmap_filter_drop start m :
  wf_set m ->
  (snd <$> drop (lower_bound start m) m) = filter (fun r => start <= r_start r) (snd <$> m).
Proof.
  intros [Hs Hk]. pose proof (lower_bound_split start m Hs) as [H1 H2].
  rewrite <- (take_drop (lower_bound start m) m) at 3.
  rewrite fmap_app, filter_app, filter_none, filter_all; [done| |].
  - intros r ([k r'] & -> & Hin)%list_elem_of_fmap. simpl.
    destruct (Hk k r') as [-> _]; [|by apply (H2 (k, r'))].
    rewrite <- (take_drop (lower_bound start m) m). apply elem_of_app. by right.
  - intros r ([k r'] & -> & Hin)%list_elem_of_fmap Hle. simpl in Hle.
    destruct (Hk k r') as [E _]; [|specialize (H1 (k, r') Hin); simpl in *; lia].
    rewrite <- (take_drop (lower_bound start m) m). apply elem_of_app. by left.
Qed.

Lemma wf_drop n m : wf_set m -> wf_set (drop n m).
Proof.
  intros [Hs Hk]. split.
  - unfold sorted in *. rewrite <- (take_drop n m) in Hs.
    apply (proj1 (StronglySorted_app _ _ _)) in Hs. apply Hs.
  - intros k r Hin. apply (Hk k r). rewrite <- (take_drop n m). apply elem_of_app. by right.
Qed.

Lemma disjoint_drop n m : disjoint_set m -> disjoint_set (drop n m).
Proof.
  intros Hd k1 r1 k2 r2 H1 H2. apply (Hd k1 r1 k2 r2); rewrite <- (take_drop n m); apply elem_of_app; by right.
Qed.

Lemma getRangesInside_disjoint start end_ m :
  wf_set m -> disjoint_set m -> start <= end_ ->
  getRangesInside start end_ m =
    Val (filter (fun r => start <= r_start r /\ r_end r <= end_) (getAllRanges m)).
Proof.
  intros Hwf Hd Hle. unfold getRangesInside, getAllRanges.
  destruct (Z.leb_spec start end_); [|lia]. simpl.
  replace (match m with [] => [] | _ => ranges_inside_from end_ (drop (lower_bound start m) m) end)
    with (ranges_inside_from end_ (drop (lower_bound start m) m)) by by destruct m.
  rewrite ranges_inside_from_filter by by (apply wf_drop || apply disjoint_drop).
  rewrite fmap_filter_drop by done. f_equal. rewrite list_filter_filter.
  apply list_filter_iff. tauto.
Qed.
End Denotation.

Lemma getRange_key {D} (m : RangeSet D) start r :
  wf_set m -> map_find start m = Some r -> getRange start m = Some r.
Proof.
  intros Hwf Hfind. pose proof Hwf as [Hs Hk].
  apply (map_find_elem _ _ _ Hs) in Hfind. destruct (Hk _ _ Hfind) as [<- Hle].
  apply getRange_spec; [done|]. split_and!; [done|split; lia|done].
Qed.

Lemma map_erase_absent {D} (m : ordmap D) k : map_find k m = None -> map_erase k m = m.
Proof.
  induction m as [|[k' v] m IH]; simpl; [done|]. case_match; [done|]. intros H1. by rewrite IH.
Qed.

(** * The contract of the class *)

Section Theorems.
Context {D : Type} (m : RangeSet D) (Hwf : wf_set m).

(** [getRange] returns the range with the greatest start at or before the
    key when that range reaches the key, and fails otherwise. *)
Theorem getRange_correct a r :
  getRange a m = Some r <->
  (r_start r, r) ∈ m /\ r_start r <= a <= r_end r /\
  (forall k r', (k, r') ∈ m -> k <= a -> k <= r_start r).
Proof. by apply getRange_spec. Qed.

(** C32: [insert] aborts on reversed bounds, and reports success without any change
    when a range with the same start is present.  Otherwise the addresses from the new
    start up to the next start in the set answer with the new data as far as the new
    range reaches, and with nothing behind it, even where another range covers them;
    all other addresses answer as before.  On a set of disjoint ranges that are free
    around the new one this makes exactly the addresses of the new range map to its
    data. *)
Theorem insert_correct start end_ d :
  (end_ < start -> insert start end_ d m = Fault AssertFailure) /\
  (start <= end_ -> is_Some (map_find start m) -> insert start end_ d m = Val (true, m)) /\
  (start <= end_ -> map_find start m = None ->
   exists m', insert start end_ d m = Val (true, m') /\ wf_set m' /\
     forall a, getData a m' = if decide (start <= a /\ none_between start a m)
       then (if a <=? end_ then Some d else None) else getData a m) /\
  (start <= end_ -> disjoint_set m -> free start end_ m ->
   exists m', insert start end_ d m = Val (true, m') /\ wf_set m' /\ disjoint_set m' /\
     forall a, getData a m' = if decide (start <= a <= end_) then Some d else getData a m).
Proof.
  unfold insert, make_range. split_and!.
  - intros H. by destruct (Z.leb_spec start end_); [lia|].
  - intros H [r0 Hr0]. destruct (Z.leb_spec start end_); [|lia]. simpl.
    rewrite map_emplace_present; [done|apply Hwf|by eexists].
  - intros H Hn. destruct (Z.leb_spec start end_); [|lia]. simpl. eexists. split; [done|].
    split; [by apply (wf_emplace m (mk_range start end_ d))|].
    intros a. by apply getData_emplace_absent.
  - intros H Hd Hf. destruct (Z.leb_spec start end_); [|lia]. simpl. eexists. split; [done|].
    split_and!; [by apply (wf_emplace m (mk_range start end_ d))|by apply disjoint_emplace|].
    intros a. by apply getData_emplace.
Qed.

(** [remove] with a start address erases the range that begins there and
    reports whether there was one; no other entry is touched. *)
Theorem remove_correct start :
  remove start m = (bool_decide (is_Some (map_find start m)), map_erase start m) /\
  wf_set (map_erase start m) /\
  forall k, map_find k (map_erase start m) = if k =? start then None else map_find k m.
Proof.
  split_and!; [|by apply wf_erase|intros k; apply map_find_erase, Hwf]. unfold remove.
  destruct (map_find start m) as [r|] eqn:Hfind.
  - rewrite (getRange_key m start r) by done. rewrite bool_decide_eq_true_2 by by eexists.
    apply map_find_elem in Hfind; [|apply Hwf]. destruct (ws_keys _ Hwf _ _ Hfind) as [-> _].
    by rewrite Z.eqb_refl.
  - rewrite bool_decide_eq_false_2 by (intros [? [=]]). rewrite map_erase_absent by done.
    destruct (getRange start m) as [r|] eqn:Hr; [|done].
    apply getRange_spec in Hr as (Hin & _ & _); [|done].
    destruct (Z.eqb_spec (r_start r) start) as [Heq|]; [|done].
    rewrite Heq in Hin. apply map_find_elem in Hin; [congruence|apply Hwf].
Qed.

(** On disjoint ranges [getRangesInside] returns exactly the ranges that lie
    within the bounds, in order, although its loop stops at the first range
    that ends beyond them; reversed bounds abort. *)
Theorem getRangesInside_correct start end_ (Hd : disjoint_set m) :
  getRangesInside start end_ m =
  (if start <=? end_
   then Val (filter (fun r => start <= r_start r /\ r_end r <= end_) (getAllRanges m))
   else Fault AssertFailure).
Proof.
  destruct (Z.leb_spec start end_); [by apply getRangesInside_disjoint|].
  unfold getRangesInside. by destruct (Z.leb_spec start end_); [lia|].
Qed.
End Theorems.

(** * Iterators *)

Section Iteration.
Context {D : Type}.
Implicit Types m : RangeSet D.

Lemma walk_from n m it : (length m <= it + n)%nat -> (it <= length m)%nat ->
  walk n m it = Val (snd <$> drop it m).
Proof.
  revert it. induction n as [|n IH]; intros it Hn Hit; cbn [walk]; unfold iter_eq, end_of.
  - destruct (Nat.eqb_spec it (length m)) as [-> |]; [|lia]. by rewrite drop_all.
  - destruct (Nat.eqb_spec it (length m)) as [-> |Hne]; [by rewrite drop_all|].
    destruct (lookup_lt_is_Some_2 m it ltac:(lia)) as [[k r] Hr]. unfold deref. rewrite Hr.
    unfold post_increment. destruct (Nat.ltb_spec it (length m)); [|lia]. cbn.
    rewrite IH by lia. by rewrite (drop_S m (k, r) it Hr).
Qed.

(** A loop over the set meets its ranges in the order of their starts, and ends. *)
Theorem walk_all m : walk (length m) m (begin m) = Val (getAllRanges m).
Proof. by rewrite walk_from, drop_0 by (unfold begin; lia). Qed.

(** The postfix operators are no different from the prefix ones: the value of [it++] is
    the iterator after the step. *)
Theorem post_increment_moved m it v it' : post_increment m it = Val (v, it') ->
  v = S it /\ it' = S it /\ pre_increment m it = Val (v, it') /\ post_decrement it' = Val (it, it).
Proof. unfold post_increment, pre_increment. destruct (it <? length m)%nat; by intros [= <- <-]. Qed.
End Iteration.

Module Examples.
Definition m0 : RangeSet Z :=
  [(10, mk_range 10 19 1); (20, mk_range 20 29 2); (50, mk_range 50 59 3)].

Lemma m0_wf : wf_set m0.
Proof.
  split; [repeat constructor; unfold key_lt; simpl; lia|].
  intros k r H. repeat (apply elem_of_cons in H as [H|H]; [injection H as -> ->; simpl; lia|]).
  inversion H.
Qed.

Lemma m0_disjoint : disjoint_set m0.
Proof.
  intros k1 r1 k2 r2 H1 H2.
  repeat (apply elem_of_cons in H1 as [H1|H1]; [injection H1 as -> ->;
    repeat (apply elem_of_cons in H2 as [H2|H2]; [injection H2 as -> ->; simpl; lia|]);
    inversion H2|]).
  inversion H1.
Qed.

Lemma m0_free : free 30 40 m0.
Proof.
  intros k r H. repeat (apply elem_of_cons in H as [H|H]; [injection H as -> ->; simpl; lia|]).
  inversion H.
Qed.

Lemma getRange_correct_witness : getRange 55 m0 = Some (mk_range 50 59 3).
Proof.
  apply (getRange_correct m0 m0_wf). split; [|split; [simpl; lia|]].
  - do 2 constructor 2. constructor.
  - intros k r H _.
    repeat (apply elem_of_cons in H as [H|H]; [injection H as -> ->; simpl; lia|]). inversion H.
Defined.

(** A free range, and one inside of [10,19]: it hides the rest of that range. *)
Lemma insert_correct_witness :
  (exists m', insert 30 40 9 m0 = Val (true, m') /\ wf_set m' /\ disjoint_set m' /\
    forall a, getData a m' = if decide (30 <= a <= 40) then Some 9 else getData a m0) /\
  exists m', insert 12 15 9 m0 = Val (true, m') /\ getData 11 m' = Some 1 /\
    getData 14 m' = Some 9 /\ getData 17 m' = None /\ getData 17 m0 = Some 1 /\ getData 25 m' = Some 2.
Proof.
  split.
  - apply (insert_correct m0 m0_wf 30 40 9); [lia|exact m0_disjoint|exact m0_free].
  - destruct (insert_correct m0 m0_wf 12 15 9) as (_ & _ & H & _).
    destruct (H ltac:(lia) eq_refl) as (m' & Hm & _ & Hget). exists m'. rewrite !Hget.
    split; [exact Hm|]. split_and!; vm_compute; reflexivity.
Defined.

Lemma remove_correct_witness :
  remove 20 m0 = (true, [(10, mk_range 10 19 1); (50, mk_range 50 59 3)]).
Proof. exact (proj1 (remove_correct m0 m0_wf 20)). Defined.

Lemma getRangesInside_correct_witness :
  getRangesInside 12 40 m0 = Val [mk_range 20 29 2].
Proof.
  etransitivity; [exact (getRangesInside_correct m0 m0_wf 12 40 m0_disjoint)|].
  vm_compute. reflexivity.
Defined.
End Examples.
