(* ===== verification/Xml.v ===== *)
(** The XML objects of the output files ([xml.h], [xml.cpp]).

    Attributes live in an unordered map, so the order in which they are printed
    is a parameter; children live in a map ordered by their identifier.  The
    second part reads the printed text back: it determines tags, attributes and
    nesting, of texts that the format can tell apart. *)
From stdpp Require Import base numbers option list gmap strings.
From Stdlib Require Import ZArith Lia Ascii.
From S2P Require Import Prelude.
From S2P Require Import Cxx.

(** [class XMLObj]: [_tag_name], [_children_map], [_attr_map]. *)
Inductive XMLObj :=
| mk_xml (_tag_name : str) (_children_map : list (Z * XMLObj)) (_attr_map : gmap str str).

(** [XMLObj::XMLObj] *)
Definition new_XMLObj (tag_name : str) : XMLObj := mk_xml tag_name [] ∅.

Definition quote : ascii := ascii_of_nat 34.
Definition endl : ascii := ascii_of_nat 10.

Definition addAttr (key value : str) (x : XMLObj) : XMLObj :=
  let 'mk_xml t cs attrs := x in mk_xml t cs (<[key := quote :: value ++ [quote]]> attrs).

Definition addChild (id : Z) (child : XMLObj) (x : XMLObj) : XMLObj :=
  let 'mk_xml t cs attrs := x in mk_xml t (map_assign id child cs) attrs.

Definition hasAttr (key value : str) (x : XMLObj) : bool :=
  let 'mk_xml _ _ attrs := x in
  match attrs !! key with
  | None => false
  | Some v => if decide (v = value) then true else false
  end.

(** [XML_FILE_HEADER] *)
Definition XML_FILE_HEADER : str :=
  lit "<?xml version=" ++ quote :: lit "1.0" ++ quote :: lit " encoding=" ++
  quote :: lit "utf-8" ++ quote :: lit "?>".

Section Print.
(** The iteration order of [_attr_map]. *)
Context (attr_order : gmap str str -> list (str * str)).

Definition print_attrs (attrs : gmap str str) : str :=
  attr_order attrs ≫= fun e => lit " " ++ e.1 ++ lit "=" ++ e.2.

Fixpoint getXMLStr (indent_num : Z) (x : XMLObj) : str :=
  let 'mk_xml tag children attrs := x in
  let indent := replicate (Z.to_nat indent_num) " "%char in
  indent ++ lit "<" ++ tag ++ print_attrs attrs ++ lit ">" ++ [endl] ++
  (fix print_children cs := match cs with
    | [] => []
    | (_, c) :: cs => getXMLStr (u32 (indent_num + 2)) c ++ print_children cs
    end) children ++
  indent ++ lit "</" ++ tag ++ lit ">" ++ [endl].
End Print.

(** [formate_speical_char] of [util.h]. *)
Definition formate_speical_char (ori : str) : str :=
  replace_char ">"%char "-"%char (replace_char "<"%char "-"%char ori).

(** [SET_ATTR] *)
Definition SET_ATTR (key : string) (value : str) (x : XMLObj) : XMLObj := addAttr (lit key) value x.
Arguments SET_ATTR key%_string_scope.

(** * Reading the text back *)

(** The element tree of a text: the tag, the attributes with their quotes, and the
    elements inside. *)
Inductive element := Elem (tag : str) (attrs : gmap str str) (inner : list element).

Inductive token := Open (tag : str) (attrs : gmap str str) | Close (tag : str).

(** The text between the angle brackets of an opening tag, read character by character:
    the tag, and then attributes, each behind a blank, a key, [=], and a quoted value. *)
Inductive mode :=
| InTag (tag : str)
| Between (tag : str)
| InKey (tag key : str)
| BeforeValue (tag key : str)
| InValue (tag key value : str).

Fixpoint read_head (m : mode) (attrs : gmap str str) (s : str) : option (str * gmap str str) :=
  match m, s with
  | InTag t, [] => Some (t, attrs)
  | InTag t, c :: s => read_head (if decide (c = " "%char) then InKey t [] else InTag (t ++ [c])) attrs s
  | Between t, [] => Some (t, attrs)
  | Between t, c :: s => if decide (c = " "%char) then read_head (InKey t []) attrs s else None
  | InKey t k, c :: s =>
    read_head (if decide (c = "="%char) then BeforeValue t k else InKey t (k ++ [c])) attrs s
  | BeforeValue t k, c :: s => if decide (c = quote) then read_head (InValue t k []) attrs s else None
  | InValue t k v, c :: s =>
    if decide (c = quote) then read_head (Between t) (<[k := quote :: v ++ [quote]]> attrs) s
    else read_head (InValue t k (v ++ [c])) attrs s
  | _, [] => None
  end.

Fixpoint lines_of (acc : str) (s : str) : list str :=
  match s with
  | [] => []
  | c :: s => if decide (c = endl) then acc :: lines_of [] s else lines_of (acc ++ [c]) s
  end.

Fixpoint strip (s : str) : str :=
  match s with
  | c :: s' => if decide (c = " "%char) then strip s' else s
  | [] => []
  end.

(** A line holds one tag. *)
Definition token_of (line : str) : option token :=
  match strip line with
  | c :: d :: rest =>
    if decide (c = "<"%char) then
      if decide (d = "/"%char) then Some (Close (removelast rest))
      else '(tag, attrs) ← read_head (InTag []) ∅ (removelast (d :: rest)); Some (Open tag attrs)
    else None
  | _ => None
  end.

(** A stack machine: each frame is an open element and what it holds so far. *)
Definition frame : Type := str * gmap str str * list element.

Definition read_token (st : list frame) (t : token) : option (list frame) :=
  match t, st with
  | Open t attrs, _ => Some ((t, attrs, []) :: st)
  | Close t', (t, attrs, es) :: (u, bs, es') :: st =>
    if decide (t' = t) then Some ((u, bs, es' ++ [Elem t attrs es]) :: st) else None
  | Close _, _ => None
  end.

Fixpoint read_lines (st : list frame) (ls : list str) : option (list frame) :=
  match ls with
  | [] => Some st
  | l :: ls => t ← token_of l; st' ← read_token st t; read_lines st' ls
  end.

(** The elements of a whole text. *)
Definition read_text (s : str) : option (list element) :=
  match read_lines [([], ∅, [])] (lines_of [] s) with
  | Some [(_, es)] => Some es
  | _ => None
  end.

(** What the text says of an object: everything but the keys of its children, which
    only order them. *)
Fixpoint shape (x : XMLObj) : element :=
  let 'mk_xml tag children attrs := x in
  Elem tag attrs
    ((fix shapes cs := match cs with [] => [] | (_, c) :: cs => shape c :: shapes cs end) children).

Definition shapes (cs : list (Z * XMLObj)) : list element := (fun e => shape e.2) <$> cs.

Lemma shape_eq tag cs attrs : shape (mk_xml tag cs attrs) = Elem tag attrs (shapes cs).
Proof. simpl. f_equal. induction cs as [|[k c] cs IH]; simpl; [done|]. by f_equal. Qed.

(** Texts without line breaks. *)
Definition one_line (s : str) : Prop := endl ∉ s.

(** An attribute as [addAttr] makes it, of texts that the format can tell apart. *)
Definition attr_ok (key value : str) : Prop :=
  one_line key /\ "="%char ∉ key /\
  exists v, value = quote :: v ++ [quote] /\ one_line v /\ quote ∉ v.

(** A tag without blanks that does not look like a closing tag. *)
Definition tag_ok (tag : str) : Prop :=
  one_line tag /\ " "%char ∉ tag /\ exists c tag', tag = c :: tag' /\ c <> "/"%char.

Fixpoint printable (x : XMLObj) : Prop :=
  let 'mk_xml tag children attrs := x in
  tag_ok tag /\ (forall k v, attrs !! k = Some v -> attr_ok k v) /\
  (fix all cs := match cs with [] => True | (_, c) :: cs => printable c /\ all cs end) children.

Section Induction.
Context (P : XMLObj -> Prop).
Context (H : forall tag cs attrs, Forall (fun e => P e.2) cs -> P (mk_xml tag cs attrs)).
Fixpoint XMLObj_ind' (x : XMLObj) : P x :=
  match x with
  | mk_xml tag cs attrs =>
    H tag cs attrs
      ((fix all (cs : list (Z * XMLObj)) : Forall (fun e => P e.2) cs :=
         match cs with
         | [] => Forall_nil_2 _
         | (k, c) :: cs => Forall_cons_2 (fun e => P e.2) (k, c) cs (XMLObj_ind' c) (all cs)
         end) cs)
  end.
End Induction.

(** ** The opening tag *)

Lemma read_tag t attrs s rest : " "%char ∉ s ->
  read_head (InTag t) attrs (s ++ rest) = read_head (InTag (t ++ s)) attrs rest.
Proof.
  revert t. induction s as [|c s IH]; intros t Hs; cbn [app read_head]; [by rewrite app_nil_r|].
  apply not_elem_of_cons in Hs as [Hc Hs]. rewrite decide_False by done.
  rewrite IH by done. by rewrite <- app_assoc.
Qed.

Lemma read_key t k attrs s rest : "="%char ∉ s ->
  read_head (InKey t k) attrs (s ++ rest) = read_head (InKey t (k ++ s)) attrs rest.
Proof.
  revert k. induction s as [|c s IH]; intros k Hs; cbn [app read_head]; [by rewrite app_nil_r|].
  apply not_elem_of_cons in Hs as [Hc Hs]. rewrite decide_False by done.
  rewrite IH by done. by rewrite <- app_assoc.
Qed.

Lemma read_value t k v attrs s rest : quote ∉ s ->
  read_head (InValue t k v) attrs (s ++ rest) = read_head (InValue t k (v ++ s)) attrs rest.
Proof.
  revert v. induction s as [|c s IH]; intros v Hs; cbn [app read_head]; [by rewrite app_nil_r|].
  apply not_elem_of_cons in Hs as [Hc Hs]. rewrite decide_False by done.
  rewrite IH by done. by rewrite <- app_assoc.
Qed.

(** Between attributes, or at the end of the tag. *)
Definition gap (m : mode) (t : str) : Prop := m = InTag t \/ m = Between t.

Lemma read_gap_blank m t attrs rest : gap m t ->
  read_head m attrs (" "%char :: rest) = read_head (InKey t []) attrs rest.
Proof. by intros [-> | ->]. Qed.

Lemma read_gap_end m t attrs : gap m t -> read_head m attrs [] = Some (t, attrs).
Proof. by intros [-> | ->]. Qed.

Lemma read_attr m t attrs k v rest : gap m t -> attr_ok k v ->
  read_head m attrs (lit " " ++ k ++ lit "=" ++ v ++ rest) = read_head (Between t) (<[k := v]> attrs) rest.
Proof.
  intros Hm (_ & Hk & u & -> & _ & Hu). change (lit " ") with [" "%char]. change (lit "=") with ["="%char].
  cbn [app]. rewrite (read_gap_blank m t) by done. rewrite read_key by done. cbn [app read_head].
  rewrite decide_True by done. cbn [read_head]. rewrite decide_True by done.
  rewrite <- app_assoc, read_value by done. cbn [app read_head]. by rewrite decide_True.
Qed.

Lemma read_attrs m t attrs l : gap m t -> Forall (fun e => attr_ok e.1 e.2) l ->
  read_head m attrs (l ≫= fun e => lit " " ++ e.1 ++ lit "=" ++ e.2) =
  Some (t, foldl (fun attrs e => <[e.1 := e.2]> attrs) attrs l).
Proof.
  intros Hm Hl. revert m attrs Hm. induction Hl as [|[k v] l Hk _ IH]; intros m attrs Hm.
  - by apply read_gap_end.
  - cbn [mbind list_bind fst snd] in *. rewrite <- !app_assoc. cbn [fst snd] in Hk.
    rewrite (read_attr m t) by done. cbn [foldl fst snd]. apply IH. by right.
Qed.

Lemma foldl_insert_map (l : list (str * str)) (attrs : gmap str str) :
  NoDup l.*1 -> (forall k, k ∈ l.*1 -> attrs !! k = None) ->
  foldl (fun attrs e => <[e.1 := e.2]> attrs) attrs l = list_to_map l ∪ attrs.
Proof.
  revert attrs. induction l as [|[k v] l IH]; intros attrs Hnd Hnone; cbn.
  - by rewrite (left_id_L ∅ (∪)).
  - apply NoDup_cons in Hnd as [Hk Hnd]. rewrite IH; [|done|].
    + rewrite <- insert_union_l, insert_union_r; [done|]. by apply not_elem_of_list_to_map_1.
    + intros k' Hk'. rewrite lookup_insert_ne by (intros ->; done). apply Hnone. by right.
Qed.

Section RoundTrip.
Context (attr_order : gmap str str -> list (str * str)).
Context (Horder : forall m, attr_order m ≡ₚ map_to_list m).

Lemma order_attrs tag cs attrs : printable (mk_xml tag cs attrs) ->
  Forall (fun e => attr_ok e.1 e.2) (attr_order attrs).
Proof.
  intros (_ & Ha & _). apply Forall_forall. intros [k v]. rewrite Horder. intros Hin%elem_of_map_to_list.
  by apply Ha.
Qed.

(** The tag and the attributes are read back, whatever their order. *)
Lemma read_opening tag cs attrs : printable (mk_xml tag cs attrs) ->
  read_head (InTag []) ∅ (tag ++ print_attrs attr_order attrs) = Some (tag, attrs).
Proof.
  intros Hx. pose proof Hx as ((_ & Ht & _) & _). rewrite read_tag by done. cbn [app].
  unfold print_attrs. rewrite (read_attrs _ tag) by (by left || by eapply order_attrs).
  assert (NoDup (attr_order attrs).*1) as Hnd by (rewrite Horder; apply NoDup_fst_map_to_list).
  rewrite foldl_insert_map by (done || intros; apply lookup_empty).
  rewrite (right_id_L ∅ (∪)). do 2 f_equal.
  rewrite (list_to_map_proper _ _ Hnd (Horder attrs)). apply list_to_map_to_list.
Qed.

Lemma lines_of_line acc s rest :
  one_line s -> lines_of acc (s ++ endl :: rest) = (acc ++ s) :: lines_of [] rest.
Proof.
  revert acc. induction s as [|c s IH]; intros acc Hs; simpl.
  - by rewrite app_nil_r.
  - case_decide as Hc; [subst; exfalso; apply Hs; constructor|].
    rewrite IH by (intros Hin; apply Hs; by constructor). by rewrite <- app_assoc.
Qed.

Lemma strip_indent n s c : c <> " "%char -> strip (replicate n " "%char ++ c :: s) = c :: s.
Proof. intros Hc. induction n as [|n IH]; simpl; [by case_decide|done]. Qed.

Lemma removelast_snoc (s : str) c : removelast (s ++ [c]) = s.
Proof. by rewrite removelast_app, app_nil_r. Qed.

Lemma token_of_open n c s t attrs :
  c <> "/"%char -> read_head (InTag []) ∅ (c :: s) = Some (t, attrs) ->
  token_of (replicate n " "%char ++ "<"%char :: c :: s ++ [">"%char]) = Some (Open t attrs).
Proof.
  intros Hc Hh. unfold token_of. rewrite strip_indent by done.
  case_decide; [|done]. case_decide; [done|].
  change (c :: s ++ [">"%char]) with ((c :: s) ++ [">"%char]). rewrite removelast_snoc. by rewrite Hh.
Qed.

Lemma token_of_close n s :
  token_of (replicate n " "%char ++ "<"%char :: "/"%char :: s ++ [">"%char]) = Some (Close s).
Proof.
  unfold token_of. rewrite strip_indent by done. do 2 (case_decide; [|done]).
  do 2 f_equal. apply removelast_snoc.
Qed.

Lemma one_line_app s t : one_line s -> one_line t -> one_line (s ++ t).
Proof. unfold one_line. rewrite elem_of_app. tauto. Qed.

Lemma one_line_cons c s : c <> endl -> one_line s -> one_line (c :: s).
Proof. unfold one_line. rewrite elem_of_cons. intuition congruence. Qed.

Lemma one_line_replicate n : one_line (replicate n " "%char).
Proof. unfold one_line. by intros [? _]%elem_of_replicate. Qed.

Lemma one_line_nil : one_line [].
Proof. inversion 1. Qed.

Lemma one_line_attrs tag cs attrs : printable (mk_xml tag cs attrs) ->
  one_line (print_attrs attr_order attrs).
Proof.
  intros Hx%order_attrs. unfold print_attrs. induction Hx as [|[k v] l (Hk & _ & u & Hv & Hu & _) _ IH];
    [apply one_line_nil|]. cbn [mbind list_bind fst snd] in *. subst v.
  repeat first [apply one_line_app | apply one_line_cons; [done|] | apply one_line_nil | done].
Qed.

Lemma print_children_eq n (cs : list (Z * XMLObj)) :
  (fix print_children cs := match cs with
    | [] => []
    | (_, c) :: cs => getXMLStr attr_order n c ++ print_children cs
    end) cs = (cs ≫= fun e => getXMLStr attr_order n e.2).
Proof. induction cs as [|[k c] cs IH]; simpl; [done|]. by rewrite IH. Qed.

(** Reading the printed text of an object adds its shape to the open element. *)
Lemma read_printed x n t bs es st rest :
  printable x ->
  read_lines ((t, bs, es) :: st) (lines_of [] (getXMLStr attr_order n x ++ rest)) =
  read_lines ((t, bs, es ++ [shape x]) :: st) (lines_of [] rest).
Proof.
  revert n t bs es st rest. induction x as [tag cs attrs IH] using XMLObj_ind'.
  intros n t bs es st rest Hx. pose proof (read_opening tag cs attrs Hx) as Hhead.
  pose proof (one_line_attrs tag cs attrs Hx) as Ha.
  destruct Hx as ((Ht & _ & c & tag' & Hc & Hslash) & _ & Hcs).
  rewrite shape_eq. cbn [getXMLStr]. rewrite print_children_eq.
  set (ind := replicate (Z.to_nat n) " "%char).
  assert (one_line ind) by apply one_line_replicate.
  assert (forall s, one_line s -> one_line (ind ++ "<"%char :: s ++ [">"%char])) as Hline.
  { intros s Hs. apply one_line_app; [done|]. apply one_line_cons; [done|].
    apply one_line_app; [done|]. by apply one_line_cons, one_line_nil. }
  pose proof (Hline (tag ++ print_attrs attr_order attrs) ltac:(by apply one_line_app)) as Hopen.
  pose proof (Hline ("/"%char :: tag) ltac:(by apply one_line_cons)) as Hclose.
  set (body := cs ≫= _).
  replace ((ind ++ _) ++ rest) with
    ((ind ++ "<"%char :: (tag ++ print_attrs attr_order attrs) ++ [">"%char]) ++ endl ::
     body ++ (ind ++ "<"%char :: ("/"%char :: tag) ++ [">"%char]) ++ endl :: rest)
    by (unfold lit; app_norm; done).
  rewrite lines_of_line by done. rewrite Hc in Hhead |- *. cbn [app read_lines] in Hhead |- *.
  pose proof (token_of_open (Z.to_nat n) c _ _ _ Hslash Hhead) as Ho.
  fold ind in Ho. rewrite Ho. cbn [mbind option_bind read_token].
  assert (forall t bs es st rest, read_lines ((t, bs, es) :: st) (lines_of [] (body ++ rest)) =
    read_lines ((t, bs, es ++ shapes cs) :: st) (lines_of [] rest)) as ->.
  { clear -IH Hcs. unfold body, shapes. induction cs as [|[k x] cs IHcs]; intros t bs es st rest.
    - simpl. by rewrite app_nil_r.
    - destruct Hcs as [Hx Hcs]. inversion IH as [|? ? HIx HIcs]; subst. simpl.
      rewrite <- app_assoc, HIx, IHcs by done. by rewrite <- app_assoc. }
  rewrite Hc in Hclose. rewrite lines_of_line by done. cbn [app read_lines].
  pose proof (token_of_close (Z.to_nat n) (c :: tag')) as Hc'.
  fold ind in Hc'. cbn [app] in Hc'. rewrite Hc'. cbn [mbind option_bind read_token].
  by rewrite decide_True.
Qed.
End RoundTrip.

(** * Attributes and children *)

Definition attrs_of (x : XMLObj) : gmap str str := let 'mk_xml _ _ attrs := x in attrs.
Definition children_of (x : XMLObj) : list (Z * XMLObj) := let 'mk_xml _ cs _ := x in cs.

Lemma attrs_SET_ATTR k v x :
  attrs_of (SET_ATTR k v x) = <[lit k := quote :: v ++ [quote]]> (attrs_of x).
Proof. by destruct x. Qed.

Section Theorems.
Context (attr_order : gmap str str -> list (str * str)).

(** C36: whatever the order in which the attributes are printed, the text that
    [getXMLStr] prints determines the object: a reader that takes a line for a tag, and
    splits an opening tag at blanks, equals signs and quotes, rebuilds the tags, the
    whole maps of attributes and the nesting.  It needs texts that the format can tell
    apart: no line breaks, no blanks in tags, no quotes in values, and no equals signs
    in keys, none of which the printer escapes. *)
Theorem getXMLStr_roundtrip x (Horder : forall m, attr_order m ≡ₚ map_to_list m) (Hx : printable x) :
  read_text (getXMLStr attr_order 0 x) = Some [shape x].
Proof.
  unfold read_text. rewrite <- (app_nil_r (getXMLStr _ _ _)).
  rewrite read_printed by done. done.
Qed.
End Theorems.

(** [hasAttr] never recognises the value that [addAttr] has just stored,
    because [addAttr] keeps the value with its quotes and [hasAttr] compares it
    with the bare one; it does recognise the quoted value. *)
Theorem hasAttr_after_addAttr key value x :
  hasAttr key value (addAttr key value x) = false /\
  hasAttr key (quote :: value ++ [quote]) (addAttr key value x) = true.
Proof.
  destruct x as [tag cs attrs]. simpl. rewrite lookup_insert_eq. split.
  - case_decide as H; [|done]. apply (f_equal length) in H. simpl in H.
    rewrite length_app in H. simpl in H. lia.
  - by case_decide.
Qed.

Module Examples.
Definition leaf : XMLObj := SET_ATTR "id" (dec 3) (new_XMLObj (lit "metric")).
Definition doc : XMLObj := addChild 0 leaf (SET_ATTR "bci" (dec (-1)) (new_XMLObj (lit "context"))).

Lemma attr_ok_bool k v u : v = quote :: u ++ [quote] ->
  bool_decide (endl ∈ k) || bool_decide ("="%char ∈ k) || bool_decide (endl ∈ u) || bool_decide (quote ∈ u) = false ->
  attr_ok k v.
Proof.
  intros ->. rewrite !orb_false_iff, !bool_decide_eq_false. intros [[[H1 H2] H3] H4].
  split; [done|]. split; [done|]. by exists u.
Qed.

Lemma tag_ok_bool c tag : c <> "/"%char ->
  bool_decide (endl ∈ c :: tag) || bool_decide (" "%char ∈ c :: tag) = false -> tag_ok (c :: tag).
Proof.
  intros Hc. rewrite orb_false_iff, !bool_decide_eq_false. intros [H1 H2].
  split; [done|]. split; [done|]. by exists c, tag.
Qed.

Lemma doc_printable : printable doc.
Proof.
  split; [apply tag_ok_bool; [discriminate|by vm_compute]|]. split.
  { intros k v. change (attrs_of doc) with ({[lit "bci" := quote :: dec (-1) ++ [quote]]} : gmap str str).
    intros [<- <-]%lookup_singleton_Some. eapply attr_ok_bool; [reflexivity|by vm_compute]. }
  split; [|exact I]. split; [apply tag_ok_bool; [discriminate|by vm_compute]|]. split; [|exact I].
  intros k v. change (attrs_of leaf) with ({[lit "id" := quote :: dec 3 ++ [quote]]} : gmap str str).
  intros [<- <-]%lookup_singleton_Some. eapply attr_ok_bool; [reflexivity|by vm_compute].
Qed.

Lemma getXMLStr_roundtrip_witness :
  read_text (getXMLStr map_to_list 0 doc) =
    Some [Elem (lit "context") {[lit "bci" := quote :: lit "-1" ++ [quote]]}
      [Elem (lit "metric") {[lit "id" := quote :: lit "3" ++ [quote]]} []]].
Proof. etransitivity; [apply (getXMLStr_roundtrip map_to_list doc (fun _ => reflexivity _) doc_printable)|reflexivity]. Defined.

(** Without the restrictions the text does not determine the object: a quote in a value
    is not escaped. *)
Example quote_not_escaped :
  getXMLStr map_to_list 0 (SET_ATTR "b" (lit "2" ++ quote :: lit " a=" ++ quote :: lit "1") (new_XMLObj (lit "t"))) =
  getXMLStr map_to_list 0 (SET_ATTR "a" (lit "1") (SET_ATTR "b" (lit "2") (new_XMLObj (lit "t")))).
Proof. vm_compute. reflexivity. Qed.
End Examples.
