(* ===== verification/Metrics.v ===== *)
(** Metrics ([metrics.h], [metrics.cpp]): the registry of metric descriptions,
    the values attached to a calling context, and their XML form. *)
From stdpp Require Import base numbers option list gmap strings.
From Stdlib Require Import ZArith Lia.
From S2P Require Import Prelude.
From S2P Require Import Cxx.
From S2P Require Import Xml.

Inductive metric_val_enum_t := METRIC_VAL_REAL | METRIC_VAL_INT.

(** [metric_info_t] *)
Record metric_info_t := mk_metric_info {
  client_name : str;
  mi_name : str;
  threshold : Z;
  val_type : metric_val_enum_t
}.

(** * The registry: [_metric_info_list] *)

Definition registerMetric (metric_info : metric_info_t) : prog (list metric_info_t) Z :=
  fun l => let l := l ++ [metric_info] in Val (s32 (u64 (Z.of_nat (length l) - 1)), l).

Definition getMetricInfo (metric_idx : Z) (l : list metric_info_t) : option metric_info_t :=
  if (metric_idx <? 0) || (s32 (Z.of_nat (length l)) <=? metric_idx) then None
  else l !! Z.to_nat metric_idx.

Definition getNumMetrics (l : list metric_info_t) : Z := Z.of_nat (length l).

(** * Values *)

(** [metric_val_t]: precise and approximate counts. *)
Record metric_val_t := mk_val {
  val_i : Z;
  val_r : Z
}.
Definition zero_val : metric_val_t := mk_val 0 0.

(** Addition of [int64_t]: overflow is undefined. *)
Definition add64 (a b : Z) : outcome Z :=
  if (- 2 ^ 63 <=? a + b) && (a + b <? 2 ^ 63) then Val (a + b) else Fault UndefinedBehaviour.

(** [operator+=], and [operator+] with the same result. *)
Definition val_add (v1 v2 : metric_val_t) : outcome metric_val_t :=
  r ← add64 (val_r v1) (val_r v2);
  i ← add64 (val_i v1) (val_i v2);
  mret (mk_val i r).

(** [_val_list.resize(n)]: new elements are zero. *)
Definition resize (n : nat) (l : list metric_val_t) : list metric_val_t :=
  take n l ++ replicate (n - length l) zero_val.

(** [ContextMetrics::getMetricVal]: the list afterwards, with the value that
    the returned pointer addresses. *)
Definition getMetricVal (num_metrics metric_idx : Z)
  : prog (list metric_val_t) (option metric_val_t) := fun vals =>
  if (metric_idx <? 0) || (num_metrics <=? metric_idx) then Val (None, vals)
  else
    let vals := if Z.of_nat (length vals) <=? metric_idx
                then resize (Z.to_nat (metric_idx + 1)) vals else vals in
    Val (vals !! Z.to_nat metric_idx, vals).

(** [ContextMetrics::increment] *)
Definition increment (num_metrics metric_idx : Z) (val : metric_val_t)
  : prog (list metric_val_t) bool :=
  tmp_val ← getMetricVal num_metrics metric_idx;
  match tmp_val with
  | None => mret false
  | Some v =>
    v' ← prog_lift (val_add v val);
    vals ← prog_get;
    prog_put (<[Z.to_nat metric_idx := v']> vals);;
    mret true
  end.

(** * XML *)

Section XmlForm.
(** One pass of the loop body at index [i]. *)
Definition export_metric (i : Z) (v : metric_val_t) (obj : XMLObj) : XMLObj :=
  if (val_i v =? 0) && (val_r v =? 0) then obj
  else
    let child_obj := SET_ATTR "id" (dec i) (new_XMLObj (lit "metric")) in
    let child_obj :=
      if negb (val_i v =? 0)
      then SET_ATTR "value2" (dec (-1)) (SET_ATTR "value1" (dec (val_i v)) child_obj)
      else child_obj in
    let child_obj :=
      if negb (val_r v =? 0)
      then SET_ATTR "value2" (dec (val_r v)) (SET_ATTR "value1" (dec (-1)) child_obj)
      else child_obj in
    addChild i child_obj obj.

Fixpoint export_metrics (i : Z) (vals : list metric_val_t) (obj : XMLObj) : XMLObj :=
  match vals with
  | [] => obj
  | v :: vals => export_metrics (i + 1) vals (export_metric i v obj)
  end.

(** [createXMLObj<ContextMetrics>]: null when the list of values is empty. *)
Definition createXMLObj_ContextMetrics (vals : list metric_val_t) : option XMLObj :=
  let isLargeRedundancy := match vals with [] => false | _ => true end in
  let obj := export_metrics 0 vals (new_XMLObj (lit "metrics")) in
  if isLargeRedundancy then Some obj else None.
End XmlForm.

(** * Properties *)

Definition val_at (vals : list metric_val_t) (i : nat) : metric_val_t := default zero_val (vals !! i).

Lemma length_resize n l : length (resize n l) = n.
Proof. unfold resize. rewrite length_app, length_take, length_replicate. lia. Qed.

Lemma val_at_resize n l i : (length l <= n)%nat -> val_at (resize n l) i = val_at l i.
Proof.
  intros Hn. unfold val_at, resize. rewrite take_ge by lia.
  destruct (decide (i < length l)%nat).
  - by rewrite lookup_app_l by lia.
  - rewrite lookup_app_r, (lookup_ge_None_2 l) by lia.
    destruct (replicate _ _ !! _) as [x|] eqn:Hx; [|done].
    by apply lookup_replicate in Hx as [-> _].
Qed.

Lemma getMetricVal_run num idx vals :
  0 <= idx < num ->
  exists vals', getMetricVal num idx vals = Val (Some (val_at vals (Z.to_nat idx)), vals') /\
    (Z.to_nat idx < length vals')%nat /\ forall i, val_at vals' i = val_at vals i.
Proof.
  intros Hidx. unfold getMetricVal.
  destruct (Z.ltb_spec idx 0); [lia|]. destruct (Z.leb_spec num idx); [lia|]. simpl.
  destruct (Z.leb_spec (Z.of_nat (length vals)) idx).
  - set (vals' := resize _ _). exists vals'.
    assert (Z.to_nat idx < length vals')%nat as Hlen
      by (unfold vals'; rewrite length_resize; lia).
    assert (forall i, val_at vals' i = val_at vals i) as Hval
      by (intros; apply val_at_resize; lia).
    split_and!; [|done|done]. do 2 f_equal. rewrite <- Hval. unfold val_at.
    by destruct (lookup_lt_is_Some_2 _ _ Hlen) as [x ->].
  - exists vals. assert (Z.to_nat idx < length vals)%nat as Hlen by lia.
    split_and!; [|done|done]. do 2 f_equal. unfold val_at.
    by destruct (lookup_lt_is_Some_2 _ _ Hlen) as [x ->].
Qed.

Lemma lookup_insert_val (vals : list metric_val_t) i v j :
  (i < length vals)%nat ->
  val_at (<[i := v]> vals) j = if decide (j = i) then v else val_at vals j.
Proof.
  intros Hi. unfold val_at. case_decide as Hj.
  - subst. by rewrite list_lookup_insert_eq.
  - by rewrite list_lookup_insert_ne by done.
Qed.

Definition in64 (z : Z) : Prop := - 2 ^ 63 <= z < 2 ^ 63.

Lemma add64_ok a b : in64 (a + b) -> add64 a b = Val (a + b).
Proof.
  intros [H1 H2]. unfold add64. destruct (Z.leb_spec (- 2 ^ 63) (a + b)); [|lia].
  destruct (Z.ltb_spec (a + b) (2 ^ 63)); [done|lia].
Qed.

(** The element that stands for a value that is not zero. *)
Definition metric_child (i : Z) (v : metric_val_t) : XMLObj :=
  mk_xml (lit "metric") []
    (let quoted s := quote :: s ++ [quote] in
     let lost := negb (val_r v =? 0) in
     <[lit "value2" := quoted (if lost then dec (val_r v) else dec (-1))]>
     (<[lit "value1" := quoted (if lost then dec (-1) else dec (val_i v))]>
     {[lit "id" := quoted (dec i)]})).

Lemma export_metric_eq i v obj :
  export_metric i v obj =
  if (val_i v =? 0) && (val_r v =? 0) then obj else addChild i (metric_child i v) obj.
Proof.
  unfold export_metric, metric_child.
  by destruct (val_i v =? 0), (val_r v =? 0).
Qed.

Lemma export_sorted i v obj :
  sorted (children_of obj) -> sorted (children_of (export_metric i v obj)).
Proof.
  intros Hs. rewrite export_metric_eq. case_match; [done|]. destruct obj. simpl in *.
  by apply sorted_assign.
Qed.

Lemma export_metrics_find i vals obj j :
  sorted (children_of obj) ->
  map_find j (children_of (export_metrics i vals obj)) =
  (if (i <=? j) && (j <? i + Z.of_nat (length vals)) then
     let v := val_at vals (Z.to_nat (j - i)) in
     if (val_i v =? 0) && (val_r v =? 0) then map_find j (children_of obj)
     else Some (metric_child j v)
   else map_find j (children_of obj)).
Proof.
  revert i obj. induction vals as [|v vals IH]; intros i obj Hs; cbn [export_metrics length].
  { destruct (Z.leb_spec i j), (Z.ltb_spec j (i + Z.of_nat 0)); (done || lia). }
  rewrite IH by by apply export_sorted.
  assert (map_find j (children_of (export_metric i v obj)) =
    if decide (j = i) then
      if (val_i v =? 0) && (val_r v =? 0) then map_find j (children_of obj)
      else Some (metric_child j v)
    else map_find j (children_of obj)) as ->.
  { rewrite export_metric_eq. case_match; [by case_decide|]. destruct obj as [t cs a]. simpl in *.
    rewrite map_find_assign by done. case_decide as Hj; [subst; by rewrite Z.eqb_refl|].
    by destruct (Z.eqb_spec j i). }
  case_decide as Hj.
  - subst. destruct (Z.leb_spec (i + 1) i); [lia|]. simpl.
    destruct (Z.leb_spec i i); [|lia]. destruct (Z.ltb_spec i (i + Z.of_nat (S (length vals)))); [|lia].
    by rewrite Z.sub_diag.
  - assert ((i + 1 <=? j) && (j <? i + 1 + Z.of_nat (length vals)) =
            (i <=? j) && (j <? i + Z.of_nat (S (length vals)))) as ->.
    { apply eq_true_iff_eq. rewrite !andb_true_iff, !Z.leb_le, !Z.ltb_lt. lia. }
    case_match eqn:Hr; [|done].
    apply andb_true_iff in Hr as [?%Z.leb_le ?%Z.ltb_lt]. cbv zeta.
    replace (val_at (v :: vals) (Z.to_nat (j - i))) with (val_at vals (Z.to_nat (j - (i + 1)))).
    + done.
    + unfold val_at. by replace (Z.to_nat (j - i)) with (S (Z.to_nat (j - (i + 1)))) by lia.
Qed.

(** Registering a metric returns an index under which exactly that metric
    is found from then on, and every index given before keeps its metric. *)
Theorem registerMetric_getMetricInfo info l (Hlen : Z.of_nat (length l) < 2 ^ 31 - 1) :
  exists l', registerMetric info l = Val (Z.of_nat (length l), l') /\
    getMetricInfo (Z.of_nat (length l)) l' = Some info /\
    (forall idx, 0 <= idx < Z.of_nat (length l) -> getMetricInfo idx l' = getMetricInfo idx l) /\
    getNumMetrics l' = getNumMetrics l + 1.
Proof.
  exists (l ++ [info]). unfold registerMetric, getMetricInfo, getNumMetrics.
  rewrite length_app. simpl length.
  rewrite !(s32_small (Z.of_nat _)) by (unfold is_s32; lia). split_and!.
  - rewrite u64_small by (unfold is_u64; lia). rewrite s32_small by (unfold is_s32; lia).
    do 2 f_equal. lia.
  - destruct (Z.ltb_spec (Z.of_nat (length l)) 0); [lia|].
    destruct (Z.leb_spec (Z.of_nat (length l + 1)) (Z.of_nat (length l))); [lia|]. simpl.
    rewrite Nat2Z.id. by rewrite lookup_app_r, Nat.sub_diag by lia.
  - intros idx Hidx. destruct (Z.ltb_spec idx 0); [lia|].
    destruct (Z.leb_spec (Z.of_nat (length l + 1)) idx); [lia|].
    destruct (Z.leb_spec (Z.of_nat (length l)) idx); [lia|]. simpl.
    by rewrite lookup_app_l by lia.
  - lia.
Qed.

(** [increment] fails exactly on an index that is not registered, without
    any change; otherwise it adds both counts at that index, whether or not the
    index had a slot, and leaves every other value as it was. *)
Theorem increment_correct num idx v vals
  (Hi : in64 (val_i (val_at vals (Z.to_nat idx)) + val_i v))
  (Hr : in64 (val_r (val_at vals (Z.to_nat idx)) + val_r v)) :
  (~ 0 <= idx < num -> increment num idx v vals = Val (false, vals)) /\
  (0 <= idx < num ->
   exists vals', increment num idx v vals = Val (true, vals') /\
     forall j, val_at vals' j =
       if decide (j = Z.to_nat idx)
       then mk_val (val_i (val_at vals j) + val_i v) (val_r (val_at vals j) + val_r v)
       else val_at vals j).
Proof.
  split.
  - intros Hidx. unfold increment, getMetricVal, mbind, prog_bind.
    destruct (Z.ltb_spec idx 0); [done|]. by destruct (Z.leb_spec num idx); [|lia].
  - intros Hidx. destruct (getMetricVal_run num idx vals Hidx) as (vals1 & Hrun & Hlen & Hsame).
    exists (<[Z.to_nat idx := mk_val (val_i (val_at vals (Z.to_nat idx)) + val_i v)
      (val_r (val_at vals (Z.to_nat idx)) + val_r v)]> vals1). split.
    + unfold increment. rewrite (prog_bind_val _ _ _ _ _ Hrun). unfold val_add.
      by rewrite !add64_ok by done.
    + intros j. rewrite lookup_insert_val by done. case_decide; [by subst|apply Hsame].
Qed.

(** The exported object has one child per value that is not zero, in index
    order; a child carries its index, and the precise count only when the
    approximate count is zero: when both are set the precise count is lost. *)
Theorem createXMLObj_ContextMetrics_children vals j :
  match createXMLObj_ContextMetrics vals with
  | None => vals = []
  | Some obj =>
    map_find j (children_of obj) =
    (let v := val_at vals (Z.to_nat j) in
     if (0 <=? j) && negb ((val_i v =? 0) && (val_r v =? 0))
     then Some (metric_child j v) else None)
  end.
Proof.
  unfold createXMLObj_ContextMetrics. destruct vals as [|v0 vals0] eqn:Hv; [done|].
  rewrite <- Hv. rewrite export_metrics_find by constructor. cbn [children_of new_XMLObj map_find].
  rewrite Z.sub_0_r, Z.add_0_l. destruct (Z.leb_spec 0 j) as [Hj|Hj]; [|done].
  cbv zeta. cbn [andb]. destruct (Z.ltb_spec j (Z.of_nat (length vals))) as [Hlt|Hge].
  - by destruct (_ && _).
  - unfold val_at. by rewrite lookup_ge_None_2 by lia.
Qed.

Module Examples.
Definition info0 := mk_metric_info (lit "GENERIC") (lit "cache-misses") 1000 METRIC_VAL_INT.

Lemma registerMetric_getMetricInfo_witness :
  exists l', registerMetric info0 [info0] = Val (1, l') /\
    getMetricInfo 1 l' = Some info0 /\
    (forall idx, 0 <= idx < 1 -> getMetricInfo idx l' = getMetricInfo idx [info0]) /\
    getNumMetrics l' = getNumMetrics [info0] + 1.
Proof. apply (registerMetric_getMetricInfo info0 [info0]). simpl. lia. Defined.

Lemma increment_correct_witness :
  exists vals', increment 3 2 (mk_val 5 0) [mk_val 1 2] = Val (true, vals') /\
    val_at vals' 2 = mk_val 5 0 /\ val_at vals' 0 = mk_val 1 2.
Proof.
  destruct (increment_correct 3 2 (mk_val 5 0) [mk_val 1 2]) as [_ H];
    [vm_compute; split; [discriminate|reflexivity]|vm_compute; split; [discriminate|reflexivity]|].
  destruct (H ltac:(lia)) as (vals' & Hrun & Hval). exists vals'.
  split; [exact Hrun|]. split; [rewrite Hval|rewrite Hval]; reflexivity.
Defined.
End Examples.
