(* ===== verification/Context.v ===== *)
(** The calling context tree ([context.h], [context.cpp]).

    Nodes are allocated one by one and refer to each other by address, so the
    tree is a store of nodes; the tree object adds the map from identifiers to
    nodes and the identifier counter.  The invariant says that this is a trie
    of call paths: a node is determined by the keys on the path to it. *)
From stdpp Require Import base numbers option list gmap strings.
From Stdlib Require Import ZArith Lia.
From S2P Require Import Prelude.
From S2P Require Import Cxx.
From S2P Require Import Xml.
From S2P Require Import Metrics.

(** [class ContextFrame], with the initialisers of its fields. *)
Record ContextFrame := mk_frame {
  binary_addr : Z;
  numa_node : Z;
  method_id : Z;
  method_name : str;
  method_version : Z;
  source_file : str;
  bci : Z;
  src_lineno : Z
}.
Definition default_frame : ContextFrame := mk_frame 0 10 0 [] 0 [] (-1) 0.

(** [ContextFrame::operator=(const ASGCT_CallFrame &)] *)
Definition assign_call_frame (lineno call_method_id : Z) (f : ContextFrame) : ContextFrame :=
  mk_frame (binary_addr f) (numa_node f) call_method_id (method_name f) (method_version f)
    (source_file f) lineno (src_lineno f).

(** [class Context] *)
Record Context := mk_context {
  _id : Z;
  _triggered : bool;
  _frame : ContextFrame;
  _metrics : option (list metric_val_t);
  children : list positive;
  _parent : option positive
}.

(** [Context::Context(uint32_t id)] *)
Definition new_Context (id : Z) : Context := mk_context id false default_frame None [] None.

(** [Context::operator=(const ContextFrame &)] and the setters. *)
Definition assign_frame (frame : ContextFrame) (c : Context) : Context :=
  mk_context (_id c) (_triggered c) frame (_metrics c) (children c) (_parent c).
Definition setMetrics (m : option (list metric_val_t)) (c : Context) : Context :=
  mk_context (_id c) (_triggered c) (_frame c) m (children c) (_parent c).
Definition setTriggered (c : Context) : Context :=
  mk_context (_id c) true (_frame c) (_metrics c) (children c) (_parent c).
Definition with_parent (p : positive) (c : Context) : Context :=
  mk_context (_id c) (_triggered c) (_frame c) (_metrics c) (children c) (Some p).
Definition with_child (p : positive) (c : Context) : Context :=
  mk_context (_id c) (_triggered c) (_frame c) (_metrics c) (children c ++ [p]) (_parent c).

(** [contextRefEqual] compares the five fields of the key. *)
Definition key : Type := Z * Z * Z * Z * Z.
Definition key_of (f : ContextFrame) : key :=
  (bci f, method_id f, binary_addr f, numa_node f, method_version f).
Definition contextRefEqual (a b : Context) : bool :=
  (bci (_frame a) =? bci (_frame b)) && (method_id (_frame a) =? method_id (_frame b)) &&
  (binary_addr (_frame a) =? binary_addr (_frame b)) &&
  (numa_node (_frame a) =? numa_node (_frame b)) &&
  (method_version (_frame a) =? method_version (_frame b)).

(** [class ContextTree] with the store its nodes live in. *)
Record ContextTree := mk_tree {
  store : gmap positive Context;
  _context_map : gmap Z positive;
  _root : positive;
  _id_counter : Z
}.

Abbreviation T := (prog ContextTree).

Definition load (p : positive) : T Context := fun t =>
  match store t !! p with Some c => Val (c, t) | None => Fault UndefinedBehaviour end.
Definition write (p : positive) (c : Context) : T unit := fun t =>
  Val (tt, mk_tree (<[p := c]> (store t)) (_context_map t) (_root t) (_id_counter t)).
Definition free (p : positive) : T unit := fun t =>
  Val (tt, mk_tree (delete p (store t)) (_context_map t) (_root t) (_id_counter t)).

(** The first child equal to the probe; the set holds at most one. *)
Fixpoint find_equal (st : gmap positive Context) (probe : Context) (cs : list positive)
  : option positive :=
  match cs with
  | [] => None
  | p :: cs =>
    match st !! p with
    | Some c => if contextRefEqual c probe then Some p else find_equal st probe cs
    | None => find_equal st probe cs
    end
  end.

(** [parent->findChild(ctxt)] *)
Definition findChild (parent ctxt : positive) : T (option positive) :=
  p ← load parent; c ← load ctxt; t ← prog_get;
  mret (find_equal (store t) c (children p)).

(** [parent->addChild(ctxt)]: the set refuses a child equal to one it holds. *)
Definition addChild (parent ctxt : positive) : T unit :=
  p ← load parent; c ← load ctxt; t ← prog_get;
  match find_equal (store t) c (children p) with
  | Some _ => mret tt
  | None => write parent (with_child ctxt p)
  end;;
  c ← load ctxt;
  write ctxt (with_parent parent c).

(** [removeChild] is [assert(false)]. *)
Definition removeChild (ctxt : positive) : T unit := prog_fault AssertFailure.

Definition getChildren (order : list positive -> list positive) (p : positive) : T (list positive) :=
  c ← load p; mret (order (children c)).

(** [ContextTree::ContextTree] *)
Definition new_ContextTree : ContextTree :=
  mk_tree {[1%positive := new_Context 0]} {[0 := 1%positive]} 1 1.

(** [ContextTree::~ContextTree]: every node of the map is deleted, in the order in which the
    map is iterated over; a node that is not there cannot be deleted. *)
Definition delete_Context (p : positive) : T unit := load p;; free p.
Fixpoint delete_nodes (nodes : list positive) : T unit :=
  match nodes with
  | [] => mret tt
  | p :: nodes => delete_Context p;; delete_nodes nodes
  end.
Definition destroy_ContextTree (order : gmap Z positive -> list positive) : T unit :=
  t ← prog_get;
  delete_nodes (order (_context_map t));;
  t ← prog_get;
  prog_put (mk_tree (store t) ∅ (_root t) (_id_counter t)).

(** [ContextTree::addContext(Context *, const ContextFrame &)] *)
Definition addContext (parent : option positive) (frame : ContextFrame) : T positive :=
  match parent with
  | None => prog_fault AssertFailure
  | Some parent =>
    t ← prog_get;
    let ctxt_id := _id_counter t in
    let new_ctxt := fresh (dom (store t)) in
    write new_ctxt (new_Context ctxt_id);;
    c ← load new_ctxt;
    write new_ctxt (assign_frame frame c);;
    find_child ← findChild parent new_ctxt;
    match find_child with
    | Some child => free new_ctxt;; mret child
    | None =>
      addChild parent new_ctxt;;
      t ← prog_get;
      prog_put (mk_tree (store t) (<[ctxt_id := new_ctxt]> (_context_map t)) (_root t)
                        (u32 (_id_counter t + 1)));;
      mret new_ctxt
    end
  end.

(** [ContextTree::addContext(uint32_t, const ContextFrame &)] *)
Definition addContext_id (parent_id : Z) (frame : ContextFrame) : T positive :=
  t ← prog_get;
  match _context_map t !! parent_id with
  | None => prog_fault AssertFailure
  | Some parent => addContext (Some parent) frame
  end.

(** [createXMLObj<Context>]; [print_id] is the stream output of a [jmethodID]. *)
Definition createXMLObj_Context (print_id : Z -> str) (p : positive) : T (option XMLObj) :=
  instance ← load p;
  let obj := new_XMLObj (lit "context") in
  let obj := SET_ATTR "id" (dec (_id instance)) obj in
  let obj := SET_ATTR "method_id" (print_id (method_id (_frame instance))) obj in
  let obj := SET_ATTR "method_version" (dec (method_version (_frame instance))) obj in
  let obj := SET_ATTR "binary_addr" (dec (binary_addr (_frame instance))) obj in
  let obj := SET_ATTR "numa_node" (dec (numa_node (_frame instance))) obj in
  let obj := SET_ATTR "bci" (dec (bci (_frame instance))) obj in
  obj ← match _parent instance with
        | Some q => parent ← load q; mret (SET_ATTR "parent_id" (dec (_id parent)) obj)
        | None => mret (SET_ATTR "parent_id" (dec (-1)) obj)
        end;
  mret match _metrics instance with
       | Some vals =>
         match createXMLObj_ContextMetrics vals with
         | Some child => Some (Xml.addChild 0 child obj)
         | None => None
         end
       | None => Some obj
       end.

(** [ContextTree::iterator]: a place in the iteration over the map, its length for the end. *)
Section Iterator.
Context (order : gmap Z positive -> list positive).

Abbreviation iterator := nat (only parsing).
Definition begin (t : ContextTree) : iterator := O.
Definition end_of (t : ContextTree) : iterator := length (order (_context_map t)).

(** Each gives the value of the expression and the iterator after it; the end has no next
    place and nothing to read.  The class returns the iterator after the step from both. *)
Definition pre_increment (t : ContextTree) (it : iterator) : outcome (iterator * iterator) :=
  if (it <? end_of t)%nat then Val (S it, S it) else Fault UndefinedBehaviour.
Definition post_increment (t : ContextTree) (it : iterator) : outcome (iterator * iterator) :=
  if (it <? end_of t)%nat then Val (S it, S it) else Fault UndefinedBehaviour.
Definition iter_eq (it other : iterator) : bool := (it =? other)%nat.
Definition deref (t : ContextTree) (it : iterator) : outcome positive :=
  match order (_context_map t) !! it with Some p => Val p | None => Fault UndefinedBehaviour end.

(** A loop from one iterator to the end, [for (; it != t.end(); ++it)]. *)
Fixpoint walk (fuel : nat) (t : ContextTree) (it : iterator) : outcome (list positive) :=
  if iter_eq it (end_of t) then Val [] else
  match fuel with
  | O => Fault OutOfFuel
  | S fuel =>
    p ← deref t it;
    next ← pre_increment t it;
    ps ← walk fuel t next.2;
    mret (p :: ps)
  end.
End Iterator.

(** * The trie invariant *)

Record wf_tree (t : ContextTree) : Prop := mk_wf_tree {
  wt_counter : 1 <= _id_counter t < 2 ^ 32;
  wt_root : exists c, store t !! _root t = Some c /\ _id c = 0 /\ _parent c = None;
  wt_map : forall i p, _context_map t !! i = Some p <->
             exists c, store t !! p = Some c /\ _id c = i;
  wt_ids : forall p c, store t !! p = Some c -> 0 <= _id c < _id_counter t;
  wt_parent : forall p c, store t !! p = Some c -> p <> _root t ->
                exists q d, _parent c = Some q /\ store t !! q = Some d /\
                  p ∈ children d /\ _id d < _id c;
  wt_child : forall q d p, store t !! q = Some d -> p ∈ children d ->
               exists c, store t !! p = Some c /\ _parent c = Some q;
  wt_distinct : forall q d p1 p2 c1 c2, store t !! q = Some d ->
                  p1 ∈ children d -> p2 ∈ children d ->
                  store t !! p1 = Some c1 -> store t !! p2 = Some c2 ->
                  key_of (_frame c1) = key_of (_frame c2) -> p1 = p2
}.

(** The keys on the way from the root. *)
Inductive path_of (st : gmap positive Context) : positive -> list key -> Prop :=
| path_root p c : st !! p = Some c -> _parent c = None -> path_of st p []
| path_step p c q ks : st !! p = Some c -> _parent c = Some q -> path_of st q ks ->
    path_of st p (ks ++ [key_of (_frame c)]).

(** * Adding a context *)

Lemma contextRefEqual_key a b :
  contextRefEqual a b = true <-> key_of (_frame a) = key_of (_frame b).
Proof.
  unfold contextRefEqual, key_of. rewrite !andb_true_iff, !Z.eqb_eq.
  split; [intuition congruence|]. intros [=]. done.
Qed.

Lemma find_equal_some st probe cs p :
  find_equal st probe cs = Some p ->
  p ∈ cs /\ exists c, st !! p = Some c /\ key_of (_frame c) = key_of (_frame probe).
Proof.
  induction cs as [|p' cs IH]; simpl; [done|]. destruct (st !! p') as [c|] eqn:Hc.
  - destruct (contextRefEqual c probe) eqn:He.
    + intros [= <-]. split; [by constructor|]. exists c. split; [done|]. by apply contextRefEqual_key.
    + intros [? ?]%IH. split; [by constructor|done].
  - intros [? ?]%IH. split; [by constructor|done].
Qed.

Lemma find_equal_none st probe cs p c :
  find_equal st probe cs = None -> p ∈ cs -> st !! p = Some c ->
  key_of (_frame c) <> key_of (_frame probe).
Proof.
  induction cs as [|p' cs IH]; simpl; [by inversion 2|].
  intros Hf [->|Hin]%elem_of_cons Hc.
  - rewrite Hc in Hf. destruct (contextRefEqual c probe) eqn:He; [done|].
    intros Heq%contextRefEqual_key. congruence.
  - apply IH; [|done..]. by destruct (st !! p') as [c'|]; [destruct (contextRefEqual c' probe)|].
Qed.

Lemma find_equal_insert st probe cs n c :
  n ∉ cs -> find_equal (<[n := c]> st) probe cs = find_equal st probe cs.
Proof.
  induction cs as [|p cs IH]; intros Hn; simpl; [done|].
  apply not_elem_of_cons in Hn as [Hne Hn]. rewrite lookup_insert_ne by done.
  by rewrite IH.
Qed.

(** The state after a new child is linked. *)
Definition linked (t : ContextTree) (q : positive) (d : Context) (n : positive)
  (frame : ContextFrame) : ContextTree :=
  mk_tree
    (<[n := with_parent q (assign_frame frame (new_Context (_id_counter t)))]>
      (<[q := with_child n d]> (store t)))
    (<[_id_counter t := n]> (_context_map t)) (_root t) (u32 (_id_counter t + 1)).

Lemma run_load p c t : store t !! p = Some c -> load p t = Val (c, t).
Proof. unfold load. by intros ->. Qed.

Ltac run_load H := erewrite prog_bind_val; [|apply run_load; cbn [store]; exact H].
Ltac run_step := rewrite (prog_bind_val _ _ _ _ _ eq_refl); cbn [store _context_map _root _id_counter].

Lemma addContext_run t q d frame :
  store t !! q = Some d ->
  (forall p, p ∈ children d -> is_Some (store t !! p)) ->
  let n := fresh (dom (store t)) in
  store t !! n = None /\
  addContext (Some q) frame t =
    match find_equal (store t) (assign_frame frame (new_Context (_id_counter t))) (children d) with
    | Some child => Val (child, t)
    | None => Val (n, linked t q d n frame)
    end.
Proof.
  intros Hq Hcs n.
  assert (store t !! n = None) as Hn by apply not_elem_of_dom, is_fresh.
  assert (n <> q) as Hnq by congruence.
  assert (n ∉ children d) as Hnc by (intros Hin; destruct (Hcs n Hin); congruence).
  split; [done|]. unfold addContext. run_step. fold n.
  set (c := assign_frame frame (new_Context (_id_counter t))). try unfold write. run_step.
  erewrite prog_bind_val; [|apply run_load; cbn [store]; by rewrite lookup_insert_eq].
  try unfold write. fold c. run_step. rewrite insert_insert_eq.
  assert (<[n := c]> (store t) !! q = Some d) as Hq1 by by rewrite lookup_insert_ne.
  assert (<[n := c]> (store t) !! n = Some c) as Hn1 by by rewrite lookup_insert_eq.
  unfold findChild, addChild.
  erewrite prog_bind_val; [|by run_load Hq1; run_load Hn1; run_step; reflexivity].
  rewrite find_equal_insert by done.
  destruct (find_equal (store t) c (children d)) as [child|] eqn:Hfind.
  { unfold free. run_step. rewrite delete_insert_id by done. by destruct t. }
  erewrite prog_bind_val.
  2: { run_load Hq1. run_load Hn1. run_step. rewrite find_equal_insert, Hfind by done.
    try unfold write. run_step.
    erewrite prog_bind_val;
      [|apply run_load; cbn [store]; by rewrite lookup_insert_ne, lookup_insert_eq].
    try unfold write. reflexivity. }
  cbn [store _context_map _root _id_counter]. run_step. unfold prog_put. run_step.
  rewrite (insert_insert_ne (store t) q n) by done. by rewrite insert_insert_eq.
Qed.

Section Linked.
Context (t : ContextTree) (q : positive) (d : Context) (n : positive) (frame : ContextFrame).
Context (Hwf : wf_tree t) (Hq : store t !! q = Some d) (Hn : store t !! n = None).
Context (Hroom : _id_counter t < 2 ^ 32 - 1).
Context (Hnew : forall p c, p ∈ children d -> store t !! p = Some c ->
  key_of (_frame c) <> key_of frame).

Let c0 := with_parent q (assign_frame frame (new_Context (_id_counter t))).
Let t' := linked t q d n frame.

Lemma linked_counter : _id_counter t' = _id_counter t + 1.
Proof. destruct Hwf as [Hc]. simpl. apply u32_small. unfold is_u32. lia. Qed.

Lemma linked_ne : n <> q.
Proof. congruence. Qed.

(** Every node of the new state is the new one, the parent, or unchanged. *)
Lemma linked_lookup p c :
  store t' !! p = Some c <->
  (p = n /\ c = c0) \/ (p = q /\ c = with_child n d) \/
  (p <> n /\ p <> q /\ store t !! p = Some c).
Proof.
  pose proof linked_ne. unfold t', linked. cbn [store]. fold c0.
  destruct (decide (p = n)) as [->|]; [rewrite lookup_insert_eq|rewrite lookup_insert_ne by done].
  { split; [intros [= <-]; by left|]. intros [[_ ->]|[[? _]|[? _]]]; done. }
  destruct (decide (p = q)) as [->|]; [rewrite lookup_insert_eq|rewrite lookup_insert_ne by done].
  - split; [intros [= <-]; auto|]. intros [[? _]|[[_ ->]|(_ & ? & _)]]; done.
  - split; [intros ?; by right; right|]. intros [[? _]|[[? _]|(_ & _ & ?)]]; done.
Qed.

(** Nodes keep their identifier, frame and parent. *)
Lemma linked_old p c :
  store t !! p = Some c ->
  exists c', store t' !! p = Some c' /\ _id c' = _id c /\ _frame c' = _frame c /\
    _parent c' = _parent c /\ (forall x, x ∈ children c -> x ∈ children c').
Proof.
  intros Hp. destruct (decide (p = q)) as [->|Hpq].
  - exists (with_child n d). split; [apply linked_lookup; auto|].
    rewrite Hq in Hp. injection Hp as <-. split_and!; try done. intros x Hx. simpl.
    apply elem_of_app. by left.
  - exists c. split; [|done]. apply linked_lookup. right. right. split_and!; [congruence|done|done].
Qed.

Lemma linked_back p c :
  store t' !! p = Some c -> p <> n ->
  exists c1, store t !! p = Some c1 /\ _frame c = _frame c1 /\ _id c = _id c1 /\
    _parent c = _parent c1.
Proof.
  intros [[-> ->]|[[-> ->]|(_ & _ & Hp)]]%linked_lookup Hne; [done|by exists d|by exists c].
Qed.

Lemma linked_children q' d' p :
  store t' !! q' = Some d' -> p ∈ children d' ->
  (p = n /\ q' = q) \/ exists d1, store t !! q' = Some d1 /\ p ∈ children d1.
Proof.
  intros [[-> ->]|[[-> ->]|(_ & _ & Hd')]]%linked_lookup Hin; simpl in Hin;
    [by inversion Hin| |right; by exists d'].
  apply elem_of_app in Hin as [Hin|Hin%list_elem_of_singleton]; [right; by exists d|by left].
Qed.

Lemma linked_map i p :
  _context_map t' !! i = Some p <-> exists c, store t' !! p = Some c /\ _id c = i.
Proof.
  destruct Hwf as [_ _ Hmap Hids _ _ _]. unfold t' at 1, linked. cbn [_context_map].
  destruct (decide (i = _id_counter t)) as [->|Hi];
    [rewrite lookup_insert_eq|rewrite lookup_insert_ne by done].
  - split; [intros [= <-]; exists c0; split; [apply linked_lookup; auto|done]|].
    intros (c & Hp & Hid). destruct (decide (p = n)) as [->|Hne]; [done|].
    destruct (linked_back _ _ Hp Hne) as (c1 & Hc1 & _ & Hid1 & _).
    specialize (Hids _ _ Hc1). lia.
  - rewrite Hmap. split.
    + intros (c & Hp & Hid). destruct (linked_old _ _ Hp) as (c' & Hc' & Hid' & _).
      exists c'. split; [done|congruence].
    + intros (c & Hp & Hid). destruct (decide (p = n)) as [->|Hne].
      * apply linked_lookup in Hp as [[_ ->]|[[? _]|[? _]]]; [by simpl in Hid|by destruct linked_ne|done].
      * destruct (linked_back _ _ Hp Hne) as (c1 & Hc1 & _ & Hid1 & _). exists c1.
        split; [done|congruence].
Qed.

Lemma linked_parent p c :
  store t' !! p = Some c -> p <> _root t' ->
  exists q' d', _parent c = Some q' /\ store t' !! q' = Some d' /\ p ∈ children d' /\ _id d' < _id c.
Proof.
  destruct Hwf as [_ _ _ Hids Hpar _ _]. intros Hp Hnr. change (_root t') with (_root t) in Hnr.
  destruct (decide (p = n)) as [->|Hne].
  - apply linked_lookup in Hp as [[_ ->]|[[? _]|[? _]]]; [|by destruct linked_ne|done].
    exists q, (with_child n d). split; [done|]. split; [apply linked_lookup; auto|].
    simpl. split; [apply elem_of_app; right; constructor|]. by apply (Hids _ _ Hq).
  - destruct (linked_back _ _ Hp Hne) as (c1 & Hc1 & _ & Hid1 & Hp1).
    destruct (Hpar _ _ Hc1 Hnr) as (q' & d' & Hpp & Hd' & Hin & Hlt).
    destruct (linked_old _ _ Hd') as (c' & Hc' & Hid & _ & _ & Hsub).
    exists q', c'. split_and!; [congruence|done|by apply Hsub|lia].
Qed.

Lemma linked_child q' d' p :
  store t' !! q' = Some d' -> p ∈ children d' ->
  exists c, store t' !! p = Some c /\ _parent c = Some q'.
Proof.
  destruct Hwf as [_ _ _ _ _ Hch _]. intros Hd' Hin.
  destruct (linked_children _ _ _ Hd' Hin) as [[-> ->]|(d1 & Hd1 & Hin1)].
  - exists c0. split; [apply linked_lookup; auto|done].
  - destruct (Hch _ _ _ Hd1 Hin1) as (c & Hp & Hpp).
    destruct (linked_old _ _ Hp) as (c' & Hc' & _ & _ & Hpp' & _). exists c'. by split; [|congruence].
Qed.

Lemma linked_distinct q' d' p1 p2 c1 c2 :
  store t' !! q' = Some d' -> p1 ∈ children d' -> p2 ∈ children d' ->
  store t' !! p1 = Some c1 -> store t' !! p2 = Some c2 ->
  key_of (_frame c1) = key_of (_frame c2) -> p1 = p2.
Proof.
  destruct Hwf as [_ _ _ _ _ Hch Hdist]. intros Hd' Hin1 Hin2 Hc1 Hc2 Hkey.
  assert (forall p c, p ∈ children d' -> store t' !! p = Some c -> p <> n ->
    exists c1 d1, store t !! q' = Some d1 /\ p ∈ children d1 /\ store t !! p = Some c1 /\
      _frame c = _frame c1) as Hold.
  { intros p c Hin Hp Hne. destruct (linked_back _ _ Hp Hne) as (c3 & Hc3 & Hf & _).
    destruct (linked_children _ _ _ Hd' Hin) as [[? _]|(d1 & Hd1 & Hin')]; [done|].
    by exists c3, d1. }
  assert (forall p c, p ∈ children d' -> store t' !! p = Some c -> p <> n ->
    q' = q -> key_of (_frame c) <> key_of frame) as Hdiff.
  { intros p c Hin Hp Hne ->. destruct (Hold _ _ Hin Hp Hne) as (c3 & d1 & Hd1 & Hin' & Hc3 & ->).
    rewrite Hq in Hd1. injection Hd1 as <-. by apply (Hnew p). }
  assert (forall c, n ∈ children d' -> store t' !! n = Some c ->
    q' = q /\ key_of (_frame c) = key_of frame) as Hnn.
  { intros c Hin [[_ ->]|[[? _]|[? _]]]%linked_lookup; [|by destruct linked_ne|done].
    destruct (linked_children _ _ _ Hd' Hin) as [[_ ->]|(d1 & Hd1 & Hin')]; [done|].
    destruct (Hch _ _ _ Hd1 Hin') as (c & Hc & _). congruence. }
  destruct (decide (p1 = n)) as [->|Hne1], (decide (p2 = n)) as [->|Hne2]; [done| | |].
  - destruct (Hnn _ Hin1 Hc1) as [Hqq Hk]. exfalso. apply (Hdiff _ _ Hin2 Hc2 Hne2 Hqq). congruence.
  - destruct (Hnn _ Hin2 Hc2) as [Hqq Hk]. exfalso. apply (Hdiff _ _ Hin1 Hc1 Hne1 Hqq). congruence.
  - destruct (Hold _ _ Hin1 Hc1 Hne1) as (c3 & d1 & Hd1 & Hi1 & Hc3 & Hf1).
    destruct (Hold _ _ Hin2 Hc2 Hne2) as (c4 & d2 & Hd2 & Hi2 & Hc4 & Hf2).
    assert (d1 = d2) as -> by congruence. apply (Hdist q' d2 p1 p2 c3 c4); congruence.
Qed.

Lemma linked_wf : wf_tree t'.
Proof.
  pose proof linked_counter as Hct. split.
  - rewrite Hct. destruct Hwf as [Hc]. lia.
  - destruct Hwf as [_ (cr & Hr & Hrid & Hrp) _ _ _ _ _].
    destruct (linked_old _ _ Hr) as (c' & Hc' & Hid & _ & Hp & _). exists c'.
    split_and!; [done|congruence|congruence].
  - exact linked_map.
  - intros p c Hp. rewrite Hct. destruct Hwf as [Hc _ _ Hids _ _ _].
    destruct (decide (p = n)) as [->|Hne].
    + apply linked_lookup in Hp as [[_ ->]|[[? _]|[? _]]]; [simpl; lia|by destruct linked_ne|done].
    + destruct (linked_back _ _ Hp Hne) as (c1 & Hc1 & _ & -> & _). specialize (Hids _ _ Hc1). lia.
  - exact linked_parent.
  - exact linked_child.
  - exact linked_distinct.
Qed.
End Linked.

(** Adding a frame below an existing node. *)
Lemma addContext_spec t q d frame :
  wf_tree t -> store t !! q = Some d -> _id_counter t < 2 ^ 32 - 1 ->
  exists p t' c, addContext (Some q) frame t = Val (p, t') /\ wf_tree t' /\
    store t' !! p = Some c /\ _parent c = Some q /\ key_of (_frame c) = key_of frame /\
    _root t' = _root t /\
    ((p ∈ children d /\ t' = t) \/
     (store t !! p = None /\ _frame c = frame /\ _id c = _id_counter t /\
      _id_counter t' = _id_counter t + 1 /\ store t' = store (linked t q d p frame))).
Proof.
  intros Hwf Hq Hroom.
  destruct (addContext_run t q d frame Hq) as [Hn Hrun].
  { intros p Hp. destruct (wt_child _ Hwf _ _ _ Hq Hp) as (c & Hc & _). by eexists. }
  rewrite Hrun. destruct (find_equal _ _ _) as [p|] eqn:Hfind.
  - apply find_equal_some in Hfind as (Hin & c & Hc & Hkey).
    destruct (wt_child _ Hwf _ _ _ Hq Hin) as (c' & Hc' & Hp).
    exists p, t, c. split_and!; [done|done|done|congruence|done|done|by left].
  - set (n := fresh (dom (store t))) in *.
    assert (wf_tree (linked t q d n frame)) as Hwf'.
    { apply linked_wf; [done..|]. intros p c Hin Hp. by apply (find_equal_none _ _ _ _ _ Hfind Hin Hp). }
    exists n, (linked t q d n frame),
      (with_parent q (assign_frame frame (new_Context (_id_counter t)))).
    split_and!; [done|done|by apply linked_lookup; [..|left]|done|done|done|right].
    split_and!; [done|done|done|by apply linked_counter|done].
Qed.

(** Equal paths lead to the same node. *)
Lemma path_root_only t p c :
  wf_tree t -> store t !! p = Some c -> _parent c = None -> p = _root t.
Proof.
  intros Hwf Hp Hpar. destruct (decide (p = _root t)); [done|].
  destruct (wt_parent _ Hwf _ _ Hp) as (q & d & Hq & _); [done|]. congruence.
Qed.

Lemma path_of_inj t p1 p2 ks :
  wf_tree t -> path_of (store t) p1 ks -> path_of (store t) p2 ks -> p1 = p2.
Proof.
  intros Hwf Hp1. revert p2. induction Hp1 as [p1 c1 Hc1 Hn1|p1 c1 q1 ks Hc1 Hq1 _ IH]; intros p2 Hp2.
  - inversion Hp2 as [p c Hc Hn|p c q ks' Hc Hq Hks Hp Heq]; subst.
    + rewrite (path_root_only t p1 c1), (path_root_only t p2 c); done.
    + by destruct ks'.
  - inversion Hp2 as [p c Hc Hn Hp Heq|p c q ks' Hc Hq Hks Hp Heq]; subst; [by destruct ks|].
    apply app_inj_2 in Heq as [-> Hkey]; [|done]. apply (f_equal head) in Hkey. cbn in Hkey.
    assert (q1 = q) as -> by by apply IH.
    assert (p1 <> _root t) as Hr1.
    { intros ->. destruct (wt_root _ Hwf) as (cr & Hr & _ & Hrp). congruence. }
    assert (p2 <> _root t) as Hr2.
    { intros ->. destruct (wt_root _ Hwf) as (cr & Hr & _ & Hrp). congruence. }
    destruct (wt_parent _ Hwf _ _ Hc1 Hr1) as (q1 & d1 & E1 & Hd1 & Hin1 & _).
    destruct (wt_parent _ Hwf _ _ Hc Hr2) as (q2 & d2 & E2 & Hd2 & Hin2 & _).
    assert (q1 = q) as -> by congruence. assert (q2 = q) as -> by congruence.
    assert (d1 = d2) as -> by congruence.
    eapply (wt_distinct _ Hwf q d2); eauto. congruence.
Qed.

Lemma path_exists t p c : wf_tree t -> store t !! p = Some c -> exists ks, path_of (store t) p ks.
Proof.
  intros Hwf. remember (Z.to_nat (_id c)) as k eqn:Hk. revert p c Hk.
  induction k as [k IH] using lt_wf_ind. intros p c -> Hp.
  destruct (decide (p = _root t)) as [->|Hne].
  { destruct (wt_root _ Hwf) as (cr & Hr & _ & Hrp). exists []. by apply path_root with cr. }
  destruct (wt_parent _ Hwf _ _ Hp Hne) as (q & d & Hq & Hd & _ & Hlt).
  pose proof (wt_ids _ Hwf _ _ Hd).
  destruct (IH (Z.to_nat (_id d)) ltac:(lia) q d eq_refl Hd) as [ks Hks].
  exists (ks ++ [key_of (_frame c)]). by eapply path_step.
Qed.

Lemma new_tree_lookup p c :
  store new_ContextTree !! p = Some c <-> p = 1%positive /\ c = new_Context 0.
Proof.
  unfold new_ContextTree. cbn [store]. split.
  - by intros [-> <-]%lookup_singleton_Some.
  - intros [-> ->]. by rewrite lookup_singleton_eq.
Qed.

Lemma new_tree_wf : wf_tree new_ContextTree.
Proof.
  split; [simpl; lia| | | | | |].
  - exists (new_Context 0). split; [by apply new_tree_lookup|done].
  - intros i p. unfold new_ContextTree at 1. cbn [_context_map]. split.
    + intros [<- <-]%lookup_singleton_Some. exists (new_Context 0). split; [by apply new_tree_lookup|done].
    + intros (c & [-> ->]%new_tree_lookup & <-). apply lookup_singleton_eq.
  - intros p c [-> ->]%new_tree_lookup. simpl. lia.
  - intros p c [-> ->]%new_tree_lookup. done.
  - intros q d p [-> ->]%new_tree_lookup Hin. inversion Hin.
  - intros q d p1 p2 c1 c2 [-> ->]%new_tree_lookup Hin. inversion Hin.
Qed.

Lemma path_linked t q d n frame p ks :
  store t !! q = Some d -> store t !! n = None ->
  path_of (store t) p ks -> path_of (store (linked t q d n frame)) p ks.
Proof.
  intros Hq Hn Hp. induction Hp as [p c Hc Hpar|p c q' ks Hc Hpar _ IH].
  - destruct (linked_old t q d n frame Hq Hn _ _ Hc) as (c' & Hc' & _ & _ & Hp' & _).
    apply path_root with c'; congruence.
  - destruct (linked_old t q d n frame Hq Hn _ _ Hc) as (c' & Hc' & _ & Hf & Hp' & _).
    rewrite <- Hf. apply path_step with q'; congruence.
Qed.

(** A call path added frame by frame, as the stack walker does. *)
Fixpoint add_path (parent : positive) (frames : list ContextFrame) : T positive :=
  match frames with
  | [] => mret parent
  | f :: frames => p ← addContext (Some parent) f; add_path p frames
  end.

Lemma add_path_spec frames t q d ks :
  wf_tree t -> store t !! q = Some d -> path_of (store t) q ks ->
  _id_counter t + Z.of_nat (length frames) < 2 ^ 32 ->
  exists p t', add_path q frames t = Val (p, t') /\ wf_tree t' /\
    path_of (store t') p (ks ++ (key_of <$> frames)) /\ _root t' = _root t /\
    _id_counter t' <= _id_counter t + Z.of_nat (length frames) /\
    (forall p ks, path_of (store t) p ks -> path_of (store t') p ks).
Proof.
  revert t q d ks. induction frames as [|f frames IH]; intros t q d ks Hwf Hq Hks Hroom; simpl in *.
  { exists q, t. rewrite app_nil_r. split_and!; (done || lia). }
  destruct (addContext_spec t q d f Hwf Hq ltac:(lia))
    as (p & t' & c & Hrun & Hwf' & Hp & Hpar & Hkey & Hroot & Hcase).
  rewrite (prog_bind_val _ _ _ _ _ Hrun).
  assert (forall p ks, path_of (store t) p ks -> path_of (store t') p ks) as Hmono.
  { intros p0 ks0. destruct Hcase as [[_ ->]|(Hn & _ & _ & _ & Hst)]; [done|].
    rewrite Hst. by apply path_linked. }
  assert (_id_counter t' <= _id_counter t + 1) as Hct.
  { destruct Hcase as [[_ ->]|(_ & _ & _ & -> & _)]; lia. }
  destruct (IH t' p c (ks ++ [key_of f]) Hwf' Hp)
    as (p' & t'' & Hrun' & Hwf'' & Hpath & Hroot' & Hct' & Hmono'); [|lia|].
  { rewrite <- Hkey. eapply path_step; [done|done|by apply Hmono]. }
  exists p', t''. rewrite <- app_assoc in Hpath. split_and!; [done|done|done|congruence|lia|auto].
Qed.

Lemma path_of_det st p ks1 ks2 : path_of st p ks1 -> path_of st p ks2 -> ks1 = ks2.
Proof.
  intros H1. revert ks2. induction H1 as [p c Hc Hn|p c q ks Hc Hq _ IH]; intros ks2 H2;
    inversion H2 as [p' c' Hc' Hn' E1 E2|p' c' q' ks' Hc' Hq' Hks' E1 E2]; subst; try congruence.
  assert (c' = c) as -> by congruence. assert (q' = q) as -> by congruence.
  by rewrite (IH ks').
Qed.

(** * The contract of the tree *)

Section Theorems.
Context (t : ContextTree) (Hwf : wf_tree t).
Context (q : positive) (d : Context) (Hq : store t !! q = Some d).

(** C33: [addContext] below a node of a well-formed tree returns a child of that
    node with the frame's key and keeps the tree well-formed: identifiers stay
    unique and below the counter, parents are numbered before their children,
    and no two children of a node share a key.  When a child with the key is
    there, it is returned and nothing changes; otherwise one node is created
    with the next identifier. *)
Theorem addContext_correct frame (Hroom : _id_counter t < 2 ^ 32 - 1) :
  exists p t' c, addContext (Some q) frame t = Val (p, t') /\ wf_tree t' /\
    store t' !! p = Some c /\ _parent c = Some q /\ key_of (_frame c) = key_of frame /\
    _root t' = _root t /\
    ((p ∈ children d /\ t' = t) \/
     (store t !! p = None /\ _frame c = frame /\ _id c = _id_counter t /\
      _id_counter t' = _id_counter t + 1 /\ store t' = store (linked t q d p frame))).
Proof. by apply addContext_spec. Qed.

(** Adding the same frame below the same node twice gives the same node, and
    the second call changes nothing. *)
Theorem addContext_idempotent frame (Hroom : _id_counter t < 2 ^ 32 - 2) :
  exists p t', addContext (Some q) frame t = Val (p, t') /\
    addContext (Some q) frame t' = Val (p, t').
Proof.
  destruct (addContext_spec t q d frame Hwf Hq ltac:(lia))
    as (p & t' & c & Hrun & Hwf' & Hp & Hpar & Hkey & Hroot & Hcase).
  exists p, t'. split; [done|].
  destruct Hcase as [[_ ->]|(Hn & _ & _ & Hct & Hst)]; [done|].
  assert (store t' !! q = Some (with_child p d)) as Hq'.
  { rewrite Hst. apply linked_lookup; [done|done|]. right. by left. }
  destruct (addContext_spec t' q _ frame Hwf' Hq' ltac:(lia))
    as (p2 & t2 & c2 & Hrun2 & Hwf2 & Hp2 & Hpar2 & Hkey2 & Hroot2 & Hcase2).
  assert (p ∈ children (with_child p d)) as Hpin
    by (simpl; apply elem_of_app; right; constructor).
  destruct Hcase2 as [[Hin2 ->]|(Hn2 & Hf2 & _ & _ & Hst2)].
  - rewrite Hrun2. do 2 f_equal. eapply (wt_distinct _ Hwf' q _ p2 p); eauto. congruence.
  - exfalso. assert (p2 = p); [|congruence].
    assert (store t2 !! q = Some (with_child p2 (with_child p d))) as Hq2.
    { rewrite Hst2. apply linked_lookup; [done|done|]. right. by left. }
    destruct (linked_old t' q _ p2 frame Hq' Hn2 _ _ Hp) as (c' & Hc' & _ & Hf & _).
    rewrite <- Hst2 in Hc'.
    eapply (wt_distinct _ Hwf2 q _ p2 p c2 c'); [exact Hq2| | |done|done|congruence].
    + simpl. apply elem_of_app. right. constructor.
    + simpl. apply elem_of_app. by left.
Qed.
End Theorems.

(** C34: the tree is a trie of call paths: adding two call paths from the root,
    one after the other, always succeeds and ends in the same node exactly when
    the two paths have the same keys frame by frame; every node of the result
    is reached from the root by a path. *)
Theorem context_tree_trie t (Hwf : wf_tree t) frames1 frames2
  (Hroom : _id_counter t + Z.of_nat (length frames1) + Z.of_nat (length frames2) < 2 ^ 32) :
  exists p1 t1 p2 t2,
    add_path (_root t) frames1 t = Val (p1, t1) /\
    add_path (_root t) frames2 t1 = Val (p2, t2) /\ wf_tree t2 /\
    (p1 = p2 <-> key_of <$> frames1 = key_of <$> frames2) /\
    (forall p c, store t2 !! p = Some c -> exists ks, path_of (store t2) p ks).
Proof.
  destruct (wt_root _ Hwf) as (d & Hd & _ & Hdp).
  destruct (add_path_spec frames1 t _ d [] Hwf Hd ltac:(by apply path_root with d) ltac:(lia))
    as (p1 & t1 & Hrun1 & Hwf1 & Hpath1 & Hroot1 & Hct1 & Hmono1).
  destruct (wt_root _ Hwf1) as (d1 & Hd1 & _ & Hdp1).
  destruct (add_path_spec frames2 t1 _ d1 [] Hwf1 Hd1 ltac:(by apply path_root with d1) ltac:(lia))
    as (p2 & t2 & Hrun2 & Hwf2 & Hpath2 & Hroot2 & Hct2 & Hmono2).
  rewrite Hroot1 in Hrun2. exists p1, t1, p2, t2. split_and!; [done..| |].
  - apply Hmono2 in Hpath1. split.
    + intros <-. by eapply path_of_det.
    + intros Heq. eapply path_of_inj; [done|exact Hpath1|]. simpl. by rewrite Heq.
  - intros p c Hp. by eapply path_exists.
Qed.

(** * Iteration and destruction *)

Section Iteration.
Context (order : gmap Z positive -> list positive).
Context (Horder : forall m, order m ≡ₚ (map_to_list m).*2).

Lemma order_nodes t : wf_tree t -> forall p, p ∈ order (_context_map t) <-> p ∈ dom (store t).
Proof.
  intros Hwf p. rewrite Horder, list_elem_of_fmap, elem_of_dom. split.
  - intros ([i p'] & -> & (c & Hc & _)%elem_of_map_to_list%(wt_map t Hwf)). by exists c.
  - intros [c Hc]. exists (_id c, p). split; [done|]. apply elem_of_map_to_list, (wt_map t Hwf). by exists c.
Qed.

Lemma order_distinct t : wf_tree t -> NoDup (order (_context_map t)).
Proof.
  intros Hwf. rewrite Horder. apply NoDup_fmap_2_strong; [|apply NoDup_map_to_list].
  intros [i p] [j q] (c & Hc & Hi)%elem_of_map_to_list%(wt_map t Hwf)
    (d & Hd & Hj)%elem_of_map_to_list%(wt_map t Hwf) Heq. cbn in *. congruence.
Qed.

Lemma tree_walk_from t n it : (end_of order t <= it + n)%nat -> (it <= end_of order t)%nat ->
  walk order n t it = Val (drop it (order (_context_map t))).
Proof.
  revert it. induction n as [|n IH]; intros it Hn Hit; cbn [walk]; unfold iter_eq.
  - rewrite (proj2 (Nat.eqb_eq _ _)) by lia. by rewrite drop_ge by (unfold end_of in *; lia).
  - destruct (Nat.eqb_spec it (end_of order t)) as [->|Hne].
    { by rewrite drop_ge by (unfold end_of; lia). }
    unfold deref, pre_increment.
    destruct (lookup_lt_is_Some_2 (order (_context_map t)) it) as [p Hp]; [unfold end_of in *; lia|].
    rewrite Hp, (proj2 (Nat.ltb_lt _ _)) by lia. cbn. rewrite IH by lia. cbn.
    by rewrite (drop_S _ p it) by done.
Qed.

(** Iterating over a tree visits every node of it, each once. *)
Theorem walk_nodes t : wf_tree t ->
  exists ps, walk order (end_of order t) t (begin t) = Val ps /\ NoDup ps /\
    forall p, p ∈ ps <-> p ∈ dom (store t).
Proof.
  intros Hwf. exists (order (_context_map t)).
  rewrite tree_walk_from, drop_0 by (unfold begin; lia).
  split_and!; [done|by apply order_distinct|by apply order_nodes].
Qed.

Lemma delete_nodes_run ps t : NoDup ps -> (forall p, p ∈ ps -> is_Some (store t !! p)) ->
  delete_nodes ps t = Val (tt, mk_tree (foldl (fun st p => delete p st) (store t) ps)
                                 (_context_map t) (_root t) (_id_counter t)).
Proof.
  revert t. induction ps as [|p ps IH]; intros t Hnd Hin; [by destruct t|].
  apply NoDup_cons in Hnd as [Hp Hnd]. destruct (Hin p) as [c Hc]; [by left|].
  cbn [delete_nodes foldl]. unfold delete_Context.
  erewrite prog_bind_val; [|by run_load Hc]. rewrite IH; [done..|].
  intros q Hq. cbn. rewrite lookup_delete_ne by (intros ->; done). apply Hin. by right.
Qed.

Lemma foldl_delete_none (ps : list positive) (st : gmap positive Context) q :
  q ∈ ps \/ st !! q = None -> foldl (fun st p => delete p st) st ps !! q = None.
Proof.
  revert st. induction ps as [|p ps IH]; intros st Hq; cbn.
  - destruct Hq as [[]%not_elem_of_nil|]; done.
  - apply IH. destruct (decide (q = p)) as [->|Hne]; [right; apply lookup_delete_eq|].
    rewrite lookup_delete_ne by done. destruct Hq as [Hq|Hq]; [|by right].
    apply elem_of_cons in Hq as [->|Hq]; [done|by left].
Qed.

(** Destroying a well-formed tree deletes every node of it once; no node is left. *)
Theorem destroy_releases t : wf_tree t ->
  destroy_ContextTree order t = Val (tt, mk_tree ∅ ∅ (_root t) (_id_counter t)).
Proof.
  intros Hwf. unfold destroy_ContextTree. run_step.
  erewrite prog_bind_val.
  2: { apply delete_nodes_run; [by apply order_distinct|].
       intros p. rewrite (order_nodes t Hwf). apply elem_of_dom. }
  run_step. unfold prog_put. do 2 f_equal. f_equal. apply map_empty. intros q.
  apply foldl_delete_none. destruct (store t !! q) eqn:Hq; [left|by right].
  apply (order_nodes t Hwf), elem_of_dom. by exists c.
Qed.
End Iteration.

Module Examples.
Definition f1 := mk_frame 0 10 77 [] 0 [] 5 0.
Definition f2 := mk_frame 0 10 78 [] 0 [] 9 0.

Lemma root_lookup : store new_ContextTree !! 1%positive = Some (new_Context 0).
Proof. by apply new_tree_lookup. Qed.

Lemma addContext_correct_witness :
  exists p t' c, addContext (Some 1%positive) f1 new_ContextTree = Val (p, t') /\ wf_tree t' /\
    store t' !! p = Some c /\ _parent c = Some 1%positive /\ key_of (_frame c) = key_of f1.
Proof.
  destruct (addContext_correct new_ContextTree new_tree_wf _ _ root_lookup f1 ltac:(simpl; lia))
    as (p & t' & c & ? & ? & ? & ? & ? & _).
  exists p, t', c. repeat (split; [assumption|]). assumption.
Defined.

Lemma addContext_idempotent_witness :
  exists p t', addContext (Some 1%positive) f1 new_ContextTree = Val (p, t') /\
    addContext (Some 1%positive) f1 t' = Val (p, t').
Proof.
  apply (addContext_idempotent new_ContextTree new_tree_wf _ _ root_lookup f1 ltac:(simpl; lia)).
Defined.

Lemma context_tree_trie_witness :
  exists p1 t1 p2 t2,
    add_path 1 [f1; f2] new_ContextTree = Val (p1, t1) /\
    add_path 1 [f1; f1] t1 = Val (p2, t2) /\ p1 <> p2.
Proof.
  destruct (context_tree_trie new_ContextTree new_tree_wf [f1; f2] [f1; f1] ltac:(simpl; lia))
    as (p1 & t1 & p2 & t2 & H1 & H2 & _ & H3 & _).
  exists p1, t1, p2, t2. split; [exact H1|]. split; [exact H2|].
  intros Heq. apply H3 in Heq. discriminate Heq.
Defined.

(** A tree of four nodes, visited and destroyed. *)
Definition by_identifier (m : gmap Z positive) : list positive := (map_to_list m).*2.
Definition tree_of_four : outcome ContextTree :=
  '(_, t1) ← add_path 1 [f1; f2] new_ContextTree;
  '(_, t2) ← add_path 1 [f1; f1] t1; mret t2.
Example visited :
  (t ← tree_of_four; ps ← walk by_identifier 4 t (begin t); mret (length ps))
  = Val 4%nat.
Proof. vm_compute. reflexivity. Qed.
Example destroyed :
  (t ← tree_of_four; destroy_ContextTree by_identifier t) = Val (tt, mk_tree ∅ ∅ 1 4).
Proof. vm_compute. reflexivity. Qed.
End Examples.
