(* ===== verification/NewContext.v ===== *)
(** The calling context tree that the agent attaches to each thread
    ([new_context.h], [new_context.cpp]).

    The classes repeat those of [context.h] under new names.  The definitions
    below are translated from the new files; the theorem at the end shows that
    each operation does on the new tree exactly what the old one does, so the
    trie invariant of [Context.v] carries over. *)
From stdpp Require Import base numbers option list gmap strings.
From Stdlib Require Import ZArith Lia.
From S2P Require Import Prelude.
From S2P Require Import Cxx.
From S2P Require Import Xml.
From S2P Require Import Metrics.
From S2P Require Context.

(** [class NewContextFrame], with the initialisers of its fields. *)
Record NewContextFrame := mk_frame {
  binary_addr : Z;
  numa_node : Z;
  method_id : Z;
  method_name : str;
  method_version : Z;
  source_file : str;
  bci : Z;
  src_lineno : Z
}.
Definition default_frame : NewContextFrame := mk_frame 0 10 0 [] 0 [] (-1) 0.

(** [NewContextFrame::operator=(const ASGCT_CallFrame &)] *)
Definition assign_call_frame (lineno call_method_id : Z) (f : NewContextFrame) : NewContextFrame :=
  mk_frame (binary_addr f) (numa_node f) call_method_id (method_name f) (method_version f)
    (source_file f) lineno (src_lineno f).

(** [class NewContext] *)
Record NewContext := mk_context {
  _id : Z;
  _triggered : bool;
  _frame : NewContextFrame;
  _metrics : option (list metric_val_t);
  children : list positive;
  _parent : option positive
}.

(** [NewContext::NewContext(uint32_t id)] *)
Definition new_NewContext (id : Z) : NewContext := mk_context id false default_frame None [] None.

(** [NewContext::operator=(const NewContextFrame &)] and the setters. *)
Definition assign_frame (frame : NewContextFrame) (c : NewContext) : NewContext :=
  mk_context (_id c) (_triggered c) frame (_metrics c) (children c) (_parent c).
Definition setMetrics (m : option (list metric_val_t)) (c : NewContext) : NewContext :=
  mk_context (_id c) (_triggered c) (_frame c) m (children c) (_parent c).
Definition setTriggered (c : NewContext) : NewContext :=
  mk_context (_id c) true (_frame c) (_metrics c) (children c) (_parent c).
Definition with_parent (p : positive) (c : NewContext) : NewContext :=
  mk_context (_id c) (_triggered c) (_frame c) (_metrics c) (children c) (Some p).
Definition with_child (p : positive) (c : NewContext) : NewContext :=
  mk_context (_id c) (_triggered c) (_frame c) (_metrics c) (children c ++ [p]) (_parent c).

(** [contextRefEqual] compares the five fields of the key. *)
Definition key : Type := Z * Z * Z * Z * Z.
Definition key_of (f : NewContextFrame) : key :=
  (bci f, method_id f, binary_addr f, numa_node f, method_version f).
Definition contextRefEqual (a b : NewContext) : bool :=
  (bci (_frame a) =? bci (_frame b)) && (method_id (_frame a) =? method_id (_frame b)) &&
  (binary_addr (_frame a) =? binary_addr (_frame b)) &&
  (numa_node (_frame a) =? numa_node (_frame b)) &&
  (method_version (_frame a) =? method_version (_frame b)).

(** [class NewContextTree] with the store its nodes live in. *)
Record NewContextTree := mk_tree {
  store : gmap positive NewContext;
  _context_map : gmap Z positive;
  _root : positive;
  _id_counter : Z
}.

Abbreviation T := (prog NewContextTree).

Definition load (p : positive) : T NewContext := fun t =>
  match store t !! p with Some c => Val (c, t) | None => Fault UndefinedBehaviour end.
Definition write (p : positive) (c : NewContext) : T unit := fun t =>
  Val (tt, mk_tree (<[p := c]> (store t)) (_context_map t) (_root t) (_id_counter t)).
Definition free (p : positive) : T unit := fun t =>
  Val (tt, mk_tree (delete p (store t)) (_context_map t) (_root t) (_id_counter t)).

(** The first child equal to the probe; the set holds at most one. *)
Fixpoint find_equal (st : gmap positive NewContext) (probe : NewContext) (cs : list positive)
  : option positive :=
  match cs with
  | [] => None
  | p :: cs =>
    match st !! p with
    | Some c => if contextRefEqual c probe then Some p else find_equal st probe cs
    | None => find_equal st probe cs
    end
  end.

(** [parent->findChild(ctxt)] *)
Definition findChild (parent ctxt : positive) : T (option positive) :=
  p ← load parent; c ← load ctxt; t ← prog_get;
  mret (find_equal (store t) c (children p)).

(** [parent->addChild(ctxt)]: the set refuses a child equal to one it holds. *)
Definition addChild (parent ctxt : positive) : T unit :=
  p ← load parent; c ← load ctxt; t ← prog_get;
  match find_equal (store t) c (children p) with
  | Some _ => mret tt
  | None => write parent (with_child ctxt p)
  end;;
  c ← load ctxt;
  write ctxt (with_parent parent c).

(** [removeChild] is [assert(false)]. *)
Definition removeChild (ctxt : positive) : T unit := prog_fault AssertFailure.

Definition getChildren (order : list positive -> list positive) (p : positive) : T (list positive) :=
  c ← load p; mret (order (children c)).

(** [NewContextTree::NewContextTree] *)
Definition new_NewContextTree : NewContextTree :=
  mk_tree {[1%positive := new_NewContext 0]} {[0 := 1%positive]} 1 1.

(** [NewContextTree::~NewContextTree]: every node of the map is deleted, in the order in which the
    map is iterated over; a node that is not there cannot be deleted. *)
Definition delete_NewContext (p : positive) : T unit := load p;; free p.
Fixpoint delete_nodes (nodes : list positive) : T unit :=
  match nodes with
  | [] => mret tt
  | p :: nodes => delete_NewContext p;; delete_nodes nodes
  end.
Definition destroy_NewContextTree (order : gmap Z positive -> list positive) : T unit :=
  t ← prog_get;
  delete_nodes (order (_context_map t));;
  t ← prog_get;
  prog_put (mk_tree (store t) ∅ (_root t) (_id_counter t)).

(** [NewContextTree::addContext(NewContext *, const NewContextFrame &)] *)
Definition addContext (parent : option positive) (frame : NewContextFrame) : T positive :=
  match parent with
  | None => prog_fault AssertFailure
  | Some parent =>
    t ← prog_get;
    let ctxt_id := _id_counter t in
    let new_ctxt := fresh (dom (store t)) in
    write new_ctxt (new_NewContext ctxt_id);;
    c ← load new_ctxt;
    write new_ctxt (assign_frame frame c);;
    find_child ← findChild parent new_ctxt;
    match find_child with
    | Some child => free new_ctxt;; mret child
    | None =>
      addChild parent new_ctxt;;
      t ← prog_get;
      prog_put (mk_tree (store t) (<[ctxt_id := new_ctxt]> (_context_map t)) (_root t)
                        (u32 (_id_counter t + 1)));;
      mret new_ctxt
    end
  end.

(** [NewContextTree::addContext(uint32_t, const NewContextFrame &)] *)
Definition addContext_id (parent_id : Z) (frame : NewContextFrame) : T positive :=
  t ← prog_get;
  match _context_map t !! parent_id with
  | None => prog_fault AssertFailure
  | Some parent => addContext (Some parent) frame
  end.

(** [createXMLObj<NewContext>]; [print_id] is the stream output of a [jmethodID]. *)
Definition createXMLObj_NewContext (print_id : Z -> str) (p : positive) : T (option XMLObj) :=
  instance ← load p;
  let obj := new_XMLObj (lit "context") in
  let obj := SET_ATTR "id" (dec (_id instance)) obj in
  let obj := SET_ATTR "method_id" (print_id (method_id (_frame instance))) obj in
  let obj := SET_ATTR "method_version" (dec (method_version (_frame instance))) obj in
  let obj := SET_ATTR "binary_addr" (dec (binary_addr (_frame instance))) obj in
  let obj := SET_ATTR "numa_node" (dec (numa_node (_frame instance))) obj in
  let obj := SET_ATTR "bci" (dec (bci (_frame instance))) obj in
  obj ← match _parent instance with
        | Some q => parent ← load q; mret (SET_ATTR "parent_id" (dec (_id parent)) obj)
        | None => mret (SET_ATTR "parent_id" (dec (-1)) obj)
        end;
  mret match _metrics instance with
       | Some vals =>
         match createXMLObj_ContextMetrics vals with
         | Some child => Some (Xml.addChild 0 child obj)
         | None => None
         end
       | None => Some obj
       end.


(** [NewContextTree::iterator]: a place in the iteration over the map, its length for the end. *)
Section Iterator.
Context (order : gmap Z positive -> list positive).

Abbreviation iterator := nat (only parsing).
Definition begin (t : NewContextTree) : iterator := O.
Definition end_of (t : NewContextTree) : iterator := length (order (_context_map t)).

(** Each gives the value of the expression and the iterator after it; the end has no next
    place and nothing to read.  The class returns the iterator after the step from both. *)
Definition pre_increment (t : NewContextTree) (it : iterator) : outcome (iterator * iterator) :=
  if (it <? end_of t)%nat then Val (S it, S it) else Fault UndefinedBehaviour.
Definition post_increment (t : NewContextTree) (it : iterator) : outcome (iterator * iterator) :=
  if (it <? end_of t)%nat then Val (S it, S it) else Fault UndefinedBehaviour.
Definition iter_eq (it other : iterator) : bool := (it =? other)%nat.
Definition deref (t : NewContextTree) (it : iterator) : outcome positive :=
  match order (_context_map t) !! it with Some p => Val p | None => Fault UndefinedBehaviour end.

(** A loop from one iterator to the end, [for (; it != t.end(); ++it)]. *)
Fixpoint walk (fuel : nat) (t : NewContextTree) (it : iterator) : outcome (list positive) :=
  if iter_eq it (end_of t) then Val [] else
  match fuel with
  | O => Fault OutOfFuel
  | S fuel =>
    p ← deref t it;
    next ← pre_increment t it;
    ps ← walk fuel t next.2;
    mret (p :: ps)
  end.
End Iterator.

(** * Equivalence with the old tree *)

Definition old_frame (f : NewContextFrame) : Context.ContextFrame :=
  Context.mk_frame (binary_addr f) (numa_node f) (method_id f) (method_name f) (method_version f)
    (source_file f) (bci f) (src_lineno f).
Definition old_context (c : NewContext) : Context.Context :=
  Context.mk_context (_id c) (_triggered c) (old_frame (_frame c)) (_metrics c) (children c) (_parent c).
Definition old_tree (t : NewContextTree) : Context.ContextTree :=
  Context.mk_tree (old_context <$> store t) (_context_map t) (_root t) (_id_counter t).

(** The old program does what the new one does, results related by [f]. *)
Definition simulates {A B} (f : A -> B) (m : T A) (m' : prog Context.ContextTree B) : Prop :=
  forall t, m' (old_tree t) =
    match m t with Val (a, t') => Val (f a, old_tree t') | Fault e => Fault e end.

Lemma sim_ret {A B} (f : A -> B) a : simulates f (mret a) (mret (f a)).
Proof. done. Qed.

Lemma sim_bind {A B C D} (f : A -> B) (g : C -> D) m m' k k' :
  simulates f m m' -> (forall a, simulates g (k a) (k' (f a))) ->
  simulates g (m ≫= k) (m' ≫= k').
Proof.
  intros Hm Hk t. specialize (Hm t). destruct (m t) as [[a t']|e] eqn:Hr.
  - rewrite (prog_bind_val _ _ _ _ _ Hm), (prog_bind_val _ _ _ _ _ Hr). apply Hk.
  - by rewrite (prog_bind_fault _ _ _ _ Hm), (prog_bind_fault _ _ _ _ Hr).
Qed.

Lemma sim_load p : simulates old_context (load p) (Context.load p).
Proof.
  intros t. unfold load, Context.load. simpl. rewrite lookup_fmap.
  by destruct (store t !! p).
Qed.

Lemma sim_write p c : simulates id (write p c) (Context.write p (old_context c)).
Proof. intros t. unfold write, Context.write, old_tree. simpl. by rewrite fmap_insert. Qed.

Lemma sim_free p : simulates id (free p) (Context.free p).
Proof. intros t. unfold free, Context.free, old_tree. simpl. by rewrite fmap_delete. Qed.

Lemma sim_get : simulates old_tree prog_get prog_get.
Proof. done. Qed.

Lemma sim_fault {A B} (f : A -> B) e : simulates f (prog_fault e) (prog_fault e).
Proof. done. Qed.

Lemma find_equal_old st c cs :
  Context.find_equal (old_context <$> st) (old_context c) cs = find_equal st c cs.
Proof.
  induction cs as [|p cs IH]; simpl; [done|]. rewrite lookup_fmap.
  destruct (st !! p) as [c'|]; simpl; [|done]. rewrite IH. done.
Qed.

#[local] Hint Resolve sim_ret sim_load sim_write sim_free sim_get sim_fault : cxx.

Lemma sim_findChild parent ctxt : simulates id (findChild parent ctxt) (Context.findChild parent ctxt).
Proof.
  unfold findChild, Context.findChild.
  do 2 (eapply sim_bind; [apply sim_load|intros ?]). eapply sim_bind; [apply sim_get|intros t].
  simpl. rewrite find_equal_old. apply (sim_ret id).
Qed.

Lemma sim_addChild parent ctxt : simulates id (addChild parent ctxt) (Context.addChild parent ctxt).
Proof.
  unfold addChild, Context.addChild.
  do 2 (eapply sim_bind; [apply sim_load|intros ?]). eapply sim_bind; [apply sim_get|intros t].
  simpl. rewrite find_equal_old. eapply (sim_bind id).
  - destruct (find_equal _ _ _); [apply (sim_ret id)|apply (sim_write parent (with_child ctxt a))].
  - intros _. eapply sim_bind; [apply sim_load|intros c].
    apply (sim_write ctxt (with_parent parent c)).
Qed.

Lemma sim_delete_nodes ps : simulates id (delete_nodes ps) (Context.delete_nodes ps).
Proof.
  induction ps as [|p ps IH]; [by apply (sim_ret id)|]. cbn [delete_nodes Context.delete_nodes].
  eapply (sim_bind id); [|intros _; exact IH].
  unfold delete_NewContext, Context.delete_Context.
  eapply sim_bind; [apply sim_load|intros c; apply sim_free].
Qed.

(** Both destructors do the same, and both iterators. *)
Theorem NewContext_destroy_equiv order :
  simulates id (destroy_NewContextTree order) (Context.destroy_ContextTree order).
Proof.
  unfold destroy_NewContextTree, Context.destroy_ContextTree.
  eapply sim_bind; [apply sim_get|intros t]. eapply (sim_bind id); [apply sim_delete_nodes|intros _].
  eapply sim_bind; [apply sim_get|intros t' t'']. done.
Qed.

Theorem NewContext_walk_equiv order n t it :
  Context.walk order n (old_tree t) it = walk order n t it.
Proof.
  revert it. induction n as [|n IH]; intros it; [done|].
  cbn [walk Context.walk]. change (Context.end_of order (old_tree t)) with (end_of order t).
  change (Context.iter_eq it (end_of order t)) with (iter_eq it (end_of order t)).
  change (Context.deref order (old_tree t) it) with (deref order t it).
  change (Context.pre_increment order (old_tree t) it) with (pre_increment order t it).
  destruct (iter_eq it (end_of order t)), (deref order t it); cbn; [done..| |done].
  destruct (pre_increment order t it) as [nx|]; cbn; [|done]. by rewrite IH.
Qed.

Lemma dom_old_tree t : dom (Context.store (old_tree t)) = dom (store t).
Proof. simpl. apply dom_fmap_L. Qed.

Lemma sim_addContext parent frame :
  simulates id (addContext parent frame) (Context.addContext parent (old_frame frame)).
Proof.
  unfold addContext, Context.addContext. destruct parent as [parent|]; [|apply sim_fault].
  eapply sim_bind; [apply sim_get|intros t]. rewrite dom_old_tree. cbv zeta.
  set (n := fresh (dom (store t))).
  eapply (sim_bind id); [apply (sim_write n (new_NewContext (_id_counter t)))|intros _].
  eapply sim_bind; [apply sim_load|intros c].
  eapply (sim_bind id); [apply (sim_write n (assign_frame frame c))|intros _].
  eapply (sim_bind id); [apply sim_findChild|intros [child|]].
  - eapply (sim_bind id); [apply sim_free|intros _]. apply (sim_ret id).
  - eapply (sim_bind id); [apply sim_addChild|intros _].
    eapply sim_bind; [apply sim_get|intros t2].
    eapply (sim_bind id); [by intros ?|intros _]. apply (sim_ret id).
Qed.

(** C35: the tree attached to threads is the tree of [context.cpp] under other
    names: on any state, adding a frame below any node (or below null) gives
    the same node or the same fault as the old code on the translated state,
    and leaves translated states; both start from the same empty tree. *)
Theorem NewContext_addContext_equiv parent frame t :
  Context.addContext parent (old_frame frame) (old_tree t) =
    match addContext parent frame t with
    | Val (p, t') => Val (p, old_tree t')
    | Fault e => Fault e
    end /\
  old_tree new_NewContextTree = Context.new_ContextTree.
Proof.
  split; [apply sim_addContext|reflexivity].
Qed.
