(* ===== verification/Jvmti.v ===== *)
(** The JVM Tool Interface as the agent sees it ([jvmti.h]).

    The interface is implemented by the runtime, so its functions are the fields
    of a record that the model is parameterised by; every function returns an
    error code with its outputs.  Object and method handles are integers.  The
    enumerations and structures that the agent registers with are data. *)
From stdpp Require Import base numbers option list strings.
From Stdlib Require Import ZArith Lia.
From S2P Require Import Prelude.
From S2P Require Import Cxx.

(** * Enumerations and structures of the header *)

Module Enum.
(** [jvmtiError] *)
Inductive jvmtiError :=
  | JVMTI_ERROR_NONE | JVMTI_ERROR_INVALID_THREAD | JVMTI_ERROR_INVALID_THREAD_GROUP
  | JVMTI_ERROR_INVALID_PRIORITY | JVMTI_ERROR_THREAD_NOT_SUSPENDED
  | JVMTI_ERROR_THREAD_SUSPENDED | JVMTI_ERROR_THREAD_NOT_ALIVE | JVMTI_ERROR_INVALID_OBJECT
  | JVMTI_ERROR_INVALID_CLASS | JVMTI_ERROR_CLASS_NOT_PREPARED | JVMTI_ERROR_INVALID_METHODID
  | JVMTI_ERROR_INVALID_LOCATION | JVMTI_ERROR_INVALID_FIELDID | JVMTI_ERROR_NO_MORE_FRAMES
  | JVMTI_ERROR_OPAQUE_FRAME | JVMTI_ERROR_TYPE_MISMATCH | JVMTI_ERROR_INVALID_SLOT
  | JVMTI_ERROR_DUPLICATE | JVMTI_ERROR_NOT_FOUND | JVMTI_ERROR_INVALID_MONITOR
  | JVMTI_ERROR_NOT_MONITOR_OWNER | JVMTI_ERROR_INTERRUPT | JVMTI_ERROR_INVALID_CLASS_FORMAT
  | JVMTI_ERROR_CIRCULAR_CLASS_DEFINITION | JVMTI_ERROR_FAILS_VERIFICATION
  | JVMTI_ERROR_UNSUPPORTED_REDEFINITION_METHOD_ADDED
  | JVMTI_ERROR_UNSUPPORTED_REDEFINITION_SCHEMA_CHANGED | JVMTI_ERROR_INVALID_TYPESTATE
  | JVMTI_ERROR_UNSUPPORTED_REDEFINITION_HIERARCHY_CHANGED
  | JVMTI_ERROR_UNSUPPORTED_REDEFINITION_METHOD_DELETED | JVMTI_ERROR_UNSUPPORTED_VERSION
  | JVMTI_ERROR_NAMES_DONT_MATCH | JVMTI_ERROR_UNSUPPORTED_REDEFINITION_CLASS_MODIFIERS_CHANGED
  | JVMTI_ERROR_UNSUPPORTED_REDEFINITION_METHOD_MODIFIERS_CHANGED
  | JVMTI_ERROR_UNMODIFIABLE_CLASS | JVMTI_ERROR_NOT_AVAILABLE
  | JVMTI_ERROR_MUST_POSSESS_CAPABILITY | JVMTI_ERROR_NULL_POINTER
  | JVMTI_ERROR_ABSENT_INFORMATION | JVMTI_ERROR_INVALID_EVENT_TYPE
  | JVMTI_ERROR_ILLEGAL_ARGUMENT | JVMTI_ERROR_NATIVE_METHOD
  | JVMTI_ERROR_CLASS_LOADER_UNSUPPORTED | JVMTI_ERROR_OUT_OF_MEMORY | JVMTI_ERROR_ACCESS_DENIED
  | JVMTI_ERROR_WRONG_PHASE | JVMTI_ERROR_INTERNAL | JVMTI_ERROR_UNATTACHED_THREAD
  | JVMTI_ERROR_INVALID_ENVIRONMENT.

Definition error_code (e : jvmtiError) : Z :=
  match e with
  | JVMTI_ERROR_NONE => 0
  | JVMTI_ERROR_INVALID_THREAD => 10
  | JVMTI_ERROR_INVALID_THREAD_GROUP => 11
  | JVMTI_ERROR_INVALID_PRIORITY => 12
  | JVMTI_ERROR_THREAD_NOT_SUSPENDED => 13
  | JVMTI_ERROR_THREAD_SUSPENDED => 14
  | JVMTI_ERROR_THREAD_NOT_ALIVE => 15
  | JVMTI_ERROR_INVALID_OBJECT => 20
  | JVMTI_ERROR_INVALID_CLASS => 21
  | JVMTI_ERROR_CLASS_NOT_PREPARED => 22
  | JVMTI_ERROR_INVALID_METHODID => 23
  | JVMTI_ERROR_INVALID_LOCATION => 24
  | JVMTI_ERROR_INVALID_FIELDID => 25
  | JVMTI_ERROR_NO_MORE_FRAMES => 31
  | JVMTI_ERROR_OPAQUE_FRAME => 32
  | JVMTI_ERROR_TYPE_MISMATCH => 34
  | JVMTI_ERROR_INVALID_SLOT => 35
  | JVMTI_ERROR_DUPLICATE => 40
  | JVMTI_ERROR_NOT_FOUND => 41
  | JVMTI_ERROR_INVALID_MONITOR => 50
  | JVMTI_ERROR_NOT_MONITOR_OWNER => 51
  | JVMTI_ERROR_INTERRUPT => 52
  | JVMTI_ERROR_INVALID_CLASS_FORMAT => 60
  | JVMTI_ERROR_CIRCULAR_CLASS_DEFINITION => 61
  | JVMTI_ERROR_FAILS_VERIFICATION => 62
  | JVMTI_ERROR_UNSUPPORTED_REDEFINITION_METHOD_ADDED => 63
  | JVMTI_ERROR_UNSUPPORTED_REDEFINITION_SCHEMA_CHANGED => 64
  | JVMTI_ERROR_INVALID_TYPESTATE => 65
  | JVMTI_ERROR_UNSUPPORTED_REDEFINITION_HIERARCHY_CHANGED => 66
  | JVMTI_ERROR_UNSUPPORTED_REDEFINITION_METHOD_DELETED => 67
  | JVMTI_ERROR_UNSUPPORTED_VERSION => 68
  | JVMTI_ERROR_NAMES_DONT_MATCH => 69
  | JVMTI_ERROR_UNSUPPORTED_REDEFINITION_CLASS_MODIFIERS_CHANGED => 70
  | JVMTI_ERROR_UNSUPPORTED_REDEFINITION_METHOD_MODIFIERS_CHANGED => 71
  | JVMTI_ERROR_UNMODIFIABLE_CLASS => 79
  | JVMTI_ERROR_NOT_AVAILABLE => 98
  | JVMTI_ERROR_MUST_POSSESS_CAPABILITY => 99
  | JVMTI_ERROR_NULL_POINTER => 100
  | JVMTI_ERROR_ABSENT_INFORMATION => 101
  | JVMTI_ERROR_INVALID_EVENT_TYPE => 102
  | JVMTI_ERROR_ILLEGAL_ARGUMENT => 103
  | JVMTI_ERROR_NATIVE_METHOD => 104
  | JVMTI_ERROR_CLASS_LOADER_UNSUPPORTED => 106
  | JVMTI_ERROR_OUT_OF_MEMORY => 110
  | JVMTI_ERROR_ACCESS_DENIED => 111
  | JVMTI_ERROR_WRONG_PHASE => 112
  | JVMTI_ERROR_INTERNAL => 113
  | JVMTI_ERROR_UNATTACHED_THREAD => 115
  | JVMTI_ERROR_INVALID_ENVIRONMENT => 116
  end.
Definition JVMTI_ERROR_MAX : Z := 116.

(** [jvmtiEvent] *)
Inductive jvmtiEvent :=
  | JVMTI_EVENT_VM_INIT | JVMTI_EVENT_VM_DEATH | JVMTI_EVENT_THREAD_START
  | JVMTI_EVENT_THREAD_END | JVMTI_EVENT_CLASS_FILE_LOAD_HOOK | JVMTI_EVENT_CLASS_LOAD
  | JVMTI_EVENT_CLASS_PREPARE | JVMTI_EVENT_VM_START | JVMTI_EVENT_EXCEPTION
  | JVMTI_EVENT_EXCEPTION_CATCH | JVMTI_EVENT_SINGLE_STEP | JVMTI_EVENT_FRAME_POP
  | JVMTI_EVENT_BREAKPOINT | JVMTI_EVENT_FIELD_ACCESS | JVMTI_EVENT_FIELD_MODIFICATION
  | JVMTI_EVENT_METHOD_ENTRY | JVMTI_EVENT_METHOD_EXIT | JVMTI_EVENT_NATIVE_METHOD_BIND
  | JVMTI_EVENT_COMPILED_METHOD_LOAD | JVMTI_EVENT_COMPILED_METHOD_UNLOAD
  | JVMTI_EVENT_DYNAMIC_CODE_GENERATED | JVMTI_EVENT_DATA_DUMP_REQUEST
  | JVMTI_EVENT_MONITOR_WAIT | JVMTI_EVENT_MONITOR_WAITED | JVMTI_EVENT_MONITOR_CONTENDED_ENTER
  | JVMTI_EVENT_MONITOR_CONTENDED_ENTERED | JVMTI_EVENT_RESOURCE_EXHAUSTED
  | JVMTI_EVENT_GARBAGE_COLLECTION_START | JVMTI_EVENT_GARBAGE_COLLECTION_FINISH
  | JVMTI_EVENT_OBJECT_FREE | JVMTI_EVENT_VM_OBJECT_ALLOC.

Definition event_code (e : jvmtiEvent) : Z :=
  match e with
  | JVMTI_EVENT_VM_INIT => 50
  | JVMTI_EVENT_VM_DEATH => 51
  | JVMTI_EVENT_THREAD_START => 52
  | JVMTI_EVENT_THREAD_END => 53
  | JVMTI_EVENT_CLASS_FILE_LOAD_HOOK => 54
  | JVMTI_EVENT_CLASS_LOAD => 55
  | JVMTI_EVENT_CLASS_PREPARE => 56
  | JVMTI_EVENT_VM_START => 57
  | JVMTI_EVENT_EXCEPTION => 58
  | JVMTI_EVENT_EXCEPTION_CATCH => 59
  | JVMTI_EVENT_SINGLE_STEP => 60
  | JVMTI_EVENT_FRAME_POP => 61
  | JVMTI_EVENT_BREAKPOINT => 62
  | JVMTI_EVENT_FIELD_ACCESS => 63
  | JVMTI_EVENT_FIELD_MODIFICATION => 64
  | JVMTI_EVENT_METHOD_ENTRY => 65
  | JVMTI_EVENT_METHOD_EXIT => 66
  | JVMTI_EVENT_NATIVE_METHOD_BIND => 67
  | JVMTI_EVENT_COMPILED_METHOD_LOAD => 68
  | JVMTI_EVENT_COMPILED_METHOD_UNLOAD => 69
  | JVMTI_EVENT_DYNAMIC_CODE_GENERATED => 70
  | JVMTI_EVENT_DATA_DUMP_REQUEST => 71
  | JVMTI_EVENT_MONITOR_WAIT => 73
  | JVMTI_EVENT_MONITOR_WAITED => 74
  | JVMTI_EVENT_MONITOR_CONTENDED_ENTER => 75
  | JVMTI_EVENT_MONITOR_CONTENDED_ENTERED => 76
  | JVMTI_EVENT_RESOURCE_EXHAUSTED => 80
  | JVMTI_EVENT_GARBAGE_COLLECTION_START => 81
  | JVMTI_EVENT_GARBAGE_COLLECTION_FINISH => 82
  | JVMTI_EVENT_OBJECT_FREE => 83
  | JVMTI_EVENT_VM_OBJECT_ALLOC => 84
  end.
Definition JVMTI_MIN_EVENT_TYPE_VAL : Z := 50.
Definition JVMTI_MAX_EVENT_TYPE_VAL : Z := 84.

Definition all_events : list jvmtiEvent := [
    JVMTI_EVENT_VM_INIT; JVMTI_EVENT_VM_DEATH; JVMTI_EVENT_THREAD_START; JVMTI_EVENT_THREAD_END;
    JVMTI_EVENT_CLASS_FILE_LOAD_HOOK; JVMTI_EVENT_CLASS_LOAD; JVMTI_EVENT_CLASS_PREPARE;
    JVMTI_EVENT_VM_START; JVMTI_EVENT_EXCEPTION; JVMTI_EVENT_EXCEPTION_CATCH;
    JVMTI_EVENT_SINGLE_STEP; JVMTI_EVENT_FRAME_POP; JVMTI_EVENT_BREAKPOINT;
    JVMTI_EVENT_FIELD_ACCESS; JVMTI_EVENT_FIELD_MODIFICATION; JVMTI_EVENT_METHOD_ENTRY;
    JVMTI_EVENT_METHOD_EXIT; JVMTI_EVENT_NATIVE_METHOD_BIND; JVMTI_EVENT_COMPILED_METHOD_LOAD;
    JVMTI_EVENT_COMPILED_METHOD_UNLOAD; JVMTI_EVENT_DYNAMIC_CODE_GENERATED;
    JVMTI_EVENT_DATA_DUMP_REQUEST; JVMTI_EVENT_MONITOR_WAIT; JVMTI_EVENT_MONITOR_WAITED;
    JVMTI_EVENT_MONITOR_CONTENDED_ENTER; JVMTI_EVENT_MONITOR_CONTENDED_ENTERED;
    JVMTI_EVENT_RESOURCE_EXHAUSTED; JVMTI_EVENT_GARBAGE_COLLECTION_START;
    JVMTI_EVENT_GARBAGE_COLLECTION_FINISH; JVMTI_EVENT_OBJECT_FREE; JVMTI_EVENT_VM_OBJECT_ALLOC].

(** The bit fields of [jvmtiCapabilities], in order from bit 0. *)
Inductive capability :=
  | can_tag_objects | can_generate_field_modification_events | can_generate_field_access_events
  | can_get_bytecodes | can_get_synthetic_attribute | can_get_owned_monitor_info
  | can_get_current_contended_monitor | can_get_monitor_info | can_pop_frame
  | can_redefine_classes | can_signal_thread | can_get_source_file_name | can_get_line_numbers
  | can_get_source_debug_extension | can_access_local_variables
  | can_maintain_original_method_order | can_generate_single_step_events
  | can_generate_exception_events | can_generate_frame_pop_events
  | can_generate_breakpoint_events | can_suspend | can_redefine_any_class
  | can_get_current_thread_cpu_time | can_get_thread_cpu_time | can_generate_method_entry_events
  | can_generate_method_exit_events | can_generate_all_class_hook_events
  | can_generate_compiled_method_load_events | can_generate_monitor_events
  | can_generate_vm_object_alloc_events | can_generate_native_method_bind_events
  | can_generate_garbage_collection_events | can_generate_object_free_events
  | can_force_early_return | can_get_owned_monitor_stack_depth_info | can_get_constant_pool
  | can_set_native_method_prefix | can_retransform_classes | can_retransform_any_class
  | can_generate_resource_exhaustion_heap_events
  | can_generate_resource_exhaustion_threads_events.

Definition jvmtiCapabilities : list capability := [
    can_tag_objects; can_generate_field_modification_events; can_generate_field_access_events;
    can_get_bytecodes; can_get_synthetic_attribute; can_get_owned_monitor_info;
    can_get_current_contended_monitor; can_get_monitor_info; can_pop_frame; can_redefine_classes;
    can_signal_thread; can_get_source_file_name; can_get_line_numbers;
    can_get_source_debug_extension; can_access_local_variables;
    can_maintain_original_method_order; can_generate_single_step_events;
    can_generate_exception_events; can_generate_frame_pop_events; can_generate_breakpoint_events;
    can_suspend; can_redefine_any_class; can_get_current_thread_cpu_time;
    can_get_thread_cpu_time; can_generate_method_entry_events; can_generate_method_exit_events;
    can_generate_all_class_hook_events; can_generate_compiled_method_load_events;
    can_generate_monitor_events; can_generate_vm_object_alloc_events;
    can_generate_native_method_bind_events; can_generate_garbage_collection_events;
    can_generate_object_free_events; can_force_early_return;
    can_get_owned_monitor_stack_depth_info; can_get_constant_pool; can_set_native_method_prefix;
    can_retransform_classes; can_retransform_any_class;
    can_generate_resource_exhaustion_heap_events;
    can_generate_resource_exhaustion_threads_events].

(** The fields of [jvmtiEventCallbacks], in order. *)
Inductive callback_field :=
  | cb_VMInit | cb_VMDeath | cb_ThreadStart | cb_ThreadEnd | cb_ClassFileLoadHook | cb_ClassLoad
  | cb_ClassPrepare | cb_VMStart | cb_Exception | cb_ExceptionCatch | cb_SingleStep
  | cb_FramePop | cb_Breakpoint | cb_FieldAccess | cb_FieldModification | cb_MethodEntry
  | cb_MethodExit | cb_NativeMethodBind | cb_CompiledMethodLoad | cb_CompiledMethodUnload
  | cb_DynamicCodeGenerated | cb_DataDumpRequest | cb_reserved72 | cb_MonitorWait
  | cb_MonitorWaited | cb_MonitorContendedEnter | cb_MonitorContendedEntered | cb_reserved77
  | cb_reserved78 | cb_reserved79 | cb_ResourceExhausted | cb_GarbageCollectionStart
  | cb_GarbageCollectionFinish | cb_ObjectFree | cb_VMObjectAlloc.

Definition jvmtiEventCallbacks : list callback_field := [
    cb_VMInit; cb_VMDeath; cb_ThreadStart; cb_ThreadEnd; cb_ClassFileLoadHook; cb_ClassLoad;
    cb_ClassPrepare; cb_VMStart; cb_Exception; cb_ExceptionCatch; cb_SingleStep; cb_FramePop;
    cb_Breakpoint; cb_FieldAccess; cb_FieldModification; cb_MethodEntry; cb_MethodExit;
    cb_NativeMethodBind; cb_CompiledMethodLoad; cb_CompiledMethodUnload; cb_DynamicCodeGenerated;
    cb_DataDumpRequest; cb_reserved72; cb_MonitorWait; cb_MonitorWaited;
    cb_MonitorContendedEnter; cb_MonitorContendedEntered; cb_reserved77; cb_reserved78;
    cb_reserved79; cb_ResourceExhausted; cb_GarbageCollectionStart; cb_GarbageCollectionFinish;
    cb_ObjectFree; cb_VMObjectAlloc].

#[global] Instance jvmtiError_eq_dec : EqDecision jvmtiError.
Proof. solve_decision. Defined.
#[global] Instance jvmtiEvent_eq_dec : EqDecision jvmtiEvent.
Proof. solve_decision. Defined.
#[global] Instance capability_eq_dec : EqDecision capability.
Proof. solve_decision. Defined.
#[global] Instance callback_field_eq_dec : EqDecision callback_field.
Proof. solve_decision. Defined.

(** [jvmtiJlocationFormat], [jvmtiEventMode], versions. *)
Definition JVMTI_JLOCATION_JVMBCI : Z := 1.
Definition JVMTI_JLOCATION_MACHINEPC : Z := 2.
Definition JVMTI_JLOCATION_OTHER : Z := 0.
Definition JVMTI_ENABLE : Z := 1.
Definition JVMTI_DISABLE : Z := 0.
Definition JVMTI_VERSION_1_0 : Z := 0x30010000.
Definition JVMTI_VERSION_1_2 : Z := 0x30010200.
End Enum.

(** Codes of [jvmtiError] that the program tests. *)
Definition JVMTI_ERROR_NONE : Z := Eval cbv in Enum.error_code Enum.JVMTI_ERROR_NONE.
Definition JVMTI_ERROR_CLASS_NOT_PREPARED : Z :=
  Eval cbv in Enum.error_code Enum.JVMTI_ERROR_CLASS_NOT_PREPARED.
Definition JVMTI_ERROR_WRONG_PHASE : Z := Eval cbv in Enum.error_code Enum.JVMTI_ERROR_WRONG_PHASE.

(** [jvmtiLineNumberEntry]: a 64-bit signed location and a line. *)
Record jvmtiLineNumberEntry := mk_line {
  start_location : Z;
  line_number : Z
}.

(** [jvmtiAddrLocationMap] *)
Record jvmtiAddrLocationMap := mk_loc {
  start_address : Z;
  location : Z
}.

(** [jvmtiFrameInfo] *)
Record jvmtiFrameInfo := mk_frame_info {
  fi_method : Z;
  fi_location : Z
}.

(** The functions that the agent calls. *)
Record jvmti := mk_jvmti {
  GetMethodName : Z -> Z * str;
  GetMethodDeclaringClass : Z -> Z * Z;
  GetSourceFileName : Z -> Z * str;
  GetClassSignature : Z -> Z * str;
  IsMethodNative : Z -> Z * bool;
  GetMethodLocation : Z -> Z * (Z * Z);
  GetLineNumberTable : Z -> Z * list jvmtiLineNumberEntry
}.

(** [JVM::check_jvmti_error]: true exactly on success. *)
Definition check_jvmti_error (errnum : Z) : bool := errnum =? JVMTI_ERROR_NONE.
