(* ===== verification/CodeCache.v ===== *)
(** Methods and the code cache ([code_cache.h], [code_cache.cpp]).

    A [Method] caches what the runtime says about a Java method; a
    [CompiledMethod] adds its machine code.  The manager finds compiled methods
    by address (a range set of pointers) and by method (a map of groups), under
    a spin lock that is released while a method is being constructed. *)
From stdpp Require Import base numbers option list gmap strings sorting.
From Stdlib Require Import ZArith Lia Ascii.
From S2P Require Import Prelude.
From S2P Require Import Cxx.
From S2P Require Import RangeSet.
From S2P Require Import Xml.
From S2P Require Import Jvmti.

(** * Methods *)

(** [class Method] *)
Record Method := mk_method {
  _method_id : Z;
  _method_name : str;
  _src_file : str;
  _class_name : str;
  _isNative : bool;
  _bci2line_rangeset : RangeSet Z
}.

(** The loop of [loadBCILineTable] over the entries from index [i] on; both
    keys are converted to [uint64_t] by [insert]. *)
Fixpoint load_lines (end_location : Z) (table : list jvmtiLineNumberEntry) (rs : RangeSet Z)
  : outcome (RangeSet Z) :=
  match table with
  | [] => mret rs
  | e :: table =>
    let tmp_start := start_location e in
    let tmp_end := match table with
                   | next :: _ => s64 (start_location next - 1)
                   | [] => end_location
                   end in
    if tmp_end <? tmp_start then load_lines end_location table rs
    else
      '(_, rs) ← insert (u64 tmp_start) (u64 tmp_end) (line_number e) rs;
      load_lines end_location table rs
  end.

Section Runtime.
Context (env : jvmti).

Definition loadBCILineTable (m : Method) : outcome Method :=
  if _isNative m then mret m
  else if negb (isEmpty (_bci2line_rangeset m)) then mret m
  else
    let '(err, (_, end_location)) := GetMethodLocation env (_method_id m) in
    if negb (err =? JVMTI_ERROR_NONE) then mret m
    else
      let '(err, line_table) := GetLineNumberTable env (_method_id m) in
      if negb (err =? JVMTI_ERROR_NONE) then mret m
      else
        rs ← load_lines end_location line_table (_bci2line_rangeset m);
        mret (mk_method (_method_id m) (_method_name m) (_src_file m) (_class_name m)
                (_isNative m) rs).

(** [Lcom/foo/Bar;] becomes [com.foo.Bar]. *)
Definition class_of_signature (signature : str) : outcome str :=
  s ← substr signature 1 (u64 (size signature - 2));
  mret (replace_char "/"%char "."%char s).

(** [Method::Method] *)
Definition new_Method (method_id : Z) : outcome Method :=
  let '(err, name) := GetMethodName env method_id in
  let _method_name := if err =? JVMTI_ERROR_NONE then c_str name else [] in
  let '(err, declaring_class) := GetMethodDeclaringClass env method_id in
  if negb (check_jvmti_error err) then
    let '(err, native_flag) := IsMethodNative env method_id in
    let native := if check_jvmti_error err then native_flag else false in
    loadBCILineTable (mk_method method_id _method_name [] [] native [])
  else
    let '(err, source_filename) := GetSourceFileName env declaring_class in
    let _src_file := if err =? JVMTI_ERROR_NONE then c_str source_filename else [] in
    let '(err, declaringClassName) := GetClassSignature env declaring_class in
    _class_name ← (if err =? JVMTI_ERROR_NONE
                   then class_of_signature (c_str declaringClassName) else mret []);
    let '(err, native_flag) := IsMethodNative env method_id in
    let native := if check_jvmti_error err then native_flag else false in
    loadBCILineTable (mk_method method_id _method_name _src_file _class_name native []).

(** [class CompiledMethod] *)
Record CompiledMethod := mk_compiled {
  base : Method;
  _version : Z;
  _code_size : Z;
  _start_addr : Z;
  _addr2line_rangeset : RangeSet Z
}.

Definition new_CompiledMethod (method_id version code_size code_addr : Z)
  : outcome CompiledMethod :=
  m ← new_Method method_id;
  mret (mk_compiled m version code_size code_addr []).

(** [_start_addr + _code_size], the [jint] sign-extended. *)
Definition code_end (m : CompiledMethod) : Z := u64 (_start_addr m + _code_size m).

Definition isAddrIn (addr : Z) (m : CompiledMethod) : bool :=
  (_start_addr m <=? addr) && (addr <? code_end m).

(** The loop of [loadAddrLocationMap] over consecutive pairs of entries. *)
Fixpoint load_addrs (m : CompiledMethod) (map : list jvmtiAddrLocationMap) (rs : RangeSet Z)
  : outcome (RangeSet Z) :=
  match map with
  | e :: ((next :: _) as map') =>
    let start_addr := start_address e in
    let end_addr := u64 (start_address next - 1) in
    cxx_assert (start_addr <=? end_addr);;
    cxx_assert (end_addr <=? u64 (_start_addr m + _code_size m - 1));;
    match getData (u64 (location next)) (_bci2line_rangeset (base m)) with
    | None => mret rs
    | Some lineno =>
      '(_, rs) ← insert start_addr end_addr lineno rs;
      load_addrs m map' rs
    end
  | _ => mret rs
  end.

Definition with_addrs (rs : RangeSet Z) (m : CompiledMethod) : CompiledMethod :=
  mk_compiled (base m) (_version m) (_code_size m) (_start_addr m) rs.

Definition loadAddrLocationMap (map : list jvmtiAddrLocationMap) (m : CompiledMethod)
  : outcome CompiledMethod :=
  if _isNative (base m) then mret m
  else
    match map with
    | [] => mret m
    | e :: _ =>
      if isEmpty (_bci2line_rangeset (base m)) then mret m
      else
        let end_addr := u64 (start_address e - 1) in
        cxx_assert (_start_addr m <=? end_addr);;
        match getData (u64 (location e)) (_bci2line_rangeset (base m)) with
        | None => mret m
        | Some lineno =>
          '(_, rs) ← insert (_start_addr m) end_addr lineno (_addr2line_rangeset m);
          rs ← load_addrs m map rs;
          mret (with_addrs rs m)
        end
    end.

Definition addr2line (addr : Z) (m : CompiledMethod) : outcome Z :=
  if isEmpty (_addr2line_rangeset m) then mret 0
  else
    match getData addr (_addr2line_rangeset m) with
    | Some line => mret line
    | None =>
      cxx_assert ((_start_addr m <=? addr) && (addr <=? u64 (_start_addr m + _code_size m - 1)));;
      mret 0
    end.

Definition startLine (m : CompiledMethod) : Z :=
  if isEmpty (_addr2line_rangeset m) then -1
  else default 0 (getData (_start_addr m) (_addr2line_rangeset m)).

Definition getMethodBoundary (m : CompiledMethod) : Z * Z :=
  (_start_addr m, u64 (_start_addr m + _code_size m - 1)).

(** [JVMTI] calls while a compiled method is built. *)
Definition build_method (method_id version code_size code_addr : Z)
  (map : list jvmtiAddrLocationMap) : outcome CompiledMethod :=
  m ← new_CompiledMethod method_id version code_size code_addr;
  loadAddrLocationMap map m.

(** * The manager *)

(** [class CompiledMethodGroup]: [_recent_version], [_address_method_map]. *)
Record CompiledMethodGroup := mk_group {
  _recent_version : Z;
  _address_method_map : gmap Z positive
}.
Definition new_CompiledMethodGroup : CompiledMethodGroup := mk_group 0 ∅.

(** [class MethodCache]: the methods that occur in contexts without compiled
    code. *)
Definition hasMethod (method : Z) (methods : gset Z) : bool := bool_decide (method ∈ methods).
Definition MethodCache_addMethod (method : Z) (methods : gset Z) : gset Z := methods ∪ {[method]}.
Definition MethodCache_removeMethod (method : Z) (methods : gset Z) : gset Z := methods ∖ {[method]}.

(** [performActionAll]; [order] is the iteration order of the set. *)
Definition performActionAll {A} (order : gset Z -> list Z) (cb : Z -> A -> A)
  (methods : gset Z) (data : A) : A := foldl (fun data m => cb m data) data (order methods).

(** [class CodeCacheManager] with the heap of compiled methods, its lock, and
    the set of methods without compiled code. *)
Record CodeCacheManager := mk_cache {
  heap : gmap positive CompiledMethod;
  _method_range_set : RangeSet positive;
  _method_id_map : gmap Z CompiledMethodGroup;
  locked : bool;
  uncompiled : gset Z
}.

Abbreviation C := (prog CodeCacheManager).

Definition set_heap h c := mk_cache h (_method_range_set c) (_method_id_map c) (locked c) (uncompiled c).
Definition set_ranges r c := mk_cache (heap c) r (_method_id_map c) (locked c) (uncompiled c).
Definition set_groups g c := mk_cache (heap c) (_method_range_set c) g (locked c) (uncompiled c).
Definition set_locked b c := mk_cache (heap c) (_method_range_set c) (_method_id_map c) b (uncompiled c).
Definition set_uncompiled u c := mk_cache (heap c) (_method_range_set c) (_method_id_map c) (locked c) u.

Definition modify (f : CodeCacheManager -> CodeCacheManager) : C unit := fun c => Val (tt, f c).

(** The spin lock, seen by one thread: waiting for it while holding it never
    ends.  [unlock] does nothing on a free lock; [unsetLock] asserts. *)
Definition lock : C unit := fun c => if locked c then Fault Deadlock else Val (tt, set_locked true c).
Definition unlock : C unit := modify (set_locked false).
Definition setLock : C unit := lock.
Definition unsetLock : C unit := fun c =>
  if locked c then unlock c else Fault AssertFailure.

(** A block under a [LockScope]. *)
Definition with_lock {A} (body : C A) : C A := lock;; a ← body; unlock;; mret a.

(** The group of a method, created when absent. *)
Definition get_group (method_id : Z) : C CompiledMethodGroup := fun c =>
  match _method_id_map c !! method_id with
  | Some g => Val (g, c)
  | None =>
    Val (new_CompiledMethodGroup,
         set_groups (<[method_id := new_CompiledMethodGroup]> (_method_id_map c)) c)
  end.

Definition update_group (method_id : Z) (f : CompiledMethodGroup -> CompiledMethodGroup) : C unit :=
  modify (fun c => set_groups (alter f method_id (_method_id_map c)) c).

(** [CompiledMethodGroup::addMethod].  [others] is whatever other threads do
    between the release of the lock and the time it is taken again. *)
Definition group_addMethod (others : C unit) (method_id code_size code_addr : Z)
  (map : list jvmtiAddrLocationMap) (g : CompiledMethodGroup) : C positive :=
  let version := u32 (_recent_version g + 1) in
  update_group method_id (fun g => mk_group version (_address_method_map g));;
  unsetLock;;
  new_method ← prog_lift (build_method method_id version code_size code_addr map);
  others;;
  setLock;;
  c ← prog_get;
  let p := fresh (dom (heap c)) in
  modify (fun c => set_heap (<[p := new_method]> (heap c)) c);;
  update_group method_id
    (fun g => mk_group (_recent_version g) (<[code_addr := p]> (_address_method_map g)));;
  mret p.

Definition addMethod (others : C unit) (method_id code_size code_addr : Z)
  (map : list jvmtiAddrLocationMap) : C positive :=
  with_lock (
    method_group ← get_group method_id;
    new_method ← group_addMethod others method_id code_size code_addr map method_group;
    c ← prog_get;
    '(inserted, rs) ← prog_lift
      (insert code_addr (u64 (code_addr + code_size - 1)) new_method (_method_range_set c));
    modify (set_ranges rs);;
    prog_lift (cxx_assert inserted);;
    mret new_method).

(** The same, cut where other threads can run: up to the release of the lock, and from
    where it is taken again ([addMethod_split]). *)
Definition addMethod_open (method_id : Z) : C Z :=
  lock;;
  method_group ← get_group method_id;
  let version := u32 (_recent_version method_group + 1) in
  update_group method_id (fun g => mk_group version (_address_method_map g));;
  unsetLock;;
  mret version.

Definition addMethod_close (method_id code_size code_addr : Z) (new_method : CompiledMethod)
  : C positive :=
  setLock;;
  c ← prog_get;
  let p := fresh (dom (heap c)) in
  modify (fun c => set_heap (<[p := new_method]> (heap c)) c);;
  update_group method_id
    (fun g => mk_group (_recent_version g) (<[code_addr := p]> (_address_method_map g)));;
  c ← prog_get;
  '(inserted, rs) ← prog_lift
    (insert code_addr (u64 (code_addr + code_size - 1)) p (_method_range_set c));
  modify (set_ranges rs);;
  prog_lift (cxx_assert inserted);;
  unlock;;
  mret p.

(** The part that adds the method is disabled in the source. *)
Definition addMethodAndRemoveFromUncompiledSet (method_id : Z) : C (option positive) :=
  with_lock (
    modify (fun c => set_uncompiled (MethodCache_removeMethod method_id (uncompiled c)) c);;
    _ ← get_group method_id;
    mret None).

(** [CompiledMethodGroup::removeMethodByAddr] *)
Definition removeMethodByAddr (method_id code_addr : Z) : C unit := fun c =>
  match _method_id_map c !! method_id with
  | None => Val (tt, c)
  | Some g =>
    match _address_method_map g !! code_addr with
    | None => Val (tt, c)
    | Some p =>
      (modify (fun c => set_heap (delete p (heap c)) c);;
       update_group method_id
         (fun g => mk_group (_recent_version g) (delete code_addr (_address_method_map g)))) c
    end
  end.

Definition removeMethod (method_id code_addr : Z) : C unit :=
  with_lock (
    c ← prog_get;
    match _method_id_map c !! method_id with
    | None => mret tt
    | Some _ =>
      removeMethodByAddr method_id code_addr;;
      c ← prog_get;
      let '(removed, rs) := remove code_addr (_method_range_set c) in
      modify (set_ranges rs);;
      prog_lift (cxx_assert removed)
    end).

Definition getMethod (addr : Z) : C (option positive) :=
  with_lock (c ← prog_get; mret (getData addr (_method_range_set c))).

(** [getMethodByVersion]; [order] is the iteration order of the map. *)
Fixpoint most_recent (h : gmap positive CompiledMethod) (ret : option positive) (ms : list positive)
  : outcome (option positive) :=
  match ms with
  | [] => mret ret
  | p :: ms =>
    match h !! p with
    | None => Fault UndefinedBehaviour
    | Some m =>
      match ret with
      | None => most_recent h (Some p) ms
      | Some q =>
        match h !! q with
        | None => Fault UndefinedBehaviour
        | Some m' => most_recent h (if _version m' <? _version m then Some p else ret) ms
        end
      end
    end
  end.

Fixpoint with_version (h : gmap positive CompiledMethod) (version : Z) (ms : list positive)
  : outcome (option positive) :=
  match ms with
  | [] => mret None
  | p :: ms =>
    match h !! p with
    | None => Fault UndefinedBehaviour
    | Some m => if _version m =? version then mret (Some p) else with_version h version ms
    end
  end.

Definition getMethodByVersion (order : gmap Z positive -> list positive) (version : Z)
  (g : CompiledMethodGroup) : C (option positive) :=
  c ← prog_get;
  prog_lift (if version =? 0 then most_recent (heap c) None (order (_address_method_map g))
             else with_version (heap c) version (order (_address_method_map g))).

Definition getMethod_by_id (order : gmap Z positive -> list positive) (method_id : Z)
  : C (option positive) :=
  with_lock (
    c ← prog_get;
    match _method_id_map c !! method_id with
    | None => mret None
    | Some method_group => getMethodByVersion order 0 method_group
    end).

(** [findMethodByAddr], and [getMethod] with output parameters: the method, its
    identifier and its version. *)
Definition findMethodByAddr (addr : Z) : C (option (positive * Z * Z)) :=
  with_lock (
    c ← prog_get;
    match getData addr (_method_range_set c) with
    | None => mret None
    | Some p =>
      match heap c !! p with
      | None => prog_fault UndefinedBehaviour
      | Some m => mret (Some (p, _method_id (base m), _version m))
      end
    end).

Definition checkAndMoveMethodToUncompiledSet (method_id : Z) : C unit :=
  with_lock (
    c ← prog_get;
    match _method_id_map c !! method_id with
    | None => modify (fun c => set_uncompiled (MethodCache_addMethod method_id (uncompiled c)) c)
    | Some _ => mret tt
    end).

(** [delete] of compiled methods, one after another; none may be deleted twice. *)
Fixpoint delete_methods (ps : list positive) (h : gmap positive CompiledMethod)
  : outcome (gmap positive CompiledMethod) :=
  match ps with
  | [] => mret h
  | p :: ps =>
    match h !! p with
    | None => Fault UndefinedBehaviour
    | Some _ => delete_methods ps (delete p h)
    end
  end.

(** [~CompiledMethodGroup] and [~CodeCacheManager], in the orders of the maps. *)
Definition destroy_CompiledMethodGroup (order : gmap Z positive -> list positive)
  (g : CompiledMethodGroup) (h : gmap positive CompiledMethod) : outcome (gmap positive CompiledMethod) :=
  delete_methods (order (_address_method_map g)) h.
Fixpoint destroy_groups (order : gmap Z positive -> list positive) (gs : list CompiledMethodGroup)
  (h : gmap positive CompiledMethod) : outcome (gmap positive CompiledMethod) :=
  match gs with
  | [] => mret h
  | g :: gs => h ← destroy_CompiledMethodGroup order g h; destroy_groups order gs h
  end.
Definition destroy_CodeCacheManager (order : gmap Z positive -> list positive)
  (group_order : gmap Z CompiledMethodGroup -> list CompiledMethodGroup) (c : CodeCacheManager)
  : outcome CodeCacheManager :=
  h ← destroy_groups order (group_order (_method_id_map c)) (heap c);
  mret (mk_cache h (_method_range_set c) ∅ (locked c) (uncompiled c)).
End Runtime.

(** * XML of methods *)

(** One [range] element per range, numbered from [i]. *)
Fixpoint add_range_children (i : Z) (rs : list (Range Z)) (obj : XMLObj) : XMLObj :=
  match rs with
  | [] => obj
  | r :: rs =>
    let cc_obj := SET_ATTR "start" (dec (r_start r)) (new_XMLObj (lit "range")) in
    let cc_obj := SET_ATTR "end" (dec (r_end r)) cc_obj in
    let cc_obj := SET_ATTR "data" (dec (r_data r)) cc_obj in
    add_range_children (i + 1) rs (addChild i cc_obj obj)
  end.

Definition toline_obj (type : string) (rs : RangeSet Z) : XMLObj :=
  add_range_children 0 (getAllRanges rs) (SET_ATTR "type" (lit type) (new_XMLObj (lit "toline"))).
Arguments toline_obj type%_string_scope.

Section MethodXml.
Context (print_id : Z -> str).

Definition method_attrs (id version code_size start_line start_addr : str) (m : Method) : XMLObj :=
  let obj := SET_ATTR "id" id (new_XMLObj (lit "method")) in
  let obj := SET_ATTR "version" version obj in
  let obj := SET_ATTR "code_size" code_size obj in
  let obj := SET_ATTR "start_line" start_line obj in
  let obj := SET_ATTR "start_addr" start_addr obj in
  let obj := SET_ATTR "name" (formate_speical_char (_method_name m)) obj in
  let obj := SET_ATTR "file" (formate_speical_char (_src_file m)) obj in
  SET_ATTR "class" (formate_speical_char (_class_name m)) obj.

(** [createXMLObj<CompiledMethod>] *)
Definition createXMLObj_CompiledMethod (instance : CompiledMethod) : XMLObj :=
  let m := base instance in
  let obj := method_attrs (print_id (_method_id m)) (dec (_version instance))
    (dec (_code_size instance)) (dec (startLine instance)) (dec (_start_addr instance)) m in
  let '(obj_index, obj) :=
    if negb (isEmpty (_addr2line_rangeset instance))
    then (1, addChild 0 (toline_obj "addr2line" (_addr2line_rangeset instance)) obj)
    else (0, obj) in
  if negb (isEmpty (_bci2line_rangeset m))
  then addChild obj_index (toline_obj "bci2line" (_bci2line_rangeset m)) obj
  else obj.

(** [InterpretMethod::createXMLObj] *)
Definition createXMLObj_InterpretMethod (m : Method) : XMLObj :=
  let obj := method_attrs (print_id (_method_id m)) (dec 0) (dec 0) (dec (-1)) (dec 0) m in
  if negb (isEmpty (_bci2line_rangeset m))
  then addChild 0 (toline_obj "bci2line" (_bci2line_rangeset m)) obj
  else obj.
End MethodXml.

(** * Line tables *)

(** A table as the runtime reports it: locations in order, not negative, within
    the method. *)
Record table_ok (end_location : Z) (table : list jvmtiLineNumberEntry) : Prop := mk_table_ok {
  to_sorted : StronglySorted (fun e1 e2 => start_location e1 <= start_location e2) table;
  to_range : Forall (fun e => 0 <= start_location e <= end_location) table;
  to_end : end_location < 2 ^ 63
}.

(** The reference: the line of the last entry at or before the location. *)
Definition line_at (table : list jvmtiLineNumberEntry) (bci : Z) : option jvmtiLineNumberEntry :=
  last (filter (fun e => start_location e <= bci) table).

Definition below (rs : RangeSet Z) (a : Z) : Prop := forall k r, (k, r) ∈ rs -> r_end r < a.

Lemma below_getData rs a : wf_set rs -> below rs a -> getData a rs = None.
Proof.
  intros Hwf Hb. unfold getData. destruct (getRange a rs) as [r|] eqn:Hr; [|done].
  apply getRange_spec in Hr as (Hin & [_ Hc] & _); [|done]. specialize (Hb _ _ Hin). lia.
Qed.

Lemma below_free rs a b : below rs a -> free a b rs.
Proof. intros Hb k r Hin. left. by eapply Hb. Qed.

Lemma line_at_cons e table bci :
  line_at (e :: table) bci =
  match line_at table bci with
  | Some e' => Some e'
  | None => if decide (start_location e <= bci) then Some e else None
  end.
Proof.
  unfold line_at. rewrite filter_cons. case_decide as H; [apply last_cons|].
  by destruct (last _).
Qed.

Lemma line_at_head e table bci :
  start_location e <= bci -> is_Some (line_at (e :: table) bci).
Proof.
  intros H. rewrite line_at_cons. destruct (line_at table bci); [by eexists|].
  case_decide; [by eexists|done].
Qed.

Lemma line_at_none table bci :
  (forall e, e ∈ table -> bci < start_location e) -> line_at table bci = None.
Proof.
  intros H. unfold line_at. rewrite filter_none; [done|]. intros e He Hle. specialize (H e He). lia.
Qed.

Lemma table_ok_cons end_location e table :
  table_ok end_location (e :: table) ->
  table_ok end_location table /\ 0 <= start_location e <= end_location /\
  end_location < 2 ^ 63 /\
  forall e', e' ∈ table -> start_location e <= start_location e' <= end_location.
Proof.
  intros [Hs Hr He]. inversion Hs as [|? ? Hs' Hle]; subst. inversion Hr as [|? ? Hre Hr']; subst.
  split_and!; [by split|lia|lia|done|]. intros e' Hin. rewrite Forall_forall in Hle.
  rewrite Forall_forall in Hr'. specialize (Hle _ Hin). specialize (Hr' _ Hin). simpl in *. lia.
Qed.

(** The last location of the entry before [table]: it ends before every later
    entry, and what lies between it and the end belongs to a later entry. *)
Definition entry_end (end_location : Z) (table : list jvmtiLineNumberEntry) : Z :=
  match table with
  | next :: _ => s64 (start_location next - 1)
  | [] => end_location
  end.

Lemma entry_end_spec end_location e table :
  table_ok end_location (e :: table) ->
  let t := entry_end end_location table in
  -1 <= t <= end_location /\
  (forall e', e' ∈ table -> t < start_location e') /\
  (t < start_location e -> exists e', e' ∈ table /\ start_location e' = start_location e) /\
  (forall a, t < a <= end_location -> is_Some (line_at table a)).
Proof.
  intros (Hok & He & Hend & Hle)%table_ok_cons. cbv zeta.
  destruct table as [|next table']; unfold entry_end.
  { split_and!; [lia|lia|by inversion 1|lia|lia]. }
  pose proof (Hle next ltac:(constructor)). apply table_ok_cons in Hok as (_ & Hn & _ & Hle').
  rewrite s64_small by (unfold is_s64; lia). split_and!; [lia|lia| | |].
  - intros e' [->|Hin]%elem_of_cons; [lia|]. specialize (Hle' _ Hin). lia.
  - intros. exists next. split; [constructor|lia].
  - intros a Ha. apply line_at_head. lia.
Qed.

Lemma line_at_elem table e a :
  e ∈ table -> start_location e <= a -> is_Some (line_at table a).
Proof.
  intros Hin Hle. unfold line_at. destruct (last _) eqn:Hla; [by eexists|]. apply last_None in Hla.
  assert (e ∈ filter (fun e => start_location e <= a) table) as Hf
    by (apply list_elem_of_filter; split; [lia|done]).
  rewrite Hla in Hf. inversion Hf.
Qed.

Lemma load_lines_spec end_location table rs :
  table_ok end_location table -> wf_set rs -> disjoint_set rs ->
  (forall e, e ∈ table -> below rs (start_location e)) ->
  exists rs', load_lines end_location table rs = Val rs' /\ wf_set rs' /\ disjoint_set rs' /\
    forall a, getData a rs' =
      match line_at table a with
      | Some e => if a <=? end_location then Some (line_number e) else None
      | None => getData a rs
      end.
Proof.
  revert rs. induction table as [|e table IH]; intros rs Hok Hwf Hd Hb; [by exists rs|].
  pose proof (entry_end_spec _ _ _ Hok) as (T1 & T3 & T4 & T5).
  apply table_ok_cons in Hok as (Hok' & He & Hend & Hle). cbn [load_lines].
  fold (entry_end end_location table). set (t := entry_end end_location table) in *. clearbody t.
  destruct (Z.ltb_spec t (start_location e)) as [Hskip|Hins].
  - destruct (IH rs Hok' Hwf Hd) as (rs' & Hrun & Hwf' & Hd' & Hget).
    { intros e' Hin. apply Hb. by constructor. }
    exists rs'. split_and!; [done|done|done|]. intros a. rewrite Hget, line_at_cons.
    destruct (line_at table a) eqn:Hla; [done|]. case_decide as Hea; [|done]. exfalso.
    destruct (T4 Hskip) as (e' & Hin & Heq).
    destruct (line_at_elem table e' a Hin) as [? Hx]; [lia|congruence].
  - rewrite !u64_small by (unfold is_u64; lia). unfold insert, make_range.
    destruct (Z.leb_spec (start_location e) t); [|lia]. simpl.
    pose proof (Hb e ltac:(constructor)) as Hbe.
    set (rs1 := map_emplace _ _ _).
    assert (wf_set rs1) as Hwf1 by by apply (wf_emplace rs (mk_range _ t (line_number e))).
    assert (disjoint_set rs1) as Hd1 by (apply disjoint_emplace; auto using below_free).
    destruct (IH rs1 Hok' Hwf1 Hd1) as (rs' & Hrun & Hwf' & Hd' & Hget).
    { intros e' Hin k r [[= -> ->]|Hr0]%elem_emplace; simpl; [by apply T3|].
      specialize (Hbe _ _ Hr0). specialize (Hle _ Hin). lia. }
    exists rs'. split_and!; [done|done|done|]. intros a. rewrite Hget, line_at_cons.
    destruct (line_at table a) as [e'|] eqn:Hla; [done|].
    unfold rs1. rewrite getData_emplace by auto using below_free.
    repeat case_decide; try done; try lia.
    + by destruct (Z.leb_spec a end_location); [|lia].
    + destruct (Z.leb_spec a end_location).
      * destruct (T5 a ltac:(lia)) as [? Hx]. congruence.
      * apply below_getData; [done|]. intros k r Hin. specialize (Hbe _ _ Hin). lia.
Qed.

(** * Address maps *)

(** Addresses in order, inside the code, above its start; every location has a
    line. *)
Record map_ok (m : CompiledMethod) (map : list jvmtiAddrLocationMap) (line : jvmtiAddrLocationMap -> Z)
  : Prop := mk_map_ok {
  mo_sorted : StronglySorted (fun e1 e2 => start_address e1 < start_address e2) map;
  mo_range : Forall (fun e => _start_addr m < start_address e <= _start_addr m + _code_size m) map;
  mo_code : 0 <= _start_addr m /\ _start_addr m + _code_size m < 2 ^ 64;
  mo_lines : Forall (fun e => getData (u64 (location e)) (_bci2line_rangeset (base m)) = Some (line e)) map
}.

(** The first entry that starts after the address. *)
Definition entry_after (map : list jvmtiAddrLocationMap) (a : Z) : option jvmtiAddrLocationMap :=
  head (filter (fun e => a < start_address e) map).

Lemma map_ok_cons m e map line :
  map_ok m (e :: map) line ->
  map_ok m map line /\ _start_addr m < start_address e <= _start_addr m + _code_size m /\
  getData (u64 (location e)) (_bci2line_rangeset (base m)) = Some (line e) /\
  (forall e', e' ∈ map -> start_address e < start_address e') /\
  0 <= _start_addr m /\ _start_addr m + _code_size m < 2 ^ 64.
Proof.
  intros [Hs Hr [] Hl]. inversion Hs as [|? ? Hs' Hlt]; subst. inversion Hr; subst. inversion Hl; subst.
  split; [by split|]. split_and!; try lia; try done. intros e' Hin. rewrite Forall_forall in Hlt.
  by apply Hlt.
Qed.

Lemma entry_after_cons e map a :
  entry_after (e :: map) a = if decide (a < start_address e) then Some e else entry_after map a.
Proof. unfold entry_after. rewrite filter_cons. by case_decide. Qed.

Lemma load_addrs_step m e next map line rs :
  0 <= start_address e < start_address next ->
  start_address next <= _start_addr m + _code_size m < 2 ^ 64 ->
  getData (u64 (location next)) (_bci2line_rangeset (base m)) = Some line ->
  load_addrs m (e :: next :: map) rs =
  load_addrs m (next :: map)
    (map_emplace (start_address e) (mk_range (start_address e) (start_address next - 1) line) rs).
Proof.
  intros He Hn Hline. cbn [load_addrs].
  rewrite (u64_small (start_address next - 1)), (u64_small (_ + _ - 1)) by (unfold is_u64; lia).
  unfold insert, make_range, cxx_assert.
  destruct (Z.leb_spec (start_address e) (start_address next - 1)); [|lia].
  destruct (Z.leb_spec (start_address next - 1) (_start_addr m + _code_size m - 1)); [|lia].
  simpl. by rewrite Hline.
Qed.

Lemma load_addrs_spec m e map line rs :
  map_ok m (e :: map) line -> wf_set rs -> disjoint_set rs -> below rs (start_address e) ->
  exists rs', load_addrs m (e :: map) rs = Val rs' /\ wf_set rs' /\ disjoint_set rs' /\
    forall a, getData a rs' =
      if decide (start_address e <= a) then line <$> entry_after map a else getData a rs.
Proof.
  revert e rs. induction map as [|next map IH]; intros e rs Hok Hwf Hd Hb.
  { exists rs. split_and!; [done..|]. intros a. case_decide; [|done].
    apply below_getData; [done|]. intros k r Hin. specialize (Hb _ _ Hin). lia. }
  apply map_ok_cons in Hok as (Hok & He & _ & Hlt & Hm1 & Hm2).
  pose proof (Hlt next ltac:(constructor)) as Hn.
  pose proof (map_ok_cons _ _ _ _ Hok) as (_ & Hnr & Hline & _ & _).
  rewrite (load_addrs_step m e next map (line next) rs) by (done || lia).
  set (rs1 := map_emplace _ _ _).
  assert (wf_set rs1) as Hwf1.
  { apply (wf_emplace rs (mk_range (start_address e) (start_address next - 1) (line next))); [done|].
    cbn [r_start r_end]. lia. }
  assert (disjoint_set rs1) as Hd1 by (apply disjoint_emplace; auto using below_free with lia).
  destruct (IH next rs1 Hok Hwf1 Hd1) as (rs' & Hrun & Hwf' & Hd' & Hget).
  { intros k r [[= -> ->]|Hr0]%elem_emplace; cbn [r_end]; [lia|]. specialize (Hb _ _ Hr0). lia. }
  exists rs'. split_and!; [done|done|done|]. intros a. rewrite Hget, entry_after_cons.
  unfold rs1. rewrite getData_emplace by (cbn [r_start r_end]; auto using below_free with lia).
  cbn [r_start r_end r_data].
  repeat case_decide; try done; lia.
Qed.

Lemma loadAddrLocationMap_spec m e map line :
  _isNative (base m) = false -> _bci2line_rangeset (base m) <> [] ->
  _addr2line_rangeset m = [] -> map_ok m (e :: map) line ->
  exists rs, loadAddrLocationMap (e :: map) m = Val (with_addrs rs m) /\
    forall a, _start_addr m <= a -> getData a rs = line <$> entry_after (e :: map) a.
Proof.
  intros Hn Hne H0 Hok. pose proof (map_ok_cons _ _ _ _ Hok) as (_ & He & Hline & _ & Hm1 & Hm2).
  unfold loadAddrLocationMap. rewrite Hn, H0.
  replace (isEmpty _) with false by (by destruct (_bci2line_rangeset _)).
  rewrite (u64_small (start_address e - 1)) by (unfold is_u64; lia). unfold cxx_assert.
  destruct (Z.leb_spec (_start_addr m) (start_address e - 1)); [|lia].
  change (mbind ?f (Val tt)) with (f tt); cbv beta. rewrite Hline. unfold insert, make_range, cxx_assert.
  destruct (Z.leb_spec (_start_addr m) (start_address e - 1)); [|lia].
  set (rs1 := map_emplace (_start_addr m) (mk_range (_start_addr m) (start_address e - 1) (line e)) []).
  change (mbind ?f (_ ≫= ?g)) with (f (true, rs1)); cbv beta iota.
  assert (wf_set rs1) as Hwf1 by (apply (wf_emplace [] (mk_range _ _ _)); [by apply wf_nil|done]).
  destruct (load_addrs_spec m e map line rs1 Hok Hwf1) as (rs' & Hrun & _ & _ & Hget).
  { apply disjoint_emplace; auto using wf_nil, disjoint_nil, free_nil. }
  { intros k r [[= -> ->]|Hr0]%elem_emplace; cbn [r_end]; [lia|]. by apply elem_of_nil in Hr0. }
  exists rs'. split; [by rewrite Hrun|]. intros a Ha. rewrite Hget, entry_after_cons.
  case_decide; [by rewrite decide_False by lia|]. unfold rs1. rewrite decide_True by lia.
  rewrite getData_emplace by auto using wf_nil, disjoint_nil, free_nil.
  rewrite decide_True by lia. done.
Qed.

(** * The invariant of the cache *)

(** Every pointer that a lookup can return is live, and both indexes file it
    under its own start address and method. *)
Record inv (c : CodeCacheManager) : Prop := mk_inv {
  inv_ranges : wf_set (_method_range_set c);
  inv_live : forall k r, (k, r) ∈ _method_range_set c ->
    exists m, heap c !! r_data r = Some m /\ _start_addr m = k;
  inv_groups : forall id g a p, _method_id_map c !! id = Some g -> _address_method_map g !! a = Some p ->
    exists m, heap c !! p = Some m /\ _start_addr m = a /\ _method_id (base m) = id
}.

(** What every operation keeps while the lock is free; the groups named by [G]
    exist already. *)
Definition ok (G : gset Z) (c : CodeCacheManager) : Prop :=
  inv c /\ locked c = false /\ G ⊆ dom (_method_id_map c).
Definition held (G : gset Z) (c : CodeCacheManager) : Prop :=
  inv c /\ locked c = true /\ G ⊆ dom (_method_id_map c).

Abbreviation C := (prog CodeCacheManager).

Lemma hoare_modify P (f : CodeCacheManager -> CodeCacheManager) (Q : unit -> CodeCacheManager -> Prop) :
  (forall c, P c -> Q tt (f c)) -> hoare P (modify f) Q.
Proof. intros H c Hc. by apply H. Qed.

Lemma inv_locked c b : inv c -> inv (set_locked b c).
Proof. by intros []. Qed.

Lemma hoare_lock G : hoare (ok G) lock (fun _ => held G).
Proof. intros c (Hi & Hl & HG). unfold lock. rewrite Hl. by split_and!; [apply inv_locked|..]. Qed.

Lemma hoare_unsetLock G : hoare (held G) unsetLock (fun _ => ok G).
Proof. intros c (Hi & Hl & HG). unfold unsetLock. rewrite Hl. by split_and!; [apply inv_locked|..]. Qed.

Lemma hoare_with_lock {A} G (body : C A) :
  hoare (held G) body (fun _ => held G) -> hoare (ok G) (with_lock body) (fun _ => ok G).
Proof.
  intros Hb. eapply hoare_bind; [apply hoare_lock|]. intros [].
  eapply hoare_bind; [apply Hb|]. intros a. apply (hoare_bind _ _ _ (fun _ => ok G)).
  - apply hoare_modify. intros c (Hi & _ & HG). by split_and!; [apply inv_locked|..].
  - intros []. by apply hoare_ret.
Qed.

Lemma inv_groups_ext c gs :
  inv c ->
  (forall id g a p, gs !! id = Some g -> _address_method_map g !! a = Some p ->
     exists g', _method_id_map c !! id = Some g' /\ _address_method_map g' !! a = Some p) ->
  inv (set_groups gs c).
Proof.
  intros [Hr Hl Hg] H. split; [done|done|]. simpl. intros id g a p H1 H2.
  destruct (H id g a p H1 H2) as (g' & Hg' & Ha). by eapply Hg.
Qed.

Lemma hoare_get_group G id :
  hoare (held G) (get_group id) (fun _ => held ({[id]} ∪ G)).
Proof.
  intros c (Hi & Hl & HG). unfold get_group. destruct (_method_id_map c !! id) as [g|] eqn:Hid.
  - split_and!; [done|done|]. assert (id ∈ dom (_method_id_map c)) by (by apply elem_of_dom). set_solver.
  - split_and!; [|done|simpl; set_solver]. apply inv_groups_ext; [done|].
    intros id' g a p. destruct (decide (id' = id)) as [->|]; simplify_map_eq; [|by eauto].
    intros [= <-] Hx. simpl in Hx. by rewrite lookup_empty in Hx.
Qed.

Lemma hoare_bump_version G id v :
  hoare (held G) (update_group id (fun g => mk_group v (_address_method_map g))) (fun _ => held G).
Proof.
  apply hoare_modify. intros c (Hi & Hl & HG). split_and!; [|done|simpl; by rewrite dom_alter_L].
  apply inv_groups_ext; [done|]. intros id' g a p. destruct (decide (id' = id)) as [->|].
  - rewrite lookup_alter_eq. intros (g' & Hg' & ->)%fmap_Some_1. by eauto.
  - rewrite lookup_alter_ne by done. by eauto.
Qed.

Lemma inv_file_method c p m a :
  inv c -> heap c !! p = None -> _start_addr m = a ->
  inv (set_groups (alter (fun g => mk_group (_recent_version g) (<[a := p]> (_address_method_map g)))
         (_method_id (base m)) (_method_id_map c)) (set_heap (<[p := m]> (heap c)) c)).
Proof.
  intros [Hr Hl Hg] Hp <-. split; simpl; [done| |].
  - intros k r Hin. destruct (Hl _ _ Hin) as (m' & Hm' & <-). exists m'. split; [|done].
    rewrite lookup_insert_ne by congruence. done.
  - intros id g a q. destruct (decide (id = _method_id (base m))) as [->|].
    + rewrite lookup_alter_eq. intros (g' & Hg' & ->)%fmap_Some_1. simpl.
      destruct (decide (a = _start_addr m)) as [->|]; simplify_map_eq.
      { intros [= <-]. exists m. by simplify_map_eq. }
      intros Hq. destruct (Hg _ _ _ _ Hg' Hq) as (m' & Hm' & ?). exists m'.
      rewrite lookup_insert_ne by congruence. done.
    + rewrite lookup_alter_ne by done. intros H1 H2. destruct (Hg _ _ _ _ H1 H2) as (m' & Hm' & ?).
      exists m'. rewrite lookup_insert_ne by congruence. done.
Qed.

Lemma inv_insert c a b p m rs ok :
  inv c -> heap c !! p = Some m -> _start_addr m = a ->
  insert a b p (_method_range_set c) = Val (ok, rs) -> inv (set_ranges rs c).
Proof.
  intros [Hr Hl Hg] Hp Hm. unfold insert, make_range, cxx_assert.
  destruct (Z.leb_spec a b); [|done]. intros [= _ <-]. split; simpl; [| |done].
  - by apply (wf_emplace _ (mk_range a b p)).
  - intros k r [[= -> ->]|Hin]%elem_emplace; [by exists m|by apply Hl].
Qed.

Lemma remove_key {D} (rs : RangeSet D) a k r :
  wf_set rs -> (k, r) ∈ (remove a rs).2 -> (k, r) ∈ rs /\ k <> a.
Proof.
  intros Hwf. assert (forall r, (a, r) ∈ rs -> remove a rs = (true, map_erase a rs)) as Hrem.
  { intros r' Hin. destruct (ws_keys _ Hwf _ _ Hin) as [Hs Hle]. unfold remove.
    assert (getRange a rs = Some r') as ->; [|by rewrite Hs, Z.eqb_refl].
    apply getRange_spec; [done|]. rewrite Hs. split_and!; [done|split; lia|done]. }
  intros Hin. assert ((k, r) ∈ rs) as Hin'.
  { revert Hin. unfold remove. repeat case_match; simpl; try done. apply elem_erase. }
  split; [done|]. intros ->. rewrite (Hrem _ Hin') in Hin. simpl in Hin.
  destruct Hwf as [Hs _]. apply map_find_elem in Hin; [|by apply sorted_erase].
  rewrite map_find_erase in Hin by done. by rewrite Z.eqb_refl in Hin.
Qed.

Lemma wf_remove {D} (rs : RangeSet D) a : wf_set rs -> wf_set (remove a rs).2.
Proof. intros. unfold remove. repeat case_match; simpl; auto using wf_erase. Qed.

Lemma inv_remove c id g a p :
  inv c -> _method_id_map c !! id = Some g -> _address_method_map g !! a = Some p ->
  inv (mk_cache (delete p (heap c)) (remove a (_method_range_set c)).2
         (alter (fun g => mk_group (_recent_version g) (delete a (_address_method_map g))) id
            (_method_id_map c)) (locked c) (uncompiled c)).
Proof.
  intros [Hr Hl Hg] Hid Ha. destruct (Hg _ _ _ _ Hid Ha) as (m & Hm & Hma & Hmid).
  split; simpl; [by apply wf_remove| |].
  - intros k r [Hin Hk]%remove_key; [|done]. destruct (Hl _ _ Hin) as (m' & Hm' & <-).
    exists m'. split; [|done]. rewrite lookup_delete_ne; [done|]. congruence.
  - intros id' g' a' q. destruct (decide (id' = id)) as [->|].
    + rewrite lookup_alter_eq. intros (g0 & Hg' & ->)%fmap_Some_1. simpl.
      intros [Hne Hq]%lookup_delete_Some. destruct (Hg _ _ _ _ Hg' Hq) as (m' & Hm' & ? & ?).
      exists m'. rewrite lookup_delete_ne; [done|]. congruence.
    + rewrite lookup_alter_ne by done. intros H1 H2. destruct (Hg _ _ _ _ H1 H2) as (m' & Hm' & ? & ?).
      exists m'. rewrite lookup_delete_ne; [done|]. congruence.
Qed.

(** ** Construction never runs into undefined behaviour *)

Lemma clean_ret {A} (a : A) (Q : A -> Prop) : Q a -> clean (mret a) Q.
Proof. done. Qed.

Lemma clean_insert {D} a b (d : D) rs : clean (insert a b d rs) (fun _ => True).
Proof. unfold insert, make_range, cxx_assert. destruct (a <=? b); [done|by left]. Qed.

Lemma clean_load_lines end_location table rs : clean (load_lines end_location table rs) (fun _ => True).
Proof.
  revert rs. induction table as [|e table IH]; intros rs; [done|]. cbn [load_lines].
  destruct (_ <? _); [apply IH|]. eapply clean_bind; [apply clean_insert|]. intros [] _. apply IH.
Qed.

Lemma clean_load_addrs m map rs : clean (load_addrs m map rs) (fun _ => True).
Proof.
  revert rs. induction map as [|e [|next map] IH]; intros rs; [done|done|]. cbn [load_addrs].
  eapply clean_bind; [by apply (clean_assert _ (fun _ => True))|]. intros [] _.
  eapply clean_bind; [by apply (clean_assert _ (fun _ => True))|]. intros [] _.
  destruct (getData _ _); [|done]. eapply clean_bind; [apply clean_insert|]. intros [] _. apply IH.
Qed.

Lemma clean_class_of_signature s : clean (class_of_signature s) (fun _ => True).
Proof.
  unfold class_of_signature. apply (clean_bind _ _ (fun _ => True)); [|done].
  unfold substr. case_match; simpl; [by right|done].
Qed.

Section Clean.
Context (env : jvmti).

Lemma clean_loadBCILineTable m :
  clean (loadBCILineTable env m) (fun m' => _method_id m' = _method_id m).
Proof.
  unfold loadBCILineTable. repeat (case_match; try done).
  eapply clean_bind; [apply clean_load_lines|]. by intros rs _.
Qed.

Lemma clean_new_Method id : clean (new_Method env id) (fun m => _method_id m = id).
Proof.
  unfold new_Method. repeat (case_match; try apply clean_loadBCILineTable).
  all: eapply (clean_bind _ _ (fun _ => True)); [|intros ? _; apply clean_loadBCILineTable].
  all: first [apply clean_class_of_signature|done].
Qed.

Lemma clean_loadAddrLocationMap map m :
  clean (loadAddrLocationMap map m)
    (fun m' => _start_addr m' = _start_addr m /\ base m' = base m).
Proof.
  unfold loadAddrLocationMap. repeat (case_match; try done).
  - eapply clean_bind; [by apply (clean_assert _ (fun _ => True))|]. intros [] _.
    eapply clean_bind; [apply clean_insert|]. intros [] _.
    eapply clean_bind; [apply clean_load_addrs|]. by intros rs _.
  - eapply clean_bind; [by apply (clean_assert _ (fun _ => True))|]. by intros [] _.
Qed.

Lemma clean_build_method id version code_size code_addr map :
  clean (build_method env id version code_size code_addr map)
    (fun m => _start_addr m = code_addr /\ _method_id (base m) = id).
Proof.
  unfold build_method, new_CompiledMethod.
  eapply clean_bind; [eapply clean_bind; [apply clean_new_Method|]|].
  - intros m Hm. apply (clean_ret _ (fun m' => _start_addr m' = code_addr /\ _method_id (base m') = id)).
    by split.
  - intros m [Ha Hi]. eapply clean_weaken; [apply clean_loadAddrLocationMap|].
    by intros m' [-> ->].
Qed.

Lemma ok_weaken G G' c : G ⊆ G' -> ok G' c -> ok G c.
Proof. intros ? (? & ? & ?). split_and!; [done|done|set_solver]. Qed.

Lemma held_weaken G G' c : G ⊆ G' -> held G' c -> held G c.
Proof. intros ? (? & ? & ?). split_and!; [done|done|set_solver]. Qed.

(** The first half makes sure of the group. *)
Lemma hoare_addMethod_open G id :
  hoare (ok G) (addMethod_open id) (fun _ => ok ({[id]} ∪ G)).
Proof.
  unfold addMethod_open. eapply hoare_bind; [apply hoare_lock|]. intros [].
  eapply hoare_bind; [apply hoare_get_group|]. intros g.
  eapply hoare_bind; [apply hoare_bump_version|]. intros [].
  eapply hoare_bind; [apply hoare_unsetLock|]. intros []. by apply hoare_ret.
Qed.

(** The second half files the method in both indexes. *)
Lemma hoare_addMethod_close G size m :
  hoare (ok G) (addMethod_close (_method_id (base m)) size (_start_addr m) m) (fun _ => ok G).
Proof.
  intros c (Hi & Hl & HG). unfold addMethod_close, setLock, lock, mbind, prog_bind. rewrite Hl.
  cbn -[insert]. set (p := fresh (dom (heap c))).
  assert (heap c !! p = None) as Hp by (apply not_elem_of_dom, is_fresh).
  pose proof (inv_file_method (set_locked true c) p m _ (inv_locked _ _ Hi) Hp eq_refl) as Hf.
  unfold prog_lift.
  destruct (insert (_start_addr m) (u64 (_start_addr m + size - 1)) p (_method_range_set c)) as [[inserted rs]|f] eqn:Hins.
  - cbn. destruct inserted; [|by left]. cbn.
    pose proof (inv_insert _ (_start_addr m) (u64 (_start_addr m + size - 1)) p m rs true Hf ltac:(simpl; by rewrite lookup_insert_eq) eq_refl Hins) as Hr.
    split_and!; [exact (inv_locked _ false Hr)|done|]. simpl. by rewrite dom_alter_L.
  - pose proof (clean_insert (_start_addr m) (u64 (_start_addr m + size - 1)) p (_method_range_set c)) as Hc.
    by rewrite Hins in Hc.
Qed.
End Clean.

Lemma hoare_uncompiled G f : hoare (held G) (modify (fun c => set_uncompiled (f c) c)) (fun _ => held G).
Proof. apply hoare_modify. by intros c ([] & ? & ?). Qed.

Lemma hoare_addMethodAndRemove G id :
  hoare (ok G) (addMethodAndRemoveFromUncompiledSet id) (fun _ => ok G).
Proof.
  apply hoare_with_lock. eapply hoare_bind; [apply hoare_uncompiled|]. intros [].
  eapply hoare_bind; [apply hoare_get_group|]. intros g. apply hoare_ret.
  intros c. apply held_weaken. set_solver.
Qed.

Lemma hoare_checkAndMove G id :
  hoare (ok G) (checkAndMoveMethodToUncompiledSet id) (fun _ => ok G).
Proof.
  apply hoare_with_lock. intros c Hc. unfold mbind, prog_bind, prog_get.
  destruct (_method_id_map c !! id); [done|]. by apply (hoare_uncompiled G _ c).
Qed.

Lemma hoare_removeMethod G id a : hoare (ok G) (removeMethod id a) (fun _ => ok G).
Proof.
  apply hoare_with_lock. intros c (Hi & Hl & HG). unfold mbind, prog_bind, prog_get.
  destruct (_method_id_map c !! id) as [g|] eqn:Hid; [|done].
  unfold removeMethodByAddr. rewrite Hid. destruct (_address_method_map g !! a) as [p|] eqn:Ha.
  - pose proof (inv_remove c id g a p Hi Hid Ha) as Hi'. simpl.
    destruct (remove a (_method_range_set c)) as [removed rs]. simpl in *.
    destruct removed; [|by left]. split_and!; [done|done|simpl; by rewrite dom_alter_L].
  - destruct (remove a (_method_range_set c)) as [removed rs] eqn:Hrem. simpl.
    destruct removed; [|by left]. split_and!; [|done|done].
    destruct Hi as [Hr Hlv Hg]. pose proof (wf_remove _ a Hr) as Hwf.
    split; simpl; [by rewrite Hrem in Hwf| |done]. intros k r Hin.
    destruct (remove_key (_method_range_set c) a k r Hr) as [Hin' _]; [by rewrite Hrem|by apply Hlv].
Qed.

(** A pointer that a lookup returns. *)
Definition live (c : CodeCacheManager) (r : option positive) : Prop :=
  forall p, r = Some p -> exists m, heap c !! p = Some m.

Lemma getData_live c a : inv c -> live c (getData a (_method_range_set c)).
Proof.
  intros [Hr Hl _] p. unfold getData. destruct (getRange a _) as [r|] eqn:Hg; [|done].
  intros [= <-]. apply getRange_spec in Hg as (Hin & _); [|done].
  destruct (Hl _ _ Hin) as (m & Hm & _). by exists m.
Qed.

Lemma hoare_read {A} G (body : C A) (Q : A -> CodeCacheManager -> Prop) :
  (forall c, held G c -> exists a, body c = Val (a, c) /\ Q a (set_locked false c)) ->
  hoare (ok G) (with_lock body) (fun a c => ok G c /\ Q a c).
Proof.
  intros Hb c (Hi & Hl & HG). unfold with_lock, lock, mbind, prog_bind. rewrite Hl.
  destruct (Hb (set_locked true c)) as (a & -> & HQ); [by split_and!; [apply inv_locked|..]|].
  simpl. split; [by split_and!; [apply inv_locked, inv_locked|..]|done].
Qed.

Lemma hoare_getMethod G a : hoare (ok G) (getMethod a) (fun r c => ok G c /\ live c r).
Proof.
  apply hoare_read. intros c (Hi & _). eexists. split; [done|]. by apply (getData_live c).
Qed.

Lemma hoare_findMethodByAddr G a :
  hoare (ok G) (findMethodByAddr a)
    (fun r c => ok G c /\ forall p id v, r = Some (p, id, v) ->
       exists m, heap c !! p = Some m /\ _method_id (base m) = id /\ _version m = v).
Proof.
  apply (hoare_read G _ (fun r c => forall p id v, r = Some (p, id, v) ->
       exists m, heap c !! p = Some m /\ _method_id (base m) = id /\ _version m = v)).
  intros c (Hi & _). unfold mbind, prog_bind, prog_get.
  destruct (getData a (_method_range_set c)) as [p|] eqn:Hd; [|by eexists].
  destruct (getData_live c a Hi p Hd) as [m Hm]. rewrite Hm. eexists. split; [done|].
  intros ? ? ? [= <- <- <-]. by exists m.
Qed.

(** ** The newest version *)

Definition newest (h : gmap positive CompiledMethod) (ms : list positive) (p : positive) : Prop :=
  p ∈ ms /\ exists m, h !! p = Some m /\
  forall q m', q ∈ ms -> h !! q = Some m' -> _version m' <= _version m.

Lemma most_recent_spec h seen q ms :
  (forall p, p ∈ ms -> is_Some (h !! p)) -> newest h seen q ->
  exists p, most_recent h (Some q) ms = Val (Some p) /\ newest h (seen ++ ms) p.
Proof.
  revert seen q. induction ms as [|p ms IH]; intros seen q Hl Hq.
  { exists q. by rewrite app_nil_r. }
  destruct (Hl p ltac:(constructor)) as [m Hm]. destruct Hq as (Hin & m' & Hm' & Hmax).
  cbn [most_recent]. rewrite Hm, Hm'. rewrite cons_middle, app_assoc.
  replace (if _version m' <? _version m then Some p else Some q)
    with (Some (if _version m' <? _version m then p else q)) by (by destruct (_ <? _)).
  apply IH; [intros p' ?; apply Hl; by constructor|].
  destruct (Z.ltb_spec (_version m') (_version m)).
  - split; [set_solver|]. exists m. split; [done|]. intros q' m'' [Hq'|Hq'%list_elem_of_singleton]%elem_of_app Hh.
    + specialize (Hmax _ _ Hq' Hh). lia.
    + subst q'. simplify_eq. lia.
  - split; [set_solver|]. exists m'. split; [done|]. intros q' m'' [Hq'|Hq'%list_elem_of_singleton]%elem_of_app Hh.
    + by eapply Hmax.
    + subst q'. simplify_eq. lia.
Qed.

Lemma most_recent_none h ms :
  (forall p, p ∈ ms -> is_Some (h !! p)) ->
  exists r, most_recent h None ms = Val r /\
    match r with None => ms = [] | Some p => newest h ms p end.
Proof.
  intros Hl. destruct ms as [|p ms]; [by exists None|].
  destruct (Hl p ltac:(constructor)) as [m Hm]. cbn [most_recent]. rewrite Hm.
  destruct (most_recent_spec h [p] p ms) as (r & Hr & Hnew); [intros ? ?; apply Hl; by constructor| |].
  - split; [constructor|]. exists m. split; [done|]. intros q m' Hq%list_elem_of_singleton Hm'. subst q. by simplify_eq.
  - by exists (Some r).
Qed.

Section Versions.
Context (order : gmap Z positive -> list positive).
Context (Horder : forall m, order m ≡ₚ (map_to_list m).*2).

Lemma hoare_getMethod_by_id G id :
  hoare (ok G) (getMethod_by_id order id) (fun r c => ok G c /\ live c r).
Proof.
  apply hoare_read. intros c ([_ _ Hg] & _). unfold mbind, prog_bind, prog_get.
  destruct (_method_id_map c !! id) as [g|] eqn:Hid; [|by eexists].
  unfold getMethodByVersion, prog_get, mbind, prog_bind, prog_lift. simpl.
  destruct (most_recent_none (heap c) (order (_address_method_map g))) as (r & -> & Hr).
  { intros p. rewrite Horder. intros (x & -> & Hin)%list_elem_of_fmap. destruct x as [a p']. apply elem_of_map_to_list in Hin.
    destruct (Hg _ _ _ _ Hid Hin) as (m & ? & _). by exists m. }
  eexists. split; [done|]. intros p ->. destruct Hr as (_ & m & Hm & _). by exists m.
Qed.
End Versions.

(** * Interleaved operations *)

(** The operations that threads call. *)
Inductive cache_op :=
| AddMethod (method_id code_size code_addr : Z) (map : list jvmtiAddrLocationMap)
| AddUncompiled (method_id : Z)
| RemoveMethod (method_id code_addr : Z)
| GetMethod (addr : Z)
| GetMethodById (method_id : Z)
| FindMethod (addr : Z)
| CheckAndMove (method_id : Z).

(** A thread is between two operations, or in the window of [addMethod] in which the
    lock is free: before or after the construction of the method. *)
Inductive cache_task :=
| Idle
| Constructing (method_id code_size code_addr version : Z) (map : list jvmtiAddrLocationMap)
| Constructed (method_id code_size code_addr : Z) (new_method : CompiledMethod).

(** What it is doing and what it has still to call. *)
Definition cache_thread : Type := cache_task * list cache_op.

Section Interleaving.
Context (env : jvmti) (order : gmap Z positive -> list positive).

(** An operation that keeps the lock from its beginning to its end, or [addMethod] up
    to its window. *)
Definition begin_op (op : cache_op) : C cache_task :=
  match op with
  | AddMethod method_id code_size code_addr map =>
    version ← addMethod_open method_id;
    mret (Constructing method_id code_size code_addr version map)
  | AddUncompiled method_id => addMethodAndRemoveFromUncompiledSet method_id;; mret Idle
  | RemoveMethod method_id code_addr => removeMethod method_id code_addr;; mret Idle
  | GetMethod addr => getMethod addr;; mret Idle
  | GetMethodById method_id => getMethod_by_id order method_id;; mret Idle
  | FindMethod addr => findMethodByAddr addr;; mret Idle
  | CheckAndMove method_id => checkAndMoveMethodToUncompiledSet method_id;; mret Idle
  end.

(** One step of a thread: what it does under the lock at a stretch (other threads only
    wait meanwhile, [Lock.v]), or a construction. *)
Definition thread_step (t : cache_thread) : C cache_thread :=
  match t with
  | (Idle, []) => mret t
  | (Idle, op :: ops) => task ← begin_op op; mret (task, ops)
  | (Constructing method_id code_size code_addr version map, ops) =>
    m ← prog_lift (build_method env method_id version code_size code_addr map);
    mret (Constructed method_id code_size code_addr m, ops)
  | (Constructed method_id code_size code_addr m, ops) =>
    addMethod_close method_id code_size code_addr m;; mret (Idle, ops)
  end.

(** The cache with the threads that use it; a schedule says which one takes each step. *)
Definition cache_step (i : nat) (s : CodeCacheManager * list cache_thread)
  : outcome (CodeCacheManager * list cache_thread) :=
  match s.2 !! i with
  | None => mret s
  | Some t => '(t', c) ← thread_step t s.1; mret (c, <[i := t']> s.2)
  end.

Fixpoint run_cache (schedule : list nat) (s : CodeCacheManager * list cache_thread)
  : outcome (CodeCacheManager * list cache_thread) :=
  match schedule with [] => mret s | i :: schedule => s ← cache_step i s; run_cache schedule s end.

Definition callers (work : list (list cache_op)) : list cache_thread := (Idle,.) <$> work.

Definition idle (t : cache_thread) : Prop := t = (Idle, []).

(** The group that a thread in a window will write to. *)
Definition group_needed (t : cache_thread) : list Z :=
  match t.1 with Idle => [] | Constructing id _ _ _ _ => [id] | Constructed id _ _ _ => [id] end.

(** A constructed method is what its group and address say. *)
Definition task_ok (t : cache_thread) : Prop :=
  match t.1 with
  | Constructed id _ addr m => _start_addr m = addr /\ _method_id (base m) = id
  | _ => True
  end.

Definition threads_ok (s : CodeCacheManager * list cache_thread) : Prop :=
  ok (list_to_set (s.2 ≫= group_needed)) s.1 /\ Forall task_ok s.2.

Lemma hoare_done {A} P (m : C A) (Q : A -> CodeCacheManager -> Prop) (t : cache_task) G :
  hoare P m Q -> (forall a c, Q a c -> ok G c) -> hoare P (m;; mret t) (fun t' c => t' = t /\ ok G c).
Proof. intros Hm HQ. eapply hoare_bind; [done|]. intros a. apply hoare_ret. intros c Hc. split; [done|by eapply HQ]. Qed.

Lemma hoare_begin_op (Horder : forall m, order m ≡ₚ (map_to_list m).*2) op ops G :
  hoare (ok G) (begin_op op)
    (fun t c => ok (list_to_set (group_needed (t, ops)) ∪ G) c /\ task_ok (t, ops)).
Proof.
  assert (Hidle : forall m : C cache_task, hoare (ok G) m (fun t c => t = Idle /\ ok G c) ->
    hoare (ok G) m (fun t c => ok (list_to_set (group_needed (t, ops)) ∪ G) c /\ task_ok (t, ops))).
  { intros m Hm. eapply hoare_weaken; [exact Hm|done|]. intros t c [-> Hc]. split; [|done].
    eapply ok_weaken; [|exact Hc]. cbn. set_solver. }
  destruct op as [id size addr map|id|id addr|addr|id|addr|id]; cbn [begin_op]; [|apply Hidle..].
  - eapply hoare_bind; [apply hoare_addMethod_open|]. intros v. apply hoare_ret.
    intros c Hc. split; [|done]. eapply ok_weaken; [|exact Hc]. cbn. set_solver.
  - eapply hoare_done; [apply hoare_addMethodAndRemove|done].
  - eapply hoare_done; [apply hoare_removeMethod|done].
  - eapply hoare_done; [apply hoare_getMethod|by intros ? ? []].
  - eapply hoare_done; [by apply hoare_getMethod_by_id|by intros ? ? []].
  - eapply hoare_done; [apply hoare_findMethodByAddr|by intros ? ? []].
  - eapply hoare_done; [apply hoare_checkAndMove|done].
Qed.

Lemma hoare_thread_step (Horder : forall m, order m ≡ₚ (map_to_list m).*2) t G :
  task_ok t -> (forall id, id ∈ group_needed t -> id ∈ G) ->
  hoare (ok G) (thread_step t)
    (fun t' c => ok (list_to_set (group_needed t') ∪ G) c /\ task_ok t').
Proof.
  destruct t as [[|id size addr v map|id size addr m] ops]; intros Ht Hneed; cbn [thread_step].
  - destruct ops as [|op ops].
    + apply hoare_ret. intros c Hc. split; [|done]. eapply ok_weaken; [|exact Hc]. cbn. set_solver.
    + eapply hoare_bind; [by apply (hoare_begin_op Horder op ops)|]. intros t. by apply hoare_ret.
  - eapply (hoare_bind _ _ _ (fun m c => ok G c /\ _start_addr m = addr /\ _method_id (base m) = id)).
    { apply hoare_lift. intros c Hc. eapply clean_weaken; [apply clean_build_method|]. naive_solver. }
    intros m. apply hoare_ret. intros c [Hc Hm]. split; [|done].
    eapply ok_weaken; [|exact Hc]. specialize (Hneed id ltac:(by left)). cbn. set_solver.
  - destruct Ht as [<- <-]. eapply hoare_bind; [apply hoare_addMethod_close|]. intros p.
    apply hoare_ret. intros c Hc. split; [|done]. eapply ok_weaken; [|exact Hc]. cbn. set_solver.
Qed.

Lemma cache_step_ok (Horder : forall m, order m ≡ₚ (map_to_list m).*2) i s :
  threads_ok s -> clean (cache_step i s) threads_ok.
Proof.
  destruct s as [c ts]. intros [Hok Hts]. unfold cache_step. cbn [fst snd] in *.
  destruct (ts !! i) as [t|] eqn:Hi; [|done].
  pose proof (hoare_thread_step Horder t (list_to_set (ts ≫= group_needed))
    (Forall_lookup_1 _ _ _ _ Hts Hi)) as Hstep.
  specialize (Hstep ltac:(intros id Hid; apply elem_of_list_to_set, list_elem_of_bind; exists t;
    split; [done|by eapply list_elem_of_lookup_2]) c Hok).
  destruct (thread_step t c) as [[t' c']|f]; [|done]. destruct Hstep as [Hok' Ht'].
  split; cbn [mret fst snd].
  - eapply ok_weaken; [|exact Hok']. intros id. rewrite elem_of_union, !elem_of_list_to_set.
    intros (u & Hid & [j Hj]%list_elem_of_lookup_1)%list_elem_of_bind.
    apply list_lookup_insert_Some in Hj as [(_ & -> & _)|[_ Hj]]; [by left|]. right.
    apply list_elem_of_bind. exists u. split; [done|]. by eapply list_elem_of_lookup_2.
  - by apply Forall_insert.
Qed.

Lemma run_cache_ok (Horder : forall m, order m ≡ₚ (map_to_list m).*2) schedule s :
  threads_ok s -> clean (run_cache schedule s) threads_ok.
Proof.
  revert s. induction schedule as [|i schedule IH]; intros s Hs; cbn [run_cache]; [done|].
  eapply clean_bind; [by apply cache_step_ok|]. intros s' Hs'. by apply IH.
Qed.

(** Steps that a thread has still to do, at most. *)
Definition steps_left (t : cache_thread) : nat :=
  (match t.1 with Idle => 0 | Constructing _ _ _ _ _ => 2 | Constructed _ _ _ _ => 1 end +
   3 * length t.2)%nat.
Definition all_left (ts : list cache_thread) : nat := foldr (fun t n => (steps_left t + n)%nat) 0%nat ts.

Lemma all_left_insert ts i t t' : ts !! i = Some t ->
  (all_left (<[i := t']> ts) + steps_left t = all_left ts + steps_left t')%nat.
Proof.
  revert i. induction ts as [|u ts IH]; intros [|i] Hi; [done..| |].
  - injection Hi as ->. change (<[0%nat := t']> (t :: ts)) with (t' :: ts).
    unfold all_left. cbn [foldr]. lia.
  - specialize (IH i Hi). change (<[S i := t']> (u :: ts)) with (u :: <[i := t']> ts).
    unfold all_left in *. cbn [foldr]. lia.
Qed.

Lemma begin_op_task op c task c' : begin_op op c = Val (task, c') -> (steps_left (task, []) <= 2)%nat.
Proof.
  destruct op; cbn [begin_op]; intros (a & c1 & _ & [= <- _])%prog_bind_inv; cbn; lia.
Qed.

Lemma thread_step_less t c t' c' : thread_step t c = Val (t', c') -> t <> (Idle, []) ->
  (steps_left t' < steps_left t)%nat.
Proof.
  destruct t as [[|id size addr v map|id size addr m] ops]; cbn [thread_step].
  - destruct ops as [|op ops]; [done|]. intros (task & c1 & H%begin_op_task & [= <- _])%prog_bind_inv _.
    unfold steps_left in *. cbn in *. lia.
  - intros (m & c1 & _ & [= <- _])%prog_bind_inv _. unfold steps_left. cbn. lia.
  - intros (p & c1 & _ & [= <- _])%prog_bind_inv _. unfold steps_left. cbn. lia.
Qed.

(** From wherever the threads are, they can run to their ends. *)
Lemma run_cache_completes (Horder : forall m, order m ≡ₚ (map_to_list m).*2) s :
  threads_ok s -> exists schedule, clean (run_cache schedule s) (fun s' => Forall idle s'.2).
Proof.
  remember (all_left s.2) as n eqn:Hn. revert s Hn. induction n as [n IH] using lt_wf_ind.
  intros [c ts] Hn Hs. cbn [snd] in Hn.
  destruct (decide (Forall (fun t : cache_thread => steps_left t = 0%nat) ts)) as [Hall|Hsome].
  { exists []. cbn. eapply Forall_impl; [exact Hall|]. intros [[] [|]] Ht; [done|..];
    unfold steps_left in Ht; cbn in Ht; lia. }
  apply not_Forall_Exists in Hsome; [|intros x; apply _].
  apply Exists_exists in Hsome as (t & [i Hi]%list_elem_of_lookup_1 & Ht).
  pose proof (cache_step_ok Horder i (c, ts) Hs) as Hc. unfold cache_step in Hc. cbn [fst snd] in Hc.
  rewrite Hi in Hc. destruct (thread_step t c) as [[t' c']|f] eqn:Hrun.
  - pose proof (thread_step_less t c t' c' Hrun ltac:(intros ->; by apply Ht)) as Hless.
    pose proof (all_left_insert ts i t t' Hi) as Hsum.
    destruct (IH (all_left (<[i:=t']> ts)) ltac:(lia) (c', <[i:=t']> ts) eq_refl Hc) as [schedule Hend].
    exists (i :: schedule). cbn [run_cache]. unfold cache_step. cbn [fst snd]. by rewrite Hi, Hrun.
  - exists [i]. cbn [run_cache]. unfold cache_step. cbn [fst snd]. by rewrite Hi, Hrun.
Qed.
End Interleaving.

(** [addMethod] is its two halves with the construction in the window. *)
Theorem addMethod_split env others id size addr map c :
  addMethod env others id size addr map c =
  (version ← addMethod_open id;
   m ← prog_lift (build_method env id version size addr map);
   others;;
   addMethod_close id size addr m) c.
Proof.
  unfold addMethod, with_lock, group_addMethod, addMethod_open, addMethod_close, mbind, prog_bind.
  destruct (lock c) as [[[] c1]|]; [|done].
  destruct (get_group id c1) as [[g c2]|]; [|done].
  destruct (update_group id _ c2) as [[[] c3]|]; [|done].
  destruct (unsetLock c3) as [[[] c4]|]; [|done]. cbn [mret prog_ret].
  destruct (prog_lift _ c4) as [[m c5]|]; [|done].
  destruct (others c5) as [[[] c6]|]; [|done].
  destruct (setLock c6) as [[[] c7]|]; [|done]. cbn [prog_get].
  cbv zeta. cbn. unfold prog_lift, mret, prog_ret.
  destruct (insert _ _ _ _) as [[[] rs]|]; done.
Qed.

Definition empty_cache : CodeCacheManager := mk_cache ∅ [] ∅ false ∅.

Lemma inv_empty : inv empty_cache.
Proof.
  split; simpl; [apply wf_nil|by intros ? ? ?%elem_of_nil|].
  intros id g a p. by rewrite lookup_empty.
Qed.

(** * Destruction *)

Section Destroy.
Context (order : gmap Z positive -> list positive).
Context (group_order : gmap Z CompiledMethodGroup -> list CompiledMethodGroup).
Context (Horder : forall m, order m ≡ₚ (map_to_list m).*2).
Context (Hgroups : forall m, group_order m ≡ₚ (map_to_list m).*2).

Lemma delete_methods_run ps h : NoDup ps -> (forall p, p ∈ ps -> is_Some (h !! p)) ->
  exists h', delete_methods ps h = Val h' /\ forall p, h' !! p = if decide (p ∈ ps) then None else h !! p.
Proof.
  intros Hnd. revert h. induction Hnd as [|p ps Hp _ IH]; intros h Hl; cbn [delete_methods].
  - exists h. split; [done|]. intros p. by rewrite decide_False by apply not_elem_of_nil.
  - destruct (Hl p) as [m Hm]; [by left|]. rewrite Hm. destruct (IH (delete p h)) as (h' & Hrun & Hh).
    { intros q Hq. rewrite lookup_delete_ne by (intros ->; done). apply Hl. by right. }
    exists h'. split; [done|]. intros q. rewrite Hh.
    destruct (decide (q = p)) as [->|Hne].
    + rewrite (decide_True (P := p ∈ p :: ps)) by left. case_decide; [done|]. apply lookup_delete_eq.
    + rewrite lookup_delete_ne by done. apply decide_ext. rewrite elem_of_cons. naive_solver.
Qed.

Lemma destroy_groups_methods gs h :
  destroy_groups order gs h = delete_methods (gs ≫= fun g => order (_address_method_map g)) h.
Proof.
  revert h. induction gs as [|g gs IH]; intros h; [done|]. cbn [destroy_groups].
  change ((g :: gs) ≫= _) with (order (_address_method_map g) ++ (gs ≫= fun g => order (_address_method_map g))).
  unfold destroy_CompiledMethodGroup. revert h. induction (order _) as [|p ps IHp]; intros h; [apply IH|].
  cbn [delete_methods app]. by destruct (h !! p).
Qed.

(** The methods of all groups, with what they are filed under. *)
Lemma filed_elem c p :
  p ∈ (group_order (_method_id_map c) ≫= fun g => order (_address_method_map g)) <->
  exists id g a, _method_id_map c !! id = Some g /\ _address_method_map g !! a = Some p.
Proof.
  rewrite list_elem_of_bind. split.
  - intros (g & Hp & Hg). rewrite Hgroups in Hg. rewrite Horder in Hp.
    apply list_elem_of_fmap in Hg as ([id g'] & -> & Hg%elem_of_map_to_list).
    apply list_elem_of_fmap in Hp as ([a p'] & -> & Hp%elem_of_map_to_list). by exists id, g', a.
  - intros (id & g & a & Hg & Hp). exists g. rewrite Horder, Hgroups. split; apply list_elem_of_fmap.
    + exists (a, p). split; [done|by apply elem_of_map_to_list].
    + exists (id, g). split; [done|by apply elem_of_map_to_list].
Qed.

Lemma filed_distinct c : inv c ->
  NoDup (group_order (_method_id_map c) ≫= fun g => order (_address_method_map g)).
Proof.
  intros Hinv. rewrite Hgroups.
  assert (forall id g, (id, g) ∈ map_to_list (_method_id_map c) -> _method_id_map c !! id = Some g) as Hin
    by (intros id g; by apply elem_of_map_to_list).
  pose proof (NoDup_fst_map_to_list (_method_id_map c)) as Hnd. revert Hin Hnd.
  induction (map_to_list (_method_id_map c)) as [|[id g] l IH]; intros Hin Hnd; cbn; [constructor|].
  apply NoDup_cons in Hnd as [Hid Hnd]. apply NoDup_app. split_and!.
  - rewrite Horder. apply NoDup_fmap_2_strong; [|apply NoDup_map_to_list].
    intros [a1 p1] [a2 p2] H1%elem_of_map_to_list H2%elem_of_map_to_list Heq. cbn in Heq. subst p2.
    destruct (inv_groups c Hinv id g a1 p1) as (m1 & Hm1 & Ha1 & _); [by apply Hin; left|done|].
    destruct (inv_groups c Hinv id g a2 p1) as (m2 & Hm2 & Ha2 & _); [by apply Hin; left|done|]. congruence.
  - intros p Hp (g' & Hp' & ([id' g''] & -> & Hg')%list_elem_of_fmap)%list_elem_of_bind.
    rewrite Horder in Hp, Hp'. apply list_elem_of_fmap in Hp as ([a1 p1] & -> & Hp%elem_of_map_to_list).
    apply list_elem_of_fmap in Hp' as ([a2 p2] & Heq & Hp'%elem_of_map_to_list). cbn in *. subst p2.
    destruct (inv_groups c Hinv id g a1 p1) as (m1 & Hm1 & _ & Hi1); [by apply Hin; left|done|].
    destruct (inv_groups c Hinv id' g'' a2 p1) as (m2 & Hm2 & _ & Hi2); [by apply Hin; right|done|].
    assert (id = id') as -> by congruence. apply Hid, list_elem_of_fmap. by exists (id', g'').
  - apply IH; [|done]. intros id' g' H. apply Hin. by right.
Qed.

(** Destroying a consistent cache deletes every method that a group files, each once;
    what is left was replaced in its group and is lost. *)
Theorem destroy_deletes c : inv c ->
  exists c', destroy_CodeCacheManager order group_order c = Val c' /\ _method_id_map c' = ∅ /\
    forall p, is_Some (heap c' !! p) <-> is_Some (heap c !! p) /\
      ~ exists id g a, _method_id_map c !! id = Some g /\ _address_method_map g !! a = Some p.
Proof.
  intros Hinv. unfold destroy_CodeCacheManager. rewrite destroy_groups_methods.
  destruct (delete_methods_run _ (heap c) (filed_distinct c Hinv)) as (h & Hrun & Hh).
  { intros p (id & g & a & Hg & Ha)%filed_elem. destruct (inv_groups c Hinv id g a p Hg Ha) as (m & Hm & _).
    by exists m. }
  rewrite Hrun. eexists. split; [reflexivity|]. split; [done|]. intros p. cbn. rewrite Hh, <- filed_elem.
  case_decide; [|naive_solver]. split; [by intros [? [=]]|]. naive_solver.
Qed.
End Destroy.

(** * Properties *)

(** C15: any number of threads call any operations, with any steps of the others
    between their own and in the windows where [addMethod] has released its lock, so
    that any number of these windows can overlap.  The cache never touches a deleted
    method and no thread waits for itself; between two steps the lock is free, both
    indexes are consistent, every lookup by address returns a live method, and the
    group that a thread in a window will write to exists; the only way to stop is a
    failed assertion or an exception, and but for these all threads can finish. *)
Theorem cache_never_dangles env order work schedule
  (Horder : forall m, order m ≡ₚ (map_to_list m).*2) :
  clean (run_cache env order schedule (empty_cache, callers work))
    (fun '(c, ts) => inv c /\ locked c = false /\
       (forall addr, live c (getData addr (_method_range_set c))) /\
       (forall t id, t ∈ ts -> id ∈ group_needed t -> is_Some (_method_id_map c !! id)) /\
       exists schedule', clean (run_cache env order schedule' (c, ts)) (fun s => Forall idle s.2)).
Proof.
  assert (threads_ok (empty_cache, callers work)) as Hstart.
  { split; cbn [fst snd].
    - split_and!; [apply inv_empty|done|].
      intros id. rewrite elem_of_list_to_set. intros (t & Hid & (w & -> & _)%list_elem_of_fmap)%list_elem_of_bind.
      by apply elem_of_nil in Hid.
    - apply Forall_fmap, Forall_true. done. }
  eapply clean_weaken; [by apply run_cache_ok|]. intros [c ts] Hs.
  pose proof Hs as [(Hi & Hl & HG) _]. split_and!; [done|done| | |by apply run_cache_completes].
  - intros addr. by apply getData_live.
  - intros t id Ht Hid. apply elem_of_dom, HG, elem_of_list_to_set, list_elem_of_bind. by exists t.
Qed.

(** The version found for a method is the newest of its compiled versions,
    whatever the iteration order of the hash map. *)
Theorem getMethodByVersion_newest order g c
  (Horder : forall m, order m ≡ₚ (map_to_list m).*2)
  (Hlive : forall a p, _address_method_map g !! a = Some p -> is_Some (heap c !! p)) :
  exists r, getMethodByVersion order 0 g c = Val (r, c) /\
    match r with
    | None => _address_method_map g = ∅
    | Some p => exists a m, _address_method_map g !! a = Some p /\ heap c !! p = Some m /\
        forall a' p' m', _address_method_map g !! a' = Some p' -> heap c !! p' = Some m' ->
          _version m' <= _version m
    end.
Proof.
  assert (forall p, p ∈ order (_address_method_map g) <->
    exists a, _address_method_map g !! a = Some p) as Hin.
  { intros p. rewrite Horder, list_elem_of_fmap. split.
    - intros ([a q] & -> & H%elem_of_map_to_list). by exists a.
    - intros [a H]. exists (a, p). by rewrite elem_of_map_to_list. }
  unfold getMethodByVersion, mbind, prog_bind, prog_get, prog_lift. simpl.
  destruct (most_recent_none (heap c) (order (_address_method_map g))) as (r & -> & Hr).
  { intros p [a Hp]%Hin. by eapply Hlive. }
  exists r. split; [done|]. destruct r as [p|].
  - destruct Hr as (Hp & m & Hm & Hmax). apply Hin in Hp as [a Ha]. exists a, m.
    split_and!; [done|done|]. intros a' p' m' Hp' Hm'. apply (Hmax p'); [|done]. apply Hin. by exists a'.
  - apply map_empty. intros a. apply eq_None_not_Some. intros [p Hp].
    assert (p ∈ order (_address_method_map g)) as Hx by (apply Hin; by exists a).
    rewrite Hr in Hx. by apply elem_of_nil in Hx.
Qed.

(** The line table of a method answers every bytecode index of the method
    with the line of the last entry at or before it, duplicates included, and
    nothing after the end of the method. *)
Theorem loadBCILineTable_correct env m start_loc end_location table
  (Hnative : _isNative m = false) (Hempty : _bci2line_rangeset m = [])
  (Hloc : GetMethodLocation env (_method_id m) = (JVMTI_ERROR_NONE, (start_loc, end_location)))
  (Htab : GetLineNumberTable env (_method_id m) = (JVMTI_ERROR_NONE, table))
  (Hok : table_ok end_location table) :
  exists rs, loadBCILineTable env m =
      Val (mk_method (_method_id m) (_method_name m) (_src_file m) (_class_name m) false rs) /\
    forall bci, getData bci rs =
      if bci <=? end_location then line_number <$> line_at table bci else None.
Proof.
  unfold loadBCILineTable. rewrite Hnative, Hempty, Hloc, Htab. simpl.
  destruct (load_lines_spec end_location table [] Hok wf_nil disjoint_nil) as (rs & -> & _ & _ & Hget).
  { by intros e _ k r ?%elem_of_nil. }
  exists rs. split; [done|]. intros bci. rewrite Hget.
  destruct (line_at table bci), (bci <=? end_location); done.
Qed.

(** C37: an address of a compiled method maps to the line of the first entry of
    the address map that starts after it (not at or before it, as the runtime
    documents the map), and to line 0 behind the last entry. *)
Theorem addr2line_correct m e map line
  (Hnative : _isNative (base m) = false) (Hlines : _bci2line_rangeset (base m) <> [])
  (Hempty : _addr2line_rangeset m = []) (Hok : map_ok m (e :: map) line) :
  exists m', loadAddrLocationMap (e :: map) m = Val m' /\
    forall addr, _start_addr m <= addr <= _start_addr m + _code_size m - 1 ->
      addr2line addr m' = Val (default 0 (line <$> entry_after (e :: map) addr)).
Proof.
  destruct (loadAddrLocationMap_spec m e map line Hnative Hlines Hempty Hok) as (rs & -> & Hget).
  exists (with_addrs rs m). split; [done|]. intros addr Ha. unfold addr2line. simpl.
  destruct Hok as [_ _ [Hc1 Hc2] _]. rewrite Hget by lia. destruct (isEmpty rs) eqn:He.
  - destruct rs; [|done]. specialize (Hget addr ltac:(lia)). simpl in Hget. by rewrite <- Hget.
  - destruct (entry_after (e :: map) addr); simpl; [done|].
    rewrite u64_small by (unfold is_u64; lia). unfold cxx_assert.
    destruct (Z.leb_spec (_start_addr m) addr); [|lia].
    by destruct (Z.leb_spec addr (_start_addr m + _code_size m - 1)); [|lia].
Qed.

(** The cache when [addMethod] releases its lock: the method has a group, with
    the next version. *)
Definition next_version (id : Z) (c : CodeCacheManager) : Z :=
  u32 (_recent_version (default new_CompiledMethodGroup (_method_id_map c !! id)) + 1).
Definition released (id : Z) (c : CodeCacheManager) : CodeCacheManager :=
  let g := default new_CompiledMethodGroup (_method_id_map c !! id) in
  set_locked false (set_groups
    (<[id := mk_group (next_version id c) (_address_method_map g)]> (_method_id_map c)) c).

Lemma group_addMethod_prefix id c :
  locked c = false ->
  exists c1, (lock;; get_group id) c =
      Val (default new_CompiledMethodGroup (_method_id_map c !! id), c1) /\
    (update_group id (fun g => mk_group (next_version id c) (_address_method_map g));; unsetLock) c1 =
      Val (tt, released id c).
Proof.
  intros Hl. destruct c as [h rs gs b u]; simpl in Hl; subst b.
  unfold lock, get_group, released, next_version, mbind, prog_bind; simpl.
  destruct (gs !! id) as [g|] eqn:Hg; simpl; eexists; (split; [reflexivity|]); simpl;
    unfold unsetLock, unlock, modify, set_locked, set_groups, update_group; simpl; do 3 f_equal.
  - apply map_eq. intros k. destruct (decide (k = id)) as [->|].
    + by rewrite lookup_alter_eq, lookup_insert_eq, Hg.
    + by rewrite lookup_alter_ne, lookup_insert_ne.
  - by rewrite alter_insert_eq.
Qed.

(** The second half of [addMethod], from the state that other threads leave. *)
Lemma addMethod_suffix id a b m c g :
  locked c = false -> _method_id_map c !! id = Some g -> a <= b -> 
  let p := fresh (dom (heap c)) in
  (setLock;;
   c ← prog_get;
   let p := fresh (dom (heap c)) in
   modify (fun c => set_heap (<[p := m]> (heap c)) c);;
   update_group id (fun g => mk_group (_recent_version g) (<[a := p]> (_address_method_map g)));;
   c ← prog_get;
   '(inserted, rs) ← prog_lift (insert a b p (_method_range_set c));
   modify (set_ranges rs);; prog_lift (cxx_assert inserted);; unlock;; mret p) c =
  Val (p, mk_cache (<[p := m]> (heap c)) (map_emplace a (mk_range a b p) (_method_range_set c))
            (<[id := mk_group (_recent_version g) (<[a := p]> (_address_method_map g))]> (_method_id_map c))
            false (uncompiled c)).
Proof.
  intros Hl Hg Hab. destruct c as [h rs gs l u]; simpl in *; subst l.
  unfold setLock, lock, mbind, prog_bind, prog_get, prog_lift, insert, make_range, cxx_assert; simpl.
  destruct (Z.leb_spec a b); [|lia]. simpl. unfold mret, prog_ret, set_locked; simpl.
  do 3 f_equal. apply map_eq. intros k. destruct (decide (k = id)) as [->|].
  - by rewrite lookup_alter_eq, lookup_insert_eq, Hg.
  - by rewrite lookup_alter_ne, lookup_insert_ne.
Qed.

Lemma addMethod_run env others id size addr map m c c2 g :
  locked c = false -> build_method env id (next_version id c) size addr map = Val m ->
  others (released id c) = Val (tt, c2) -> locked c2 = false ->
  _method_id_map c2 !! id = Some g -> addr <= u64 (addr + size - 1) ->
  let p := fresh (dom (heap c2)) in
  addMethod env others id size addr map c =
  Val (p, mk_cache (<[p := m]> (heap c2))
            (map_emplace addr (mk_range addr (u64 (addr + size - 1)) p) (_method_range_set c2))
            (<[id := mk_group (_recent_version g) (<[addr := p]> (_address_method_map g))]> (_method_id_map c2))
            false (uncompiled c2)).
Proof.
  intros Hl Hb Ho Hl2 Hg Hab p.
  destruct (group_addMethod_prefix id c Hl) as (c1 & H1 & H2).
  pose proof (addMethod_suffix id addr _ m c2 g Hl2 Hg Hab) as Hs. cbv zeta in Hs. fold p in Hs.
  rewrite <- Hs. clear Hs. unfold addMethod, with_lock, group_addMethod.
  unfold mbind, prog_bind in *. destruct (lock c) as [[[] c0]|]; [|done].
  rewrite H1. change (u32 (_recent_version (default new_CompiledMethodGroup
    (_method_id_map c !! id)) + 1)) with (next_version id c).
  destruct (update_group id _ c1) as [[[] c1']|]; [|done]. rewrite H2.
  unfold prog_lift. rewrite Hb, Ho.
  destruct (setLock c2) as [[[] c3]|]; [|done]. simpl.
  unfold insert, make_range, cxx_assert. by destruct (addr <=? u64 (addr + size - 1)).
Qed.

(** C16: [addMethod] files the new method under its identifier and address in the
    cache that the other threads have left.  If the code range is free, exactly
    its addresses are found in the new method; if a method with the same start is
    still there, lookups by address keep answering with that old method. *)
Theorem addMethod_publishes env others id size addr map m c c2 g
  (Hlock : locked c = false)
  (Hbuild : build_method env id (next_version id c) size addr map = Val m)
  (Hothers : others (released id c) = Val (tt, c2)) (Hlock2 : locked c2 = false)
  (Hgroup : _method_id_map c2 !! id = Some g) (Hinv : inv c2)
  (Hd : disjoint_set (_method_range_set c2))
  (Hsize : 0 <= addr /\ 0 < size /\ addr + size <= 2 ^ 64) :
  exists p c', addMethod env others id size addr map c = Val (p, c') /\
    heap c2 !! p = None /\ heap c' !! p = Some m /\ inv c' /\
    (exists g', _method_id_map c' !! id = Some g' /\ _address_method_map g' !! addr = Some p) /\
    (free addr (addr + size - 1) (_method_range_set c2) ->
     forall a, getData a (_method_range_set c') =
       if decide (addr <= a <= addr + size - 1) then Some p else getData a (_method_range_set c2)) /\
    (is_Some (map_find addr (_method_range_set c2)) ->
     forall a, getData a (_method_range_set c') = getData a (_method_range_set c2)).
Proof.
  assert (u64 (addr + size - 1) = addr + size - 1) as Hu by (apply u64_small; unfold is_u64; lia).
  assert (addr <= u64 (addr + size - 1)) as Hle by lia.
  pose proof (addMethod_run env others id size addr map m c c2 g Hlock Hbuild Hothers Hlock2 Hgroup Hle)
    as Hrun.
  pose proof (clean_build_method env id (next_version id c) size addr map) as Hm.
  rewrite Hbuild in Hm. destruct Hm as [Hma Hmid]. cbv zeta in Hrun. rewrite Hu in *.
  set (p := fresh (dom (heap c2))) in *.
  assert (heap c2 !! p = None) as Hp by (apply not_elem_of_dom, is_fresh).
  eexists p, _. split; [exact Hrun|]. pose proof Hinv as [Hr _ _]. split_and!; simpl.
  - done.
  - by rewrite lookup_insert_eq.
  - pose proof (inv_file_method c2 p m addr Hinv Hp Hma) as Hi. rewrite Hmid in Hi.
    apply (inv_insert _ addr (addr + size - 1) p m
      (map_emplace addr (mk_range addr (addr + size - 1) p) (_method_range_set c2)) true) in Hi;
      [|by simpl; rewrite lookup_insert_eq|done|].
    + destruct Hi as [I1 I2 I3]. split; simpl in *; [done|done|]. intros id' g' a q H1 H2.
      apply (I3 id' g' a q); [|done]. rewrite <- H1. destruct (decide (id' = id)) as [->|].
      * by rewrite lookup_alter_eq, lookup_insert_eq, Hgroup.
      * by rewrite lookup_alter_ne, lookup_insert_ne.
    + unfold insert, make_range, cxx_assert. by destruct (Z.leb_spec addr (addr + size - 1)); [|lia].
  - eexists. rewrite lookup_insert_eq. split; [done|]. simpl. by rewrite lookup_insert_eq.
  - intros Hf a. apply getData_emplace; [done|done|done|lia].
  - intros Hs a. rewrite map_emplace_present; [done|by destruct Hr|done].
Qed.

Module Examples.
Definition env : jvmti := mk_jvmti
  (fun _ => (0, lit "run")) (fun _ => (0, 7)) (fun _ => (0, lit "Foo.java"))
  (fun _ => (0, lit "La/Foo;")) (fun _ => (0, false)) (fun _ => (0, (0, 20)))
  (fun _ => (0, [mk_line 0 10; mk_line 5 11; mk_line 5 12; mk_line 9 13])).
Definition order (m : gmap Z positive) : list positive := (map_to_list m).*2.

(** Three threads.  The windows of the first two cross: the first opens its own, then
    the second, which closes after the first; the third removes and looks up. *)
Definition work : list (list cache_op) := [
  [AddMethod 1 16 100 [mk_loc 104 0; mk_loc 108 5]; FindMethod 105; RemoveMethod 1 100];
  [AddMethod 1 16 300 []; AddMethod 2 16 200 []];
  [GetMethodById 1; CheckAndMove 3; GetMethod 300]].
Definition schedule : list nat := [0; 1; 2; 0; 1; 0; 2; 1; 0; 1; 0; 2; 1]%nat.
Definition reached : outcome (CodeCacheManager * list cache_thread) :=
  run_cache env order schedule (empty_cache, callers work).

(** At the end the second thread is in the window of its second method. *)
Lemma cache_never_dangles_witness :
  clean reached (fun '(c, ts) => inv c /\ locked c = false /\
       (forall addr, live c (getData addr (_method_range_set c))) /\
       (forall t id, t ∈ ts -> id ∈ group_needed t -> is_Some (_method_id_map c !! id)) /\
       exists schedule', clean (run_cache env order schedule' (c, ts)) (fun s => Forall idle s.2)) /\
  (exists c ts, reached = Val (c, ts) /\ getData 310 (_method_range_set c) <> None /\
     getData 110 (_method_range_set c) = None /\ (ts ≫= group_needed) = [2]).
Proof.
  split; [by apply (cache_never_dangles env order work schedule)|].
  do 2 eexists. split; [vm_compute; reflexivity|]. split; [vm_compute; discriminate|].
  split; vm_compute; reflexivity.
Defined.

Definition native_env : jvmti := mk_jvmti
  (GetMethodName env) (GetMethodDeclaringClass env) (GetSourceFileName env)
  (GetClassSignature env) (fun _ => (0, true)) (GetMethodLocation env) (GetLineNumberTable env).
Definition native (id v : Z) : Method := mk_method id (lit "run") (lit "Foo.java") (lit "a.Foo") true [].
Definition m1 : CompiledMethod := mk_compiled (native 1 1) 1 16 100 [].
Definition m2 : CompiledMethod := mk_compiled (native 1 2) 2 16 200 [].
Definition group : CompiledMethodGroup := mk_group 2 {[100 := 1%positive; 200 := 2%positive]}.
Definition cache : CodeCacheManager :=
  mk_cache {[1%positive := m1; 2%positive := m2]} [] {[1 := group]} false ∅.

Lemma getMethodByVersion_newest_witness :
  getMethodByVersion order 0 group cache = Val (Some 2%positive, cache).
Proof.
  destruct (getMethodByVersion_newest order group cache) as (r & Hr & _).
  - done.
  - intros a p Hp. simpl in *. apply lookup_insert_Some in Hp as [[_ <-]|[_ Hp]]; [by eexists|].
    apply lookup_singleton_Some in Hp as [_ <-]. by eexists.
  - rewrite Hr. vm_compute in Hr. injection Hr as <-. reflexivity.
Defined.

Lemma loadBCILineTable_correct_witness :
  exists rs, loadBCILineTable env (mk_method 1 [] [] [] false []) =
      Val (mk_method 1 [] [] [] false rs) /\
    getData 4 rs = Some 10 /\ getData 7 rs = Some 12 /\ getData 21 rs = None.
Proof.
  destruct (loadBCILineTable_correct env (mk_method 1 [] [] [] false []) 0 20
    [mk_line 0 10; mk_line 5 11; mk_line 5 12; mk_line 9 13]) as (rs & Hrs & Hget);
    [reflexivity..| |].
  - split; [repeat constructor; simpl; lia|repeat constructor; simpl; lia|lia].
  - exists rs. split; [exact Hrs|]. by rewrite !Hget.
Defined.

Definition java : CompiledMethod :=
  mk_compiled (mk_method 1 [] [] [] false [(0, mk_range 0 4 10); (5, mk_range 5 20 11)]) 1 16 100 [].

Lemma addr2line_correct_witness :
  exists m', loadAddrLocationMap [mk_loc 104 0; mk_loc 108 5] java = Val m' /\
    addr2line 104 m' = Val 11 /\ addr2line 100 m' = Val 10 /\ addr2line 110 m' = Val 0.
Proof.
  destruct (addr2line_correct java (mk_loc 104 0) [mk_loc 108 5]
    (fun e => if location e =? 0 then 10 else 11)) as (m' & Hm & Hget);
    [done|done|done| |].
  - split; [repeat constructor; simpl; lia|repeat constructor; simpl; lia|simpl; lia|].
    repeat constructor.
  - exists m'. split; [exact Hm|]. rewrite !Hget by (simpl; lia). done.
Defined.

Definition nobody : C unit := mret tt.

Lemma addMethod_publishes_witness :
  exists p c', addMethod native_env nobody 1 16 400 [] cache = Val (p, c') /\
    getData 410 (_method_range_set c') = Some p.
Proof.
  destruct (addMethod_publishes native_env nobody 1 16 400 []
    (mk_compiled (native 1 3) 3 16 400 []) cache (released 1 cache)
    (mk_group 3 (_address_method_map group))) as (p & c' & Hrun & _ & _ & _ & _ & Hfree & _).
  - done.
  - vm_compute. reflexivity.
  - done.
  - done.
  - vm_compute. reflexivity.
  - split; simpl; [apply wf_nil|by intros ? ? ?%elem_of_nil|].
    intros id g a p H1 H2. apply lookup_insert_Some in H1 as [[<- <-]|[Hne H1]].
    + change ((<[100 := 1%positive]> {[200 := 2%positive]} : gmap Z positive) !! a = Some p) in H2.
      apply lookup_insert_Some in H2 as [[<- <-]|[_ H2]]; [by exists m1|].
      apply lookup_singleton_Some in H2 as [<- <-]. by exists m2.
    + apply lookup_singleton_Some in H1 as [<- _]. done.
  - apply disjoint_nil.
  - lia.
  - exists p, c'. split; [exact Hrun|]. rewrite Hfree by apply free_nil.
    rewrite decide_True by lia. done.
Defined.
End Examples.
