(* ===== verification/Argument.v ===== *)
(** The agent's argument ([argument.h], [argument.cpp]): a comma-separated list
    of performance events.  [Tokenize] is the loop over string positions of the
    source; its reference is a structural split of the string. *)
From stdpp Require Import base numbers option list strings.
From Stdlib Require Import ZArith Lia Ascii.
From S2P Require Import Prelude.
From S2P Require Import Cxx.

(** * Operations *)

(** The [while] loop; both positions are [npos] when the string is used up. *)
Fixpoint tokenize_loop (fuel : nat) (s delimiters : str) (tokens : list str) (lastPos pos : Z)
  : outcome (list str) :=
  match fuel with
  | O => Fault OutOfFuel
  | S fuel =>
    if negb (npos =? pos) || negb (npos =? lastPos) then
      token ← substr s lastPos (u64 (pos - lastPos));
      let lastPos := find_first_not_of s delimiters pos in
      let pos := find_first_of s delimiters lastPos in
      tokenize_loop fuel s delimiters (tokens ++ [token]) lastPos pos
    else mret tokens
  end.

(** One more iteration than characters is enough. *)
Definition Tokenize (s : str) (tokens : list str) (delimiters : str) : outcome (list str) :=
  let lastPos := find_first_not_of s delimiters 0 in
  let pos := find_first_of s delimiters lastPos in
  tokenize_loop (S (length s)) s delimiters tokens lastPos pos.

(** [class Argument] *)
Record Argument := mk_argument { _perf_event_list : list str }.

Definition new_Argument (arg : str) : outcome Argument :=
  tokens ← Tokenize (c_str arg) [] (lit ",");
  mret (mk_argument tokens).

Definition getPerfEventList (a : Argument) : list str := _perf_event_list a.

(** * The reference *)

(** The maximal runs of characters that are not delimiters; [w] is the run read
    so far. *)
Fixpoint runs (delimiters : str) (w s : str) : list str :=
  match s with
  | [] => if w is [] then [] else [w]
  | c :: s =>
    if mem c delimiters then (if w is [] then [] else [w]) ++ runs delimiters [] s
    else runs delimiters (w ++ [c]) s
  end.

Section Facts.
Context (delimiters : str).
Abbreviation delim c := (mem c delimiters).

Lemma runs_delims a s : Forall (fun c => delim c = true) a ->
  runs delimiters [] (a ++ s) = runs delimiters [] s.
Proof. induction 1 as [|c a Hc _ IH]; simpl; [done|]. by rewrite Hc. Qed.

Lemma runs_word w v s : Forall (fun c => delim c = false) v ->
  runs delimiters w (v ++ s) = runs delimiters (w ++ v) s.
Proof.
  intros Hv. revert w. induction Hv as [|c v Hc _ IH]; intros w; simpl; [by rewrite app_nil_r|].
  by rewrite Hc, IH, <- app_assoc.
Qed.

Lemma runs_flush w s :
  w <> [] -> (if s is c :: _ then delim c = true else True) ->
  runs delimiters w s = w :: runs delimiters [] s.
Proof. intros Hw Hs. destruct s as [|c s]; simpl; [|rewrite Hs]; by destruct w. Qed.

(** What a scan finds. *)
Lemma scan_spec (f : ascii -> bool) s i :
  exists a b, s = a ++ b /\ Forall (fun c => f c = false) a /\
    match b with
    | [] => scan f s i = npos
    | c :: _ => f c = true /\ scan f s i = i + size a
    end.
Proof.
  revert i. induction s as [|c s IH]; intros i; [by exists [], []|]. simpl.
  destruct (f c) eqn:Hc.
  - exists [], (c :: s). split_and!; [done|done|done|]. unfold size; simpl; lia.
  - destruct (IH (i + 1)) as (a & b & -> & Ha & Hb). exists (c :: a), b.
    split_and!; [done|by constructor|]. destruct b as [|c' b]; [done|].
    destruct Hb as [? ->]. split; [done|]. unfold size; simpl; lia.
Qed.

Lemma find_if_at f p t : size (p ++ t) < npos ->
  find_if f (p ++ t) (size p) = scan f t (size p).
Proof.
  intros Hs. unfold find_if, size in *. rewrite length_app in *.
  rewrite Z.min_l by lia. by rewrite Nat2Z.id, drop_app_length.
Qed.

Lemma find_if_npos f s : size s < npos -> find_if f s npos = npos.
Proof.
  intros Hs. unfold find_if. rewrite Z.min_r by lia.
  unfold size. by rewrite Nat2Z.id, drop_all.
Qed.

(** The loop from the position behind [p], with [t] still to be split. *)
Lemma tokenize_loop_spec fuel p t tokens :
  size (p ++ t) < npos -> (length t < fuel)%nat ->
  let lastPos := find_first_not_of (p ++ t) delimiters (size p) in
  tokenize_loop fuel (p ++ t) delimiters tokens lastPos
    (find_first_of (p ++ t) delimiters lastPos) = Val (tokens ++ runs delimiters [] t).
Proof.
  revert p t tokens. induction fuel as [|fuel IH]; intros p t tokens Hs Hf; [lia|].
  unfold find_first_not_of, find_first_of. rewrite find_if_at by done.
  destruct (scan_spec (fun c => negb (delim c)) t (size p)) as (a & b & -> & Ha & Hb).
  rewrite runs_delims by (eapply Forall_impl; [exact Ha|]; simpl; intros c; by destruct (delim c)).
  destruct b as [|c b].
  { rewrite Hb, find_if_npos by done. simpl. by rewrite app_nil_r. }
  destruct Hb as [Hc ->]. rewrite app_assoc, <- size_app in *. set (q := p ++ a) in *.
  rewrite find_if_at by done.
  destruct (scan_spec (fun c => delim c) (c :: b) (size q)) as (w & r & Heq & Hw & Hr).
  rewrite Heq in *. assert (w <> []) as Hw0.
  { intros ->. simpl in Heq. subst r. destruct Hr as [Hr _]. by rewrite Hr in Hc. }
  rewrite runs_word by done. cbn [tokenize_loop]. rewrite !size_app in Hs.
  assert (0 <= size q /\ 0 < size w /\ 0 <= size r) as (Hq0 & Hwz & Hr0).
  { unfold size. destruct w; [done|]. simpl. lia. }
  destruct r as [|d r].
  - rewrite Hr. rewrite Z.eqb_refl. destruct (Z.eqb_spec npos (size q)); [lia|]. cbn [negb orb].
    rewrite (substr_app q w []).
    2: { right. split; [done|]. rewrite u64_small by (unfold is_u64, npos in *; lia). lia. }
    change (mbind ?f (Val w)) with (f w). cbv beta zeta.
    unfold find_first_not_of, find_first_of.
    rewrite !find_if_npos by (rewrite ?size_app; lia).
    destruct fuel; [|by simpl; destruct w].
    rewrite !length_app in Hf. destruct w; [done|]. simpl in Hf. lia.
  - destruct Hr as [Hd ->].
    destruct (Z.eqb_spec npos (size q + size w)); [unfold size in *; simpl in *; lia|]. cbn [negb orb].
    rewrite substr_app; [|left; rewrite u64_small by (unfold is_u64, npos in *; lia); lia].
    change (mbind ?f (Val w)) with (f w). cbv beta zeta.
    rewrite <- size_app. rewrite app_assoc. rewrite IH.
    + rewrite app_nil_l, (runs_flush w); [|done|exact Hd]. by rewrite <- app_assoc.
    + rewrite !size_app. lia.
    + rewrite !length_app in Hf. destruct w; [done|]. simpl in *. lia.
Qed.
End Facts.

Lemma Tokenize_runs s tokens delimiters :
  size s < npos -> Tokenize s tokens delimiters = Val (tokens ++ runs delimiters [] s).
Proof.
  intros Hs. unfold Tokenize.
  exact (tokenize_loop_spec delimiters (S (length s)) [] s tokens Hs ltac:(lia)).
Qed.

(** Events joined with commas. *)
Fixpoint join (events : list str) : str :=
  match events with
  | [] => []
  | [e] => e
  | e :: events => e ++ ","%char :: join events
  end.

Lemma runs_join events :
  Forall (fun e => e <> [] /\ Forall (fun c => c <> ","%char) e) events ->
  runs (lit ",") [] (join events) = events.
Proof.
  assert (forall e, Forall (fun c => c <> ","%char) e -> Forall (fun c => mem c (lit ",") = false) e) as Hm.
  { intros e He. eapply Forall_impl; [exact He|]. intros c Hc. simpl. rewrite orb_false_r.
    by apply Ascii.eqb_neq. }
  induction events as [|e events IH]; intros H; [done|].
  apply Forall_cons in H as [[Hne He] H]. specialize (IH H). destruct events as [|e' events].
  - simpl. rewrite <- (app_nil_r e) at 1. rewrite runs_word by auto. simpl. by destruct e.
  - change (join (e :: e' :: events)) with (e ++ ","%char :: join (e' :: events)).
    rewrite runs_word by auto. rewrite app_nil_l, runs_flush by done. by rewrite <- IH at 2.
Qed.

(** * Properties *)

(** C40: the loop of [Tokenize] ends and appends exactly the maximal runs of
    characters that are not delimiters, in order; empty fields give no token. *)
Theorem Tokenize_correct s tokens delimiters
  (Hsize : size s < npos) :
  Tokenize s tokens delimiters = Val (tokens ++ runs delimiters [] s) /\
  Forall (fun t => t <> [] /\ Forall (fun c => mem c delimiters = false) t) (runs delimiters [] s) /\
  mjoin (runs delimiters [] s) = base.filter (fun c => mem c delimiters = false) s.
Proof.
  split; [by apply Tokenize_runs|].
  assert (forall w, Forall (fun c => mem c delimiters = false) w ->
    Forall (fun t => t <> [] /\ Forall (fun c => mem c delimiters = false) t) (runs delimiters w s) /\
    mjoin (runs delimiters w s) = w ++ base.filter (fun c => mem c delimiters = false) s) as H;
    [|by apply (H [])].
  induction s as [|c s IH]; intros w Hw; simpl.
  - destruct w; simpl; [by split|].
    split; [apply Forall_singleton; by split|done].
  - rewrite filter_cons. destruct (mem c delimiters) eqn:Hc; simpl.
    + destruct (IH ltac:(unfold size in *; simpl in *; lia) []) as [H1 H2]; [done|].
      destruct w; simpl; [done|]. split; [by constructor|]. by rewrite H2.
    + destruct (IH ltac:(unfold size in *; simpl in *; lia) (w ++ [c])) as [H1 H2];
        [by apply Forall_app; split; [|repeat constructor]|].
      split; [done|]. by rewrite H2, <- app_assoc.
Qed.

(** An argument made of non-empty events without commas, joined by commas,
    is read back as exactly these events. *)
Theorem Argument_roundtrip events
  (Hev : Forall (fun e => e <> [] /\ Forall (fun c => c <> ","%char /\ c <> NUL) e) events)
  (Hsize : size (join events) < npos) :
  exists a, new_Argument (join events) = Val a /\ getPerfEventList a = events.
Proof.
  assert (c_str (join events) = join events) as Hc.
  { clear Hsize. assert (Forall (fun c => c <> NUL) (join events)) as H.
    - induction Hev as [|e events [_ He] _ IH]; [constructor|].
      assert (Forall (fun c => c <> NUL) e) as He' by (eapply Forall_impl; [exact He|]; by intros ? []).
      destruct events; [done|]. apply Forall_app. split; [done|]. constructor; [done|exact IH].
    - induction H as [|c s Hc _ IHs]; simpl; [done|]. by rewrite decide_False, IHs. }
  unfold new_Argument. rewrite Hc, Tokenize_runs by done. simpl. rewrite runs_join; [by eexists|].
  eapply Forall_impl; [exact Hev|]. intros e [? He]. split; [done|].
  eapply Forall_impl; [exact He|]. by intros ? [].
Qed.

Module Examples.
Lemma Tokenize_correct_witness :
  Tokenize (lit ",,a,bc,,d,") [] (lit ",") = Val [lit "a"; lit "bc"; lit "d"].
Proof.
  destruct (Tokenize_correct (lit ",,a,bc,,d,") [] (lit ",")) as [H _]; [done|].
  rewrite H. reflexivity.
Defined.

Lemma Argument_roundtrip_witness :
  exists a, new_Argument (lit "A::x2@10,B::y3@5") = Val a /\
    getPerfEventList a = [lit "A::x2@10"; lit "B::y3@5"].
Proof.
  apply (Argument_roundtrip [lit "A::x2@10"; lit "B::y3@5"]); [|done].
  repeat (constructor; [split; [discriminate|repeat (constructor; [split; discriminate|])]|]);
    repeat constructor; discriminate.
Defined.
End Examples.
