(* ===== verification/Lock.v ===== *)
(** The spin lock and its scope guard ([lock.h]), as atomic operations on the
    lock word and as a step relation over any number of threads. *)
From stdpp Require Import base numbers option list relations.
From Stdlib Require Import ZArith Lia.
From S2P Require Import Prelude.

(** * Operations on the lock word *)

(** [class SpinLock]: its [_lock]. *)
Definition SpinLock := Z.
Definition new_SpinLock : SpinLock := 0.

(** [__sync_bool_compare_and_swap] *)
Definition compare_and_swap (old new : Z) (l : SpinLock) : bool * SpinLock :=
  if l =? old then (true, new) else (false, l).

Definition tryLock (l : SpinLock) : bool * SpinLock := compare_and_swap 0 1 l.
Definition unlock (l : SpinLock) : SpinLock := (compare_and_swap 1 0 l).2.
Definition isLocked (l : SpinLock) : bool := 0 <? l.

(** * Threads

    A thread is outside of every scope of the lock; spins in [lock]; is inside
    a scope that holds the lock; or is in a scope that has given the lock back
    with [unsetLock]. *)
Inductive thread := Outside | Spinning | Inside | Released.

#[global] Instance thread_eq_dec : EqDecision thread.
Proof. solve_decision. Defined.

Record state := mk_state { word : SpinLock; threads : list thread }.

Definition set_thread (i : nat) (t : thread) (l : SpinLock) (s : state) : state :=
  mk_state l (<[i := t]> (threads s)).

(** One atomic step of one thread. *)
Inductive step : state -> state -> Prop :=
| step_LockScope s i :                      (* the constructor calls [lock] *)
    threads s !! i = Some Outside ->
    step s (set_thread i Spinning (word s) s)
| step_tryLock s i b l :                    (* one round of the loop of [lock] *)
    threads s !! i = Some Spinning ->
    tryLock (word s) = (b, l) ->
    step s (set_thread i (if b then Inside else Spinning) l s)
| step_unsetLock s i :                      (* its assertion holds *)
    threads s !! i = Some Inside -> isLocked (word s) = true ->
    step s (set_thread i Released (unlock (word s)) s)
| step_setLock s i :
    threads s !! i = Some Released ->
    step s (set_thread i Spinning (word s) s)
| step_end_scope s i :                      (* the destructor calls [unlock] *)
    threads s !! i = Some Inside ->
    step s (set_thread i Outside (unlock (word s)) s).

Definition initial (n : nat) : state := mk_state new_SpinLock (replicate n Outside).
Definition reachable (n : nat) (s : state) : Prop := rtc step (initial n) s.

(** * The invariant *)

(** The number of threads inside. *)
Definition holders (ts : list thread) : nat := length (filter (fun t => t = Inside) ts).

Definition lock_inv (s : state) : Prop := word s = Z.of_nat (holders (threads s)) /\ (holders (threads s) <= 1)%nat.

Lemma holders_insert ts i t t' : ts !! i = Some t ->
  (holders (<[i := t']> ts) + (if decide (t = Inside) then 1 else 0) =
   holders ts + (if decide (t' = Inside) then 1 else 0))%nat.
Proof.
  intros Hi. pose proof (lookup_lt_Some _ _ _ Hi) as Hlt.
  rewrite insert_take_drop by done. rewrite <- (take_drop_middle ts i t Hi) at 3.
  unfold holders. rewrite !filter_app, !filter_cons, !length_app.
  repeat case_decide; simpl; lia.
Qed.

Lemma lock_inv_step s s' : lock_inv s -> step s s' -> lock_inv s'.
Proof.
  unfold lock_inv. intros [Hw Hn] Hstep.
  destruct Hstep as [s i Hi|s i b l Hi Ht|s i Hi Hl|s i Hi|s i Hi]; simpl.
  - pose proof (holders_insert _ _ _ Spinning Hi) as Hh. repeat case_decide; try done; lia.
  - pose proof (holders_insert _ _ _ (if b then Inside else Spinning) Hi) as Hh.
    unfold tryLock, compare_and_swap in Ht. destruct (Z.eqb_spec (word s) 0); injection Ht as <- <-;
      repeat case_decide; try done; lia.
  - pose proof (holders_insert _ _ _ Released Hi) as Hh.
    unfold unlock, compare_and_swap. destruct (Z.eqb_spec (word s) 1); simpl;
      repeat case_decide; try done; lia.
  - pose proof (holders_insert _ _ _ Spinning Hi) as Hh. repeat case_decide; try done; lia.
  - pose proof (holders_insert _ _ _ Outside Hi) as Hh.
    unfold unlock, compare_and_swap. destruct (Z.eqb_spec (word s) 1); simpl;
      repeat case_decide; try done; lia.
Qed.

Lemma reachable_inv n s : reachable n s -> lock_inv s.
Proof.
  intros Hr. refine (rtc_ind_r (R := step) (fun s => lock_inv s) (initial n) _ _ s Hr).
  - unfold lock_inv, holders, initial; cbn [word threads].
    rewrite filter_none; [by split; simpl; [|lia]|]. by intros t [-> _]%elem_of_replicate.
  - intros x y _ Hs Hx. by eapply lock_inv_step.
Qed.

Lemma holders_two ts i j :
  ts !! i = Some Inside -> ts !! j = Some Inside -> i <> j -> (2 <= holders ts)%nat.
Proof.
  intros Hi Hj Hne. pose proof (holders_insert ts i Inside Outside Hi) as H1.
  assert (<[i := Outside]> ts !! j = Some Inside) as Hj' by by rewrite list_lookup_insert_ne.
  pose proof (holders_insert _ j Inside Outside Hj') as H2. repeat case_decide; try done; lia.
Qed.

Lemma holders_pos ts i : ts !! i = Some Inside -> (1 <= holders ts)%nat.
Proof. intros Hi. pose proof (holders_insert ts i Inside Outside Hi). repeat case_decide; try done; lia. Qed.

Lemma holders_ex ts : (1 <= holders ts)%nat -> exists i, ts !! i = Some Inside.
Proof.
  unfold holders. intros H. destruct (filter _ ts) as [|t l] eqn:Hf; [simpl in H; lia|].
  assert (t ∈ filter (fun t => t = Inside) ts) as [-> Hin]%list_elem_of_filter
    by (rewrite Hf; constructor). by apply list_elem_of_lookup.
Qed.

(** * Properties *)

(** C22: however many threads use the lock and however their steps interleave,
    at most one of them is inside a scope that holds it, the lock word is set
    exactly while one is, and the assertion of [unsetLock] holds there. *)
Theorem spinlock_mutual_exclusion n s (Hr : reachable n s) :
  (forall i j, threads s !! i = Some Inside -> threads s !! j = Some Inside -> i = j) /\
  (isLocked (word s) = true <-> exists i, threads s !! i = Some Inside).
Proof.
  destruct (reachable_inv n s Hr) as [Hw Hn]. split.
  - intros i j Hi Hj. destruct (decide (i = j)) as [|Hne]; [done|].
    pose proof (holders_two _ _ _ Hi Hj Hne). lia.
  - unfold isLocked. rewrite Hw. split.
    + intros Hl%Z.ltb_lt. apply holders_ex. lia.
    + intros [i Hi%holders_pos]. apply Z.ltb_lt. lia.
Qed.

(** A spinning thread never waits for nothing: its next round succeeds, or
    another thread is inside and a round succeeds as soon as that thread has
    left its scope. *)
Theorem spinlock_progress n s i (Hr : reachable n s) (Hi : threads s !! i = Some Spinning) :
  (exists l, tryLock (word s) = (true, l)) \/
  (exists j l, threads s !! j = Some Inside /\ j <> i /\
     tryLock (word (set_thread j Outside (unlock (word s)) s)) = (true, l)).
Proof.
  destruct (reachable_inv n s Hr) as [Hw Hn]. unfold tryLock, compare_and_swap.
  destruct (Z.eqb_spec (word s) 0) as [H0|H0]; [left; by eexists|right].
  destruct (holders_ex (threads s)) as [j Hj]; [lia|]. exists j, 1. split_and!; [done|congruence|].
  simpl. unfold unlock, compare_and_swap. replace (word s) with 1 by lia. done.
Qed.

Module Examples.
Definition s1 : state := mk_state 1 [Inside; Spinning].

Lemma s1_reachable : reachable 2 s1.
Proof.
  eapply rtc_l; [apply (step_LockScope _ 0); done|].
  eapply rtc_l; [apply (step_LockScope _ 1); done|].
  eapply rtc_l; [by apply (step_tryLock _ 0 true 1)|]. apply rtc_refl.
Qed.

Lemma spinlock_mutual_exclusion_witness : isLocked (word s1) = true.
Proof. apply (spinlock_mutual_exclusion 2 s1 s1_reachable). by exists 0%nat. Defined.

Lemma spinlock_progress_witness : exists j, threads s1 !! j = Some Inside /\ j <> 1%nat.
Proof.
  destruct (spinlock_progress 2 s1 1 s1_reachable) as [[l Hl]|(j & l & Hj & Hne & _)]; [done| |].
  - discriminate Hl.
  - by exists j.
Defined.
End Examples.
