(* ===== verification/Critical.v ===== *)
(** Threads over shared variables, at the granularity of single accesses: what a
    thread does to the variables is a sequence of atomic operations, looks without
    the lock, and critical sections between [lock] and [unlock] of [lock.h], in
    which any other thread can run between two accesses.

    The main lemma is a reduction: when the atomic operations commute with the
    accesses of the sections, every interleaving of accesses does what some
    interleaving of whole sections does. *)
From stdpp Require Import base numbers option list relations.
From Stdlib Require Import ZArith Lia.
From S2P Require Import Prelude.
From S2P Require Import Lock.

(** * Orders

    What several threads do, each in its own order: one order of all of it. *)
Section Orders.
Context {A : Type}.

(** The part of one thread. *)
Definition of_thread (i : nat) (order : list (nat * A)) : list A := (filter (fun e => e.1 = i) order).*2.

(** An order of the work of all threads that keeps the order of every thread. *)
Definition merges (work : list (list A)) (order : list (nat * A)) : Prop :=
  Forall (fun e => (e.1 < length work)%nat) order /\
  forall i ps, work !! i = Some ps -> of_thread i order = ps.

(** An order of some of the work, without gaps. *)
Definition begins (work : list (list A)) (order : list (nat * A)) : Prop :=
  Forall (fun e => (e.1 < length work)%nat) order /\
  forall i ps, work !! i = Some ps -> of_thread i order `prefix_of` ps.

Lemma of_thread_cons i j p order :
  of_thread i ((j, p) :: order) = if decide (j = i) then p :: of_thread i order else of_thread i order.
Proof. unfold of_thread. rewrite filter_cons. simpl. by case_decide. Qed.

Lemma merges_nil work : merges work [] -> Forall (fun ps => ps = []) work.
Proof. intros [_ H]. apply Forall_lookup. intros i ps Hi. by rewrite <- (H i ps Hi). Qed.

Lemma merges_cons work j p order : merges work ((j, p) :: order) ->
  exists ps, work !! j = Some (p :: ps) /\ merges (<[j := ps]> work) order.
Proof.
  intros [Hlt Hw]. inversion Hlt as [|? ? Hj Hlt']; subst. cbn in Hj.
  destruct (lookup_lt_is_Some_2 work j Hj) as [ps Hps]. pose proof (Hw j ps Hps) as Hof.
  rewrite of_thread_cons, decide_True in Hof by done. subst ps. exists (of_thread j order). split; [done|].
  split; [by rewrite length_insert|]. intros i qs [(<- & <- & _)|[Hne Hi]]%list_lookup_insert_Some; [done|].
  rewrite <- (Hw i qs Hi), of_thread_cons. by rewrite decide_False.
Qed.

(** All of the work is in the order, once. *)
Lemma merges_permutation work order : merges work order -> order.*2 ≡ₚ concat work.
Proof.
  revert work. induction order as [|[j p] order IH]; intros work Hm.
  - apply merges_nil in Hm. induction Hm as [|? ? ->]; [done|]. exact IHHm.
  - apply merges_cons in Hm as (ps & Hj & Hm). cbn. rewrite (IH _ Hm).
    pose proof (lookup_lt_Some _ _ _ Hj) as Hlt. rewrite insert_take_drop by done.
    rewrite <- (take_drop_middle work j _ Hj) at 3. rewrite !concat_app. simpl.
    by rewrite Permutation_middle.
Qed.
End Orders.

Lemma merges_fmap {A B} (f : A -> B) (work : list (list A)) (order : list (nat * B)) :
  merges ((fun ps : list A => f <$> ps) <$> work) order ->
  exists order' : list (nat * A), order = (fun e : nat * A => (e.1, f e.2)) <$> order' /\ merges work order'.
Proof.
  revert work. induction order as [|[j q] order IH]; intros work Hm.
  - exists []. split; [done|]. apply merges_nil in Hm. rewrite Forall_fmap in Hm.
    split; [by apply Forall_nil|]. intros i ps Hi. rewrite Forall_lookup in Hm.
    by apply eq_sym, (fmap_nil_inv f), (Hm i).
  - apply merges_cons in Hm as (ps & Hj & Hm). rewrite list_lookup_fmap in Hj.
    destruct (work !! j) as [qs|] eqn:Hqs; [|done]. cbn in Hj.
    destruct qs as [|p qs]; [done|]. injection Hj as <- <-. rewrite <- list_fmap_insert in Hm.
    destruct (IH _ Hm) as (order' & -> & [Hlt Hw]). exists ((j, p) :: order'). split; [done|].
    rewrite length_insert in Hlt. split; [constructor; [by eapply lookup_lt_Some|done]|].
    intros i rs Hi. rewrite of_thread_cons. case_decide as Hij; [subst|].
    + rewrite Hqs in Hi. injection Hi as <-. f_equal. apply Hw. apply list_lookup_insert_eq. by eapply lookup_lt_Some.
    + apply Hw. by rewrite list_lookup_insert_ne.
Qed.

Lemma snd_map {A B} (f : A -> B) (order : list (nat * A)) :
  ((fun e : nat * A => (e.1, f e.2)) <$> order).*2 = f <$> order.*2.
Proof. induction order as [|e order IH]; [done|]. cbn. by f_equal. Qed.

Lemma begins_fmap {A B} (f : A -> B) (work : list (list A)) (order : list (nat * B)) :
  begins ((fun ps : list A => f <$> ps) <$> work) order ->
  exists order' : list (nat * A), order = (fun e : nat * A => (e.1, f e.2)) <$> order' /\ begins work order'.
Proof.
  intros [Hlt Hp]. rewrite length_fmap in Hlt.
  set (done_of := fun i (ps : list A) => take (length (of_thread i order)) ps).
  destruct (merges_fmap f (imap done_of work) order) as (order' & -> & [_ Hm]).
  - split; [by rewrite length_fmap, length_imap|]. intros i qs Hi.
    rewrite list_lookup_fmap, list_lookup_imap in Hi. destruct (work !! i) as [ps|] eqn:Hps; [|done].
    injection Hi as <-. destruct (Hp i (f <$> ps)) as [k Hk]; [by rewrite list_lookup_fmap, Hps|].
    unfold done_of. by rewrite fmap_take, Hk, take_app_length.
  - exists order'. split; [done|]. split; [by rewrite Forall_fmap in Hlt|]. intros i ps Hps.
    rewrite (Hm i (done_of i ps)); [apply prefix_take|]. by rewrite list_lookup_imap, Hps.
Qed.

(** * The machine *)

(** The accesses of a critical section; what is read decides what follows. *)
Inductive code (S : Type) : Type :=
| Done
| Access {V : Type} (f : S -> outcome (V * S)) (k : V -> code S).
Arguments Done {S}.
Arguments Access {S V} f k.

Definition fetch {S V} (g : S -> V) (k : V -> code S) : code S := Access (fun s => Val (g s, s)) k.
Definition assign {S} (f : S -> S) (k : code S) : code S := Access (fun s => Val (tt, f s)) (fun _ => k).

(** What a thread does: an atomic operation, a look that gives an [O], a section. *)
Inductive piece (S O : Type) : Type :=
| Atomic (f : S -> S)
| Look (g : S -> O)
| Locked (c : code S).
Arguments Atomic {S O} f.
Arguments Look {S O} g.
Arguments Locked {S O} c.

(** A thread is outside of the sections, spins before one, or has the rest of one
    to do. *)
Inductive phase (S : Type) : Type :=
| Out
| Wait (c : code S)
| Hold (c : code S).
Arguments Out {S}.
Arguments Wait {S} c.
Arguments Hold {S} c.

Section Machine.
Context {S O : Type}.

Record thread := mk_thread { now : phase S; rest : list (piece S O); seen : list O }.
Record config := mk_config { word : SpinLock; vars : S; threads : list thread }.

Definition put (i : nat) (t : thread) (l : SpinLock) (s : S) (c : config) : config :=
  mk_config l s (<[i := t]> (threads c)).

(** One step of thread [i]; a thread that has finished does nothing. *)
Definition step (i : nat) (c : config) : outcome config :=
  match threads c !! i with
  | None => Val c
  | Some t =>
    match now t, rest t with
    | Out, [] => Val c
    | Out, Atomic f :: r => Val (put i (mk_thread Out r (seen t)) (word c) (f (vars c)) c)
    | Out, Look g :: r => Val (put i (mk_thread Out r (seen t ++ [g (vars c)])) (word c) (vars c) c)
    | Out, Locked b :: r => Val (put i (mk_thread (Wait b) r (seen t)) (word c) (vars c) c)
    | Wait b, r =>
      let '(ok, l) := tryLock (word c) in
      Val (put i (mk_thread (if ok then Hold b else Wait b) r (seen t)) l (vars c) c)
    | Hold Done, r => Val (put i (mk_thread Out r (seen t)) (unlock (word c)) (vars c) c)
    | Hold (Access f k), r =>
      '(v, s) ← f (vars c);
      Val (put i (mk_thread (Hold (k v)) r (seen t)) (word c) s c)
    end
  end.

(** A schedule says which thread takes each step. *)
Fixpoint run (schedule : list nat) (c : config) : outcome config :=
  match schedule with [] => mret c | i :: schedule => c ← step i c; run schedule c end.

Definition start (s : S) (work : list (list (piece S O))) : config :=
  mk_config new_SpinLock s ((fun ps => mk_thread Out ps []) <$> work).

Definition finished (c : config) : Prop := Forall (fun t => now t = Out /\ rest t = []) (threads c).

Definition finishedb (c : config) : bool :=
  forallb (fun t => match now t, rest t with Out, [] => true | _, _ => false end) (threads c).

Lemma finishedb_true c : finishedb c = true -> finished c.
Proof.
  unfold finishedb, finished. rewrite forallb_forall, Forall_forall. intros H t Ht%list_elem_of_In.
  specialize (H t Ht). by destruct (now t), (rest t).
Qed.

(** ** Whole pieces *)

Fixpoint alone (c : code S) (s : S) : outcome S :=
  match c with
  | Done => Val s
  | Access f k => match f s with Val (v, s') => alone (k v) s' | Fault e => Fault e end
  end.

Definition whole (p : piece S O) (s : S) : outcome S :=
  match p with Atomic f => Val (f s) | Look _ => Val s | Locked c => alone c s end.

Fixpoint serial (ps : list (piece S O)) (s : S) : outcome S :=
  match ps with [] => mret s | p :: ps => s ← whole p s; serial ps s end.

(** An operation that changes neither what the accesses of a section read nor what
    they do. *)
Fixpoint independent (f : S -> S) (c : code S) : Prop :=
  match c with
  | Done => True
  | Access g k =>
    (forall s, g (f s) = match g s with Val (v, s') => Val (v, f s') | Fault e => Fault e end) /\
    forall v, independent f (k v)
  end.

Definition compatible (ps : list (piece S O)) : Prop :=
  forall f c, Atomic f ∈ ps -> Locked c ∈ ps -> independent f c.

(** * Facts *)

(** What the thread has still to do, a section it has entered excepted. *)
Definition todo (t : thread) : list (piece S O) :=
  match now t with Wait c => Locked c :: rest t | _ => rest t end.

Lemma serial_app ps qs s : serial (ps ++ qs) s = (s ← serial ps s; serial qs s).
Proof.
  revert s. induction ps as [|p ps IH]; intros s; [done|]. cbn [serial app].
  destruct (whole p s) as [s'|e]; [apply IH|done].
Qed.

Lemma alone_independent f c s :
  independent f c -> alone c (f s) = (s' ← alone c s; Val (f s')).
Proof.
  revert s. induction c as [|V g k IH]; intros s H; [done|]. destruct H as [Hg Hk]. cbn [alone].
  rewrite Hg. destruct (g s) as [[v s']|e]; [by apply IH|done].
Qed.

(** ** The lock *)

Definition lock_phase (t : thread) : Lock.thread :=
  match now t with Out => Outside | Wait _ => Spinning | Hold _ => Inside end.
Definition lock_view (c : config) : Lock.state := Lock.mk_state (word c) (lock_phase <$> threads c).

Lemma lock_view_put i t l s c :
  lock_view (put i t l s c) = set_thread i (lock_phase t) l (lock_view c).
Proof. unfold lock_view, put, set_thread. cbn. by rewrite list_fmap_insert. Qed.

(** Steps of the machine are steps of the lock. *)
Lemma step_lock i c c' : step i c = Val c' -> rtc Lock.step (lock_view c) (lock_view c').
Proof.
  unfold step. destruct (threads c !! i) as [t|] eqn:Hi; [|by intros [= <-]].
  assert (Lock.threads (lock_view c) !! i = Some (lock_phase t)) as Hv
    by (unfold lock_view; cbn; by rewrite list_lookup_fmap, Hi).
  assert (Hsame : forall t' s, lock_phase t' = lock_phase t ->
    rtc Lock.step (lock_view c) (lock_view (put i t' (word c) s c))).
  { intros t' s Ht'. rewrite lock_view_put, Ht'. unfold set_thread.
    rewrite (list_insert_id _ _ _ Hv). apply rtc_refl. }
  unfold lock_phase in Hv, Hsame. destruct (now t) as [|b|[|V f k]] eqn:Hn.
  - destruct (rest t) as [|[f|g|b] r]; intros [= <-]; [done|by apply Hsame..|].
    rewrite lock_view_put. by apply rtc_once, step_LockScope.
  - destruct (tryLock (word c)) as [ok l] eqn:Ht. intros [= <-]. rewrite lock_view_put.
    apply rtc_once. replace (lock_phase _) with (if ok then Inside else Spinning) by by destruct ok.
    by apply step_tryLock.
  - intros [= <-]. rewrite lock_view_put. by apply rtc_once, step_end_scope.
  - intros ([v s] & _ & [= <-])%outcome_bind_inv. by apply Hsame.
Qed.

Definition locking (c : config) : Prop := Lock.lock_inv (lock_view c).

Lemma locking_step i c c' : locking c -> step i c = Val c' -> locking c'.
Proof.
  intros Hl Hs%step_lock. unfold locking in *. revert Hl.
  induction Hs as [|x y z Hxy _ IH]; intros Hx; [done|]. apply IH. by eapply Lock.lock_inv_step.
Qed.

Lemma locking_start s work : locking (start s work).
Proof.
  unfold locking, Lock.lock_inv, Lock.holders, lock_view, start; cbn [Lock.word Lock.threads word threads].
  rewrite filter_none; [by split; simpl; [|lia]|].
  intros x (t & -> & (ps & -> & _)%list_elem_of_fmap)%list_elem_of_fmap. done.
Qed.

Lemma view_lookup c i t : threads c !! i = Some t -> Lock.threads (lock_view c) !! i = Some (lock_phase t).
Proof. intros H. unfold lock_view. cbn. by rewrite list_lookup_fmap, H. Qed.

Lemma locking_one c i j ti tj bi bj :
  locking c -> threads c !! i = Some ti -> threads c !! j = Some tj ->
  now ti = Hold bi -> now tj = Hold bj -> i = j.
Proof.
  intros [_ Hn] Hi%view_lookup Hj%view_lookup Hti Htj. unfold lock_phase in *. rewrite Hti in Hi. rewrite Htj in Hj.
  destruct (decide (i = j)) as [|Hne]; [done|].
  pose proof (Lock.holders_two _ _ _ Hi Hj Hne). lia.
Qed.

Lemma locking_free c i t b : locking c -> threads c !! i = Some t -> now t = Hold b -> word c = 1.
Proof.
  intros [Hw Hn] Hi%view_lookup Ht. unfold lock_phase in Hi. rewrite Ht in Hi.
  pose proof (Lock.holders_pos _ _ Hi). change (word c) with (Lock.word (lock_view c)). lia.
Qed.
(** ** The reduction *)

(** The configuration [c], reached from [start s0 work], is the one that the whole
    pieces of [order] lead to, once the thread that holds the lock has finished. *)
Record linked (s0 : S) (work : list (list (piece S O))) (order : list (nat * piece S O)) (c : config) : Prop :=
  mk_linked {
  li_order : Forall (fun e => (e.1 < length work)%nat) order;
  li_length : length (threads c) = length work;
  li_todo : forall i ps t, work !! i = Some ps -> threads c !! i = Some t ->
    ps = of_thread i order ++ todo t;
  li_lock : locking c;
  li_free : word c = 0 -> serial order.*2 s0 = Val (vars c);
  li_hold : forall i t b, threads c !! i = Some t -> now t = Hold b ->
    serial order.*2 s0 = alone b (vars c) /\ forall f, Atomic f ∈ concat work -> independent f b
}.

Lemma linked_start s0 work : linked s0 work [] (start s0 work).
Proof.
  split; [by apply Forall_nil|cbn; by rewrite length_fmap| |apply locking_start|done|].
  - intros i ps t Hw Ht. cbn in Ht. rewrite list_lookup_fmap, Hw in Ht. by injection Ht as <-.
  - intros i t b Ht Hb. cbn in Ht. rewrite list_lookup_fmap in Ht.
    destruct (work !! i); [|done]. by injection Ht as <-.
Qed.

(** The threads after a step that takes the pieces [ps] from thread [i]. *)
Lemma todo_put s0 work order c i t t' l s ps :
  linked s0 work order c -> threads c !! i = Some t -> todo t = ps ++ todo t' ->
  let order' := order ++ ((i,.) <$> ps) in
  Forall (fun e => (e.1 < length work)%nat) order' /\
  length (threads (put i t' l s c)) = length work /\
  forall j qs u, work !! j = Some qs -> threads (put i t' l s c) !! j = Some u ->
    qs = of_thread j order' ++ todo u.
Proof.
  intros [Ho Hlen Htodo _ _ _] Hi Hps order'. pose proof (lookup_lt_Some _ _ _ Hi) as Hlt.
  assert (Hof : forall j, of_thread j ((i,.) <$> ps) = if decide (i = j) then ps else []).
  { intros j. unfold of_thread. case_decide as Hj.
    - subst. rewrite filter_all; [|by intros x (p & -> & _)%list_elem_of_fmap].
      clear. induction ps as [|p ps IH]; [done|]. cbn. by f_equal.
    - rewrite filter_none; [done|]. intros x (p & -> & _)%list_elem_of_fmap. by cbn. }
  assert (Happ : forall j, of_thread j order' = of_thread j order ++ if decide (i = j) then ps else []).
  { intros j. unfold order'. rewrite <- Hof. unfold of_thread. by rewrite filter_app, fmap_app. }
  split_and!.
  - apply Forall_app. split; [done|]. apply Forall_fmap, Forall_true. intros p. cbn. lia.
  - cbn. by rewrite length_insert.
  - intros j qs u Hj Hu. rewrite Happ. cbn in Hu. apply list_lookup_insert_Some in Hu as [(<- & <- & _)|[Hne Hu]].
    + rewrite decide_True by done. rewrite <- app_assoc, <- Hps. by apply Htodo.
    + rewrite decide_False by done. rewrite app_nil_r. by apply Htodo.
Qed.

Lemma put_other i t' l s c j u :
  threads (put i t' l s c) !! j = Some u -> (j = i /\ u = t') \/ (j <> i /\ threads c !! j = Some u).
Proof. cbn. intros [(-> & -> & _)|[? ?]]%list_lookup_insert_Some; [by left|by right]. Qed.

(** Whoever holds the lock after thread [i] has not taken it, held it before. *)
Lemma piece_of_work s0 work order c i t p :
  linked s0 work order c -> threads c !! i = Some t -> p ∈ todo t -> p ∈ concat work.
Proof.
  intros [_ Hlen Htodo _ _ _] Hi Hp.
  destruct (lookup_lt_is_Some_2 work i) as [ps Hps].
  { rewrite <- Hlen. by eapply lookup_lt_Some. }
  apply list_elem_of_In, in_concat. exists ps. split; [apply list_elem_of_In; by eapply list_elem_of_lookup_2|].
  apply list_elem_of_In. rewrite (Htodo i ps t Hps Hi). apply elem_of_app. by right.
Qed.

Section Steps.
Context (s0 : S) (work : list (list (piece S O))) (order : list (nat * piece S O)) (c : config).
Context (Hl : linked s0 work order c) (i : nat) (t : thread) (Hi : threads c !! i = Some t).

Lemma order_snd ps : (order ++ ((i,.) <$> ps)).*2 = order.*2 ++ ps.
Proof. rewrite fmap_app, <- list_fmap_compose. f_equal. by apply list_fmap_id. Qed.

(** A step of a thread that does not touch the lock. *)
Lemma linked_outside t' s ps :
  (forall b, now t <> Hold b) -> (forall b, now t' <> Hold b) -> todo t = ps ++ todo t' ->
  locking (put i t' (word c) s c) ->
  (forall b, (forall f, Atomic f ∈ concat work -> independent f b) ->
     serial order.*2 s0 = alone b (vars c) -> serial (order.*2 ++ ps) s0 = alone b s) ->
  linked s0 work (order ++ ((i,.) <$> ps)) (put i t' (word c) s c).
Proof.
  intros Ht Ht' Hps Hlock Hs. destruct (todo_put _ _ _ _ i t t' (word c) s ps Hl Hi Hps) as (H1 & H2 & H3).
  split; [done..| |].
  - intros Hw. rewrite order_snd. apply (Hs Done); [done|]. by apply Hl.
  - intros j u b [[-> ->]|[Hne Hu]]%put_other Hb; [by destruct (Ht' b)|].
    destruct (li_hold _ _ _ _ Hl j u b Hu Hb) as [Hser Hind]. rewrite order_snd. split; [by apply Hs|done].
Qed.

(** A step that leaves only thread [i] possibly inside. *)
Lemma linked_inside t' l s ps :
  (forall j u b, j <> i -> threads c !! j = Some u -> now u <> Hold b) -> todo t = ps ++ todo t' ->
  locking (put i t' l s c) ->
  (l = 0 -> serial (order.*2 ++ ps) s0 = Val s) ->
  (forall b, now t' = Hold b -> serial (order.*2 ++ ps) s0 = alone b s /\
     forall f, Atomic f ∈ concat work -> independent f b) ->
  linked s0 work (order ++ ((i,.) <$> ps)) (put i t' l s c).
Proof.
  intros Hother Hps Hlock H0 Hb. destruct (todo_put _ _ _ _ i t t' l s ps Hl Hi Hps) as (H1 & H2 & H3).
  split; [done..| |].
  - intros Hw. rewrite order_snd. by apply H0.
  - intros j u b [[-> ->]|[Hne Hu]]%put_other Hbu; [|by destruct (Hother j u b)].
    rewrite order_snd. by apply Hb.
Qed.

Lemma none_inside : word c = 0 -> forall j u b, threads c !! j = Some u -> now u <> Hold b.
Proof. intros Hw j u b Hu Hb. pose proof (locking_free _ _ _ _ (li_lock _ _ _ _ Hl) Hu Hb). lia. Qed.

Lemma only_inside b : now t = Hold b -> forall j u b', j <> i -> threads c !! j = Some u -> now u <> Hold b'.
Proof. intros Hb j u b' Hne Hu Hb'. apply Hne. by eapply locking_one; [apply Hl|..]. Qed.
End Steps.

Lemma linked_step s0 work order c i :
  compatible (concat work) -> linked s0 work order c ->
  match step i c with
  | Val c' => exists order', linked s0 work order' c'
  | Fault e => serial order.*2 s0 = Fault e
  end.
Proof.
  intros Hcomp Hl. pose proof (locking_step i c) as Hlock. unfold step in *.
  destruct (threads c !! i) as [t|] eqn:Hi; [|by exists order].
  assert (Hwork : forall p, p ∈ todo t -> p ∈ concat work) by (intros p; by eapply piece_of_work).
  assert (Hk := fun c' => Hlock c' (li_lock _ _ _ _ Hl)). clear Hlock.
  unfold todo in Hwork. destruct (now t) as [|b|[|V f k]] eqn:Hn.
  - destruct (rest t) as [|[f|g|b] r] eqn:Hr; [by exists order|..]; eexists.
    + eapply (linked_outside _ _ _ _ Hl i t Hi _ _ [Atomic f]); try done; [congruence| |by apply Hk|].
      * unfold todo. by rewrite Hn, Hr.
      * intros b Hb Hs. rewrite serial_app, Hs. cbn. rewrite alone_independent; [done|]. apply Hb, Hwork. by left.
    + eapply (linked_outside _ _ _ _ Hl i t Hi _ _ [Look g]); try done; [congruence| |by apply Hk|].
      * unfold todo. by rewrite Hn, Hr.
      * intros b Hb Hs. rewrite serial_app, Hs. cbn. by destruct (alone b (vars c)).
    + eapply (linked_outside _ _ _ _ Hl i t Hi _ _ []); try done; [congruence| |by apply Hk|].
      * unfold todo. by rewrite Hn, Hr.
      * intros b' Hb Hs. by rewrite app_nil_r.
  - destruct (tryLock (word c)) as [ok l] eqn:Ht. unfold tryLock, compare_and_swap in Ht.
    destruct (Z.eqb_spec (word c) 0) as [H0|H0]; injection Ht as <- <-; eexists.
    + eapply (linked_inside _ _ _ _ Hl i t Hi _ _ _ [Locked b]); [|by unfold todo; rewrite Hn|by apply Hk|done|].
      * intros j u b' _. by apply (none_inside _ _ _ _ Hl).
      * intros b' [= <-]. rewrite serial_app, (li_free _ _ _ _ Hl H0). cbn. split; [by destruct (alone b (vars c))|].
        intros f Hf. apply Hcomp; [done|]. apply Hwork. by left.
    + eapply (linked_outside _ _ _ _ Hl i t Hi _ _ []); try done; [congruence|by unfold todo; rewrite Hn|by apply Hk|].
      intros b' Hb Hs. by rewrite app_nil_r.
  - eexists. destruct (li_hold _ _ _ _ Hl i t Done Hi Hn) as [Hs _].
    eapply (linked_inside _ _ _ _ Hl i t Hi _ _ _ []); [|by unfold todo; rewrite Hn|by apply Hk|by rewrite app_nil_r|done].
    by apply (only_inside _ _ _ _ Hl i t Hi Done).
  - destruct (li_hold _ _ _ _ Hl i t _ Hi Hn) as [Hs Hind]. cbn [alone] in Hs.
    destruct (f (vars c)) as [[v s]|e] eqn:Hf; [|done]. cbn in Hk |- *. eexists.
    eapply (linked_inside _ _ _ _ Hl i t Hi _ _ _ []); [|by unfold todo; rewrite Hn|by apply Hk| |].
    + by apply (only_inside _ _ _ _ Hl i t Hi (Access f k)).
    + intros Hw. pose proof (locking_free _ _ _ _ (li_lock _ _ _ _ Hl) Hi Hn). lia.
    + intros b [= <-]. rewrite app_nil_r. split; [done|]. intros g Hg. by apply Hind.
Qed.

Lemma linked_run s0 work order c schedule :
  compatible (concat work) -> linked s0 work order c ->
  match run schedule c with
  | Val c' => exists order', linked s0 work order' c'
  | Fault e => exists order' c', linked s0 work order' c' /\ serial order'.*2 s0 = Fault e
  end.
Proof.
  intros Hcomp. revert order c. induction schedule as [|i schedule IH]; intros order c Hl; [by exists order|].
  pose proof (linked_step s0 work order c i Hcomp Hl) as Hs. cbn [run].
  destruct (step i c) as [c'|e]; [destruct Hs as [order' Hl']; by eapply IH|by exists order, c].
Qed.

Lemma no_holder c : locking c -> (forall i t b, threads c !! i = Some t -> now t <> Hold b) -> word c = 0.
Proof.
  intros [Hw Hn] Hno. change (word c) with (Lock.word (lock_view c)).
  destruct (Lock.holders (Lock.threads (lock_view c))) as [|n] eqn:Hh; [lia|].
  destruct (Lock.holders_ex (Lock.threads (lock_view c))) as [i Hi]; [lia|].
  unfold lock_view in Hi. cbn in Hi. apply list_lookup_fmap_Some in Hi as (t & Ht & Hi).
  unfold lock_phase in Ht. destruct (now t) eqn:E; try done. by destruct (Hno i t c0).
Qed.

Lemma holder_or_free c : locking c ->
  word c = 0 \/ exists i t b, threads c !! i = Some t /\ now t = Hold b.
Proof.
  intros [Hw Hn]. change (word c) with (Lock.word (lock_view c)).
  destruct (Lock.holders (Lock.threads (lock_view c))) as [|n] eqn:Hh; [left; lia|right].
  destruct (Lock.holders_ex (Lock.threads (lock_view c))) as [i Hi]; [lia|].
  unfold lock_view in Hi. cbn in Hi. apply list_lookup_fmap_Some in Hi as (t & Ht & Hi).
  unfold lock_phase in Ht. destruct (now t) eqn:E; try done. by eexists i, t, _.
Qed.

Lemma linked_finished s0 work order c :
  linked s0 work order c -> finished c -> merges work order /\ serial order.*2 s0 = Val (vars c).
Proof.
  intros Hl Hf. unfold finished in Hf. rewrite Forall_lookup in Hf. split.
  - split; [apply Hl|]. intros i ps Hi.
    destruct (lookup_lt_is_Some_2 (threads c) i) as [t Ht].
    { rewrite (li_length _ _ _ _ Hl). by eapply lookup_lt_Some. }
    rewrite (li_todo _ _ _ _ Hl i ps t Hi Ht). destruct (Hf i t Ht) as [H1 H2]. unfold todo.
    by rewrite H1, H2, app_nil_r.
  - apply Hl. destruct (holder_or_free c (li_lock _ _ _ _ Hl)) as [|(i & t & b & Ht & Hb)]; [done|].
    destruct (Hf i t Ht). congruence.
Qed.

(** Every interleaving of accesses is one of whole pieces; so is every run into a
    fault. *)
Lemma reduction s0 work schedule : compatible (concat work) ->
  match run schedule (start s0 work) with
  | Val c => finished c -> exists order, merges work order /\ serial order.*2 s0 = Val (vars c)
  | Fault e => exists order, begins work order /\ serial order.*2 s0 = Fault e
  end.
Proof.
  intros Hcomp. pose proof (linked_run s0 work [] _ schedule Hcomp (linked_start s0 work)) as H.
  destruct (run schedule _) as [c|e].
  - intros Hf. destruct H as [order Hl]. exists order. by eapply linked_finished.
  - destruct H as (order & c & Hl & Hs). exists order. split; [|done]. split; [apply Hl|].
    intros i ps Hi. destruct (lookup_lt_is_Some_2 (threads c) i) as [t Ht].
    { rewrite (li_length _ _ _ _ Hl). by eapply lookup_lt_Some. }
    exists (todo t). by apply Hl.
Qed.

(** ** Completion *)

Definition weight (t : thread) : nat :=
  (2 * length (rest t) + match now t with Wait _ => 1 | _ => 0 end)%nat.
Definition weights (c : config) : nat := sum_list_with weight (threads c).

Lemma weights_put i t t' l s c : threads c !! i = Some t ->
  (weights (put i t' l s c) + weight t = weights c + weight t')%nat.
Proof.
  intros Hi. pose proof (lookup_lt_Some _ _ _ Hi) as Hlt. unfold weights, put. cbn [threads].
  rewrite insert_take_drop by done. rewrite <- (take_drop_middle (threads c) i t Hi) at 3.
  rewrite !sum_list_with_app. simpl. lia.
Qed.

Lemma run_app s1 s2 c : run (s1 ++ s2) c = (c' ← run s1 c; run s2 c').
Proof. revert c. induction s1 as [|i s1 IH]; intros c; [done|]. cbn. destruct (step i c); [apply IH|done]. Qed.

(** A thread inside leaves by itself, or runs into a fault. *)
Lemma leaves i t b c : threads c !! i = Some t -> now t = Hold b -> locking c ->
  exists schedule, match run schedule c with
    | Val c' => locking c' /\ word c' = 0 /\ weights c' = weights c
    | Fault _ => True
    end.
Proof.
  revert t c. induction b as [|V f k IH]; intros t c Hi Hb Hl.
  - exists [i]. cbn [run]. pose proof (fun c' => locking_step i c c' Hl) as Hl'. unfold step in *.
    rewrite Hi, Hb in *. cbn -[unlock weights]. split_and!; [by apply Hl'| |].
    + unfold unlock, compare_and_swap. by rewrite (locking_free _ _ _ _ Hl Hi Hb).
    + pose proof (weights_put i t (mk_thread Out (rest t) (seen t)) (unlock (word c)) (vars c) c Hi) as Hw.
      unfold weight in Hw. cbn [now rest] in Hw. rewrite Hb in Hw. lia.
  - pose proof (fun c' => locking_step i c c' Hl) as Hl'.
    destruct (step i c) as [c'|e] eqn:Hs; [|exists [i]; cbn; by rewrite Hs].
    specialize (Hl' c' eq_refl). unfold step in Hs. rewrite Hi, Hb in Hs.
    apply outcome_bind_inv in Hs as ([v s] & Hf & [= <-]).
    destruct (IH v (mk_thread (Hold (k v)) (rest t) (seen t))
      (put i (mk_thread (Hold (k v)) (rest t) (seen t)) (word c) s c)) as [sched Hrun];
      [cbn; apply list_lookup_insert_eq; by eapply lookup_lt_Some|done|done|].
    exists (i :: sched). cbn [run]. unfold step. rewrite Hi, Hb, Hf. cbn -[put].
    destruct (run sched _); [|done]. destruct Hrun as (H1 & H2 & ->). split_and!; [done..|].
    pose proof (weights_put i t (mk_thread (Hold (k v)) (rest t) (seen t)) (word c) s c Hi) as Hw.
    unfold weight in Hw. cbn [now rest] in Hw. rewrite Hb in Hw. lia.
Qed.

Lemma then_run schedule c :
  (exists s2, match (c' ← run schedule c; run s2 c') with Val c' => finished c' | Fault _ => True end) ->
  exists s, match run s c with Val c' => finished c' | Fault _ => True end.
Proof. intros [s2 H]. exists (schedule ++ s2). by rewrite run_app. Qed.

(** While the lock is free, a thread with work left gets nearer to its end. *)
Lemma advances c : locking c -> word c = 0 -> finished c \/
  exists i c', step i c = Val c' /\ (weights c' < weights c)%nat.
Proof.
  intros Hl H0. destruct (decide (Forall (fun t => weight t = 0%nat) (threads c))) as [Hf|Hf].
  - left. unfold finished. rewrite !Forall_lookup in *. intros i t Hi. specialize (Hf i t Hi). unfold weight in Hf.
    destruct (now t) as [|b|b] eqn:Hn; [|lia|].
    + split; [done|]. destruct (rest t); [done|simpl in Hf; lia].
    + pose proof (locking_free _ _ _ _ Hl Hi Hn). lia.
  - right. apply not_Forall_Exists in Hf; [|tc_solve]. apply Exists_exists in Hf as (t & Hin & Hw).
    assert (weight t <> 0%nat) as Hw0 by exact Hw. clear Hw. apply list_elem_of_lookup in Hin as [i Hi]. exists i. unfold step. rewrite Hi.
    assert (Hput : forall t' l s, (weight t' < weight t)%nat -> (weights (put i t' l s c) < weights c)%nat).
    { intros t' l s Hlt. pose proof (weights_put i t t' l s c Hi). lia. }
    destruct (now t) as [|b|b] eqn:Hn; [| |pose proof (locking_free _ _ _ _ Hl Hi Hn); lia].
    + destruct (rest t) as [|[f|g|b] r] eqn:Hr; [unfold weight in Hw0; rewrite Hn, Hr in Hw0; simpl in Hw0; lia|..].
      all: eexists; split; [reflexivity|]; apply Hput; unfold weight; rewrite Hn, Hr; simpl; lia.
    + unfold tryLock, compare_and_swap. rewrite H0. cbn -[put]. eexists. split; [reflexivity|].
      apply Hput. unfold weight. rewrite Hn. simpl. lia.
Qed.

(** From wherever the threads are, they can finish, or one runs into a fault: no
    thread waits for ever for a lock that is free, and none keeps the lock. *)
Lemma completes c : locking c -> exists schedule,
  match run schedule c with Val c' => finished c' | Fault _ => True end.
Proof.
  remember (weights c) as n eqn:Hn. revert c Hn.
  induction (lt_wf n) as [n _ IH]. intros c -> Hl.
  assert (Hfree : forall c', locking c' -> word c' = 0 -> (weights c' <= weights c)%nat -> exists s,
    match run s c' with Val c' => finished c' | Fault _ => True end).
  { intros c' Hl' H0 Hle. destruct (advances c' Hl' H0) as [Hf|(i & c2 & Hs & Hlt)]; [by exists []|].
    apply (then_run [i]). cbn. rewrite Hs.
    destruct (IH (weights c2) ltac:(lia) c2 eq_refl (locking_step _ _ _ Hl' Hs)) as [s2 H2]. by exists s2. }
  destruct (holder_or_free c Hl) as [H0|(i & t & b & Hi & Hb)]; [by apply Hfree|].
  destruct (leaves i t b c Hi Hb Hl) as [s1 H1]. apply (then_run s1).
  destruct (run s1 c) as [c'|e]; [|by exists []]. destruct H1 as (H2 & H3 & H4).
  destruct (Hfree c' H2 H3) as [s2 Hs2]; [lia|]. by exists s2.
Qed.

Lemma locking_run schedule c c' : locking c -> run schedule c = Val c' -> locking c'.
Proof.
  revert c. induction schedule as [|i schedule IH]; intros c Hl; [by intros [= <-]|].
  intros (c1 & Hs & Hr)%outcome_bind_inv. eapply IH; [|exact Hr]. by eapply locking_step.
Qed.
End Machine.
Arguments thread : clear implicits.
Arguments config : clear implicits.
