(* ===== verification/OutBuf.v ===== *)
(** The output buffer that the agent links ([hpcio-buffer.c]): bytes are copied
    into a fixed buffer and handed to [write] when it is full.

    The kernel is a stream of answers to successive calls of [write] on the
    descriptor; the file is the list of bytes it has accepted. *)
From stdpp Require Import base numbers option list strings.
From Stdlib Require Import ZArith Lia Ascii.
From S2P Require Import Prelude.
From S2P Require Import Cxx.

Definition HPCFMT_OK : Z := 1.
Definition HPCFMT_ERR : Z := -1.
Definition HPCIO_OUTBUF_MAGIC : Z := 0x494F4246.
Definition HPCIO_OUTBUF_LOCKED : Z := 1.
Definition HPCIO_OUTBUF_UNLOCKED : Z := 2.

(** [hpcio_outbuf_t]; [buf_mem] is the memory at [buf_start], as long as
    [buf_size]. *)
Record outbuf := mk_outbuf {
  magic : Z;
  buf_mem : list ascii;
  in_use : nat;
  fd : Z;
  flags : Z;
  use_lock : bool;
  ob_locked : bool
}.

Definition buf_size (b : outbuf) : nat := length (buf_mem b).

Definition set_mem mem n b := mk_outbuf (magic b) mem n (fd b) (flags b) (use_lock b) (ob_locked b).
Definition set_oblock l b := mk_outbuf (magic b) (buf_mem b) (in_use b) (fd b) (flags b) (use_lock b) l.

(** What one call of [write] does: accepts at least one byte, returns 0 with
    [EINTR] or without, or returns -1. *)
Inductive write_event := Wrote (n : positive) | ZeroEINTR | Zero | Error.

(** The file behind the descriptor: its bytes, the number of calls so far, and
    whether the descriptor is open. *)
Record kernel := mk_kernel { contents : list ascii; calls : nat; is_open : bool }.

(** [memmove(mem, mem + from, n)] *)
Definition memmove_down (from n : nat) (mem : list ascii) : list ascii :=
  take n (drop from mem) ++ drop n mem.

(** [memcpy(mem + at, data, length data)] *)
Definition memcpy_at (pos : nat) (data mem : list ascii) : list ascii :=
  take pos mem ++ data ++ drop (pos + length data) mem.

Section Operations.
Context (answers : nat -> write_event) (close_ok : bool).

(** [write(fd, data, n)] and whether [errno] is [EINTR]. *)
Definition sys_write (data : list ascii) (k : kernel) : Z * bool * kernel :=
  let k' := mk_kernel (contents k) (S (calls k)) (is_open k) in
  match answers (calls k) with
  | Wrote n =>
    let m := Nat.min (Pos.to_nat n) (length data) in
    (Z.of_nat m, false, mk_kernel (contents k ++ take m data) (S (calls k)) (is_open k))
  | ZeroEINTR => (0, true, k')
  | Zero => (0, false, k')
  | Error => (-1, false, k')
  end.

(** [outbuf_flush_buffer]: its loop, from [amt_done] bytes on. *)
Fixpoint flush_loop (fuel amt_done : nat) (b : outbuf) (k : kernel)
  : outcome (Z * outbuf * kernel) :=
  match fuel with
  | O => Fault OutOfFuel
  | S fuel =>
    if (amt_done <? in_use b)%nat then
      let '(ret, eintr, k) := sys_write (take (in_use b - amt_done) (drop amt_done (buf_mem b))) k in
      if (0 <? ret) || ((ret =? 0) && eintr) then flush_loop fuel (amt_done + Z.to_nat ret) b k
      else
        let b := if (0 <? amt_done)%nat
                 then set_mem (memmove_down amt_done (in_use b - amt_done) (buf_mem b)) amt_done b
                 else b in
        mret (HPCFMT_ERR, b, k)
    else mret (HPCFMT_OK, set_mem (buf_mem b) 0 b, k)
  end.

Definition outbuf_flush_buffer (fuel : nat) (b : outbuf) (k : kernel)
  : outcome (Z * outbuf * kernel) := flush_loop fuel 0 b k.

(** [hpcio_outbuf_attach] on a buffer of the client. *)
Definition hpcio_outbuf_attach (new_fd : Z) (mem : option (list ascii)) (new_flags : Z) (b : outbuf)
  : Z * outbuf :=
  match mem with
  | None => (HPCFMT_ERR, b)
  | Some mem =>
    if (new_fd <? 0) || (length mem =? 0)%nat then (HPCFMT_ERR, b)
    else (HPCFMT_OK, mk_outbuf HPCIO_OUTBUF_MAGIC mem 0 new_fd new_flags
                       (negb (Z.land new_flags HPCIO_OUTBUF_LOCKED =? 0)) false)
  end.

(** Taking the buffer's own lock when it is used. *)
Definition ob_lock (b : outbuf) : outcome outbuf :=
  if use_lock b then if ob_locked b then Fault Deadlock else mret (set_oblock true b) else mret b.
Definition ob_unlock (b : outbuf) : outbuf := if use_lock b then set_oblock false b else b.

(** The loop of [hpcio_outbuf_write], from [amt_done] bytes of [data] on; every
    round copies at least one byte or leaves the loop. *)
Fixpoint write_loop (ffuel fuel amt_done : nat) (data : list ascii) (b : outbuf) (k : kernel)
  : outcome (nat * outbuf * kernel) :=
  match fuel with
  | O => Fault OutOfFuel
  | S fuel =>
    let size := length data in
    if (amt_done <? size)%nat then
      '(full, b, k) ←
        (if (buf_size b - in_use b <? size)%nat then
           '(_, b, k) ← outbuf_flush_buffer ffuel b k;
           mret ((in_use b =? buf_size b)%nat, b, k)
         else mret (false, b, k));
      if full : bool then mret (amt_done, b, k)
      else
        let amt := Nat.min (size - amt_done) (buf_size b - in_use b) in
        let b := set_mem (memcpy_at (in_use b) (take amt (drop amt_done data)) (buf_mem b))
                   (in_use b + amt) b in
        write_loop ffuel fuel (amt_done + amt) data b k
    else mret (amt_done, b, k)
  end.

Definition hpcio_outbuf_write (ffuel : nat) (data : list ascii) (b : outbuf) (k : kernel)
  : outcome (Z * outbuf * kernel) :=
  if negb (magic b =? HPCIO_OUTBUF_MAGIC) then mret (-1, b, k)
  else
    b ← ob_lock b;
    '(amt_done, b, k) ← write_loop ffuel (S (length data)) 0 data b k;
    mret (Z.of_nat amt_done, ob_unlock b, k).

Definition hpcio_outbuf_flush (ffuel : nat) (b : outbuf) (k : kernel)
  : outcome (Z * outbuf * kernel) :=
  if negb (magic b =? HPCIO_OUTBUF_MAGIC) then mret (HPCFMT_ERR, b, k)
  else
    b ← ob_lock b;
    '(ret, b, k) ← outbuf_flush_buffer ffuel b k;
    mret (ret, ob_unlock b, k).

Definition hpcio_outbuf_close (ffuel : nat) (b : outbuf) (k : kernel)
  : outcome (Z * outbuf * kernel) :=
  if negb (magic b =? HPCIO_OUTBUF_MAGIC) then mret (HPCFMT_ERR, b, k)
  else
    b ← ob_lock b;
    '(ret, b, k) ← outbuf_flush_buffer ffuel b k;
    if (ret =? HPCFMT_OK) && close_ok then
      let b := mk_outbuf 0 (buf_mem b) (in_use b) (-1) (flags b) (use_lock b) (ob_locked b) in
      mret (HPCFMT_OK, ob_unlock b, mk_kernel (contents k) (calls k) false)
    else mret (HPCFMT_ERR, ob_unlock b, k).
End Operations.

(** * The contract of the buffer *)

(** An attached buffer without a lock of its own, and what has been written
    through it: the bytes of the file followed by those still in memory. *)
Record attached (b : outbuf) : Prop := mk_attached {
  at_magic : magic b = HPCIO_OUTBUF_MAGIC;
  at_lock : use_lock b = false;
  at_in_use : (in_use b <= buf_size b)%nat;
  at_size : (0 < buf_size b)%nat
}.

Definition pending (b : outbuf) : list ascii := take (in_use b) (buf_mem b).
Definition stream (b : outbuf) (k : kernel) : list ascii := contents k ++ pending b.

(** A kernel that never fails and accepts bytes at least once in every [K]
    calls. *)
Record steady (answers : nat -> write_event) (K : nat) : Prop := mk_steady {
  st_no_failure : forall n, answers n = ZeroEINTR \/ exists m, answers n = Wrote m;
  st_progress : forall n, exists i m, (i < K)%nat /\ answers (n + i)%nat = Wrote m
}.

Lemma length_memcpy_at pos data mem :
  (pos + length data <= length mem)%nat -> length (memcpy_at pos data mem) = length mem.
Proof.
  intros H. unfold memcpy_at. rewrite !length_app, length_take, length_drop. lia.
Qed.

Lemma take_memcpy_at pos data mem :
  (pos + length data <= length mem)%nat ->
  take (pos + length data) (memcpy_at pos data mem) = take pos mem ++ data.
Proof.
  intros H. unfold memcpy_at. rewrite app_assoc. apply take_app_length'.
  rewrite length_app, length_take. lia.
Qed.

Section Steady.
Context (answers : nat -> write_event) (close_ok : bool) (K : nat) (Hk : steady answers K).

Lemma flush_loop_spec fuel d amt b k :
  (amt < in_use b)%nat -> (in_use b <= buf_size b)%nat ->
  (exists i m, (i < d)%nat /\ answers (calls k + i)%nat = Wrote m) ->
  (K * (in_use b - amt - 1) + d < fuel)%nat ->
  exists n, flush_loop answers fuel amt b k =
    Val (HPCFMT_OK, set_mem (buf_mem b) 0 b,
         mk_kernel (contents k ++ drop amt (pending b)) n (is_open k)).
Proof.
  revert d amt k. induction fuel as [|fuel IH]; intros d amt k Hamt Hin (i & m & Hi & Hm) Hf;
    [by apply Nat.nlt_0_r in Hf|].
  simpl. destruct (Nat.ltb_spec amt (in_use b)) as [_|]; [|lia].
  assert (drop amt (pending b) = take (in_use b - amt) (drop amt (buf_mem b))) as Hpend.
  { unfold pending. by rewrite skipn_firstn_comm. }
  unfold sys_write. destruct (st_no_failure _ _ Hk (calls k)) as [He|[w Hw]].
  - rewrite He. simpl. rewrite Nat.add_0_r. destruct i as [|i].
    { rewrite Nat.add_0_r in Hm. congruence. }
    apply (IH (pred d) amt (mk_kernel (contents k) (S (calls k)) (is_open k))); [done|done| |lia].
    exists i, m. simpl. split; [lia|]. by rewrite <- Nat.add_succ_r.
  - rewrite Hw. set (chunk := take (in_use b - amt) (drop amt (buf_mem b))) in *.
    assert (length chunk = (in_use b - amt)%nat) as Hlen.
    { unfold chunk, buf_size in *. rewrite length_take, length_drop. lia. }
    set (n := Nat.min (Pos.to_nat w) (length chunk)).
    assert (1 <= n <= in_use b - amt)%nat as Hn by (unfold n; lia).
    destruct (Z.ltb_spec 0 (Z.of_nat n)); [|lia]. cbn [orb]. rewrite Nat2Z.id.
    destruct (decide (amt + n = in_use b)%nat) as [Hend|Hmore].
    + destruct fuel; [lia|]. simpl. rewrite Hend, Nat.ltb_irrefl. eexists. do 2 f_equal.
      rewrite Hpend, take_ge by lia. reflexivity.
    + destruct (IH K (amt + n)%nat
        (mk_kernel (contents k ++ take n chunk) (S (calls k)) (is_open k))) as [c Hc].
      * lia.
      * done.
      * destruct (st_progress _ _ Hk (S (calls k))) as (i' & m' & ? & ?). by exists i', m'.
      * assert (K * (in_use b - (amt + n) - 1) + K <= K * (in_use b - amt - 1))%nat; [|lia].
        assert (in_use b - amt - 1 = (in_use b - (amt + n) - 1) + n)%nat as -> by lia. nia.
      * exists c. rewrite Hc. do 2 f_equal. simpl. f_equal. rewrite <- app_assoc. f_equal.
        rewrite <- drop_drop, Hpend. apply take_drop.
Qed.

Lemma outbuf_flush_buffer_spec fuel b k :
  attached b -> (K * buf_size b < fuel)%nat ->
  exists k', outbuf_flush_buffer answers fuel b k = Val (HPCFMT_OK, set_mem (buf_mem b) 0 b, k') /\
    contents k' = stream b k /\ is_open k' = is_open k.
Proof.
  intros [Hmag Hl Hin Hs] Hf. unfold outbuf_flush_buffer, stream.
  destruct (st_progress _ _ Hk (calls k)) as (i & m & Hi & Hm).
  destruct (decide (in_use b = 0)%nat) as [H0|Hne].
  - destruct fuel; [lia|]. simpl. rewrite H0. simpl. exists k. unfold pending. rewrite H0.
    by rewrite app_nil_r.
  - destruct (flush_loop_spec fuel K 0 b k) as [n Hn]; [lia|done|by exists i, m| |].
    + assert (in_use b = S (pred (in_use b))) by lia. nia.
    + rewrite Hn. eexists. by split.
Qed.

Lemma copy_spec b k data amt (n := Nat.min (length data - amt) (buf_size b - in_use b)) :
  attached b ->
  let b' := set_mem (memcpy_at (in_use b) (take n (drop amt data)) (buf_mem b)) (in_use b + n) b in
  attached b' /\ buf_size b' = buf_size b /\ stream b' k = stream b k ++ take n (drop amt data).
Proof.
  intros [Hmag Hl Hin Hs]. cbv zeta.
  assert (length (take n (drop amt data)) = n) as Hlen.
  { rewrite length_take, length_drop. unfold n. lia. }
  assert (in_use b + length (take n (drop amt data)) <= length (buf_mem b))%nat as Hfit.
  { rewrite Hlen. unfold n, buf_size in *. lia. }
  assert (buf_size (set_mem (memcpy_at (in_use b) (take n (drop amt data)) (buf_mem b))
    (in_use b + n) b) = buf_size b) as Hsz by (unfold buf_size; simpl; by apply length_memcpy_at).
  split_and!; [|done|].
  - split; [done|done| |by rewrite Hsz]. rewrite Hsz. simpl. unfold n. lia.
  - unfold stream, pending. simpl. rewrite <- Hlen at 1. rewrite take_memcpy_at by done.
    by rewrite app_assoc.
Qed.

Lemma write_loop_spec ffuel fuel amt data b k :
  attached b -> (K * buf_size b < ffuel)%nat -> (amt <= length data)%nat ->
  (length data - amt < fuel)%nat ->
  exists b' k', write_loop answers ffuel fuel amt data b k = Val (length data, b', k') /\
    attached b' /\ buf_size b' = buf_size b /\ fd b' = fd b /\ is_open k' = is_open k /\
    stream b' k' = stream b k ++ drop amt data.
Proof.
  revert amt b k. induction fuel as [|fuel IH]; intros amt b k Hat Hff Hamt Hf; [lia|].
  cbn [write_loop]. destruct (Nat.ltb_spec amt (length data)) as [Hlt|Hge].
  2: { exists b, k. rewrite drop_ge, app_nil_r by done.
       replace amt with (length data) by lia. done. }
  assert (exists b1 k1,
    (if (buf_size b - in_use b <? length data)%nat then
       '(_, b, k) ← outbuf_flush_buffer answers ffuel b k;
       mret ((in_use b =? buf_size b)%nat, b, k)
     else mret (false, b, k)) = Val (false, b1, k1) /\
    attached b1 /\ buf_size b1 = buf_size b /\ fd b1 = fd b /\ is_open k1 = is_open k /\
    stream b1 k1 = stream b k /\
    (0 < Nat.min (length data - amt) (buf_size b1 - in_use b1))%nat) as
    (b1 & k1 & -> & Hat1 & Hs1 & Hfd1 & Ho1 & Hst1 & Hpos).
  { pose proof Hat as [Hmag Hl Hin Hs].
    destruct (Nat.ltb_spec (buf_size b - in_use b) (length data)) as [Hfull|].
    - destruct (outbuf_flush_buffer_spec ffuel b k Hat Hff) as (k' & -> & Hc & Ho). simpl.
      exists (set_mem (buf_mem b) 0 b), k'. split_and!; try done.
      + change (buf_size (set_mem (buf_mem b) 0 b)) with (buf_size b).
        by destruct (buf_size b) as [|] eqn:Hb; [lia|].
      + by split; [| |simpl; lia|].
      + unfold stream at 1, pending. simpl. by rewrite app_nil_r.
      + change (buf_size (set_mem (buf_mem b) 0 b)) with (buf_size b). simpl. lia.
    - exists b, k. split_and!; try done. lia. }
  change (mbind ?f (Val (false, b1, k1))) with (f (false, b1, k1)). cbv beta iota zeta.
  destruct (copy_spec b1 k1 data amt Hat1) as (Hat2 & Hs2 & Hst2).
  set (n := Nat.min (length data - amt) (buf_size b1 - in_use b1)) in *.
  destruct (IH (amt + n)%nat _ k1 Hat2) as (b' & k' & Hrun & Hat' & Hs' & Hfd' & Ho' & Hst');
    [by rewrite Hs2, Hs1|unfold n; lia|lia|].
  exists b', k'. split_and!; [exact Hrun|done|congruence|by rewrite Hfd', <- Hfd1|congruence|].
  rewrite Hst', Hst2, Hst1, <- app_assoc. f_equal. rewrite <- drop_drop. apply take_drop.
Qed.

Lemma hpcio_outbuf_write_spec ffuel data b k :
  attached b -> (K * buf_size b < ffuel)%nat ->
  exists b' k', hpcio_outbuf_write answers ffuel data b k = Val (size data, b', k') /\
    attached b' /\ buf_size b' = buf_size b /\ fd b' = fd b /\ is_open k' = is_open k /\
    stream b' k' = stream b k ++ data.
Proof.
  intros Hat Hff. pose proof Hat as [Hmag Hl _ _]. unfold hpcio_outbuf_write, ob_lock, ob_unlock.
  rewrite Hmag, Hl, Z.eqb_refl. cbn [negb]. unfold mbind, outcome_bind, mret, outcome_ret.
  destruct (write_loop_spec ffuel (S (length data)) 0 data b k) as (b' & k' & -> & Hat' & ?);
    [done|done|lia|lia|].
  exists b', k'. simpl. rewrite (at_lock _ Hat'). by split.
Qed.

Lemma hpcio_outbuf_close_spec ffuel b k :
  attached b -> (K * buf_size b < ffuel)%nat ->
  exists ret b' k', hpcio_outbuf_close answers close_ok ffuel b k = Val (ret, b', k') /\
    contents k' = stream b k /\
    (ret = if close_ok then HPCFMT_OK else HPCFMT_ERR) /\ 
    (close_ok = true -> fd b' = -1 /\ is_open k' = false).
Proof.
  intros Hat Hff. pose proof Hat as [Hmag Hl _ _]. unfold hpcio_outbuf_close, ob_lock, ob_unlock.
  rewrite Hmag, Hl. simpl.
  destruct (outbuf_flush_buffer_spec ffuel b k Hat Hff) as (k' & -> & Hc & Ho). simpl.
  destruct close_ok; simpl; rewrite Hl; eexists _, _, _; split_and!; try done.
Qed.
End Steady.

(** A hard failure in the middle of a flush: 1 of 4 bytes is accepted, three
    remain, and the buffer keeps one. *)
Example flush_failure_loses_bytes :
  let b := mk_outbuf HPCIO_OUTBUF_MAGIC (lit "abcd") 4 3 HPCIO_OUTBUF_UNLOCKED false false in
  let answers n := match n with O => Wrote 1 | _ => Error end in
  exists b' k', outbuf_flush_buffer answers 9 b (mk_kernel [] 0 true) = Val (HPCFMT_ERR, b', k') /\
    stream b' k' = lit "ab" /\ stream b (mk_kernel [] 0 true) = lit "abcd".
Proof. eexists _, _. split; [vm_compute; reflexivity|]. by vm_compute. Qed.
