(* ===== verification/Output.v ===== *)
(** Output files of the agent ([io.h], [io.cpp]): a file name that is set once, a
    file that is created on the first write under a name that does not exist
    yet, and formatted writes through the output buffer. *)
From stdpp Require Import base numbers option list strings.
From Stdlib Require Import ZArith Lia Ascii.
From S2P Require Import Prelude.
From S2P Require Import Cxx.
From S2P Require Import OutBuf.

Definition PRINT_BUFFER_SIZE : nat := Nat.pow 2 10.
Definition NAME_BUFFER_SIZE : Z := 256.
Definition LOCAL_BUFFER_SIZE : Z := 1024.

(** What [open] with [O_CREAT | O_EXCL] answers for a name. *)
Inductive open_result := Opened (fd : Z) | EEXIST | OpenFailed.

(** [class OUTPUT]; the print buffer is the memory of the output buffer once it
    is attached.  [o_kernel] is the file behind the descriptor. *)
Record OUTPUT := mk_output {
  o_locked : bool;
  _print_buffer : list ascii;
  _file_name : str;
  _output_buffer : outbuf;
  o_kernel : kernel
}.

Definition set_buffer b k o :=
  mk_output (o_locked o) (_print_buffer o) (_file_name o) b k.
Definition set_file_name n o :=
  mk_output (o_locked o) (_print_buffer o) n (_output_buffer o) (o_kernel o).
Definition set_o_locked l o :=
  mk_output l (_print_buffer o) (_file_name o) (_output_buffer o) (o_kernel o).

Section Operations.
Context (sys_open : str -> open_result) (answers : nat -> write_event) (close_ok : bool).
Context (ffuel : nat).

(** The constructor sets the descriptor; [raw] and [mem] are the bytes that
    happen to be in the object. *)
Definition new_OUTPUT (raw : outbuf) (mem : list ascii) : OUTPUT :=
  mk_output false mem []
    (mk_outbuf (magic raw) (buf_mem raw) (in_use raw) (-1) (flags raw) (use_lock raw) (ob_locked raw))
    (mk_kernel [] 0 false).

Definition setFileName (file_name : str) (o : OUTPUT) : bool * OUTPUT :=
  if 0 <? size (_file_name o) then (false, o)
  else if NAME_BUFFER_SIZE - 1 <=? size (c_str file_name) then (false, o)
  else (true, set_file_name (c_str file_name) o).

Definition new_OUTPUT_named (raw : outbuf) (mem : list ascii) (file_name : str) : outcome OUTPUT :=
  let '(ok, o) := setFileName file_name (new_OUTPUT raw mem) in
  cxx_assert ok;; mret o.

(** The loop of [_openFile]: the name it ends with and the descriptor. *)
Fixpoint open_loop (fuel : nat) (name : str) : outcome (str * option Z) :=
  match fuel with
  | O => Fault OutOfFuel
  | S fuel =>
    match sys_open name with
    | Opened fd => mret (name, Some fd)
    | EEXIST =>
      if NAME_BUFFER_SIZE - 1 <=? size name then mret (name, None)
      else open_loop fuel (name ++ ["f"%char])
    | OpenFailed => mret (name, None)
    end
  end.

Definition _openFile (o : OUTPUT) : outcome (bool * OUTPUT) :=
  if 0 <=? fd (_output_buffer o) then mret (true, o)
  else
    '(name, opened) ← open_loop (Z.to_nat NAME_BUFFER_SIZE) (_file_name o);
    let o := set_file_name name o in
    match opened with
    | None => mret (false, o)
    | Some new_fd =>
      let '(ret, b) := hpcio_outbuf_attach new_fd (Some (_print_buffer o)) HPCIO_OUTBUF_UNLOCKED
                         (_output_buffer o) in
      cxx_assert (ret =? HPCFMT_OK);;
      mret (true, set_buffer b (mk_kernel [] 0 true) o)
    end.

(** The loop of [writeb] over the bytes not yet sent. *)
Fixpoint send_loop (fuel : nat) (data : list ascii) (o : OUTPUT) : outcome OUTPUT :=
  match fuel with
  | O => Fault OutOfFuel
  | S fuel =>
    match data with
    | [] => mret o
    | _ =>
      '(ret_size, b, k) ← hpcio_outbuf_write answers ffuel data (_output_buffer o) (o_kernel o);
      cxx_assert (0 <=? ret_size);;
      send_loop fuel (drop (Z.to_nat ret_size) data) (set_buffer b k o)
    end
  end.

(** [fuel] bounds the rounds of the loop; the lock is taken and given back. *)
Definition writeb (fuel : nat) (buf : str) (o : OUTPUT) : outcome (Z * OUTPUT) :=
  if o_locked o then Fault Deadlock
  else
    let o := set_o_locked true o in
    '(ready, o) ← (if fd (_output_buffer o) <? 0 then
                     if size (_file_name o) =? 0 then mret (false, o) else _openFile o
                   else mret (true, o));
    if negb ready then mret (0, set_o_locked false o)
    else
      let data := c_str buf in
      o ← send_loop fuel data o;
      mret (size data, set_o_locked false o).

(** [writef] of an already formatted text. *)
Definition writef (text : str) (o : OUTPUT) : outcome (Z * OUTPUT) :=
  cxx_assert (size text <? LOCAL_BUFFER_SIZE);;
  writeb 2 text o.

(** [~OUTPUT] *)
Definition destroy_OUTPUT (o : OUTPUT) : outcome OUTPUT :=
  if 0 <=? fd (_output_buffer o) then
    '(_, b, k) ← hpcio_outbuf_close answers close_ok ffuel (_output_buffer o) (o_kernel o);
    mret (set_buffer b k o)
  else mret o.
End Operations.

(** * The contract of an output file *)

(** Names that [_openFile] tries: the given one with more and more [f]s. *)
Definition candidate (name : str) (i : nat) : str := name ++ replicate i "f"%char.

Lemma open_loop_spec sys_open fuel name :
  size name < NAME_BUFFER_SIZE -> (Z.to_nat (NAME_BUFFER_SIZE - 1 - size name) < fuel)%nat ->
  exists i r, open_loop sys_open fuel name = Val (candidate name i, r) /\
    size (candidate name i) < NAME_BUFFER_SIZE /\
    (forall j, (j < i)%nat -> sys_open (candidate name j) = EEXIST) /\
    match r with
    | Some fd => sys_open (candidate name i) = Opened fd
    | None => sys_open (candidate name i) = OpenFailed \/
        sys_open (candidate name i) = EEXIST /\ size (candidate name i) = NAME_BUFFER_SIZE - 1
    end.
Proof.
  unfold NAME_BUFFER_SIZE. revert name. induction fuel as [|fuel IH]; intros name Hs Hf; [lia|].
  simpl. assert (candidate name 0 = name) as H0 by apply app_nil_r.
  destruct (sys_open name) as [d| |] eqn:Hopen.
  - exists 0%nat, (Some d). rewrite H0. split_and!; [done|done|lia|done].
  - unfold NAME_BUFFER_SIZE. destruct (Z.leb_spec (256 - 1) (size name)) as [Hfull|Hroom].
    + exists 0%nat, None. rewrite H0. split_and!; [done|done|lia|]. right. split; [done|lia].
    + destruct (IH (name ++ ["f"%char])) as (i & r & Hrun & Hsz & Hprev & Hr);
        [unfold size in *; rewrite length_app; simpl; lia
        |unfold size in *; rewrite length_app; simpl; lia|].
      assert (forall j, candidate (name ++ ["f"%char]) j = candidate name (S j)) as Hc.
      { intros j. unfold candidate. by rewrite <- app_assoc. }
      exists (S i), r. rewrite Hc in *. split_and!; [exact Hrun|done| |done].
      intros [|j] Hj; [by rewrite H0|]. rewrite <- Hc. apply Hprev. lia.
  - exists 0%nat, None. rewrite H0. split_and!; [done|done|lia|by left].
Qed.

(** The state of an output between calls: not open yet, or attached. *)
Record closed_output (name : str) (o : OUTPUT) : Prop := mk_closed_output {
  co_lock : o_locked o = false;
  co_fd : fd (_output_buffer o) < 0;
  co_name : _file_name o = name;
  co_mem : length (_print_buffer o) = PRINT_BUFFER_SIZE
}.

Record open_output (o : OUTPUT) : Prop := mk_open_output {
  oo_lock : o_locked o = false;
  oo_fd : 0 <= fd (_output_buffer o);
  oo_attached : attached (_output_buffer o);
  oo_size : buf_size (_output_buffer o) = PRINT_BUFFER_SIZE
}.

(** A new file can be created under one of the names. *)
Definition can_open (sys_open : str -> open_result) (name : str) : Prop :=
  exists i d, (forall j, (j < i)%nat -> sys_open (candidate name j) = EEXIST) /\
    sys_open (candidate name i) = Opened d /\ 0 <= d /\ size (candidate name i) < NAME_BUFFER_SIZE.

Lemma size_candidate name i : size (candidate name i) = size name + Z.of_nat i.
Proof. unfold size, candidate. rewrite length_app, length_replicate. lia. Qed.

Lemma open_loop_opens sys_open name i d fuel :
  (forall j, (j < i)%nat -> sys_open (candidate name j) = EEXIST) ->
  sys_open (candidate name i) = Opened d -> size (candidate name i) < NAME_BUFFER_SIZE ->
  (i < fuel)%nat -> open_loop sys_open fuel name = Val (candidate name i, Some d).
Proof.
  revert name i. induction fuel as [|fuel IH]; intros name i Hex Hopen Hs Hf; [lia|]. simpl.
  rewrite size_candidate in Hs. assert (candidate name 0 = name) as H0 by apply app_nil_r.
  destruct i as [|i]; [by rewrite H0 in *; rewrite Hopen|].
  pose proof (Hex 0%nat ltac:(lia)) as He. rewrite H0 in He. rewrite He.
  unfold NAME_BUFFER_SIZE in *. destruct (Z.leb_spec (256 - 1) (size name)); [lia|].
  assert (forall j, candidate (name ++ ["f"%char]) j = candidate name (S j)) as Hc.
  { intros j. unfold candidate. by rewrite <- app_assoc. }
  rewrite <- Hc. apply IH; [|by rewrite Hc| |lia].
  - intros j Hj. rewrite Hc. apply Hex. lia.
  - rewrite Hc, size_candidate. lia.
Qed.

Section Contract.
Context (sys_open : str -> open_result) (answers : nat -> write_event) (K ffuel : nat).
Context (Hk : steady answers K) (Hfuel : (K * PRINT_BUFFER_SIZE < ffuel)%nat).

Lemma openFile_opens name o :
  closed_output name o -> can_open sys_open name ->
  exists o', _openFile sys_open (set_o_locked true o) = Val (true, o') /\
    attached (_output_buffer o') /\ buf_size (_output_buffer o') = PRINT_BUFFER_SIZE /\
    0 <= fd (_output_buffer o') /\ stream (_output_buffer o') (o_kernel o') = [].
Proof.
  intros [Hl Hfd Hn Hm] (i & d & Hex & Hd & H0 & Hs). unfold _openFile.
  change (_output_buffer (set_o_locked true o)) with (_output_buffer o).
  change (_file_name (set_o_locked true o)) with (_file_name o).
  destruct (Z.leb_spec 0 (fd (_output_buffer o))); [lia|]. rewrite Hn.
  rewrite (open_loop_opens sys_open name i d) by
    (done || (rewrite size_candidate in Hs; unfold NAME_BUFFER_SIZE, size in *; lia)).
  unfold hpcio_outbuf_attach. simpl. rewrite Hm.
  destruct (Z.ltb_spec d 0); [lia|]. change (PRINT_BUFFER_SIZE =? 0)%nat with false. simpl.
  eexists. split; [reflexivity|]. simpl. split_and!; [|done|done|done].
  split; simpl; unfold buf_size; simpl; [done|done|lia|]. rewrite Hm. apply Nat.ltb_lt. reflexivity.
Qed.

Lemma send_loop_spec data o :
  attached (_output_buffer o) -> buf_size (_output_buffer o) = PRINT_BUFFER_SIZE ->
  exists b k, send_loop answers ffuel 2 data o = Val (set_buffer b k o) /\
    attached b /\ buf_size b = PRINT_BUFFER_SIZE /\ fd b = fd (_output_buffer o) /\
    stream b k = stream (_output_buffer o) (o_kernel o) ++ data.
Proof.
  intros Hat Hs. destruct data as [|c data].
  { exists (_output_buffer o), (o_kernel o). simpl. rewrite app_nil_r. by destruct o. }
  destruct (hpcio_outbuf_write_spec answers K Hk ffuel (c :: data) _ (o_kernel o) Hat)
    as (b & k & Hw & Hat' & Hs' & Hfd & _ & Hst); [by rewrite Hs|].
  exists b, k. split_and!; [|done|congruence|done|done]. cbn [send_loop]. rewrite Hw.
  unfold mbind, outcome_bind, size. rewrite Nat2Z.id, drop_all.
  destruct (Z.leb_spec 0 (Z.of_nat (length (c :: data)))); [done|lia].
Qed.

Lemma writeb_open text o :
  open_output o ->
  exists o', writeb sys_open answers ffuel 2 text o = Val (size (c_str text), o') /\ open_output o' /\
    stream (_output_buffer o') (o_kernel o') = stream (_output_buffer o) (o_kernel o) ++ c_str text.
Proof.
  intros [Hl Hfd Hat Hs]. unfold writeb. rewrite Hl.
  change (_output_buffer (set_o_locked true o)) with (_output_buffer o).
  destruct (Z.ltb_spec (fd (_output_buffer o)) 0); [lia|].
  unfold mbind, outcome_bind, mret, outcome_ret. cbn [negb].
  destruct (send_loop_spec (c_str text) (set_o_locked true o) Hat Hs)
    as (b & k & -> & Hat' & Hs' & Hfd' & Hst).
  eexists. split; [reflexivity|]. split; [|done]. split; simpl; [done|by rewrite Hfd'|done|done].
Qed.

Lemma writeb_closed name text o :
  closed_output name o -> name <> [] -> can_open sys_open name ->
  exists o', writeb sys_open answers ffuel 2 text o = Val (size (c_str text), o') /\ open_output o' /\
    stream (_output_buffer o') (o_kernel o') = c_str text.
Proof.
  intros Hc Hne Ho. destruct (openFile_opens name o Hc Ho) as (o1 & Hopen & Hat & Hs & Hfd & Hst0).
  destruct Hc as [Hl Hfd0 Hn Hm]. unfold writeb. rewrite Hl.
  change (_output_buffer (set_o_locked true o)) with (_output_buffer o).
  change (_file_name (set_o_locked true o)) with (_file_name o).
  destruct (Z.ltb_spec (fd (_output_buffer o)) 0); [|lia]. rewrite Hn.
  destruct (Z.eqb_spec (size name) 0) as [H0|_]; [unfold size in H0; destruct name; simpl in *; [done|lia]|].
  rewrite Hopen. unfold mbind, outcome_bind, mret, outcome_ret. cbn [negb].
  destruct (send_loop_spec (c_str text) o1 Hat Hs) as (b & k & -> & Hat' & Hs' & Hfd' & Hst).
  eexists. split; [reflexivity|]. simpl. rewrite Hst, Hst0. split; [|done].
  split; simpl; [done|by rewrite Hfd'|done|done].
Qed.

(** What an output can be between two writes, and the text it holds. *)
Definition usable (o : OUTPUT) : Prop :=
  open_output o \/ exists name, closed_output name o /\ name <> [] /\ can_open sys_open name.
Definition file_text (o : OUTPUT) : list ascii :=
  if fd (_output_buffer o) <? 0 then [] else stream (_output_buffer o) (o_kernel o).

Lemma writef_usable text o :
  usable o -> size text < LOCAL_BUFFER_SIZE ->
  exists o', writef sys_open answers ffuel text o = Val (size (c_str text), o') /\ usable o' /\
    file_text o' = file_text o ++ c_str text.
Proof.
  intros Hu Ht. unfold writef, cxx_assert. destruct (Z.ltb_spec (size text) LOCAL_BUFFER_SIZE); [|lia].
  change (mbind ?f (Val tt)) with (f tt); cbv beta. destruct Hu as [Ho|(name & Hc & Hne & Hopen)].
  - destruct (writeb_open text o Ho) as (o' & Hw & Ho' & Hst). exists o'. split_and!; [done|by left|].
    unfold file_text. destruct Ho as [_ Hfd _ _], Ho' as [_ Hfd' _ _].
    destruct (Z.ltb_spec (fd (_output_buffer o')) 0); [lia|].
    by destruct (Z.ltb_spec (fd (_output_buffer o)) 0); [lia|].
  - destruct (writeb_closed name text o Hc Hne Hopen) as (o' & Hw & Ho' & Hst).
    exists o'. split_and!; [done|by left|].
    unfold file_text. destruct Hc as [_ Hfd _ _], Ho' as [_ Hfd' _ _].
    destruct (Z.ltb_spec (fd (_output_buffer o')) 0); [lia|].
    by destruct (Z.ltb_spec (fd (_output_buffer o)) 0); [|lia].
Qed.

Lemma destroy_usable o :
  usable o -> exists o', destroy_OUTPUT answers true ffuel o = Val o' /\
    (0 <= fd (_output_buffer o) -> contents (o_kernel o') = file_text o /\ is_open (o_kernel o') = false).
Proof.
  intros Hu. unfold destroy_OUTPUT, file_text. destruct Hu as [[_ Hfd Hat Hs]|(name & [_ Hfd _ _] & _)].
  - destruct (Z.leb_spec 0 (fd (_output_buffer o))); [|lia].
    destruct (Z.ltb_spec (fd (_output_buffer o)) 0); [lia|].
    destruct (hpcio_outbuf_close_spec answers true K Hk ffuel _ (o_kernel o) Hat)
      as (ret & b & k & -> & Hcont & _ & Hok); [by rewrite Hs|].
    eexists. split; [reflexivity|]. intros _. split; [done|]. by apply Hok.
  - destruct (Z.leb_spec 0 (fd (_output_buffer o))); [lia|]. exists o. split; [done|lia].
Qed.

(** Successive writes. *)
Fixpoint write_all (texts : list str) (o : OUTPUT) : outcome OUTPUT :=
  match texts with
  | [] => mret o
  | t :: texts => '(_, o) ← writef sys_open answers ffuel t o; write_all texts o
  end.

Lemma write_all_open texts o :
  open_output o -> Forall (fun t => size t < LOCAL_BUFFER_SIZE) texts ->
  exists o', write_all texts o = Val o' /\ open_output o' /\
    stream (_output_buffer o') (o_kernel o') =
    stream (_output_buffer o) (o_kernel o) ++ mjoin (c_str <$> texts).
Proof.
  intros Ho Ht. revert o Ho. induction Ht as [|t texts Ht _ IH]; intros o Ho.
  { exists o. simpl. by rewrite app_nil_r. }
  cbn [write_all]. unfold writef at 1, cxx_assert. destruct (Z.ltb_spec (size t) LOCAL_BUFFER_SIZE); [|lia].
  destruct (writeb_open t o Ho) as (o1 & Hw & Ho1 & Hst1).
  unfold mbind at 1 2, outcome_bind. rewrite Hw. cbv iota beta.
  destruct (IH o1 Ho1) as (o' & Hrun & Ho' & Hst'). exists o'. split_and!; [done|done|].
  rewrite Hst', Hst1. cbn. by rewrite <- app_assoc.
Qed.
End Contract.

(** ** Failing writes *)

Lemma failing_write answers ffuel data b k :
  (forall n, answers n = Error) -> (0 < ffuel)%nat ->
  attached b -> in_use b = buf_size b -> data <> [] ->
  exists k', hpcio_outbuf_write answers ffuel data b k = Val (0, b, k').
Proof.
  intros He Hf [Hmag Hl Hin Hs] Hfull Hne. unfold hpcio_outbuf_write, ob_lock, ob_unlock.
  rewrite Hmag, Hl, Z.eqb_refl. cbn [negb]. unfold mbind, outcome_bind, mret, outcome_ret.
  destruct data as [|c data]; [done|]. destruct ffuel as [|ffuel]; [lia|].
  cbn [write_loop]. rewrite Hfull, Nat.sub_diag.
  destruct (Nat.ltb_spec 0 (length (c :: data))); [|simpl in *; lia].
  unfold outbuf_flush_buffer, mbind, outcome_bind, mret, outcome_ret. cbn [flush_loop].
  destruct (Nat.ltb_spec 0 (in_use b)); [|lia].
  unfold sys_write. rewrite He. simpl. rewrite Hfull, Nat.eqb_refl. rewrite Hl. by eexists.
Qed.

Lemma send_loop_failing answers ffuel fuel data o :
  (forall n, answers n = Error) -> (0 < ffuel)%nat ->
  attached (_output_buffer o) -> in_use (_output_buffer o) = buf_size (_output_buffer o) ->
  data <> [] -> send_loop answers ffuel fuel data o = Fault OutOfFuel.
Proof.
  intros He Hf Hat Hfull Hne. revert o Hat Hfull.
  induction fuel as [|fuel IH]; intros o Hat Hfull; [done|].
  destruct (failing_write answers ffuel data _ (o_kernel o) He Hf Hat Hfull Hne) as [k' Hw].
  cbn [send_loop]. rewrite Hw. destruct data as [|c data]; [done|].
  unfold mbind, outcome_bind. simpl. by apply IH.
Qed.

(** * Properties *)

(** C25: everything written to an output, in pieces of any size below the limit,
    is in its file after the output is destroyed, in order and exactly once,
    provided the file can be created and the kernel keeps accepting bytes. *)
Theorem output_file_contents sys_open answers K ffuel raw mem name t texts
  (Hk : steady answers K) (Hfuel : (K * PRINT_BUFFER_SIZE < ffuel)%nat)
  (Hmem : length mem = PRINT_BUFFER_SIZE)
  (Hname : 0 < size (c_str name) < NAME_BUFFER_SIZE - 1) (Hopen : can_open sys_open (c_str name))
  (Ht : Forall (fun t => size t < LOCAL_BUFFER_SIZE) (t :: texts)) :
  exists o1 o2 o3, setFileName name (new_OUTPUT raw mem) = (true, o1) /\
    write_all sys_open answers ffuel (t :: texts) o1 = Val o2 /\
    destroy_OUTPUT answers true ffuel o2 = Val o3 /\
    contents (o_kernel o3) = mjoin (c_str <$> t :: texts) /\ is_open (o_kernel o3) = false.
Proof.
  apply Forall_cons in Ht as [Ht Hts].
  assert (closed_output (c_str name) (set_file_name (c_str name) (new_OUTPUT raw mem))) as Hc by done.
  destruct (writeb_closed sys_open answers K ffuel Hk Hfuel (c_str name) t _ Hc)
    as (o1 & Hw & Ho1 & Hst1); [intros H0; rewrite H0 in Hname; unfold size in Hname; simpl in Hname; lia|done|].
  destruct (write_all_open sys_open answers K ffuel Hk Hfuel texts o1 Ho1 Hts)
    as (o2 & Hrun & [_ Hfd2 Hat2 Hs2] & Hst2).
  destruct (hpcio_outbuf_close_spec answers true K Hk ffuel _ (o_kernel o2) Hat2)
    as (ret & b & k & Hclose & Hcont & _ & Hok); [by rewrite Hs2|].
  eexists _, o2, _. split_and!.
  - unfold setFileName. simpl. by destruct (Z.leb_spec (NAME_BUFFER_SIZE - 1) (size (c_str name))); [lia|].
  - cbn [write_all]. unfold writef at 1, cxx_assert.
    destruct (Z.ltb_spec (size t) LOCAL_BUFFER_SIZE); [|lia].
    unfold mbind at 1 2, outcome_bind. rewrite Hw. exact Hrun.
  - unfold destroy_OUTPUT. destruct (Z.leb_spec 0 (fd (_output_buffer o2))); [|lia].
    by rewrite Hclose.
  - simpl. rewrite Hcont, Hst2, Hst1. done.
  - by apply Hok.
Qed.

(** C26: opening the file ends, never lets the name outgrow its buffer, tries the
    given name with more and more letters f appended and takes the first that
    does not exist. *)
Theorem openFile_first_free sys_open o
  (Hclosed : fd (_output_buffer o) < 0) (Hname : size (_file_name o) < NAME_BUFFER_SIZE)
  (Hmem : length (_print_buffer o) = PRINT_BUFFER_SIZE)
  (Hfds : forall n d, sys_open n = Opened d -> 0 <= d) :
  exists i ok o', _openFile sys_open o = Val (ok, o') /\
    _file_name o' = candidate (_file_name o) i /\ size (_file_name o') < NAME_BUFFER_SIZE /\
    (forall j, (j < i)%nat -> sys_open (candidate (_file_name o) j) = EEXIST) /\
    (if ok then sys_open (_file_name o') = Opened (fd (_output_buffer o'))
     else sys_open (_file_name o') = OpenFailed \/
       sys_open (_file_name o') = EEXIST /\ size (_file_name o') = NAME_BUFFER_SIZE - 1).
Proof.
  destruct (open_loop_spec sys_open (Z.to_nat NAME_BUFFER_SIZE) (_file_name o) Hname)
    as (i & r & Hrun & Hs & Hprev & Hr); [unfold NAME_BUFFER_SIZE, size in *; lia|].
  unfold _openFile. destruct (Z.leb_spec 0 (fd (_output_buffer o))); [lia|].
  rewrite Hrun. unfold mbind, outcome_bind. destruct r as [d|].
  - unfold hpcio_outbuf_attach. simpl. rewrite Hmem.
    destruct (Z.ltb_spec d 0); [by specialize (Hfds _ _ Hr); lia|].
    change (PRINT_BUFFER_SIZE =? 0)%nat with false. simpl. by eexists i, true, _.
  - by eexists i, false, _.
Qed.

(** C27: once the buffer is full and the kernel refuses every write, [writeb]
    never returns: no number of rounds of its loop is enough. *)
Theorem writeb_hangs sys_open answers ffuel fuel text o
  (He : forall n, answers n = Error) (Hfuel : (0 < ffuel)%nat)
  (Ho : open_output o) (Hfull : in_use (_output_buffer o) = buf_size (_output_buffer o))
  (Ht : c_str text <> []) :
  writeb sys_open answers ffuel fuel text o = Fault OutOfFuel.
Proof.
  destruct Ho as [Hl Hfd Hat Hs]. unfold writeb. rewrite Hl.
  change (_output_buffer (set_o_locked true o)) with (_output_buffer o).
  destruct (Z.ltb_spec (fd (_output_buffer o)) 0); [lia|].
  unfold mbind, outcome_bind, mret, outcome_ret. cbn [negb].
  by rewrite send_loop_failing.
Qed.

Module Examples.
Definition raw : outbuf := mk_outbuf 0 [] 7 5 0 true true.
Definition mem : list ascii := replicate PRINT_BUFFER_SIZE "?"%char.
Definition answers (n : nat) : write_event := if Nat.even n then ZeroEINTR else Wrote 300.
Definition sys_open (n : str) : open_result :=
  if decide (n = lit "t.run") then EEXIST else Opened 5.

Lemma answers_steady : steady answers 2.
Proof.
  split; intros n; unfold answers.
  - destruct (Nat.even n); [by left|right; by eexists].
  - destruct (Nat.even n) eqn:Hn.
    + exists 1%nat, 300%positive. split; [lia|]. rewrite Nat.add_1_r, Nat.even_succ.
      by rewrite <- Nat.negb_even, Hn.
    + exists 0%nat, 300%positive. split; [lia|]. by rewrite Nat.add_0_r, Hn.
Qed.

Definition long : str := replicate 900 "x"%char.

Lemma output_file_contents_witness :
  exists o1 o2 o3, setFileName (lit "t.run") (new_OUTPUT raw mem) = (true, o1) /\
    write_all sys_open answers 3000 [lit "ab"; long; long] o1 = Val o2 /\
    destroy_OUTPUT answers true 3000 o2 = Val o3 /\
    contents (o_kernel o3) = lit "ab" ++ long ++ long.
Proof.
  destruct (output_file_contents sys_open answers 2 3000 raw mem (lit "t.run") (lit "ab")
    [long; long]) as (o1 & o2 & o3 & H1 & H2 & H3 & H4 & _).
  - apply answers_steady.
  - apply Nat.ltb_lt. reflexivity.
  - reflexivity.
  - done.
  - exists 1%nat, 5. split_and!; [|done|done|done]. intros [|j] Hj; [done|lia].
  - repeat constructor.
  - exists o1, o2, o3. split_and!; [exact H1|exact H2|exact H3|]. rewrite H4. reflexivity.
Defined.

Definition fresh_output : OUTPUT := set_file_name (lit "t.run") (new_OUTPUT raw mem).

Lemma openFile_first_free_witness :
  exists o', _openFile sys_open fresh_output = Val (true, o') /\ _file_name o' = lit "t.runf".
Proof.
  destruct (openFile_first_free sys_open fresh_output) as (i & ok & o' & Hrun & _ & _ & _ & Hok);
    [done|done|reflexivity| |].
  - intros n d. unfold sys_open. by case_decide; intros [= <-].
  - vm_compute in Hrun. injection Hrun as <- <-. eexists. by split.
Defined.

Definition full_output : OUTPUT :=
  mk_output false mem (lit "t.run")
    (mk_outbuf HPCIO_OUTBUF_MAGIC mem PRINT_BUFFER_SIZE 5 HPCIO_OUTBUF_UNLOCKED false false)
    (mk_kernel [] 0 true).

Lemma writeb_hangs_witness :
  writeb sys_open (fun _ => Error) 1 100 (lit "x") full_output = Fault OutOfFuel.
Proof.
  apply (writeb_hangs sys_open (fun _ => Error) 1 100 (lit "x") full_output);
    [done|lia| |reflexivity|discriminate].
  split; [done|done| |reflexivity]. split; [done|done| |]; apply Nat.leb_le; reflexivity.
Defined.
End Examples.
