(* ===== verification/ThreadData.v ===== *)
(** The data of a thread ([thread_data.h], [thread_data.cpp]) and the flag that
    keeps signal handlers out of the agent ([safe-sampling.h], [BLOCK_SAMPLE] and
    [UNBLOCK_SAMPLE] of [agent.cpp]).

    The value behind the pthread key is per thread; the model is one thread's. *)
From stdpp Require Import base numbers option list strings.
From Stdlib Require Import ZArith Lia Ascii.
From S2P Require Import Prelude.
From S2P Require Import Cxx.

(** Names of the analysis clients ([profiler_support.h]). *)
Definition DEADSTORE_CLIENT_NAME : str := lit "DEADSTORE".
Definition SILENTSTORE_CLIENT_NAME : str := lit "SILENTSTORE".
Definition SILENTLOAD_CLIENT_NAME : str := lit "SILENTLOAD".
Definition DATA_CENTRIC_CLIENT_NAME : str := lit "DATACENTRIC".
Definition NUMANODE_CLIENT_NAME : str := lit "NUMA".
Definition GENERIC : str := lit "GENERIC".
Definition HEAP : str := lit "HEAP".
Definition ALLOCATION_TIMES : str := lit "ALLOCTIMES".
Definition REUSE_DISTANCE : str := lit "REUSEDISTANCE".

(** [a.compare(b) == 0] *)
Definition is_client (clientName name : str) : bool := bool_decide (clientName = name).

Section ThreadData.
(** What the untyped pointers of the record lead to: the events of the thread,
    its calling context tree, its output files and its sample tables. *)
Context {E X O T : Type}.

(** [thread_data_t] *)
Record thread_data_t := mk_td {
  tid : Z;
  inside_agent : bool;
  perf_state : option E;
  context_state : option X;
  output_state : option O;
  output_state_trace : option O;
  output_state_alloc : option O;
  output_state_cachemiss : option O;
  ctxt_sample_state : list (option T)
}.

Definition set_inside_agent b t := mk_td (tid t) b (perf_state t) (context_state t)
  (output_state t) (output_state_trace t) (output_state_alloc t) (output_state_cachemiss t)
  (ctxt_sample_state t).
Definition set_perf_state p t := mk_td (tid t) (inside_agent t) p (context_state t)
  (output_state t) (output_state_trace t) (output_state_alloc t) (output_state_cachemiss t)
  (ctxt_sample_state t).
Definition set_context_state x t := mk_td (tid t) (inside_agent t) (perf_state t) x
  (output_state t) (output_state_trace t) (output_state_alloc t) (output_state_cachemiss t)
  (ctxt_sample_state t).
Definition set_output_state o t := mk_td (tid t) (inside_agent t) (perf_state t) (context_state t)
  o (output_state_trace t) (output_state_alloc t) (output_state_cachemiss t) (ctxt_sample_state t).
Definition set_output_state_trace o t := mk_td (tid t) (inside_agent t) (perf_state t)
  (context_state t) (output_state t) o (output_state_alloc t) (output_state_cachemiss t)
  (ctxt_sample_state t).
Definition set_output_state_alloc o t := mk_td (tid t) (inside_agent t) (perf_state t)
  (context_state t) (output_state t) (output_state_trace t) o (output_state_cachemiss t)
  (ctxt_sample_state t).
Definition set_output_state_cachemiss o t := mk_td (tid t) (inside_agent t) (perf_state t)
  (context_state t) (output_state t) (output_state_trace t) (output_state_alloc t) o
  (ctxt_sample_state t).
Definition set_ctxt_sample_state c t := mk_td (tid t) (inside_agent t) (perf_state t)
  (context_state t) (output_state t) (output_state_trace t) (output_state_alloc t)
  (output_state_cachemiss t) c.

(** The value of the key and the records that nothing points to any more. *)
Record tls := mk_tls { td_ptr : option thread_data_t; lost : list thread_data_t }.

Section Thread.
(** [syscall(__NR_gettid)] *)
Context (gettid : Z).

Definition zero_td : thread_data_t := mk_td gettid false None None None None None None
  (replicate 4 None).

Definition thread_data_alloc (s : tls) : thread_data_t * tls :=
  (zero_td, mk_tls (Some zero_td) (match td_ptr s with Some t => t :: lost s | None => lost s end)).

Definition thread_data_get (s : tls) : thread_data_t * tls :=
  match td_ptr s with
  | Some t => (t, s)
  | None => thread_data_alloc s
  end.

(** [TD_GET(field)] and [TD_GET(field) = v]. *)
Definition TD_GET {A} (field : thread_data_t -> A) : prog tls A :=
  fun s => let '(t, s) := thread_data_get s in Val (field t, s).
Definition TD_SET (set : thread_data_t -> thread_data_t) : prog tls unit :=
  fun s => let '(t, s) := thread_data_get s in Val (tt, mk_tls (Some (set t)) (lost s)).

(** The last assertion is over the four tables of [ctxt_sample_state]. *)
Definition thread_data_dealloc (clientName : str) : prog tls unit := fun s =>
  match td_ptr s with
  | None => Val (tt, s)
  | Some t =>
    (if negb (is_client clientName GENERIC) && negb (is_client clientName HEAP) &&
        negb (is_client clientName ALLOCATION_TIMES)
     then cxx_assert (bool_decide (perf_state t = None)) else mret tt);;
    cxx_assert (bool_decide (context_state t = None));;
    cxx_assert (bool_decide (output_state t = None));;
    cxx_assert (forallb (fun c => bool_decide (c = None)) (ctxt_sample_state t));;
    mret (tt, mk_tls None (lost s))
  end.

(** [safe-sampling.h] *)
Definition profiler_safe_enter : prog tls bool :=
  prev ← TD_GET inside_agent;
  TD_SET (set_inside_agent true);;
  mret (negb prev).
Definition profiler_safe_exit : prog tls unit := TD_SET (set_inside_agent false).

(** [agent.cpp] *)
Definition BLOCK_SAMPLE : prog tls unit := TD_SET (set_inside_agent true).
Definition UNBLOCK_SAMPLE : prog tls unit := TD_SET (set_inside_agent false).

(** * The key

    [key] and what is behind it for the thread that runs.  Before [pthread_key_create]
    the key is zero and leads nowhere: reading it gives null and storing under it
    fails, so that every access makes a record that nothing refers to.  A new key has
    nothing behind it, whatever the old one had. *)
Record keyed := mk_keyed { key_valid : bool; behind : tls }.

Definition forget (s : tls) : tls :=
  mk_tls None (match td_ptr s with Some t => t :: lost s | None => lost s end).

(** [thread_data_init] and [thread_data_shutdown] *)
Definition thread_data_init (key_created : bool) : prog keyed unit := fun k =>
  cxx_assert key_created;; mret (tt, mk_keyed true (forget (behind k))).
Definition thread_data_shutdown : prog keyed unit := fun k =>
  mret (tt, mk_keyed false (forget (behind k))).

(** A piece of code that accesses the record once. *)
Definition through_key {A} (m : prog tls A) : prog keyed A := fun k =>
  if key_valid k then
    '(a, s) ← m (behind k); mret (a, mk_keyed true s)
  else
    '(a, s) ← m (mk_tls None (lost (behind k))); mret (a, mk_keyed false (forget s)).
End Thread.
End ThreadData.
