(* ===== verification/Double.v ===== *)
(** [double]: how far the results of the operations on positive numbers are from the
    exact ones.  The operations are those of the specification of IEEE 754 in the
    standard library ([SpecFloat]), at the precision of binary64; only numbers far
    from overflow and underflow occur in the program. *)
From stdpp Require Import base numbers.
From Stdlib Require Import ZArith Lia Bool Reals Lra SpecFloat.
From S2P Require Import Prelude.

Local Open Scope R_scope.

Definition prec : Z := 53.
Definition emax : Z := 1024.

(** * Powers of two *)

Definition bpow (e : Z) : R := powerRZ 2 e.

Section Powers.
Lemma bpow_pos e : 0 < bpow e.
Proof. apply powerRZ_lt. lra. Qed.

Lemma bpow_add e f : bpow (e + f) = bpow e * bpow f.
Proof. apply powerRZ_add. lra. Qed.

Lemma bpow_0 : bpow 0 = 1.
Proof. reflexivity. Qed.

Lemma bpow_1 : bpow 1 = 2.
Proof. unfold bpow. simpl. lra. Qed.

Lemma bpow_IZR n : (0 <= n)%Z -> bpow n = IZR (2 ^ n).
Proof.
  intros Hn. unfold bpow. destruct n as [|p|p]; [reflexivity| |lia].
  cbn [powerRZ]. rewrite pow_IZR. f_equal. now rewrite positive_nat_Z.
Qed.

Lemma bpow_opp e : bpow (- e) * bpow e = 1.
Proof. rewrite <- bpow_add. replace (- e + e)%Z with 0%Z by lia. apply bpow_0. Qed.

Lemma bpow_inv e : bpow (- e) = / bpow e.
Proof.
  pose proof (bpow_opp e). pose proof (bpow_pos e).
  apply Rmult_eq_reg_r with (bpow e); [|lra]. rewrite Rinv_l; lra.
Qed.

Lemma bpow_le e f : (e <= f)%Z -> bpow e <= bpow f.
Proof.
  intros H. replace f with (e + (f - e))%Z by lia. rewrite bpow_add.
  rewrite (bpow_IZR (f - e)) by lia. pose proof (bpow_pos e).
  assert (1 <= IZR (2 ^ (f - e))) by (apply IZR_le; pose proof (Z.pow_pos_nonneg 2 (f - e)); lia).
  nra.
Qed.
End Powers.

(** * Numbers between the steps of a shift *)

(** [x] is where the record of a right shift says: at its integer part, in the lower
    half after it, in the middle, in the upper half. *)
Definition located (x : R) (mrs : shr_record) : Prop :=
  let m := IZR (shr_m mrs) in
  match shr_r mrs, shr_s mrs with
  | false, false => x = m
  | false, true => m < x < m + /2
  | true, false => x = m + /2
  | true, true => m + /2 < x < m + 1
  end.

Section Located.
Lemma located_shr_1 x mrs :
  (0 <= shr_m mrs)%Z -> located x mrs ->
  located (x / 2) (shr_1 mrs) /\ shr_m (shr_1 mrs) = (shr_m mrs / 2)%Z.
Proof.
  destruct mrs as [m r s]. cbn [shr_m]. intros Hm Hx.
  assert (Hxo : forall p, IZR (Zpos p~0) = 2 * IZR (Zpos p)) by (intros p; rewrite <- mult_IZR; f_equal; lia).
  assert (Hxi : forall p, IZR (Zpos p~1) = 2 * IZR (Zpos p) + 1)
    by (intros p; rewrite <- mult_IZR, <- plus_IZR; f_equal; lia).
  assert (Hdiv : forall p, (Zpos p~1 / 2 = Zpos p /\ Zpos p~0 / 2 = Zpos p)%Z).
  { intros p. split; symmetry; [apply (Z.div_unique _ _ _ 1)|apply (Z.div_unique _ _ _ 0)]; lia. }
  destruct m as [|[p|p|]|p]; [| | | |lia]; unfold located in *; cbn [shr_1 shr_m shr_r shr_s] in *.
  all: try rewrite Hxo in *; try rewrite Hxi in *.
  all: split; [destruct r, s; cbn [orb]; lra|]; try (symmetry; apply Hdiv); reflexivity.
Qed.

Lemma located_iter x mrs p :
  (0 <= shr_m mrs)%Z -> located x mrs ->
  located (x / IZR (2 ^ Zpos p)) (iter_pos shr_1 p mrs) /\
  shr_m (iter_pos shr_1 p mrs) = (shr_m mrs / 2 ^ Zpos p)%Z.
Proof.
  revert x mrs. induction p as [p IH|p IH|]; intros x mrs Hm Hx; cbn [iter_pos].
  - destruct (located_shr_1 x mrs Hm Hx) as [H1 E1].
    assert (0 <= shr_m (shr_1 mrs))%Z as Hm1 by (rewrite E1; apply Z.div_pos; lia).
    destruct (IH _ _ Hm1 H1) as [H2 E2].
    assert (0 <= shr_m (iter_pos shr_1 p (shr_1 mrs)))%Z as Hm2 by (rewrite E2; apply Z.div_pos; lia).
    destruct (IH _ _ Hm2 H2) as [H3 E3]. split.
    + replace (x / IZR (2 ^ Z.pos p~1)) with (x / 2 / IZR (2 ^ Z.pos p) / IZR (2 ^ Z.pos p)); [exact H3|].
      replace (2 ^ Z.pos p~1)%Z with (2 * (2 ^ Z.pos p * 2 ^ Z.pos p))%Z.
      * rewrite !mult_IZR. field. apply not_0_IZR. lia.
      * rewrite <- Z.pow_add_r, <- Z.pow_succ_r by lia. f_equal. lia.
    + rewrite E3, E2, E1. rewrite !Z.div_div by lia. f_equal.
      rewrite <- Z.pow_add_r, <- Z.pow_succ_r by lia. f_equal. lia.
  - destruct (IH _ _ Hm Hx) as [H2 E2].
    assert (0 <= shr_m (iter_pos shr_1 p mrs))%Z as Hm2 by (rewrite E2; apply Z.div_pos; lia).
    destruct (IH _ _ Hm2 H2) as [H3 E3]. split.
    + replace (x / IZR (2 ^ Z.pos p~0)) with (x / IZR (2 ^ Z.pos p) / IZR (2 ^ Z.pos p)); [exact H3|].
      replace (2 ^ Z.pos p~0)%Z with (2 ^ Z.pos p * 2 ^ Z.pos p)%Z.
      * rewrite !mult_IZR. field. apply not_0_IZR. lia.
      * rewrite <- Z.pow_add_r by lia. f_equal. lia.
    + rewrite E3, E2. rewrite !Z.div_div by lia. f_equal.
      rewrite <- Z.pow_add_r by lia. f_equal. lia.
  - change (IZR (2 ^ 1)) with 2. exact (located_shr_1 x mrs Hm Hx).
Qed.

(** Rounding to the nearest integer. *)
Lemma round_located x mrs :
  located x mrs ->
  Rabs (IZR (round_nearest_even (shr_m mrs) (loc_of_shr_record mrs)) - x) <= /2 /\
  (shr_m mrs <= round_nearest_even (shr_m mrs) (loc_of_shr_record mrs) <= shr_m mrs + 1)%Z.
Proof.
  destruct mrs as [m r s]. unfold located. cbn [shr_m shr_r shr_s loc_of_shr_record].
  intros Hx. destruct r, s; cbn [round_nearest_even];
    [|destruct (Z.even m)|..]; rewrite ?plus_IZR; (split; [apply Rabs_le; lra|lia]).
Qed.
End Located.

(** * Rounding to binary64 *)

Section Digits.
Lemma digits2_bound p : (2 ^ (Zpos (digits2_pos p) - 1) <= Zpos p < 2 ^ Zpos (digits2_pos p))%Z.
Proof.
  induction p as [p [IH1 IH2]|p [IH1 IH2]|]; cbn [digits2_pos]; [| |lia];
    rewrite !Pos2Z.inj_succ; replace (Z.succ (Zpos (digits2_pos p)) - 1)%Z with (Z.succ (Zpos (digits2_pos p) - 1)) by lia;
    rewrite !Z.pow_succ_r by lia; lia.
Qed.

Lemma digits2_unique p d : (0 < d)%Z -> (2 ^ (d - 1) <= Zpos p < 2 ^ d)%Z -> Zpos (digits2_pos p) = d.
Proof.
  intros Hd [H1 H2]. destruct (digits2_bound p) as [H3 H4].
  assert (d - 1 < Zpos (digits2_pos p))%Z by (apply (Z.pow_lt_mono_r_iff 2); lia).
  assert (Zpos (digits2_pos p) - 1 < d)%Z by (apply (Z.pow_lt_mono_r_iff 2); lia). lia.
Qed.
End Digits.

(** The exponent of a number is far from both ends of the format. *)
Definition moderate (m : positive) (e : Z) : Prop := (-1000 <= Zpos (digits2_pos m) + e <= 960)%Z.

Lemma fexp_moderate m e : moderate m e ->
  fexp prec emax (Zpos (digits2_pos m) + e) = (Zpos (digits2_pos m) + e - 53)%Z.
Proof. unfold moderate, fexp, emin, prec, emax. lia. Qed.

Lemma shr_fexp_keep m e l : moderate m e -> (Zpos (digits2_pos m) <= 53)%Z ->
  shr_fexp prec emax (Zpos m) e l = (shr_record_of_loc (Zpos m) l, e).
Proof.
  intros Hm Hd. unfold shr_fexp. cbn [Zdigits2]. rewrite fexp_moderate by done.
  replace (Zpos (digits2_pos m) + e - 53 - e)%Z with (Zpos (digits2_pos m) - 53)%Z by lia.
  unfold shr. destruct (Zpos (digits2_pos m) - 53)%Z eqn:E; [done|lia|done].
Qed.

(** Down to 53 digits. *)
Lemma shr_fexp_down m e l x : moderate m e -> (53 <= Zpos (digits2_pos m))%Z ->
  located x (shr_record_of_loc (Zpos m) l) ->
  exists mrs n, (0 <= n)%Z /\ n = (Zpos (digits2_pos m) - 53)%Z /\
    shr_fexp prec emax (Zpos m) e l = (mrs, e + n)%Z /\
    located (x / IZR (2 ^ n)) mrs /\ (2 ^ 52 <= shr_m mrs < 2 ^ 53)%Z.
Proof.
  intros Hm Hd Hx. exists (fst (shr_fexp prec emax (Zpos m) e l)), (Zpos (digits2_pos m) - 53)%Z.
  split; [lia|]. split; [done|]. unfold shr_fexp. cbn [Zdigits2]. rewrite fexp_moderate by done.
  replace (Zpos (digits2_pos m) + e - 53 - e)%Z with (Zpos (digits2_pos m) - 53)%Z by lia.
  destruct (digits2_bound m) as [H1 H2]. set (n := (Zpos (digits2_pos m) - 53)%Z) in *.
  replace (Zpos (digits2_pos m)) with (n + 53)%Z in H1, H2 by lia.
  assert (Hsm : shr_m (shr_record_of_loc (Zpos m) l) = Zpos m) by (destruct l as [|[]]; done).
  unfold shr. destruct n as [|p|p] eqn:En; [| |lia]; cbn [fst].
  - split; [by rewrite Z.add_0_r|]. rewrite Hsm. split; [|lia].
    replace (x / IZR (2 ^ 0)) with x; [exact Hx|]. change (2 ^ 0)%Z with 1%Z. field.
  - split; [done|]. destruct (located_iter x _ p ltac:(rewrite Hsm; lia) Hx) as [H3 H4].
    split; [exact H3|]. rewrite H4, Hsm.
    replace (Zpos p + 53 - 1)%Z with (Zpos p + 52)%Z in H1 by lia.
    rewrite Z.pow_add_r in H1, H2 by lia.
    split; [apply Z.div_le_lower_bound; lia|apply Z.div_lt_upper_bound; lia].
Qed.

(** The unit of rounding. *)
Definition unit_roundoff : R := / IZR (2 ^ 53).

(** What a number of the format stands for. *)
Definition value (f : spec_float) : R :=
  match f with S754_finite false m e => IZR (Zpos m) * bpow e | _ => 0 end.

(** The significand after rounding is renormalised without loss. *)
Lemma round_final r e : (2 ^ 52 <= r <= 2 ^ 53)%Z -> (-1040 <= e <= 900)%Z ->
  exists m' e', (let '(mrs, e1) := shr_fexp prec emax r e loc_Exact in
      match shr_m mrs with
      | Z0 => S754_zero false
      | Zpos m => if Z.leb e1 (emax - prec) then S754_finite false m e1 else S754_infinity false
      | _ => S754_nan
      end) = S754_finite false m' e' /\
    IZR (Zpos m') * bpow e' = IZR r * bpow e /\ (2 ^ 52 <= Zpos m' < 2 ^ 53)%Z /\ (e <= e' <= e + 1)%Z.
Proof.
  intros Hr He. destruct r as [|r|r]; [lia| |lia].
  assert (Hdig : forall d, (0 < d)%Z -> (2 ^ (d - 1) <= Zpos r < 2 ^ d)%Z -> moderate r e <-> (-1000 <= d + e <= 960)%Z).
  { intros d Hd Hb. unfold moderate. by rewrite (digits2_unique r d Hd Hb). }
  destruct (Z.eq_dec (Zpos r) (2 ^ 53)) as [E|E].
  - assert (r = 9007199254740992%positive) as -> by lia. exists 4503599627370496%positive, (e + 1)%Z.
    assert (Zpos (digits2_pos 9007199254740992) = 54)%Z as Hd by reflexivity.
    unfold shr_fexp. cbn [Zdigits2]. rewrite fexp_moderate by (unfold moderate; lia). rewrite Hd.
    replace (54 + e - 53 - e)%Z with 1%Z by lia. cbn [shr iter_pos shr_record_of_loc shr_1 shr_m].
    replace (e + 1 <=? emax - prec)%Z with true by (symmetry; apply Z.leb_le; unfold emax, prec; lia).
    split; [done|]. split; [|split; lia]. rewrite bpow_add, bpow_1. lra.
  - assert (Zpos (digits2_pos r) = 53)%Z as Hd by (apply digits2_unique; lia).
    exists r, e. rewrite shr_fexp_keep; [|unfold moderate; lia|lia]. cbn [shr_record_of_loc shr_m].
    replace (e <=? emax - prec)%Z with true by (symmetry; apply Z.leb_le; unfold emax, prec; lia).
    split; [done|]. split; [done|]. lia.
Qed.

Lemma unit_roundoff_pos : 0 < unit_roundoff.
Proof. apply Rinv_0_lt_compat. apply IZR_lt. reflexivity. Qed.

(** Half of the last of 53 digits is within the unit of the number. *)
Lemma half_digit x y : IZR (2 ^ 52) <= x -> Rabs (y - x) <= /2 -> Rabs (y - x) <= unit_roundoff * x.
Proof.
  intros Hx H. eapply Rle_trans; [exact H|].
  replace (/2) with (unit_roundoff * IZR (2 ^ 52)).
  - apply Rmult_le_compat_l; [apply Rlt_le, unit_roundoff_pos|exact Hx].
  - unfold unit_roundoff. change (2 ^ 53)%Z with (2 * 2 ^ 52)%Z. rewrite mult_IZR. field.
    apply not_0_IZR. lia.
Qed.

Lemma located_ge x mrs : located x mrs -> IZR (shr_m mrs) <= x.
Proof. unfold located. destruct (shr_r mrs), (shr_s mrs); lra. Qed.

(** One rounding is within the unit of it. *)
Definition rounds_to (x : R) (e : Z) (m : positive) (f : spec_float) : Prop :=
  exists m' e', f = S754_finite false m' e' /\
    Rabs (value f - x * bpow e) <= unit_roundoff * (x * bpow e) /\
    (Zpos (digits2_pos m) + e <= Zpos (digits2_pos m') + e' <= Zpos (digits2_pos m) + e + 1)%Z /\
    (Zpos (digits2_pos m') <= 53)%Z.

Lemma binary_round_aux_short m e :
  (-900 <= Zpos (digits2_pos m) + e <= 900)%Z -> (Zpos (digits2_pos m) <= 53)%Z ->
  binary_round_aux prec emax false (Zpos m) e loc_Exact = S754_finite false m e.
Proof.
  intros He Hd. unfold binary_round_aux.
  rewrite shr_fexp_keep by (unfold moderate; lia).
  cbn [shr_record_of_loc loc_of_shr_record shr_m round_nearest_even].
  rewrite shr_fexp_keep by (unfold moderate; lia). cbn [shr_record_of_loc shr_m].
  replace (e <=? emax - prec)%Z with true by (symmetry; apply Z.leb_le; unfold emax, prec; lia). done.
Qed.

Lemma binary_round_aux_long m e l x :
  (-900 <= Zpos (digits2_pos m) + e <= 900)%Z -> (53 <= Zpos (digits2_pos m))%Z ->
  located x (shr_record_of_loc (Zpos m) l) ->
  rounds_to x e m (binary_round_aux prec emax false (Zpos m) e l).
Proof.
  intros He Hd Hx.
  destruct (shr_fexp_down m e l x ltac:(unfold moderate; lia) Hd Hx) as (mrs & n & Hn & En & E1 & Hl & Hm).
  destruct (round_located _ _ Hl) as [Hr Hb]. unfold binary_round_aux. rewrite E1.
  set (r := round_nearest_even (shr_m mrs) (loc_of_shr_record mrs)) in *.
  destruct (round_final r (e + n)) as (m' & e' & E2 & Hv & Hm' & He'); [lia..|]. rewrite E2.
  exists m', e'. split; [done|]. pose proof (digits2_bound m') as Hdm.
  assert (Zpos (digits2_pos m') = 53)%Z as Hd' by (apply digits2_unique; lia).
  split; [|lia]. cbn [value]. rewrite Hv.
  assert (x * bpow e = x / IZR (2 ^ n) * bpow (e + n)) as Ex.
  { rewrite bpow_add, (bpow_IZR n) by lia. field. apply not_0_IZR. pose proof (Z.pow_pos_nonneg 2 n). lia. }
  rewrite Ex. pose proof (bpow_pos (e + n)) as Hp. pose proof (located_ge _ _ Hl) as Hge.
  assert (IZR (2 ^ 52) <= x / IZR (2 ^ n)) as Hbig.
  { eapply Rle_trans; [|exact Hge]. apply IZR_le. lia. }
  pose proof (half_digit _ _ Hbig Hr) as Hh.
  replace (IZR r * bpow (e + n) - x / IZR (2 ^ n) * bpow (e + n))
    with ((IZR r - x / IZR (2 ^ n)) * bpow (e + n)) by ring.
  rewrite Rabs_mult, (Rabs_pos_eq (bpow (e + n))) by lra. rewrite <- Rmult_assoc.
  apply Rmult_le_compat_r; lra.
Qed.

Lemma binary_round_aux_near m e l x :
  (-900 <= Zpos (digits2_pos m) + e <= 900)%Z ->
  located x (shr_record_of_loc (Zpos m) l) ->
  (53 <= Zpos (digits2_pos m))%Z \/ l = loc_Exact ->
  rounds_to x e m (binary_round_aux prec emax false (Zpos m) e l).
Proof.
  intros He Hx [Hd| ->]; [by apply binary_round_aux_long|].
  destruct (Z.le_gt_cases 53 (Zpos (digits2_pos m))); [by apply binary_round_aux_long|].
  rewrite binary_round_aux_short by lia. exists m, e. split; [done|]. split; [|lia].
  cbn [value]. unfold located in Hx. cbn in Hx. subst x. rewrite Rminus_diag, Rabs_R0.
  pose proof unit_roundoff_pos. pose proof (bpow_pos e).
  assert (0 < IZR (Zpos m)) by (apply IZR_lt; lia). apply Rlt_le, Rmult_lt_0_compat; [lra|].
  apply Rmult_lt_0_compat; lra.
Qed.

(** * Relative distance *)

(** [y] is within the factor [d] of [x]. *)
Definition near (d x y : R) : Prop := (1 - d) * x <= y <= (1 + d) * x.

Section Near.
Lemma near_of_Rabs d x y : Rabs (y - x) <= d * x -> near d x y.
Proof.
  intros H. pose proof (Rle_abs (y - x)) as H1. pose proof (Rle_abs (- (y - x))) as H2.
  rewrite Rabs_Ropp in H2. unfold near. lra.
Qed.

Lemma near_trans a b x y z : 0 <= a <= 1 -> 0 <= b <= 1 -> 0 <= x ->
  near a x y -> near b y z -> near (a + b + a * b) x z.
Proof.
  unfold near. intros Ha Hb Hx [H1 H2] [H3 H4].
  assert (0 <= a * x) by (apply Rmult_le_pos; lra). assert (0 <= b * x) by (apply Rmult_le_pos; lra).
  assert (0 <= a * (b * x)) by (apply Rmult_le_pos; lra). split.
  - apply Rle_trans with ((1 - b) * y); [|lra]. apply Rle_trans with ((1 - b) * ((1 - a) * x)); [lra|].
    apply Rmult_le_compat_l; lra.
  - apply Rle_trans with ((1 + b) * y); [lra|]. apply Rle_trans with ((1 + b) * ((1 + a) * x)); [|right; ring].
    apply Rmult_le_compat_l; lra.
Qed.

Lemma near_mul a b x x' y y' : 0 <= a <= 1 -> 0 <= b <= 1 -> 0 <= x -> 0 <= x' ->
  near a x y -> near b x' y' -> near (a + b + a * b) (x * x') (y * y').
Proof.
  unfold near. intros Ha Hb Hx Hx' [H1 H2] [H3 H4].
  assert (0 <= x * x') by (apply Rmult_le_pos; lra).
  assert (0 <= (1 - a) * x) by (apply Rmult_le_pos; lra).
  assert (0 <= (1 - b) * x') by (apply Rmult_le_pos; lra).
  assert (0 <= a * b) by (apply Rmult_le_pos; lra). split.
  - apply Rle_trans with ((1 - a) * x * ((1 - b) * x')); [nra|].
    apply Rmult_le_compat; lra.
  - apply Rle_trans with ((1 + a) * x * ((1 + b) * x')); [|right; ring].
    apply Rmult_le_compat; lra.
Qed.

Lemma near_div a b x x' y y' : 0 <= a <= /4 -> 0 <= b <= /4 -> 0 <= x -> 0 < x' ->
  near a x y -> near b x' y' -> near (a + 2 * b) (x / x') (y / y').
Proof.
  unfold near. intros Ha Hb Hx Hx' [H1 H2] [H3 H4].
  assert (0 < y') as Hy' by nra.
  assert (x = x / x' * x') as Ex by (field; lra). set (q := x / x') in *.
  assert (0 <= q) as Hq by (unfold q; apply Rmult_le_pos; [lra|apply Rlt_le, Rinv_0_lt_compat; lra]).
  assert (0 <= q * x') by (apply Rmult_le_pos; lra). split.
  - apply Rmult_le_reg_r with y'; [lra|]. replace (y / y' * y') with y by (field; lra).
    apply Rle_trans with ((1 - (a + 2 * b)) * q * ((1 + b) * x')).
    + apply Rmult_le_compat_l; [|lra]. apply Rmult_le_pos; lra.
    + apply Rle_trans with ((1 - a) * (q * x')); [|rewrite <- Ex; lra].
      replace ((1 - (a + 2 * b)) * q * ((1 + b) * x')) with ((1 - (a + 2 * b)) * (1 + b) * (q * x')) by ring.
      apply Rmult_le_compat_r; nra.
  - apply Rmult_le_reg_r with y'; [lra|]. replace (y / y' * y') with y by (field; lra).
    apply Rle_trans with ((1 + (a + 2 * b)) * q * ((1 - b) * x')).
    + apply Rle_trans with ((1 + a) * (q * x')); [rewrite <- Ex; lra|].
      replace ((1 + (a + 2 * b)) * q * ((1 - b) * x')) with ((1 + (a + 2 * b)) * (1 - b) * (q * x')) by ring.
      apply Rmult_le_compat_r; nra.
    + apply Rmult_le_compat_l; [|lra]. apply Rmult_le_pos; lra.
Qed.
End Near.

(** * The operations on positive numbers *)

(** The conversion of a 64-bit count to [double]. *)
Definition of_u64 (z : Z) : spec_float := binary_normalize prec emax z 0 false.
Definition mul : spec_float -> spec_float -> spec_float := SFmul prec emax.
Definition div : spec_float -> spec_float -> spec_float := SFdiv prec emax.
Definition sub : spec_float -> spec_float -> spec_float := SFsub prec emax.

(** A positive number with at most 53 digits whose binary point is near. *)
Definition positive_double (lo hi : Z) (f : spec_float) : Prop :=
  exists m e, f = S754_finite false m e /\
    (lo <= Zpos (digits2_pos m) + e <= hi)%Z /\ (Zpos (digits2_pos m) <= 53)%Z.

Lemma positive_value lo hi f : positive_double lo hi f -> 0 < value f.
Proof.
  intros (m & e & -> & _). cbn [value]. apply Rmult_lt_0_compat; [apply IZR_lt; lia|apply bpow_pos].
Qed.

Lemma rounds_to_positive x e m f lo hi : rounds_to x e m f ->
  (lo <= Zpos (digits2_pos m) + e < hi)%Z ->
  positive_double lo hi f /\ near unit_roundoff (x * bpow e) (value f).
Proof.
  intros (m' & e' & -> & H1 & H2 & H3) Hb. split; [exists m', e'; split; [done|lia]|].
  by apply near_of_Rabs.
Qed.

Lemma digits_mul m n :
  (Zpos (digits2_pos m) + Zpos (digits2_pos n) - 1 <= Zpos (digits2_pos (m * n))
     <= Zpos (digits2_pos m) + Zpos (digits2_pos n))%Z.
Proof.
  destruct (digits2_bound m) as [M1 M2], (digits2_bound n) as [N1 N2], (digits2_bound (m * n)) as [P1 P2].
  rewrite Pos2Z.inj_mul in P1, P2.
  set (a := Zpos (digits2_pos m)) in *. set (b := Zpos (digits2_pos n)) in *.
  set (c := Zpos (digits2_pos (m * n))) in *. assert (1 <= a)%Z by lia. assert (1 <= b)%Z by lia.
  assert (2 ^ (a - 1 + (b - 1)) < 2 ^ c)%Z as H1.
  { eapply Z.le_lt_trans; [|exact P2]. rewrite Z.pow_add_r by lia. nia. }
  assert (2 ^ (c - 1) < 2 ^ (a + b))%Z as H2.
  { eapply Z.le_lt_trans; [exact P1|]. rewrite Z.pow_add_r by lia. nia. }
  apply Z.pow_lt_mono_r_iff in H1, H2; lia.
Qed.

Lemma mul_near x y a b c d :
  positive_double a b x -> positive_double c d y -> (-400 <= a)%Z -> (b <= 400)%Z ->
  (-400 <= c)%Z -> (d <= 400)%Z ->
  positive_double (a + c - 1) (b + d + 1) (mul x y) /\ near unit_roundoff (value x * value y) (value (mul x y)).
Proof.
  intros (m & e & -> & Hb & Hd) (n & f & -> & Hb' & Hd') Ha Hbb Hc Hdd.
  pose proof (digits_mul m n) as Hm. cbn [value mul SFmul xorb].
  replace (IZR (Z.pos m) * bpow e * (IZR (Z.pos n) * bpow f)) with (IZR (Z.pos (m * n)) * bpow (e + f))
    by (rewrite bpow_add, Pos2Z.inj_mul, mult_IZR; ring).
  apply rounds_to_positive with (m := (m * n)%positive); [|lia].
  apply binary_round_aux_near; [lia|reflexivity|by right].
Qed.

Lemma located_exact m : located (IZR (Zpos m)) (shr_record_of_loc (Zpos m) loc_Exact).
Proof. reflexivity. Qed.

(** The remainder of a division says where the quotient is. *)
Lemma new_location_located q r n : (0 < n)%Z -> (0 <= r < n)%Z ->
  located (IZR (q * n + r) / IZR n) (shr_record_of_loc q (new_location n r)).
Proof.
  intros Hn Hr. assert (0 < IZR n) as Hn' by (apply IZR_lt; lia).
  replace (IZR (q * n + r) / IZR n) with (IZR q + IZR r / IZR n) by (rewrite plus_IZR, mult_IZR; field; lra).
  set (x := IZR r / IZR n). assert (IZR r = x * IZR n) as Ex by (unfold x; field; lra).
  assert (forall y, IZR r = y * IZR n -> x = y) as Heq.
  { intros y Hy. apply Rmult_eq_reg_r with (IZR n); [|lra]. lra. }
  assert (forall y, IZR r < y * IZR n -> x < y) as Hlt.
  { intros y Hy. apply Rmult_lt_reg_r with (IZR n); [exact Hn'|]. lra. }
  assert (forall y, y * IZR n < IZR r -> y < x) as Hgt.
  { intros y Hy. apply Rmult_lt_reg_r with (IZR n); [exact Hn'|]. lra. }
  assert ((r = 0%Z -> x = 0) /\ ((0 < r)%Z -> 0 < x) /\ x < 1 /\ ((2 * r < n)%Z -> x < /2) /\
    ((2 * r)%Z = n -> x = /2) /\ ((n < 2 * r)%Z -> /2 < x)) as (H0 & Hp & H1 & Hl & Hm & Hg).
  { repeat split; intros.
    - apply Heq. subst r. lra.
    - apply Hgt. rewrite Rmult_0_l. apply IZR_lt. lia.
    - apply Hlt. rewrite Rmult_1_l. apply IZR_lt. lia.
    - apply Hlt. apply IZR_lt in H. rewrite mult_IZR in H. lra.
    - apply Heq. apply (f_equal IZR) in H. rewrite mult_IZR in H. lra.
    - apply Hgt. apply IZR_lt in H. rewrite mult_IZR in H. lra. }
  clearbody x. unfold new_location, new_location_even, new_location_odd.
  destruct (Z.even n) eqn:En; cbv beta; (destruct (Z.eqb_spec r 0) as [Er|Er]; [cbn; rewrite (H0 Er); lra|]);
    assert (0 < x) by (apply Hp; lia).
  - destruct (Z.compare_spec (2 * r) n) as [C|C|C]; cbn.
    + rewrite (Hm C). lra.
    + specialize (Hl C). lra.
    + specialize (Hg C). lra.
  - assert ((2 * r)%Z <> n) by (intros <-; rewrite Z.even_mul in En; done).
    destruct (Z.compare_spec (2 * r + 1) n) as [C|C|C]; cbn.
    + specialize (Hl ltac:(lia)). lra.
    + specialize (Hl ltac:(lia)). lra.
    + specialize (Hg ltac:(lia)). lra.
Qed.

(** A quotient of numbers with as many digits as division takes has 53 or 54 digits. *)
Lemma quotient_digits m n q r (s := (Zpos (digits2_pos n) - Zpos (digits2_pos m) + 53)%Z) :
  (0 <= s)%Z -> (Zpos m * 2 ^ s = Zpos n * q + r)%Z -> (0 <= r < Zpos n)%Z ->
  exists q', q = Zpos q' /\ (53 <= Zpos (digits2_pos q') <= 54)%Z.
Proof.
  intros Hs Hq Hr. destruct (digits2_bound m) as [M1 M2], (digits2_bound n) as [N1 N2].
  set (dm := Zpos (digits2_pos m)) in *. set (dn := Zpos (digits2_pos n)) in *.
  assert (1 <= dm)%Z by lia. assert (1 <= dn)%Z by lia.
  assert (2 ^ (dn + 52) <= Zpos m * 2 ^ s)%Z as Hlow.
  { replace (dn + 52)%Z with (dm - 1 + s)%Z by (unfold s; lia). rewrite Z.pow_add_r by lia. nia. }
  assert (Zpos m * 2 ^ s < 2 ^ (dn + 53))%Z as Hhigh.
  { replace (dn + 53)%Z with (dm + s)%Z by (unfold s; lia). rewrite Z.pow_add_r by lia. nia. }
  rewrite Z.pow_add_r in Hlow, Hhigh by lia.
  replace (2 ^ dn)%Z with (2 * 2 ^ (dn - 1))%Z in Hhigh by (rewrite <- Z.pow_succ_r by lia; f_equal; lia).
  assert (2 ^ 52 <= q < 2 ^ 54)%Z as Hqb by nia.
  destruct q as [|q|q]; [lia| |lia]. exists q. split; [done|].
  destruct (digits2_bound q) as [Q1 Q2].
  assert (2 ^ 52 < 2 ^ Zpos (digits2_pos q))%Z as Q3 by lia.
  assert (2 ^ (Zpos (digits2_pos q) - 1) < 2 ^ 54)%Z as Q4 by lia.
  apply Z.pow_lt_mono_r_iff in Q3, Q4; lia.
Qed.

Lemma SFdiv_core_near m e n f (s := (Zpos (digits2_pos n) - Zpos (digits2_pos m) + 53)%Z) :
  (Zpos (digits2_pos m) <= 53)%Z -> (-900 <= Zpos (digits2_pos m) + e - (Zpos (digits2_pos n) + f) <= 900)%Z ->
  exists q l, SFdiv_core_binary prec emax (Zpos m) e (Zpos n) f = (Zpos q, e - f - s, l)%Z /\
    (53 <= Zpos (digits2_pos q) <= 54)%Z /\
    located (IZR (Zpos m) * IZR (2 ^ s) / IZR (Zpos n)) (shr_record_of_loc (Zpos q) l).
Proof.
  intros Hm He. unfold SFdiv_core_binary. cbn [Zdigits2].
  replace (Z.min _ (e - f)) with (e - f - s)%Z by (unfold s, fexp, emin, prec, emax in *; lia).
  replace (e - f - (e - f - s))%Z with s by lia. assert (0 < s)%Z as Hs by (unfold s; lia).
  replace (match s with Z0 => Z.pos m | Z.pos _ => Z.shiftl (Z.pos m) s | Z.neg _ => 0%Z end)
    with (Zpos m * 2 ^ s)%Z by (rewrite <- Z.shiftl_mul_pow2 by lia; destruct s; [lia|done|lia]).
  pose proof (Z_div_mod (Zpos m * 2 ^ s) (Zpos n) ltac:(lia)) as Hdm.
  destruct (Z.div_eucl (Zpos m * 2 ^ s) (Zpos n)) as [q r]. destruct Hdm as [Hq Hr].
  destruct (quotient_digits m n q r ltac:(fold s; lia) Hq Hr) as (q' & -> & Hd).
  eexists q', _. split; [done|]. split; [done|]. rewrite <- mult_IZR, Hq, (Z.mul_comm (Zpos n)).
  apply new_location_located; lia.
Qed.

Lemma div_near x y a b c d :
  positive_double a b x -> positive_double c d y -> (-200 <= a)%Z -> (b <= 200)%Z ->
  (-200 <= c)%Z -> (d <= 200)%Z ->
  positive_double (a - d) (b - c + 2) (div x y) /\ near unit_roundoff (value x / value y) (value (div x y)).
Proof.
  intros (m & e & -> & Hb & Hd) (n & f & -> & Hb' & Hd') Ha Hbb Hc Hdd.
  destruct (SFdiv_core_near m e n f) as (q & l & E & Hq & Hl); [lia..|].
  cbn [value div SFdiv xorb]. unfold div, SFdiv. rewrite E. set (s := (_ + 53)%Z) in *.
  assert (1 <= s)%Z as Hs by (unfold s; lia).
  replace (IZR (Z.pos m) * bpow e / (IZR (Z.pos n) * bpow f))
    with (IZR (Zpos m) * IZR (2 ^ s) / IZR (Zpos n) * bpow (e - f - s)).
  - apply rounds_to_positive with (m := q); [|unfold s; lia].
    apply binary_round_aux_near; [unfold s; lia|exact Hl|left; lia].
  - rewrite <- bpow_IZR by lia. replace (e - f - s)%Z with (e + (- f + - s))%Z by lia.
    rewrite !bpow_add, !bpow_inv. pose proof (bpow_pos f). pose proof (bpow_pos s). field.
    repeat split; try lra. apply not_0_IZR. lia.
Qed.

Section Conversion.
Lemma iter_xO m k : Zpos (Pos.iter xO m k) = (Zpos m * 2 ^ Zpos k)%Z.
Proof.
  induction k as [|k IH] using Pos.peano_ind; [cbn; lia|].
  rewrite Pos.iter_succ, Pos2Z.inj_succ, Z.pow_succ_r by lia. lia.
Qed.

Lemma digits_iter m k : Zpos (digits2_pos (Pos.iter xO m k)) = (Zpos (digits2_pos m) + Zpos k)%Z.
Proof.
  induction k as [|k IH] using Pos.peano_ind; [cbn; lia|].
  rewrite Pos.iter_succ. cbn [digits2_pos]. lia.
Qed.

(** The shift that gives a short number 53 digits. *)
Lemma shl_align_near m : (Zpos (digits2_pos m) <= 64)%Z ->
  exists m' e, shl_align m 0 (fexp prec emax (Zpos (digits2_pos m) + 0)) = (m', e) /\
    (Zpos (digits2_pos m') + e = Zpos (digits2_pos m))%Z /\ IZR (Zpos m') * bpow e = IZR (Zpos m).
Proof.
  intros Hd. unfold shl_align. destruct (fexp prec emax (Z.pos (digits2_pos m) + 0) - 0)%Z eqn:E.
  1, 2: exists m, 0%Z; rewrite bpow_0; split; [done|split; [lia|lra]].
  exists (Pos.iter xO m p), (Z.neg p).
  replace (fexp prec emax (Z.pos (digits2_pos m) + 0)) with (Z.neg p) by lia. split; [done|].
  rewrite digits_iter. split; [lia|]. rewrite iter_xO, mult_IZR, <- bpow_IZR by lia.
  rewrite Rmult_assoc, <- bpow_add. replace (Z.pos p + Z.neg p)%Z with 0%Z by lia. rewrite bpow_0. lra.
Qed.

Lemma of_u64_near z : (0 < z < 2 ^ 64)%Z ->
  positive_double 1 65 (of_u64 z) /\ near unit_roundoff (IZR z) (value (of_u64 z)).
Proof.
  intros Hz. destruct z as [|p|p]; [lia| |lia]. unfold of_u64. cbn [binary_normalize]. unfold binary_round.
  destruct (digits2_bound p) as [P1 P2].
  assert (1 <= Zpos (digits2_pos p) <= 64)%Z as Hd.
  { split; [lia|]. assert (2 ^ (Zpos (digits2_pos p) - 1) < 2 ^ 64)%Z as H by lia.
    apply Z.pow_lt_mono_r_iff in H; lia. }
  destruct (shl_align_near p ltac:(lia)) as (m & e & E & Hde & Hv). rewrite E, <- Hv.
  apply rounds_to_positive with (m := m); [|lia].
  apply binary_round_aux_near; [lia|reflexivity|by right].
Qed.

Lemma of_u64_0 : of_u64 0 = S754_zero false.
Proof. reflexivity. Qed.
End Conversion.

(** * Truncation *)

(** The conversion of a [double] to [uint64_t]: the fraction is dropped; a value whose
    integer part is not representable has no defined conversion. *)
Definition to_u64 (f : spec_float) : outcome Z :=
  match f with
  | S754_zero _ => Val 0%Z
  | S754_finite s m e =>
    let v := if (0 <=? e)%Z then (Zpos m * 2 ^ e)%Z else (Zpos m / 2 ^ (- e))%Z in
    if s then (if (v =? 0)%Z then Val 0%Z else Fault UndefinedBehaviour)
    else if (v <? 2 ^ 64)%Z then Val v else Fault UndefinedBehaviour
  | S754_infinity _ | S754_nan => Fault UndefinedBehaviour
  end.

Lemma to_u64_floor lo hi f : positive_double lo hi f -> value f < IZR (2 ^ 64) ->
  exists v, to_u64 f = Val v /\ is_u64 v /\ IZR v <= value f < IZR v + 1.
Proof.
  intros (m & e & -> & _) Hlt. cbn [value to_u64] in *.
  set (v := if (0 <=? e)%Z then _ else _).
  assert ((0 <= v)%Z /\ IZR v <= IZR (Z.pos m) * bpow e < IZR v + 1) as [H0 [H1 H2]].
  { unfold v. destruct (Z.leb_spec 0 e).
    - split; [lia|]. rewrite bpow_IZR, <- mult_IZR by lia. lra.
    - assert (0 < 2 ^ (- e))%Z as Hp by (apply Z.pow_pos_nonneg; lia). split; [apply Z.div_pos; lia|].
      assert (bpow e * IZR (2 ^ (- e)) = 1) as Hb.
      { rewrite <- bpow_IZR by lia. rewrite Rmult_comm. apply bpow_opp. }
      pose proof (Z.div_mod (Zpos m) (2 ^ (- e)) ltac:(lia)) as Hq.
      pose proof (Z.mod_pos_bound (Zpos m) (2 ^ (- e)) Hp) as Hr.
      set (q := (Zpos m / 2 ^ (- e))%Z) in *. set (r := (Zpos m mod 2 ^ (- e))%Z) in *.
      rewrite Hq, plus_IZR, mult_IZR. pose proof (bpow_pos e).
      replace ((IZR (2 ^ (- e)) * IZR q + IZR r) * bpow e) with (IZR q + IZR r * bpow e)
        by (rewrite <- (Rmult_1_r (IZR q)) at 1; rewrite <- Hb; ring).
      assert (0 <= IZR r) by (apply IZR_le; lia).
      assert (IZR r < IZR (2 ^ (- e))) by (apply IZR_lt; lia).
      assert (0 <= IZR r * bpow e) by (apply Rmult_le_pos; lra).
      assert (IZR r * bpow e < 1) by (rewrite <- Hb, Rmult_comm; apply Rmult_lt_compat_l; lra). lra. }
  assert (v < 2 ^ 64)%Z as Hv by (apply lt_IZR; lra).
  exists v. destruct (Z.ltb_spec v (2 ^ 64)); [|lia]. split; [done|]. split; [split; lia|lra].
Qed.

(** * Exact differences *)

(** Numbers below [2 ^ 53] have a representation with exactly 53 digits, and every way of
    writing such a number rounds to it. *)
Section Exact.
Definition scaled (p : positive) (k : Z) : positive := Z.to_pos (Zpos p * 2 ^ k).

Lemma scaled_spec p k : (0 <= k)%Z -> Zpos (scaled p k) = (Zpos p * 2 ^ k)%Z.
Proof. intros Hk. unfold scaled. apply Z2Pos.id. pose proof (Z.pow_pos_nonneg 2 k). lia. Qed.

Lemma digits_scaled p k : (0 <= k)%Z -> Zpos (digits2_pos (scaled p k)) = (Zpos (digits2_pos p) + k)%Z.
Proof.
  intros Hk. destruct (digits2_bound p) as [P1 P2]. apply digits2_unique; [lia|].
  rewrite scaled_spec by done.
  replace (Zpos (digits2_pos p) + k - 1)%Z with (Zpos (digits2_pos p) - 1 + k)%Z by lia.
  rewrite !Z.pow_add_r by lia. pose proof (Z.pow_pos_nonneg 2 k). nia.
Qed.

Lemma iter_scaled p k : Pos.iter xO p k = scaled p (Zpos k).
Proof. apply Pos2Z.inj. by rewrite iter_xO, scaled_spec by lia. Qed.

Lemma scaled_scaled p j k : (0 <= j)%Z -> (0 <= k)%Z -> scaled (scaled p j) k = scaled p (j + k).
Proof. intros. apply Pos2Z.inj. rewrite !scaled_spec, Z.pow_add_r by lia. lia. Qed.

Lemma scaled_0 p : scaled p 0 = p.
Proof. apply Pos2Z.inj. rewrite scaled_spec by lia. lia. Qed.

Lemma located_integer n mrs : located (IZR n) mrs -> mrs = {| shr_m := n; shr_r := false; shr_s := false |}.
Proof.
  destruct mrs as [m r s]. unfold located. cbn [shr_m shr_r shr_s]. intros H.
  assert (forall a, IZR m < IZR n < IZR m + a -> a <= 1 -> False) as Hno.
  { intros a [H1 H2] Ha. apply lt_IZR in H1. assert (IZR n < IZR (m + 1)) as H3 by (rewrite plus_IZR; lra).
    apply lt_IZR in H3. lia. }
  destruct r, s.
  - destruct (Hno 1); lra.
  - destruct (Hno 1); lra.
  - destruct (Hno (/2)); lra.
  - apply eq_IZR in H. by subst.
Qed.

(** The digits of [p], followed by as many zeros as make 53. *)
Definition canonical (p : positive) : spec_float :=
  S754_finite false (scaled p (53 - Zpos (digits2_pos p))) (Zpos (digits2_pos p) - 53).

Lemma shr_fexp_scaled p k : (Zpos (digits2_pos p) <= 53)%Z -> (53 - Zpos (digits2_pos p) <= k <= 53)%Z ->
  shr_fexp prec emax (Zpos (scaled p k)) (- k) loc_Exact =
    (shr_record_of_loc (Zpos (scaled p (53 - Zpos (digits2_pos p)))) loc_Exact, Zpos (digits2_pos p) - 53)%Z.
Proof.
  intros Hd Hk. pose proof (digits_scaled p k ltac:(lia)) as Hs. set (d := Zpos (digits2_pos p)) in *.
  destruct (shr_fexp_down (scaled p k) (- k) loc_Exact (IZR (Zpos (scaled p k)))) as (mrs & n & Hn & En & E & Hl & _);
    [unfold moderate; lia|lia|apply located_exact|].
  rewrite E. replace (- k + n)%Z with (d - 53)%Z by lia. f_equal.
  apply located_integer. replace (IZR (Zpos (scaled p (53 - d)))) with (IZR (Zpos (scaled p k)) / IZR (2 ^ n)); [done|].
  rewrite !scaled_spec by lia. replace k with (53 - d + n)%Z by lia. rewrite Z.pow_add_r by lia.
  rewrite !mult_IZR. field. apply not_0_IZR. pose proof (Z.pow_pos_nonneg 2 n). lia.
Qed.

Lemma binary_round_aux_canonical p k :
  (Zpos (digits2_pos p) <= 53)%Z -> (53 - Zpos (digits2_pos p) <= k <= 53)%Z ->
  binary_round_aux prec emax false (Zpos (scaled p k)) (- k) loc_Exact = canonical p.
Proof.
  intros Hd Hk. unfold binary_round_aux. rewrite shr_fexp_scaled by done.
  cbn [shr_record_of_loc loc_of_shr_record shr_m round_nearest_even].
  rewrite shr_fexp_keep; [|unfold moderate; rewrite digits_scaled by lia; lia|rewrite digits_scaled by lia; lia].
  cbn [shr_record_of_loc shr_m].
  replace (_ <=? emax - prec)%Z with true by (symmetry; apply Z.leb_le; unfold emax, prec; lia). done.
Qed.

Lemma binary_round_canonical p k : (Zpos (digits2_pos p) <= 53)%Z -> (0 <= k <= 53)%Z ->
  binary_round prec emax false (scaled p k) (- k) = canonical p.
Proof.
  intros Hd Hk. unfold binary_round, shl_align. rewrite digits_scaled by lia.
  destruct (fexp prec emax (Z.pos (digits2_pos p) + k + - k) - - k)%Z as [|q|q] eqn:E;
    unfold fexp, emin, prec, emax in E.
  1, 2: apply binary_round_aux_canonical; lia.
  rewrite iter_scaled, scaled_scaled by lia.
  replace (fexp prec emax (Z.pos (digits2_pos p) + k + - k)) with (- (k + Zpos q))%Z
    by (unfold fexp, emin, prec, emax; lia).
  apply binary_round_aux_canonical; lia.
Qed.

Lemma of_u64_exact p : (Zpos p < 2 ^ 53)%Z -> of_u64 (Zpos p) = canonical p.
Proof.
  intros Hp. unfold of_u64. cbn [binary_normalize]. rewrite <- (scaled_0 p) at 1.
  apply (binary_round_canonical p 0); [|lia].
  destruct (digits2_bound p) as [H _]. assert (2 ^ (Zpos (digits2_pos p) - 1) < 2 ^ 53)%Z as H' by lia.
  apply Z.pow_lt_mono_r_iff in H'; lia.
Qed.

Lemma digits_le p q : (Zpos p <= Zpos q)%Z -> (Zpos (digits2_pos p) <= Zpos (digits2_pos q))%Z.
Proof.
  intros H. destruct (digits2_bound p) as [P _], (digits2_bound q) as [_ Q].
  assert (2 ^ (Zpos (digits2_pos p) - 1) < 2 ^ Zpos (digits2_pos q))%Z as H' by lia.
  apply Z.pow_lt_mono_r_iff in H'; lia.
Qed.

Lemma digits_53 p : (Zpos p < 2 ^ 53)%Z -> (Zpos (digits2_pos p) <= 53)%Z.
Proof.
  intros H. apply (digits_le p 9007199254740991). lia.
Qed.

(** The difference of two counts below [2 ^ 53] is exact. *)
Lemma sub_of_u64 a b : (0 <= b <= a)%Z -> (a < 2 ^ 53)%Z -> sub (of_u64 a) (of_u64 b) = of_u64 (a - b).
Proof.
  intros Hab Ha. destruct b as [|q|q]; [| |lia].
  - rewrite of_u64_0, Z.sub_0_r. destruct a as [|p|p]; [done| |lia]. by rewrite of_u64_exact.
  - destruct a as [|p|p]; [lia| |lia]. rewrite !of_u64_exact by lia. unfold canonical.
    pose proof (digits_53 p Ha). pose proof (digits_53 q ltac:(lia)). pose proof (digits_le q p ltac:(lia)).
    set (dp := Zpos (digits2_pos p)) in *. set (dq := Zpos (digits2_pos q)) in *.
    assert (1 <= dq)%Z by (unfold dq; lia).
    cbn [sub SFsub cond_Zopp]. rewrite Z.min_r by lia. unfold shl_align at 2.
    replace (dq - 53 - (dq - 53))%Z with 0%Z by lia. cbn [fst].
    assert (fst (shl_align (scaled p (53 - dp)) (dp - 53) (dq - 53)) = scaled p (53 - dq)) as ->.
    { unfold shl_align. destruct (dq - 53 - (dp - 53))%Z as [|n|n] eqn:E; [|lia|]; cbn [fst].
      - f_equal. lia.
      - rewrite iter_scaled, scaled_scaled by lia. f_equal. lia. }
    rewrite !scaled_spec by lia. rewrite <- Z.mul_sub_distr_r.
    destruct (Zpos p - Zpos q)%Z as [|r|r] eqn:E; [done| |lia].
    rewrite of_u64_exact by lia. rewrite <- (scaled_spec r) by lia. cbn [binary_normalize].
    replace (dq - 53)%Z with (- (53 - dq))%Z by lia. apply binary_round_canonical; [|lia].
    apply digits_53. lia.
Qed.
End Exact.
