(* ===== verification/PerfUtil.v ===== *)
(** Event attributes and counters ([perf_util.h], [perf_util.cpp]); the inline functions
    of the header are in [Scale.v]. *)
From stdpp Require Import base numbers option list strings.
From Stdlib Require Import ZArith Lia Ascii.
From S2P Require Import Prelude.
From S2P Require Import Cxx.
From S2P Require Import PerfMmap.

Definition EXCLUDE : Z := 1.
Definition INCLUDE : Z := 0.
Definition EXCLUDE_CALLCHAIN : Z := EXCLUDE.
Definition INCLUDE_CALLCHAIN : Z := INCLUDE.
Definition PERF_FORMAT_TOTAL_TIME_ENABLED : Z := Z.shiftl 1 0.
Definition PERF_FORMAT_TOTAL_TIME_RUNNING : Z := Z.shiftl 1 1.

(** The fields of [struct perf_event_attr] that the program reads or writes;
    [pa_event] is what the encoding of the event's name sets. *)
Record perf_event_attr := mk_attr {
  pa_event : Z;
  pa_size : Z;
  sample_period : Z;
  sample_type : Z;
  read_format : Z;
  disabled : Z;
  exclude_kernel : Z;
  exclude_hv : Z;
  exclude_idle : Z;
  freq : Z;
  precise_ip : Z;
  exclude_callchain_kernel : Z;
  exclude_callchain_user : Z;
  wakeup_events : Z
}.
Definition zero_attr : perf_event_attr := mk_attr 0 0 0 0 0 0 0 0 0 0 0 0 0 0.

Definition set_precise_ip p a := mk_attr (pa_event a) (pa_size a) (sample_period a) (sample_type a)
  (read_format a) (disabled a) (exclude_kernel a) (exclude_hv a) (exclude_idle a) (freq a) p
  (exclude_callchain_kernel a) (exclude_callchain_user a) (wakeup_events a).
Definition set_event e size a := mk_attr e size (sample_period a) (sample_type a)
  (read_format a) (disabled a) (exclude_kernel a) (exclude_hv a) (exclude_idle a) (freq a)
  (precise_ip a) (exclude_callchain_kernel a) (exclude_callchain_user a) (wakeup_events a).

Section Util.
(** [sizeof(struct perf_event_attr)], and [pfm_get_os_event_encoding] on the
    name, which also sees the attributes it fills in. *)
Context (sizeof_attr : Z) (pfm_encode : str -> perf_event_attr -> option perf_event_attr).

Definition perf_encode_event (event : str) (a : perf_event_attr) : bool * perf_event_attr :=
  let a := set_event (pa_event a) sizeof_attr a in
  match pfm_encode (c_str event) a with
  | Some a => (true, a)
  | None => (false, a)
  end.

(** On the kernels the agent is built for, with a version of 3.7 or later. *)
Definition perf_attr_init (a : perf_event_attr) (threshold more_sample_type : Z) : bool * perf_event_attr :=
  let st := more_sample_type in
  let st := Z.lor st PERF_SAMPLE_IP in
  let st := Z.lor st PERF_SAMPLE_CALLCHAIN in
  let st := Z.lor st PERF_SAMPLE_ADDR in
  let st := Z.lor st PERF_SAMPLE_CPU in
  let fmt := Z.lor PERF_FORMAT_TOTAL_TIME_ENABLED PERF_FORMAT_TOTAL_TIME_RUNNING in
  (true, mk_attr (pa_event a) sizeof_attr threshold st fmt 1 1 1 1
           (if threshold =? 0 then 1 else 0) (precise_ip a)
           EXCLUDE_CALLCHAIN EXCLUDE_CALLCHAIN 1).

(** [read(fd, val, 24)] returns a count or -1 and the bytes it stores; the
    comparison converts the count to the type of [sizeof]. *)
Context (sys_read : Z -> Z -> Z * list Z).

Definition perf_read_event_counter (fd : Z) : bool * list Z :=
  if fd <? 0 then (false, [])
  else
    let '(ret, bytes) := sys_read fd 24 in
    if u64 (s32 ret) <? 24 then (false, bytes) else (true, bytes).
End Util.

(** The attributes with which [process_event_list] leaves an event. *)
Definition initialised (a : perf_event_attr) : Prop :=
  exists sizeof_attr old threshold, a = (perf_attr_init sizeof_attr old threshold PERF_SAMPLE_TID).2.

(** A failed [read] is reported as success. *)
Lemma perf_read_event_counter_failed sys_read fd :
  0 <= fd -> sys_read fd 24 = (-1, []) ->
  perf_read_event_counter sys_read fd = (true, []).
Proof.
  intros Hfd Hr. unfold perf_read_event_counter. destruct (Z.ltb_spec fd 0); [lia|].
  by rewrite Hr.
Qed.

Lemma perf_attr_init_samples sizeof_attr a threshold more flag :
  flag ∈ [PERF_SAMPLE_IP; PERF_SAMPLE_ADDR; PERF_SAMPLE_CPU; PERF_SAMPLE_CALLCHAIN] ->
  has_flag (sample_type (perf_attr_init sizeof_attr a threshold more).2) flag = true.
Proof.
  intros Hf. unfold has_flag. apply negb_true_iff, Z.eqb_neq. intros H0.
  assert (exists i, flag = 2 ^ i /\ 0 <= i /\
    Z.testbit (sample_type (perf_attr_init sizeof_attr a threshold more).2) i = true)
    as (i & -> & Hi & Hb).
  { repeat (apply elem_of_cons in Hf as [->|Hf]; [|]); [exists 0|exists 3|exists 7|exists 5|by inversion Hf];
      (split; [done|split; [lia|]]); unfold perf_attr_init; cbn [snd sample_type];
      rewrite !Z.lor_spec; simpl; by rewrite ?orb_true_r. }
  apply (f_equal (fun z => Z.testbit z i)) in H0.
  rewrite Z.land_spec, Hb, Z.pow2_bits_true, Z.bits_0 in H0 by done. done.
Qed.
