(* ===== verification/Scale.v ===== *)
(** Scaling of multiplexed counters ([perf_util.h]): the inline functions that estimate
    what a counter would have read had its event been scheduled all the time. *)
From stdpp Require Import base numbers list.
From Stdlib Require Import ZArith Lia Reals Lra SpecFloat.
From S2P Require Import Prelude.
From S2P Require Import Double.

(** The three elements of [uint64_t *values]. *)
Record values_t := mk_values {
  raw_count : Z;      (* values[0] *)
  time_enabled : Z;   (* values[1] *)
  time_running : Z    (* values[2] *)
}.
Definition values_ok (v : values_t) : Prop :=
  is_u64 (raw_count v) /\ is_u64 (time_enabled v) /\ is_u64 (time_running v).

(** The two texts given to [warnx]. *)
Inductive scale_warning := RawCountNotZero | RunningAboveEnabled.
#[global] Instance scale_warning_eq_dec : EqDecision scale_warning.
Proof. solve_decision. Defined.

Definition scale_warnings (values : values_t) : list scale_warning :=
  (if (time_running values =? 0) && (time_enabled values =? 0) && negb (raw_count values =? 0)
   then [RawCountNotZero] else []) ++
  (if time_enabled values <? time_running values then [RunningAboveEnabled] else []).

Definition perf_scale (values : values_t) : list scale_warning * outcome Z :=
  (scale_warnings values,
   if negb (time_running values =? 0)
   then to_u64 (div (mul (of_u64 (raw_count values)) (of_u64 (time_enabled values))) (of_u64 (time_running values)))
   else Val 0).

Definition perf_scale_delta (values prev_values : values_t) : list scale_warning * outcome Z :=
  (scale_warnings values,
   if negb (u64 (time_running values - time_running prev_values) =? 0)
   then
     let pval0 := of_u64 (raw_count prev_values) in
     let pval1 := of_u64 (time_enabled prev_values) in
     let pval2 := of_u64 (time_running prev_values) in
     let val0 := of_u64 (raw_count values) in
     let val1 := of_u64 (time_enabled values) in
     let val2 := of_u64 (time_running values) in
     to_u64 (div (mul (sub val0 pval0) (sub val1 pval1)) (sub val2 pval2))
   else Val 0).

(** The literal [1.0]. *)
Definition one : spec_float := S754_finite false 4503599627370496 (-52).

Definition perf_scale_ratio (values : values_t) : spec_float :=
  if time_enabled values =? 0 then S754_zero false
  else div (mul (of_u64 (time_running values)) one) (of_u64 (time_enabled values)).

(** * How close the estimate is *)

Section Close.
Local Open Scope R_scope.

Lemma roundoff_bound : 0 < unit_roundoff <= /1024 /\ 8 * unit_roundoff = / IZR (2 ^ 50).
Proof.
  unfold unit_roundoff. change (2 ^ 53)%Z with (8 * 2 ^ 50)%Z. rewrite mult_IZR.
  assert (128 <= IZR (2 ^ 50)) by (apply IZR_le; lia).
  assert (0 < / IZR (2 ^ 50)) by (apply Rinv_0_lt_compat; lra).
  rewrite Rinv_mult. assert (/ IZR (2 ^ 50) <= /128) by (apply Rinv_le_contravar; lra). lra.
Qed.

(** Three operands within a unit: the five roundings stay within eight units. *)
Lemma three_near x y z X Y Z :
  positive_double 1 65 x -> positive_double 1 65 y -> positive_double 1 65 z -> 0 < X -> 0 < Y -> 0 < Z ->
  near unit_roundoff X (value x) -> near unit_roundoff Y (value y) -> near unit_roundoff Z (value z) ->
  positive_double (-64) 132 (div (mul x y) z) /\
  near (8 * unit_roundoff) (X * Y / Z) (value (div (mul x y) z)).
Proof.
  intros Px Py Pz HX HY HZ Nx Ny Nz. destruct roundoff_bound as [Hu _].
  destruct (mul_near _ _ 1 65 1 65 Px Py ltac:(lia) ltac:(lia) ltac:(lia) ltac:(lia)) as [Pm Nm].
  destruct (div_near _ _ 1 131 1 65 Pm Pz ltac:(lia) ltac:(lia) ltac:(lia) ltac:(lia)) as [Pd Nd].
  split; [exact Pd|]. set (u := unit_roundoff) in *.
  assert (0 <= u * u <= u / 1024) as Hu2 by nra. assert (0 <= u * u * u <= u / 1024) as Hu3 by nra.
  assert (0 <= X * Y) as Ixy by (apply Rmult_le_pos; lra).
  pose proof (near_mul u u X Y _ _ ltac:(lra) ltac:(lra) ltac:(lra) ltac:(lra) Nx Ny) as N1.
  set (d1 := u + u + u * u) in N1.
  pose proof (near_trans d1 u _ _ _ ltac:(unfold d1; lra) ltac:(lra) Ixy N1 Nm) as N2.
  set (d2 := d1 + u + d1 * u) in N2. assert (0 <= d2 <= 4 * u) as Hd2 by (unfold d2, d1; nra).
  pose proof (near_div d2 u _ _ _ _ ltac:(lra) ltac:(lra) Ixy HZ N2 Nz) as N3.
  assert (0 <= X * Y / Z) as Iq.
  { apply Rmult_le_pos; [lra|]. apply Rlt_le, Rinv_0_lt_compat. lra. }
  set (d3 := d2 + 2 * u) in N3. assert (0 <= d3 <= 6 * u) as Hd3 by (unfold d3; lra).
  destruct (near_trans d3 u _ _ _ ltac:(lra) ltac:(lra) Iq N3 Nd) as [N4 N5].
  assert (d3 + u + d3 * u <= 8 * u) by nra.
  unfold near. split; [apply Rle_trans with (2 := N4)|apply Rle_trans with (1 := N5)];
    apply Rmult_le_compat_r; lra.
Qed.

Lemma scale_near a b c : (0 < a < 2 ^ 64)%Z -> (0 < b < 2 ^ 64)%Z -> (0 < c < 2 ^ 64)%Z ->
  let f := div (mul (of_u64 a) (of_u64 b)) (of_u64 c) in
  positive_double (-64) 132 f /\ near (8 * unit_roundoff) (IZR a * IZR b / IZR c) (value f).
Proof.
  intros Ha Hb Hc f. destruct (of_u64_near a Ha), (of_u64_near b Hb), (of_u64_near c Hc).
  apply three_near; try done; apply IZR_lt; lia.
Qed.

Lemma one_near : positive_double 1 65 one /\ near unit_roundoff 1 (value one).
Proof.
  assert (value one = 1) as ->.
  { unfold value, one. replace (-52)%Z with (- (52))%Z by done.
    pose proof (bpow_opp 52) as H. rewrite (bpow_IZR 52) in H by lia. rewrite Rmult_comm. exact H. }
  split; [by eexists _, _|]. destruct roundoff_bound. unfold near. lra.
Qed.

(** The ratio is that of the times up to a part in [2 ^ 50]. *)
Theorem perf_scale_ratio_close v : values_ok v ->
  (time_enabled v = 0%Z -> perf_scale_ratio v = S754_zero false) /\
  ((0 < time_enabled v)%Z -> time_running v = 0%Z -> perf_scale_ratio v = S754_zero false) /\
  ((0 < time_enabled v)%Z -> (0 < time_running v)%Z ->
   near (/ IZR (2 ^ 50)) (IZR (time_running v) / IZR (time_enabled v)) (value (perf_scale_ratio v))).
Proof.
  intros (_ & He & Hr). unfold perf_scale_ratio, is_u64 in *. destruct roundoff_bound as [_ <-].
  split; [by intros ->|]. destruct (Z.eqb_spec (time_enabled v) 0); [by split; intros; lia|].
  destruct (of_u64_near (time_enabled v)) as [Pe Ne]; [lia|]. split; intros _ H0.
  - rewrite H0, of_u64_0. by destruct Pe as (m & e & -> & _).
  - destruct (of_u64_near (time_running v)) as [Pr Nr]; [lia|]. destruct one_near as [P1 N1].
    rewrite <- (Rmult_1_r (IZR (time_running v))).
    apply three_near; done || (apply IZR_lt; lia) || lra.
Qed.

(** In integers: the truncation of a value near [x / c]. *)
Lemma close_integer x c v y : 0 < IZR c -> 0 <= IZR x -> near (8 * unit_roundoff) (IZR x / IZR c) y ->
  IZR v <= y < IZR v + 1 -> (2 ^ 50 * Z.abs (v * c - x) <= x + 2 ^ 50 * c)%Z.
Proof.
  intros Hc Hx [N1 N2] [V1 V2]. destruct roundoff_bound as [Hu E8]. rewrite E8 in N1, N2.
  assert (0 < IZR (2 ^ 50)) as HK by (apply IZR_lt; lia).
  set (q := IZR x / IZR c) in *. assert (IZR x = q * IZR c) as Eq by (unfold q; field; lra).
  assert (IZR (2 ^ 50) * (IZR v * IZR c - IZR x) <= IZR x) as H1.
  { apply Rle_trans with (IZR (2 ^ 50) * (/ IZR (2 ^ 50) * q * IZR c)).
    - apply Rmult_le_compat_l; [lra|]. rewrite Eq.
      replace (IZR v * IZR c - q * IZR c) with ((IZR v - q) * IZR c) by ring.
      apply Rmult_le_compat_r; lra.
    - right. rewrite Eq. field. lra. }
  assert (IZR (2 ^ 50) * (IZR x - IZR v * IZR c) <= IZR x + IZR (2 ^ 50) * IZR c) as H2.
  { apply Rle_trans with (IZR (2 ^ 50) * ((/ IZR (2 ^ 50) * q + 1) * IZR c)).
    - apply Rmult_le_compat_l; [lra|]. rewrite Eq.
      replace (q * IZR c - IZR v * IZR c) with ((q - IZR v) * IZR c) by ring.
      apply Rmult_le_compat_r; lra.
    - right. rewrite Eq. field. lra. }
  assert (2 ^ 50 * (v * c - x) <= x)%Z
    by (apply le_IZR; rewrite mult_IZR, minus_IZR, mult_IZR; exact H1).
  assert (2 ^ 50 * (x - v * c) <= x + 2 ^ 50 * c)%Z
    by (apply le_IZR; rewrite plus_IZR, !mult_IZR, minus_IZR, mult_IZR; exact H2).
  apply lt_IZR in Hc. apply le_IZR in Hx. lia.
Qed.
End Close.

Lemma div_mul_zero a b c : 0 < c < 2 ^ 64 -> is_u64 a -> is_u64 b -> a * b = 0 ->
  div (mul (of_u64 a) (of_u64 b)) (of_u64 c) = S754_zero false.
Proof.
  intros Hc Ha Hb H. destruct (of_u64_near c Hc) as [(m & e & -> & _) _].
  assert (mul (of_u64 a) (of_u64 b) = S754_zero false) as ->; [|done].
  unfold is_u64 in *. apply Z.mul_eq_0 in H as [-> | ->]; rewrite of_u64_0.
  - destruct (Z.eq_dec b 0) as [-> |]; [done|].
    by destruct (of_u64_near b ltac:(lia)) as [(m' & e' & -> & _) _].
  - destruct (Z.eq_dec a 0) as [-> |]; [done|].
    by destruct (of_u64_near a ltac:(lia)) as [(m' & e' & -> & _) _].
Qed.

Lemma scale_below a b c : 0 <= a * b < 2 ^ 63 * c -> 0 < c ->
  (IZR a * IZR b / IZR c < IZR (2 ^ 63))%R /\ (0 <= IZR a * IZR b / IZR c)%R.
Proof.
  intros Hab Hc. assert (0 < IZR c)%R by (apply IZR_lt; lia). rewrite <- mult_IZR. split.
  - apply Rmult_lt_reg_r with (IZR c); [done|].
    replace (IZR (a * b) / IZR c * IZR c)%R with (IZR (a * b)) by (field; lra).
    rewrite <- mult_IZR. apply IZR_lt. lia.
  - apply Rmult_le_pos; [apply IZR_le; lia|]. by apply Rlt_le, Rinv_0_lt_compat.
Qed.

Lemma scale_estimate a b c : is_u64 a -> is_u64 b -> is_u64 c -> 0 < c -> a * b < 2 ^ 63 * c ->
  exists res, to_u64 (div (mul (of_u64 a) (of_u64 b)) (of_u64 c)) = Val res /\ is_u64 res /\
    2 ^ 50 * Z.abs (res * c - a * b) <= a * b + 2 ^ 50 * c.
Proof.
  intros Ha Hb Hc H0 Hs. destruct (Z.eq_dec (a * b) 0) as [E|E].
  { exists 0. rewrite div_mul_zero by (done || unfold is_u64 in *; lia). unfold is_u64. repeat split; lia. }
  unfold is_u64 in Ha, Hb, Hc.
  destruct (scale_near a b c ltac:(lia) ltac:(lia) ltac:(lia)) as [Hp Hn].
  destruct (scale_below a b c ltac:(lia) H0) as [H63 H0q].
  assert (value (div (mul (of_u64 a) (of_u64 b)) (of_u64 c)) < IZR (2 ^ 64))%R as Hlt.
  { eapply Rle_lt_trans; [apply Hn|]. destruct roundoff_bound as [Hu _].
    change (2 ^ 64) with (2 * 2 ^ 63). rewrite mult_IZR. nra. }
  destruct (to_u64_floor _ _ _ Hp Hlt) as (res & -> & Hr & Hf). exists res. split; [done|]. split; [done|].
  eapply close_integer; [apply IZR_lt; lia|apply IZR_le; lia| |exact Hf].
  by rewrite mult_IZR.
Qed.

Lemma scale_warnings_spec v : values_ok v ->
  (RawCountNotZero ∈ scale_warnings v <-> time_running v = 0 /\ time_enabled v = 0 /\ raw_count v <> 0) /\
  (RunningAboveEnabled ∈ scale_warnings v <-> time_enabled v < time_running v).
Proof.
  intros _. unfold scale_warnings. rewrite !elem_of_app.
  destruct (Z.eqb_spec (time_running v) 0), (Z.eqb_spec (time_enabled v) 0), (Z.eqb_spec (raw_count v) 0),
    (Z.ltb_spec (time_enabled v) (time_running v)); cbn [andb negb]; rewrite ?list_elem_of_singleton, ?elem_of_nil;
    intuition (lia || congruence).
Qed.

(** The estimate [count * enabled / running], as long as it is below [2 ^ 63], is off by
    less than one count and a part in [2 ^ 50]; an event that never ran is estimated as
    zero.  The two texts report exactly the inconsistent times. *)
Theorem perf_scale_close v : values_ok v ->
  raw_count v * time_enabled v < 2 ^ 63 * time_running v \/ time_running v = 0 ->
  exists res, perf_scale v = (scale_warnings v, Val res) /\ is_u64 res /\
    (time_running v = 0 -> res = 0) /\
    (0 < time_running v ->
     2 ^ 50 * Z.abs (res * time_running v - raw_count v * time_enabled v)
       <= raw_count v * time_enabled v + 2 ^ 50 * time_running v) /\
    (RawCountNotZero ∈ scale_warnings v <-> time_running v = 0 /\ time_enabled v = 0 /\ raw_count v <> 0) /\
    (RunningAboveEnabled ∈ scale_warnings v <-> time_enabled v < time_running v).
Proof.
  intros Hv Hs. destruct (scale_warnings_spec v Hv) as [W1 W2]. destruct Hv as (Ha & Hb & Hc).
  unfold perf_scale. destruct (Z.eqb_spec (time_running v) 0) as [E|E]; cbn [negb].
  - exists 0. split; [done|]. split; [unfold is_u64; lia|]. split; [done|]. split; [lia|by split].
  - destruct (scale_estimate _ _ _ Ha Hb Hc) as (res & -> & Hr & H); [unfold is_u64 in Hc; lia|lia|].
    exists res. split; [done|]. split; [done|]. split; [done|]. by repeat split_and.
Qed.

(** The difference of two readings is scaled as one reading of the differences, while the
    counters stay below [2 ^ 53] and only grow. *)
Theorem perf_scale_delta_difference v p :
  0 <= raw_count p <= raw_count v -> 0 <= time_enabled p <= time_enabled v ->
  0 <= time_running p <= time_running v ->
  raw_count v < 2 ^ 53 -> time_enabled v < 2 ^ 53 -> time_running v < 2 ^ 53 ->
  snd (perf_scale_delta v p) =
  snd (perf_scale (mk_values (raw_count v - raw_count p) (time_enabled v - time_enabled p)
    (time_running v - time_running p))).
Proof.
  intros H0 H1 H2 B0 B1 B2. unfold perf_scale_delta, perf_scale. cbn [snd raw_count time_enabled time_running].
  rewrite u64_small by (unfold is_u64; lia). by rewrite !sub_of_u64 by lia.
Qed.

(** Examples: the first shows that the estimate of an event that ran all the time is not
    its count; the others that readings out of order have no defined result. *)
Module Examples.
Example full_time_loses_a_count :
  perf_scale (mk_values 42874670729 210125 210125) = ([], Val 42874670728).
Proof. vm_compute. reflexivity. Qed.

Example half_time : perf_scale (mk_values 1000 4000 2000) = ([], Val 2000).
Proof. vm_compute. reflexivity. Qed.

Example never_ran : perf_scale (mk_values 5 0 0) = ([RawCountNotZero], Val 0).
Proof. vm_compute. reflexivity. Qed.

Example estimate_too_big : snd (perf_scale (mk_values (2 ^ 63) 4 1)) = Fault UndefinedBehaviour.
Proof. vm_compute. reflexivity. Qed.

Example delta_backwards :
  snd (perf_scale_delta (mk_values 10 20 20) (mk_values 12 10 10)) = Fault UndefinedBehaviour.
Proof. vm_compute. reflexivity. Qed.

(** Two distinct times above [2 ^ 53] can be the same [double]. *)
Example delta_divides_by_zero :
  snd (perf_scale_delta (mk_values 10 20 (2 ^ 53 + 1)) (mk_values 0 10 (2 ^ 53))) = Fault UndefinedBehaviour.
Proof. vm_compute. reflexivity. Qed.

Example ratio_half : perf_scale_ratio (mk_values 7 10 5) = S754_finite false 4503599627370496 (-53).
Proof. vm_compute. reflexivity. Qed.

Lemma perf_scale_close_witness :
  exists res, snd (perf_scale (mk_values 42874670729 210125 210125)) = Val res /\ is_u64 res /\
    2 ^ 50 * Z.abs (res * 210125 - 42874670729 * 210125) <= 42874670729 * 210125 + 2 ^ 50 * 210125.
Proof.
  destruct (perf_scale_close (mk_values 42874670729 210125 210125)) as (res & E & Hr & _ & H & _).
  - unfold values_ok, is_u64. cbn. lia.
  - left. cbn. lia.
  - exists res. rewrite E. split; [done|]. split; [done|]. apply H. cbn. lia.
Defined.

Lemma perf_scale_delta_difference_witness :
  snd (perf_scale_delta (mk_values 1100 4400 2200) (mk_values 100 400 200)) = Val 2000.
Proof.
  rewrite perf_scale_delta_difference by (cbn; lia). vm_compute. reflexivity.
Defined.
End Examples.
