(* ===== verification/ProfilerSupport.v ===== *)
(** Support of the profiler ([profiler_support.h], [profiler_support.cpp]): the
    metrics that drive watchpoints, the name of the active client, and the
    addresses a sample may have. *)
From stdpp Require Import base numbers option list strings.
From Stdlib Require Import ZArith Lia Ascii.
From S2P Require Import Prelude.
From S2P Require Import Cxx.
From S2P Require Import Metrics.
From S2P Require Import Argument.

Definition NUM_WATERMARK_METRICS : Z := 4.
Definition MAX_BLACK_LIST_ADDRESS : Z := 1024.
Definition MAX_WP_LENGTH : Z := 8.

(** * Macros over addresses *)

Definition MIN (x y : Z) : Z := if x <? y then x else y.

Definition GET_OVERLAP_BYTES (a a_len b b_len : Z) : Z :=
  if b <=? a then MIN a_len (b_len - (s64 a - s64 b)) else MIN b_len (a_len - (s64 b - s64 a)).
Definition ADDRESSES_OVERLAP (addr1 len1 addr2 len2 : Z) : bool :=
  (s64 addr2 <? s64 addr1 + len1) && (s64 addr1 <? s64 addr2 + len2).
Definition FIRST_OVERLAPPED_BYTE_OFFSET_IN_FIRST (a a_len b b_len : Z) : Z :=
  if s64 b <=? s64 a then 0 else s64 b - s64 a.
Definition FIRST_OVERLAPPED_BYTE_OFFSET_IN_SECOND (a a_len b b_len : Z) : Z :=
  if s64 a <=? s64 b then 0 else s64 a - s64 b.
Definition IS_4_BYTE_ALIGNED (addr : Z) : bool := Z.land (u64 addr) 3 =? 0.
Definition IS_8_BYTE_ALIGNED (addr : Z) : bool := Z.land (u64 addr) 7 =? 0.

(** * Watermark metrics *)

(** [curWatermarkId] and [pebs_metric_id]. *)
Record watermark := mk_watermark { curWatermarkId : Z; pebs_metric_id : list Z }.
Definition watermark0 : watermark := mk_watermark 0 (replicate 4 (-1)).

Definition SetupWatermarkMetric (metricId : Z) : prog watermark unit := fun w =>
  if curWatermarkId w =? NUM_WATERMARK_METRICS then Fault AssertFailure
  else Val (tt, mk_watermark (curWatermarkId w + 1)
                  (<[Z.to_nat (curWatermarkId w) := metricId]> (pebs_metric_id w))).

(** The first metric that is set, or -1. *)
Fixpoint first_metric (ids : list Z) : Z :=
  match ids with
  | [] => -1
  | id :: ids => if negb (id =? -1) then id else first_metric ids
  end.

Definition GetClientName (w : watermark) (metric_infos : list metric_info_t) : outcome str :=
  let metricId := first_metric (pebs_metric_id w) in
  cxx_assert (negb (metricId =? -1));;
  match getMetricInfo metricId metric_infos with
  | None => Fault AssertFailure
  | Some metric_info => mret (client_name metric_info)
  end.

(** * The black list *)

(** [BlackListAddressRange_t] *)
Record BlackListAddressRange_t := mk_blrange { startAddr : Z; endAddr : Z }.

(** [blackListAddresses] up to [numBlackListAddresses], and its lock. *)
Record blacklist := mk_blacklist {
  bl_locked : bool;
  blackListAddresses : list BlackListAddressRange_t
}.
Definition numBlackListAddresses (b : blacklist) : Z := Z.of_nat (length (blackListAddresses b)).

Definition blackListedModules : list str :=
  [lit "libpfm.so"; lit "libxed.so"; lit "libxed-ild.so"; lit "libpreload.so"; lit "libagent.so";
   lit "libstdc++.so"; lit "libjvm.so"; lit "libc"; lit "anon_inode:[perf_event]"].

(** Storing at index [numBlackListAddresses] and counting. *)
Definition add_range (r : BlackListAddressRange_t) (l : list BlackListAddressRange_t)
  : outcome (list BlackListAddressRange_t) :=
  if Z.of_nat (length l) <? MAX_BLACK_LIST_ADDRESS then mret (l ++ [r])
  else Fault UndefinedBehaviour.

(** [strtol(s, NULL, 16)]: sign, prefix, digits, clamped to 64 bits. *)
Definition hexdigit (c : ascii) : option Z :=
  let n := nat_of_ascii c in
  if in_range c 48 57 then Some (Z.of_nat (n - 48))
  else if in_range c 97 102 then Some (Z.of_nat (n - 87))
  else if in_range c 65 70 then Some (Z.of_nat (n - 55)) else None.

Fixpoint hexdigits (s : str) (acc : Z) : Z :=
  match s with
  | c :: s => match hexdigit c with Some d => hexdigits s (acc * 16 + d) | None => acc end
  | [] => acc
  end.

Definition drop_0x (s : str) : str :=
  match s with
  | a :: b :: (c :: _) as r =>
    if decide (a = "0"%char) then
      if decide (b = "x"%char \/ b = "X"%char) then
        if hexdigit c then drop 2 s else s
      else s
    else s
  | _ => s
  end.

Definition strtol16 (s : str) : Z :=
  let '(neg, s) := split_sign (drop_spaces s) in
  let v := hexdigits (drop_0x s) 0 in
  if neg then Z.max (- 2 ^ 63) (- v) else Z.min (2 ^ 63 - 1) v.

(** [strstr] *)
Definition contains (s pat : str) : bool := negb (find s pat =? npos).

(** The loop over the modules for a line whose first token is [addr] and whose
    resolved name is [tmpname].  [strtok_r] cuts [addr] at the first dash, so a
    second match finds no end. *)
Fixpoint match_modules (modules : list str) (tmpname : str) (addr : option str)
  (l : list BlackListAddressRange_t) : outcome (list BlackListAddressRange_t) :=
  match modules with
  | [] => mret l
  | m :: modules =>
    if contains tmpname m then
      match addr with
      | None => Fault UndefinedBehaviour
      | Some addr =>
        match runs (lit "-") [] addr with
        | start_str :: end_str :: _ =>
          l ← add_range (mk_blrange (u64 (strtol16 start_str)) (u64 (strtol16 end_str))) l;
          match_modules modules tmpname (Some start_str) l
        | _ => Fault UndefinedBehaviour
        end
      end
    else match_modules modules tmpname addr l
  end.

(** [realpath name old] is what the buffer holds after the call, [old] before:
    the call may fail and [name] may be missing. *)
Definition scan_line (realpath : option str -> str -> str) (line tmpname : str)
  (l : list BlackListAddressRange_t) : outcome (str * list BlackListAddressRange_t) :=
  let tokens := runs [" "%char; ascii_of_nat 10] [] (c_str line) in
  let tmpname := realpath (tokens !! 5%nat) tmpname in
  l ← match_modules blackListedModules tmpname (head tokens) l;
  mret (tmpname, l).

Fixpoint scan_lines (realpath : option str -> str -> str) (lines : list str) (tmpname : str)
  (l : list BlackListAddressRange_t) : outcome (list BlackListAddressRange_t) :=
  match lines with
  | [] => mret l
  | line :: lines =>
    '(tmpname, l) ← scan_line realpath line tmpname l;
    scan_lines realpath lines tmpname l
  end.

(** [loadmap]: the lines of [/proc/self/maps], when it can be opened;
    [garbage]: the buffer before the first line. *)
Definition PopulateBlackListAddresses (realpath : option str -> str -> str)
  (loadmap : option (list str)) (garbage : str) (pagesize : Z) (b : blacklist) : outcome blacklist :=
  if bl_locked b then Fault Deadlock
  else if negb (numBlackListAddresses b =? 0) then mret b
  else
    match loadmap with
    | None => mret b
    | Some lines =>
      l ← scan_lines realpath lines garbage (blackListAddresses b);
      l ← add_range (mk_blrange 0 pagesize) l;
      mret (mk_blacklist false l)
    end.

(** * Valid addresses *)

Definition IsBlackListedAddress (addr : Z) (b : blacklist) : bool :=
  existsb (fun r => (startAddr r <=? addr) && (addr <? endAddr r)) (blackListAddresses b).

(** [tdata]: the address of the local copy of the flag. *)
Definition IsTdataAddress (tdata addr : Z) : bool :=
  (tdata - 100 <? addr) && (addr <? tdata + 100).

(** [td] and [sizeof_td]: address and size of the data of the thread. *)
Definition IsValidAddress (tdata td sizeof_td pc addr : Z) (b : blacklist) : bool :=
  if addr =? 0 then false
  else if pc =? 0 then false
  else if (td - sizeof_td <=? addr) && (addr <? td + 2 * sizeof_td) then false
  else if IsBlackListedAddress pc b || IsBlackListedAddress addr b then false
  else if IsTdataAddress tdata addr then false
  else (Z.land addr 0xF0000000000000 =? 0) && (Z.land pc 0xF0000000000000 =? 0).

(** * Facts *)

(** After [n] metrics the first [n] slots hold them. *)
Lemma first_metric_replicate n : first_metric (replicate n (-1)) = -1.
Proof. by induction n. Qed.

Lemma setup_first_client w0 id infos mi :
  w0 = watermark0 -> 0 <= id -> getMetricInfo id infos = Some mi ->
  exists w, SetupWatermarkMetric id w0 = Val (tt, w) /\ GetClientName w infos = Val (client_name mi).
Proof.
  intros -> Hid Hmi. eexists. split; [reflexivity|]. unfold GetClientName. simpl.
  destruct (Z.eqb_spec id (-1)); [lia|]. simpl. rewrite Hmi. by destruct (Z.eqb_spec id (-1)); [lia|].
Qed.

(** A mapping whose resolved name matches two modules makes the second search
    for its end read a null pointer. *)
Example two_modules_crash :
  match_modules blackListedModules (lit "/data/libc/libagent.so") (Some (lit "1000-2000")) [] =
    Fault UndefinedBehaviour.
Proof. reflexivity. Qed.

Example scan_line_libc :
  scan_line (fun n old => default old n) (lit "7f00-7f80 r-xp 00000000 fd:00 12 /lib/libc.so") [] [] =
    Val (lit "/lib/libc.so", [mk_blrange 0x7f00 0x7f80]).
Proof. reflexivity. Qed.
