(* ===== verification/PerfConfig.v ===== *)
(** The event list of the agent ([process_event_list] of [perf_interface.cpp]):
    each argument [CLIENT::EVENT@RATE] becomes an event with its attributes and
    three metrics. *)
From stdpp Require Import base numbers option list strings.
From Stdlib Require Import ZArith Lia Ascii.
From S2P Require Import Prelude.
From S2P Require Import Cxx.
From S2P Require Import PerfMmap.
From S2P Require Import Metrics.
From S2P Require Import PerfUtil.
From S2P Require Import ProfilerSupport.

Definition MAX_NUM_EVENTS : Z := 10.

(** [perf_event_info_t]; its field [id] is never set or read. *)
Record perf_event_info_t := mk_event_info {
  metric_id1 : Z;
  metric_id2 : Z;
  metric_id3 : Z;
  ei_name : str;
  ei_threshold : Z;
  ei_attr : perf_event_attr
}.
Definition zero_event_info : perf_event_info_t := mk_event_info 0 0 0 [] 0 zero_attr.

(** The globals [event_info] and [num_events], with the metric registry and the
    watermark metrics. *)
Record config := mk_config {
  event_info : list perf_event_info_t;
  num_events : Z;
  registry : list metric_info_t;
  wmark : watermark
}.
Definition config0 : config :=
  mk_config (replicate (Z.to_nat MAX_NUM_EVENTS) zero_event_info) 0 [] watermark0.

Definition set_event_info i e c :=
  mk_config (<[i := e]> (event_info c)) (num_events c) (registry c) (wmark c).

(** * Parsing one event *)

Record parsed := mk_parsed {
  p_client : str;
  p_name : str;
  p_threshold : Z;
  p_precise : Z
}.

(** The two-bit field [precise_ip] keeps the value modulo 4, the 32-bit
    [threshold] modulo 2^32. *)
Definition parse_event (event : str) : outcome parsed :=
  let pos := find event (lit "::") in
  client_name ← substr event 0 pos;
  let client_name := to_upper client_name in
  let pos2 := find event (lit "@") in
  if negb (pos2 =? npos) then
    name ← substr event (u64 (pos + 2)) (u64 (pos2 - pos - 2));
    sample_rate_str ← substr event (u64 (pos2 + 1)) npos;
    threshold ← stoull sample_rate_str;
    sample_precise_level ← substr event (u64 (pos2 - 1)) 1;
    precise ← stoull sample_precise_level;
    mret (mk_parsed client_name name (u32 threshold) (precise mod 4))
  else mret (mk_parsed client_name event 0 3).

(** * The event list *)

Section Events.
Context (sizeof_attr : Z) (pfm_encode : str -> perf_event_attr -> option perf_event_attr).

Definition in_registry {A} (m : prog (list metric_info_t) A) : prog config A := fun c =>
  match m (registry c) with
  | Val (a, r) => Val (a, mk_config (event_info c) (num_events c) r (wmark c))
  | Fault f => Fault f
  end.
Definition in_wmark {A} (m : prog watermark A) : prog config A := fun c =>
  match m (wmark c) with
  | Val (a, w) => Val (a, mk_config (event_info c) (num_events c) (registry c) w)
  | Fault f => Fault f
  end.

(** The loop body at index [i]. *)
Definition process_event (i : nat) (event : str) : prog config unit :=
  p ← prog_lift (parse_event event);
  c ← prog_get;
  match event_info c !! i with
  | None => prog_fault UndefinedBehaviour
  | Some old =>
    let attr := set_precise_ip (p_precise p) (ei_attr old) in
    let attr := (perf_encode_event sizeof_attr pfm_encode (p_name p) attr).2 in
    let attr := (perf_attr_init sizeof_attr attr (p_threshold p) PERF_SAMPLE_TID).2 in
    let metric_info := mk_metric_info (p_client p) (p_name p) (p_threshold p) METRIC_VAL_INT in
    id1 ← in_registry (registerMetric metric_info);
    id2 ← in_registry (registerMetric metric_info);
    id3 ← in_registry (registerMetric metric_info);
    (fun c => Val (tt, set_event_info i
       (mk_event_info id1 id2 id3 (p_name p) (p_threshold p) attr) c));;
    in_wmark (SetupWatermarkMetric id1)
  end.

Fixpoint process_events (i : nat) (events : list str) : prog config unit :=
  match events with
  | [] => mret tt
  | event :: events => process_event i event;; process_events (S i) events
  end.

Definition process_event_list (event_list : list str) : prog config bool :=
  (fun c => Val (tt, mk_config (event_info c) (u32 (Z.of_nat (length event_list))) (registry c) (wmark c)));;
  prog_lift (cxx_assert (u32 (Z.of_nat (length event_list)) <=? MAX_NUM_EVENTS));;
  process_events 0 event_list;;
  mret true.
End Events.

(** * Facts about parsing *)

Lemma find_from_skip pat s t i c0 pat' :
  pat = c0 :: pat' -> Forall (fun c => c <> c0) s ->
  find_from pat (s ++ t) i = find_from pat t (i + size s).
Proof.
  intros -> Hs. revert i. induction Hs as [|c s Hc _ IH]; intros i; simpl.
  - unfold size; simpl. by rewrite Z.add_0_r.
  - rewrite decide_False by congruence. rewrite IH. f_equal. unfold size; simpl. lia.
Qed.

Lemma find_from_hit pat t i : find_from pat (pat ++ t) i = i.
Proof.
  assert (is_prefix pat (pat ++ t) = true) as H.
  { induction pat as [|p pat IH]; simpl; [by destruct t|]. by rewrite decide_True. }
  destruct pat as [|p pat]; simpl in *; [by destruct t|]. by rewrite H.
Qed.

Lemma find_hit pat c0 pat' s t :
  pat = c0 :: pat' -> Forall (fun c => c <> c0) s -> find (s ++ pat ++ t) pat = size s.
Proof.
  intros Hp Hs. unfold find. erewrite find_from_skip by done. by rewrite find_from_hit.
Qed.

(** The text of an event and what it stands for. *)
Record event_text := mk_event_text { et_client : str; et_base : str; et_level : ascii; et_rate : str }.
Definition event_name (e : event_text) : str := et_base e ++ [et_level e].
Definition print_event (e : event_text) : str :=
  et_client e ++ lit "::" ++ event_name e ++ lit "@" ++ et_rate e.

Record event_ok (e : event_text) : Prop := mk_event_ok {
  eo_client : Forall (fun c => c <> ":"%char /\ c <> "@"%char) (et_client e);
  eo_base : Forall (fun c => c <> "@"%char) (et_base e);
  eo_level : isdigit (et_level e) = true;
  eo_rate : et_rate e <> [] /\ Forall (fun c => isdigit c = true) (et_rate e);
  eo_value : digits (et_rate e) 0 < 2 ^ 64;
  eo_size : size (print_event e) < 2 ^ 63
}.

Lemma isdigit_not_special c : isdigit c = true ->
  isspace c = false /\ c <> "-"%char /\ c <> "+"%char /\ c <> "@"%char.
Proof.
  unfold isdigit, isspace, in_range. intros [H1%Nat.leb_le H2%Nat.leb_le]%andb_prop.
  split; [apply orb_false_iff; split; [apply andb_false_iff; right; apply Nat.leb_gt; lia|
    apply Nat.eqb_neq; lia]|].
  split_and!; intros ->; vm_compute in H1, H2; lia.
Qed.

Lemma stoull_digits s :
  s <> [] -> Forall (fun c => isdigit c = true) s -> digits s 0 < 2 ^ 64 ->
  stoull s = Val (digits s 0).
Proof.
  intros Hne Hs Hv. destruct s as [|c s]; [done|]. apply Forall_cons in Hs as [Hc _].
  destruct (isdigit_not_special c Hc) as (Hsp & Hm & Hp & _).
  assert (split_sign (drop_spaces (c :: s)) = (false, c :: s)) as Hsplit.
  { simpl. rewrite Hsp. simpl. by rewrite !decide_False. }
  unfold stoull. rewrite Hsplit. change (starts_with_digit (c :: s)) with (isdigit c). rewrite Hc.
  destruct (Z.leb_spec (2 ^ 64) (digits (c :: s) 0)); [lia|done].
Qed.

Lemma parse_event_print e : event_ok e ->
  parse_event (print_event e) =
    Val (mk_parsed (to_upper (et_client e)) (event_name e) (u32 (digits (et_rate e) 0))
           (Z.of_nat (nat_of_ascii (et_level e) - 48) mod 4)).
Proof.
  intros [Hc Hb Hl [Hr0 Hr] Hv Hs]. unfold parse_event.
  assert (find (print_event e) (lit "::") = size (et_client e)) as Hpos.
  { unfold print_event. eapply find_hit; [reflexivity|]. eapply Forall_impl; [exact Hc|]. by intros c []. }
  set (pre := et_client e ++ lit "::" ++ event_name e).
  assert (print_event e = pre ++ lit "@" ++ et_rate e) as Hsplit.
  { unfold print_event, pre. by rewrite <- !app_assoc. }
  assert (find (print_event e) (lit "@") = size pre) as Hpos2.
  { rewrite Hsplit. eapply find_hit; [reflexivity|]. unfold pre, event_name.
    destruct (isdigit_not_special _ Hl) as (_ & _ & _ & Hl').
    repeat (apply Forall_app; split).
    - eapply Forall_impl; [exact Hc|]. by intros c [].
    - repeat constructor; done.
    - done.
    - repeat constructor; done. }
  rewrite Hpos, Hpos2.
  assert (size pre = size (et_client e) + 2 + size (event_name e)) as Hpre.
  { unfold pre. rewrite !size_app. unfold size at 2. simpl. lia. }
  assert (size (event_name e) = size (et_base e) + 1) as Hname.
  { unfold event_name. rewrite size_app. unfold size at 2. simpl. lia. }
  assert (size (print_event e) = size pre + 1 + size (et_rate e)) as Hall.
  { rewrite Hsplit, !size_app. unfold size at 2. simpl. lia. }
  assert (0 <= size (et_client e) /\ 0 <= size (et_base e) /\ 0 <= size (et_rate e)) as (N1 & N2 & N3)
    by (unfold size; lia).
  assert (substr (print_event e) 0 (size (et_client e)) = Val (et_client e)) as H1
    by (apply (substr_app [] (et_client e)); by left).
  assert (substr (print_event e) (size (et_client e) + 2) (size pre - size (et_client e) - 2) =
    Val (event_name e)) as H2.
  { replace (print_event e) with ((et_client e ++ lit "::") ++ event_name e ++ lit "@" ++ et_rate e)
      by (unfold print_event; by rewrite <- app_assoc).
    replace (size (et_client e) + 2) with (size (et_client e ++ lit "::")) by by rewrite size_app.
    apply substr_app. left. lia. }
  assert (substr (print_event e) (size pre + 1) npos = Val (et_rate e)) as H3.
  { replace (print_event e) with ((pre ++ lit "@") ++ et_rate e ++ [])
      by (rewrite Hsplit, app_nil_r; by rewrite <- app_assoc).
    replace (size pre + 1) with (size (pre ++ lit "@")) by by rewrite size_app.
    apply substr_app. right. split; [done|]. unfold npos. lia. }
  assert (substr (print_event e) (size pre - 1) 1 = Val [et_level e]) as H4.
  { replace (print_event e) with
      ((et_client e ++ lit "::" ++ et_base e) ++ [et_level e] ++ lit "@" ++ et_rate e)
      by (unfold print_event, event_name; by rewrite <- !app_assoc).
    replace (size pre - 1) with (size (et_client e ++ lit "::" ++ et_base e))
      by (rewrite !size_app; unfold size at 2; simpl; lia).
    apply substr_app. by left. }
  destruct (Z.eqb_spec (size pre) npos); [unfold npos in *; lia|]. cbn [negb].
  rewrite !u64_small by (unfold is_u64; lia). unfold mbind, outcome_bind.
  rewrite H1, H2, H3, H4, stoull_digits by done.
  rewrite (stoull_digits [et_level e]); [|done|by repeat constructor|].
  - simpl. by rewrite Hl.
  - simpl. rewrite Hl. unfold isdigit, in_range in Hl. apply andb_prop in Hl as [L1 L2].
    apply Nat.leb_le in L1, L2. lia.
Qed.

(** * Facts about the event list *)

Definition metric_of (p : parsed) : metric_info_t :=
  mk_metric_info (p_client p) (p_name p) (p_threshold p) METRIC_VAL_INT.
Definition metrics_of (ps : list parsed) : list metric_info_t :=
  ps ≫= fun p => [metric_of p; metric_of p; metric_of p].

(** The entry of an event after its registration as number [i]. *)
Definition registered (i : nat) (p : parsed) (e : perf_event_info_t) : Prop :=
  metric_id1 e = 3 * Z.of_nat i /\ metric_id2 e = 3 * Z.of_nat i + 1 /\
  metric_id3 e = 3 * Z.of_nat i + 2 /\ ei_name e = p_name p /\ ei_threshold e = p_threshold p /\
  sample_period (ei_attr e) = p_threshold p /\ disabled (ei_attr e) = 1 /\
  initialised (ei_attr e).

Record loop_inv (ps : list parsed) (c : config) : Prop := mk_loop_inv {
  li_registry : registry c = metrics_of ps;
  li_cur : curWatermarkId (wmark c) = Z.of_nat (length ps);
  li_slots : length (pebs_metric_id (wmark c)) = 4%nat;
  li_slot : forall i, (i < length ps)%nat -> pebs_metric_id (wmark c) !! i = Some (3 * Z.of_nat i);
  li_len : length (event_info c) = 10%nat;
  li_info : forall i p, ps !! i = Some p ->
    exists e, event_info c !! i = Some e /\ registered i p e
}.

Lemma length_metrics_of ps : length (metrics_of ps) = (3 * length ps)%nat.
Proof.
  induction ps as [|p ps IH]; [done|].
  change (metrics_of (p :: ps)) with ([metric_of p; metric_of p; metric_of p] ++ metrics_of ps).
  rewrite length_app, IH. simpl. lia.
Qed.

Lemma metrics_of_app ps p : metrics_of (ps ++ [p]) = metrics_of ps ++ [metric_of p; metric_of p; metric_of p].
Proof. unfold metrics_of. by rewrite bind_app. Qed.

Lemma registerMetric_run mi l : Z.of_nat (length l) < 2 ^ 31 - 1 ->
  registerMetric mi l = Val (Z.of_nat (length l), l ++ [mi]).
Proof.
  intros H. unfold registerMetric. rewrite length_app. simpl.
  rewrite u64_small by (unfold is_u64; lia). rewrite s32_small by (unfold is_s32; lia).
  do 2 f_equal. lia.
Qed.

Section EventList.
Context (sizeof_attr : Z) (pfm_encode : str -> perf_event_attr -> option perf_event_attr).

Lemma process_event_run ps p event c :
  loop_inv ps c -> (length ps < 10)%nat -> parse_event event = Val p ->
  if (length ps <? 4)%nat
  then exists c', process_event sizeof_attr pfm_encode (length ps) event c = Val (tt, c') /\
         loop_inv (ps ++ [p]) c' /\ num_events c' = num_events c
  else process_event sizeof_attr pfm_encode (length ps) event c = Fault AssertFailure.
Proof.
  intros [Hreg Hcur Hslots Hslot Hlen Hinfo] Hlt Hp. unfold process_event.
  unfold mbind, prog_bind, prog_lift. rewrite Hp. unfold prog_get.
  destruct (event_info c !! length ps) as [old|] eqn:Hold;
    [|apply lookup_ge_None in Hold; lia].
  set (attr := (perf_attr_init _ _ _ _).2). fold (metric_of p).
  unfold in_registry, in_wmark. cbn [registry event_info num_events wmark set_event_info].
  rewrite Hreg. rewrite registerMetric_run by (rewrite length_metrics_of; lia).
  cbn [registry event_info num_events wmark].
  rewrite registerMetric_run by (rewrite length_app, length_metrics_of; simpl; lia).
  cbn [registry event_info num_events wmark].
  rewrite registerMetric_run by (rewrite !length_app, length_metrics_of; simpl; lia).
  cbn [registry event_info num_events wmark set_event_info].
  unfold SetupWatermarkMetric. rewrite Hcur, !length_app, length_metrics_of.
  destruct (Nat.ltb_spec (length ps) 4) as [Hn|Hn].
  2: { assert (length ps = 4)%nat as ->; [|done]. destruct (decide (length ps = 4)%nat); [done|].
       specialize (Hslot 4%nat ltac:(lia)). apply lookup_lt_Some in Hslot. lia. }
  unfold NUM_WATERMARK_METRICS. destruct (Z.eqb_spec (Z.of_nat (length ps)) 4); [lia|].
  eexists. split; [reflexivity|]. split; [|done]. split; cbn.
  - rewrite metrics_of_app. by rewrite <- !app_assoc.
  - rewrite length_app. simpl. lia.
  - by rewrite length_insert.
  - intros i Hi. rewrite length_app in Hi. simpl in Hi. rewrite Nat2Z.id.
    destruct (decide (i = length ps)) as [->|].
    + rewrite list_lookup_insert_eq by lia. f_equal. lia.
    + rewrite list_lookup_insert_ne by done. apply Hslot. lia.
  - by rewrite length_insert.
  - intros i q Hq. destruct (decide (i = length ps)) as [->|].
    + rewrite list_lookup_insert_eq by lia. eexists. split; [reflexivity|].
      rewrite lookup_app_r, Nat.sub_diag in Hq by done. injection Hq as <-.
      unfold registered; cbn. split_and!; [lia|lia|lia|done..|by eexists _, _, _].
    + rewrite list_lookup_insert_ne by done. apply Hinfo.
      rewrite lookup_app in Hq. destruct (ps !! i) eqn:Hi; [done|].
      apply lookup_ge_None in Hi. apply list_lookup_singleton_Some in Hq as [? _]. lia.
Qed.

Lemma process_events_run events qs ps c :
  Forall2 (fun event p => parse_event event = Val p) events qs ->
  loop_inv ps c -> (length ps + length qs <= 10)%nat ->
  if (length ps + length qs <=? 4)%nat
  then exists c', process_events sizeof_attr pfm_encode (length ps) events c = Val (tt, c') /\
         loop_inv (ps ++ qs) c' /\ num_events c' = num_events c
  else process_events sizeof_attr pfm_encode (length ps) events c = Fault AssertFailure.
Proof.
  intros Hpar. revert ps c. induction Hpar as [|event p events qs Hp _ IH]; intros ps c Hinv Hlen.
  - simpl in *. rewrite Nat.add_0_r, app_nil_r. destruct (Nat.leb_spec (length ps) 4); [by exists c|].
    destruct Hinv as [_ _ Hs Hslot _ _]. specialize (Hslot 4%nat ltac:(lia)).
    apply lookup_lt_Some in Hslot. lia.
  - simpl in Hlen. pose proof (process_event_run ps p event c Hinv ltac:(lia) Hp) as Hrun.
    cbn [process_events]. destruct (Nat.ltb_spec (length ps) 4) as [Hlt|Hge].
    + destruct Hrun as (c1 & Hrun & Hinv1 & Hnum). rewrite (prog_bind_val _ _ _ _ _ Hrun).
      specialize (IH (ps ++ [p]) c1 Hinv1). rewrite length_app in IH. simpl in IH.
      replace (length ps + length (p :: qs))%nat with (length ps + 1 + length qs)%nat by (simpl; lia).
      replace (S (length ps)) with (length ps + 1)%nat by lia.
      specialize (IH ltac:(lia)). destruct (_ <=? 4)%nat; [|done].
      destruct IH as (c' & Hrun' & Hinv' & Hnum'). exists c'. rewrite <- app_assoc in Hinv'.
      split_and!; [done|done|congruence].
    + destruct (Nat.leb_spec (length ps + length (p :: qs)) 4); [simpl in *; lia|].
      by rewrite (prog_bind_fault _ _ _ _ Hrun).
Qed.
End EventList.

Lemma loop_inv0 n : loop_inv [] (mk_config (event_info config0) n [] watermark0).
Proof. split; simpl; try done; intros; lia. Qed.

(** * Properties *)

(** An event [CLIENT::NAMEd@RATE] is split at the first double colon and the
    at sign: client in upper case, name with its level digit, rate modulo 2^32,
    level modulo 4. *)
Theorem parse_event_correct e (Hok : event_ok e) :
  parse_event (print_event e) =
    Val (mk_parsed (to_upper (et_client e)) (event_name e) (u32 (digits (et_rate e) 0))
           (Z.of_nat (nat_of_ascii (et_level e) - 48) mod 4)).
Proof. by apply parse_event_print. Qed.

(** Up to four events are all accepted, in order, and event [i] owns the
    metrics [3i] to [3i+2], which carry its client, name and threshold; the
    active client is that of the first event.  Five to ten events stop the
    process although [MAX_NUM_EVENTS] is 10, and so do more than ten. *)
Theorem process_event_list_correct sizeof_attr pfm_encode events ps
  (Hparse : Forall2 (fun event p => parse_event event = Val p) events ps)
  (Hlen : Z.of_nat (length events) < 2 ^ 31) :
  if (length events <=? 4)%nat
  then exists c, process_event_list sizeof_attr pfm_encode events config0 = Val (true, c) /\
         num_events c = Z.of_nat (length events) /\ registry c = metrics_of ps /\
         (forall i p, ps !! i = Some p -> exists e, event_info c !! i = Some e /\ registered i p e) /\
         (forall p, head ps = Some p -> GetClientName (wmark c) (registry c) = Val (p_client p))
  else process_event_list sizeof_attr pfm_encode events config0 = Fault AssertFailure.
Proof.
  pose proof (Forall2_length _ _ _ Hparse) as Hn. unfold process_event_list.
  unfold mbind, prog_bind, prog_lift, cxx_assert.
  rewrite u32_small by (unfold is_u32; lia). unfold MAX_NUM_EVENTS.
  destruct (Z.leb_spec (Z.of_nat (length events)) 10) as [Hten|Hten].
  2: { destruct (Nat.leb_spec (length events) 4); [lia|done]. }
  pose proof (process_events_run sizeof_attr pfm_encode events ps []
    (mk_config (event_info config0) (Z.of_nat (length events)) (registry config0) (wmark config0))
    Hparse (loop_inv0 _)) as Hrun.
  cbn [length Nat.add app] in Hrun. rewrite Hn in *. specialize (Hrun ltac:(lia)).
  destruct (Nat.leb_spec (length ps) 4); [|by rewrite Hrun].
  destruct Hrun as (c & Hrun & [H1 H2 H3 H4 H5 H6] & Hnum). rewrite Hrun. exists c.
  split_and!; [done|done|done|done|]. intros p Hp. destruct ps as [|p0 ps]; [done|].
  simpl in Hp. injection Hp as ->. unfold GetClientName.
  specialize (H4 0%nat ltac:(simpl; lia)). destruct (pebs_metric_id (wmark c)) as [|id ids]; [done|].
  simpl in H4. injection H4 as ->. simpl. rewrite H1. unfold getMetricInfo. simpl.
  rewrite s32_small; [done|]. rewrite length_metrics_of. unfold is_s32. simpl in *. lia.
Qed.

Module Examples.
Definition ev : event_text := mk_event_text (lit "Generic") (lit "CYCLES:p") "2"%char (lit "100000").

Lemma ev_ok : event_ok ev.
Proof.
  split; [repeat constructor; discriminate|repeat constructor; discriminate|done| |done|done].
  split; [discriminate|repeat constructor].
Qed.

Lemma parse_event_correct_witness :
  parse_event (lit "Generic::CYCLES:p2@100000") =
    Val (mk_parsed (lit "GENERIC") (lit "CYCLES:p2") 100000 2).
Proof. exact (parse_event_correct ev ev_ok). Defined.

Definition encode (name : str) (a : perf_event_attr) : option perf_event_attr := Some a.

Lemma process_event_list_correct_witness :
  exists c, process_event_list 128 encode [lit "Generic::CYCLES:p2@100000"; lit "B::L1"] config0 =
      Val (true, c) /\ GetClientName (wmark c) (registry c) = Val (lit "GENERIC").
Proof.
  destruct (process_event_list_correct 128 encode
    [lit "Generic::CYCLES:p2@100000"; lit "B::L1"]
    [mk_parsed (lit "GENERIC") (lit "CYCLES:p2") 100000 2; mk_parsed (lit "B") (lit "B::L1") 0 3])
    as (c & Hrun & _ & _ & _ & Hc).
  - repeat constructor.
  - reflexivity.
  - exists c. split; [exact Hrun|]. apply (Hc _ eq_refl).
Defined.
End Examples.
