(* ===== verification/PerfEvents.v ===== *)
(** The events of a thread and the signal handler ([perf_interface.h],
    [perf_interface.cpp]).

    The state is the data of the thread, the mapped buffers, the descriptors
    that are open, the [ioctl] requests made so far and a state of the sample
    callback.  System calls are functions of their arguments and, for [ioctl],
    of the requests before. *)
From stdpp Require Import base numbers option list gmap strings.
From Stdlib Require Import ZArith Lia Ascii.
From S2P Require Import Prelude.
From S2P Require Import Cxx.
From S2P Require Import PerfMmap.
From S2P Require Import Metrics.
From S2P Require Import PerfUtil.
From S2P Require Import ThreadData.
From S2P Require Import PerfConfig.

(** [perf_event_thread_t]; the event is its index in [event_info], the buffer
    an address. *)
Record perf_event_thread_t := mk_event_thread {
  et_id : Z;
  et_fd : list Z;
  mmap_buf : positive;
  et_event : nat
}.

Inductive request := IOC_RESET | IOC_REFRESH | IOC_ENABLE | IOC_DISABLE.

#[global] Instance request_eq_dec : EqDecision request.
Proof. solve_decision. Defined.

Section Events.
Context {X F T U : Type}.

Abbreviation TLS := (@tls (list perf_event_thread_t) X F T).

Record world := mk_world {
  w_tls : TLS;
  w_rings : gmap positive perf_mmap_t;
  w_fds : list Z;
  w_ioctls : list (request * Z);
  w_user : U
}.

Definition set_tls t w := mk_world t (w_rings w) (w_fds w) (w_ioctls w) (w_user w).
Definition set_rings r w := mk_world (w_tls w) r (w_fds w) (w_ioctls w) (w_user w).
Definition set_fds f w := mk_world (w_tls w) (w_rings w) f (w_ioctls w) (w_user w).
Definition set_ioctls l w := mk_world (w_tls w) (w_rings w) (w_fds w) l (w_user w).

Abbreviation W := (prog world).

Definition modify (f : world -> world) : W unit := fun w => Val (tt, f w).

(** Operations on a part of the state. *)
Definition on_tls {A} (m : prog TLS A) : W A := fun w =>
  match m (w_tls w) with Val (a, t) => Val (a, set_tls t w) | Fault f => Fault f end.

(** Dereferencing a buffer that is not mapped is undefined. *)
Definition on_ring {A} (p : positive) (m : prog (option perf_mmap_t) A) : W A := fun w =>
  match w_rings w !! p with
  | None => Fault UndefinedBehaviour
  | Some r =>
    match m (Some r) with
    | Val (a, Some r) => Val (a, set_rings (<[p := r]> (w_rings w)) w)
    | Val (a, None) => Fault UndefinedBehaviour
    | Fault f => Fault f
    end
  end.

(** The sample callback works on the data of the thread and its own state. *)
Definition callback := Z -> perf_sample_data_t -> Z -> Z -> Z -> prog (TLS * U) unit.
Definition on_user (m : prog (TLS * U) unit) : W unit := fun w =>
  match m (w_tls w, w_user w) with
  | Val (_, (t, u)) => Val (tt, mk_world t (w_rings w) (w_fds w) (w_ioctls w) u)
  | Fault f => Fault f
  end.

Section Handler.
Context (gettid page_mask : Z) (event_info : list perf_event_info_t) (num_events : Z).
Context (user_sample_cb : option callback).
Context (ioctl_ret : list (request * Z) -> request -> Z -> Z).

Definition ioctl (fd : Z) (r : request) : W Z := fun w =>
  Val (ioctl_ret (w_ioctls w) r fd, set_ioctls (w_ioctls w ++ [(r, fd)]) w).

(** * Starting and stopping *)

(** Over the descriptors of one event. *)
Fixpoint restart_fds (fds : list Z) : W bool :=
  match fds with
  | [] => mret true
  | fd :: fds =>
    if fd <? 0 then mret false
    else
      r ← ioctl fd IOC_RESET;
      if r <? 0 then mret false
      else
        r ← ioctl fd IOC_REFRESH;
        if r <? 0 then mret false else restart_fds fds
  end.

Definition restart_perf_event (event_thread : perf_event_thread_t) : W bool :=
  restart_fds (et_fd event_thread).
Definition restart_perf_event_fd (fd : Z) : W bool := restart_fds [fd].

(** [perf_start_all] and [perf_stop_all] skip descriptors that are not valid. *)
Fixpoint all_fds (req : request) (fds : list Z) : W bool :=
  match fds with
  | [] => mret true
  | fd :: fds =>
    if fd <? 0 then all_fds req fds
    else r ← ioctl fd req; if r <? 0 then mret false else all_fds req fds
  end.

Definition perf_start_all (l : list perf_event_thread_t) : W bool := all_fds IOC_ENABLE (l ≫= et_fd).
Definition perf_stop_all (l : list perf_event_thread_t) : W bool := all_fds IOC_DISABLE (l ≫= et_fd).

Definition assert_ok (m : W bool) : W unit := b ← m; prog_lift (cxx_assert b).

(** * The signal handler *)

(** The last event one of whose descriptors is [si_fd]. *)
Definition find_event (si_fd : Z) (l : list perf_event_thread_t) : option perf_event_thread_t :=
  last (base.filter (fun e => si_fd ∈ et_fd e) l).

(** One round of the loop over the buffer with at least a header in it. *)
Definition handle_record (cb : callback) (current : perf_event_thread_t)
  (info : perf_event_info_t) : W unit :=
  hdr ← on_ring (mmap_buf current) (perf_read_header page_mask);
  match hdr with
  | None => prog_fault AssertFailure
  | Some ehdr =>
    if eh_type ehdr =? PERF_RECORD_SAMPLE then
      let precise := negb (Z.land (eh_misc ehdr) PERF_RECORD_MISC_EXACT_IP =? 0) in
      sample_data ← on_ring (mmap_buf current)
        (perf_read_record_sample page_mask (sample_type (ei_attr info))
           (mk_sample 0 0 0 0 0 precise));
      on_user (cb (et_id current) sample_data (metric_id1 info) (metric_id2 info) (metric_id3 info))
    else
      _ ← (if eh_size ehdr =? 0 then on_ring (mmap_buf current) perf_skip_all
           else on_ring (mmap_buf current) (perf_skip_record ehdr));
      mret tt
  end.

Fixpoint drain (fuel : nat) (cb : callback) (current : perf_event_thread_t) (info : perf_event_info_t) : W unit :=
  match fuel with
  | O => prog_fault OutOfFuel
  | S fuel =>
    remaining_data_size ← on_ring (mmap_buf current) perf_num_of_remaining_data;
    if 0 <? remaining_data_size then
      if remaining_data_size <? sizeof_header then
        on_ring (mmap_buf current) perf_skip_all;; mret tt
      else handle_record cb current info;; drain fuel cb current info
    else mret tt
  end.

(** [perf_event_handler]; [fuel] bounds the rounds of its loop. *)
Definition perf_event_handler (fuel : nat) (si_code si_fd : Z) : W unit :=
  entered ← on_tls (profiler_safe_enter gettid);
  if negb entered then mret tt
  else
    event_thread_list ← on_tls (TD_GET gettid perf_state);
    match event_thread_list with
    | None => mret tt
    | Some event_thread_list =>
      assert_ok (perf_stop_all event_thread_list);;
      if si_code <? 0 then
        assert_ok (perf_start_all event_thread_list);;
        on_tls (profiler_safe_exit gettid)
      else
        match find_event si_fd event_thread_list with
        | None =>
          assert_ok (restart_perf_event_fd si_fd);;
          assert_ok (perf_start_all event_thread_list);;
          on_tls (profiler_safe_exit gettid)
        | Some current =>
          match user_sample_cb, event_info !! et_event current with
          | None, _ => prog_fault AssertFailure
          | _, None => prog_fault UndefinedBehaviour
          | Some cb, Some info =>
            drain fuel cb current info;;
            assert_ok (restart_perf_event current);;
            assert_ok (perf_start_all event_thread_list);;
            on_tls (profiler_safe_exit gettid)
          end
        end
    end.

(** * Setting up and closing *)

(** What [perf_event_open], [fcntl] and [mmap] answer. *)
Context (sys_perf_event_open : list Z -> perf_event_attr -> Z -> Z).
Context (fcntl_ok : Z -> bool) (sys_mmap : Z -> option perf_mmap_t).

(** One descriptor of an event, on one cpu; [fcntl_ok] stands for the four
    calls of [fcntl], each of which returns early when it fails. *)
Definition open_cpu (info : perf_event_info_t) (cpu_index : Z) : W (option (Z * positive)) :=
  w ← prog_get;
  let fd := sys_perf_event_open (w_fds w) (ei_attr info) cpu_index in
  if fd <=? -1 then mret None
  else
    modify (fun w => set_fds (w_fds w ++ [fd]) w);;
    ioctl fd IOC_RESET;;
    if negb (fcntl_ok fd) then mret None
    else
      match perf_set_mmap (sys_mmap fd) with
      | None => prog_fault AssertFailure
      | Some r =>
        w ← prog_get;
        let p := fresh (dom (w_rings w)) in
        modify (fun w => set_rings (<[p := r]> (w_rings w)) w);;
        mret (Some (fd, p))
      end.

(** The loop over the cpus: each round stores the descriptor and overwrites the
    buffer. *)
Fixpoint open_cpus (info : perf_event_info_t) (cpus : list Z) (fds : list Z) (buf : option positive)
  : W (option (list Z * option positive)) :=
  match cpus with
  | [] => mret (Some (fds, buf))
  | cpu :: cpus =>
    r ← open_cpu info cpu;
    match r with
    | None => mret None
    | Some (fd, p) => open_cpus info cpus (fds ++ [fd]) (Some p)
    end
  end.

Definition cpus : list Z := seqZ 0 8.

Definition push_event (e : perf_event_thread_t) : W unit :=
  l ← on_tls (TD_GET gettid perf_state);
  on_tls (TD_SET gettid (set_perf_state (Some (default [] l ++ [e])))).

(** The loop over the events from number [i] on. *)
Fixpoint setup_events (n : nat) (i : nat) : W bool :=
  match n with
  | O => mret true
  | S n =>
    match event_info !! i with
    | None => prog_fault UndefinedBehaviour
    | Some info =>
      r ← open_cpus info cpus [] None;
      match r with
      | Some (fds, Some p) => push_event (mk_event_thread (Z.of_nat i) fds p i);; setup_events n (S i)
      | _ => mret false
      end
    end
  end.

Definition setupEvents : W bool :=
  event_thread_list ← on_tls (TD_GET gettid perf_state);
  (if event_thread_list is Some _ then mret tt
   else on_tls (TD_SET gettid (set_perf_state (Some []))));;
  ok ← setup_events (Z.to_nat num_events) 0;
  if negb ok then mret false
  else
    event_thread_list ← on_tls (TD_GET gettid perf_state);
    perf_start_all (default [] event_thread_list);;
    mret true.

Definition close_fd (fd : Z) : W unit := fun w =>
  Val (tt, if 0 <=? fd then set_fds (base.filter (fun f => f <> fd) (w_fds w)) w else w).

Fixpoint close_fds (fds : list Z) : W unit :=
  match fds with
  | [] => mret tt
  | fd :: fds => close_fd fd;; close_fds fds
  end.

Definition perf_unmmap (p : positive) : W unit := fun w =>
  Val (tt, set_rings (delete p (w_rings w)) w).

(** The loop over the events, which indexes the list by event number. *)
Fixpoint close_events (n : nat) (i : nat) (l : list perf_event_thread_t) : W unit :=
  match n with
  | O => mret tt
  | S n =>
    match l !! i with
    | None => prog_fault UndefinedBehaviour
    | Some event_thread =>
      close_fds (et_fd event_thread);;
      perf_unmmap (mmap_buf event_thread);;
      close_events n (S i) l
    end
  end.

Definition closeEvents : W bool :=
  event_thread_list ← on_tls (TD_GET gettid perf_state);
  match event_thread_list with
  | None => mret true
  | Some l =>
    perf_stop_all l;;
    close_events (Z.to_nat num_events) 0 l;;
    on_tls (TD_SET gettid (set_perf_state None));;
    mret true
  end.

(** [readCounter] *)
Context (sys_read : Z -> Z -> Z * list Z).

Definition readCounter (event_idx : Z) : W (bool * list Z) :=
  event_thread_list ← on_tls (TD_GET gettid perf_state);
  match event_thread_list with
  | None => prog_fault AssertFailure
  | Some l =>
    if (event_idx <? 0) || (Z.of_nat (length l) <=? event_idx) then mret (false, [])
    else
      match l !! Z.to_nat event_idx with
      | Some current =>
        match et_fd current with
        | fd :: _ => mret (perf_read_event_counter sys_read fd)
        | [] => prog_fault UndefinedBehaviour
        end
      | None => prog_fault UndefinedBehaviour
      end
  end.
End Handler.
End Events.

(** * Start-up of the process *)

(** [installSignal] *)
Definition installSignal (sigaction_ret pthread_sigmask_ret : Z) : bool :=
  if negb (sigaction_ret =? 0) then false
  else if negb (pthread_sigmask_ret =? 0) then false
  else true.

(** The variables of the process that [processInit] sets: [event_info] and
    [num_events], [page_size] and [page_mask] of [perf_mmap.cpp], [user_sample_cb]. *)
Record perf_vars (C : Type) := mk_perf_vars {
  pv_config : config;
  page_size : Z;
  page_mask : Z;
  user_sample_cb : option C
}.
Arguments mk_perf_vars {C}.
Arguments pv_config {C}.
Arguments page_size {C}.
Arguments page_mask {C}.
Arguments user_sample_cb {C}.
Definition perf_vars0 {C} : perf_vars C := mk_perf_vars config0 0 0 None.

Section ProcessInit.
Context {C : Type}.
Abbreviation V := (prog (perf_vars C)).

Definition on_config {A} (m : prog config A) : V A := fun v =>
  '(a, c) ← m (pv_config v);
  mret (a, mk_perf_vars c (page_size v) (page_mask v) (user_sample_cb v)).
Definition set_sample_cb (cb : C) : V unit := fun v =>
  mret (tt, mk_perf_vars (pv_config v) (page_size v) (page_mask v) (Some cb)).
Definition set_pages (pages : Z * Z) : V unit := fun v =>
  mret (tt, mk_perf_vars (pv_config v) pages.1 pages.2 (user_sample_cb v)).

(** [PerfManager::processInit] *)
Definition processInit (sizeof_attr : Z) (pfm_encode : str -> perf_event_attr -> option perf_event_attr)
  (pfm_initialized : bool) (sc_pagesize sigaction_ret pthread_sigmask_ret : Z)
  (event_list : list str) (sample_cb : C) : V bool :=
  if negb pfm_initialized then mret false
  else
    set_sample_cb sample_cb;;
    ok ← on_config (process_event_list sizeof_attr pfm_encode event_list);
    prog_lift (cxx_assert ok);;
    set_pages (perf_mmap_init sc_pagesize);;
    if negb (installSignal sigaction_ret pthread_sigmask_ret) then mret false
    else mret true.
End ProcessInit.

(** * Draining a buffer *)

(** A record as [perf_event_open(2)] documents it: a sample with its call chain, or
    another record with a payload. *)
Inductive record :=
| SampleRecord (misc : Z) (sd : perf_sample_data_t) (ips : list Z)
| OtherRecord (e : perf_event_header_t) (payload : list Z).

(** What the kernel writes of a sample behind the fields that the program reads: the
    second word of the cpu, which is reserved and zero, and the call chain with its
    length. *)
Definition sample_rest (st : Z) (ips : list Z) : list Z :=
  (if has_flag st PERF_SAMPLE_CPU then le_split 4 0 else []) ++
  (if has_flag st PERF_SAMPLE_CALLCHAIN
   then le_split 8 (Z.of_nat (length ips)) ++ (ips ≫= le_split 8) else []).

Definition sample_header (st misc : Z) (sd : perf_sample_data_t) (ips : list Z) : perf_event_header_t :=
  mk_ehdr PERF_RECORD_SAMPLE misc
    (sizeof_header + Z.of_nat (length (encode_sample st sd ++ sample_rest st ips))).

Definition encode_record (st : Z) (r : record) : list Z :=
  match r with
  | SampleRecord misc sd ips =>
    encode_header (sample_header st misc sd ips) ++ encode_sample st sd ++ sample_rest st ips
  | OtherRecord e payload => encode_header e ++ payload
  end.

(** The fields have their widths, a size is that of the whole record, and a chain of
    which both parts are excluded is empty. *)
Definition record_ok (a : perf_event_attr) (r : record) : Prop :=
  match r with
  | SampleRecord misc sd ips =>
    header_ok (sample_header (sample_type a) misc sd ips) /\ sample_ok sd /\ Forall is_u64 ips /\
    (exclude_callchain_kernel a = EXCLUDE -> exclude_callchain_user a = EXCLUDE -> ips = [])
  | OtherRecord e payload =>
    header_ok e /\ eh_type e <> PERF_RECORD_SAMPLE /\
    eh_size e = sizeof_header + Z.of_nat (length payload)
  end.

(** Of an event as [process_event_list] leaves it every sample ends with twelve bytes that are zero. *)
Lemma initialised_rest a misc sd ips :
  initialised a -> record_ok a (SampleRecord misc sd ips) ->
  sample_rest (sample_type a) ips = replicate 12 0.
Proof. intros (sz & old & th & ->) (_ & _ & _ & Hc). by rewrite (Hc eq_refl eq_refl). Qed.

(** The first sample of some records, and what the callback gets of it. *)
Fixpoint first_sample (rs : list record) : option (Z * perf_sample_data_t) :=
  match rs with
  | [] => None
  | SampleRecord misc sd _ :: _ => Some (misc, sd)
  | OtherRecord _ _ :: rs => first_sample rs
  end.

Definition sample_of (st misc : Z) (sd : perf_sample_data_t) : perf_sample_data_t :=
  select st (mk_sample 0 0 0 0 0 (negb (Z.land misc PERF_RECORD_MISC_EXACT_IP =? 0))) sd.

Section Drain.
Context {X F T U : Type}.
Context (page_mask k : Z) (Hsize : ring_size page_mask k) (Hk : k <= 30).
Context (cb : @callback X F T U) (current : perf_event_thread_t) (info : perf_event_info_t).

Abbreviation world := (@world X F T U).
Abbreviation st := (sample_type (ei_attr info)).

(** The callback on the first sample of some records, if there is one. *)
Definition deliver (rs : list record) : prog (tls * U) unit :=
  match first_sample rs with
  | None => mret tt
  | Some (misc, sd) =>
    cb (et_id current) (sample_of st misc sd) (metric_id1 info) (metric_id2 info) (metric_id3 info)
  end.

Lemma on_ring_val {A} p (m : prog (option perf_mmap_t) A) (w : world) r a r' :
  w_rings w !! p = Some r -> m (Some r) = Val (a, Some r') ->
  on_ring p m w = Val (a, set_rings (<[p := r']> (w_rings w)) w).
Proof. intros Hp Hm. unfold on_ring. by rewrite Hp, Hm. Qed.

Lemma on_user_val (m : prog (tls * U) unit) (w : world) t u :
  m (w_tls w, w_user w) = Val (tt, (t, u)) ->
  on_user m w = Val (tt, mk_world t (w_rings w) (w_fds w) (w_ioctls w) u).
Proof. intros Hm. unfold on_user. by rewrite Hm. Qed.

Lemma length_encode_header e : length (encode_header e) = 8%nat.
Proof. unfold encode_header. by rewrite !length_app, !length_le_split. Qed.

(** The world after the ring and the callback's part have changed. *)
Abbreviation upd w r t u :=
  (mk_world t (<[mmap_buf current := r]> (w_rings w)) (w_fds w) (w_ioctls w) u).

Lemma handle_sample (w : world) r misc sd ips rest t u :
  w_rings w !! mmap_buf current = Some r -> wf_ring k r ->
  record_ok (ei_attr info) (SampleRecord misc sd ips) ->
  unread k r = encode_record st (SampleRecord misc sd ips) ++ rest ->
  cb (et_id current) (sample_of st misc sd) (metric_id1 info) (metric_id2 info) (metric_id3 info)
    (w_tls w, w_user w) = Val (tt, (t, u)) ->
  exists r', handle_record page_mask cb current info w = Val (tt, upd w r' t u) /\
    wf_ring k r' /\ unread k r' = sample_rest st ips ++ rest.
Proof.
  intros Hp Hwf (He & Hsd & _) Hu Hcb. unfold encode_record in Hu. rewrite <- !app_assoc in Hu.
  set (e := sample_header st misc sd ips) in *.
  destruct (read_header_encoded page_mask k Hsize r e _ Hwf He Hu) as (r1 & Hr1 & Hwf1 & Hu1).
  destruct (read_sample_encoded page_mask k Hsize st r1
    (mk_sample 0 0 0 0 0 (negb (Z.land misc PERF_RECORD_MISC_EXACT_IP =? 0))) sd _ Hwf1 Hsd Hu1)
    as (r2 & Hr2 & Hwf2 & Hu2).
  exists r2. split_and!; [|done|done]. unfold handle_record.
  rewrite (prog_bind_val _ _ _ _ _ (on_ring_val _ _ w _ _ _ Hp Hr1)).
  change (eh_type e =? PERF_RECORD_SAMPLE) with true. change (eh_misc e) with misc. cbn iota.
  set (w1 := set_rings _ w).
  assert (w_rings w1 !! mmap_buf current = Some r1) as Hp1 by (simpl; by rewrite lookup_insert_eq).
  rewrite (prog_bind_val _ _ _ _ _ (on_ring_val _ _ w1 _ _ _ Hp1 Hr2)).
  etransitivity; [apply on_user_val, Hcb|]. unfold w1, set_rings; simpl. by rewrite insert_insert_eq.
Qed.

Lemma handle_other (w : world) r e payload rest :
  w_rings w !! mmap_buf current = Some r -> wf_ring k r -> record_ok (ei_attr info) (OtherRecord e payload) ->
  unread k r = encode_record st (OtherRecord e payload) ++ rest ->
  exists r', handle_record page_mask cb current info w = Val (tt, upd w r' (w_tls w) (w_user w)) /\
    wf_ring k r' /\ unread k r' = rest.
Proof.
  intros Hp Hwf (He & Ht & Hs) Hu. unfold encode_record in Hu. rewrite <- app_assoc in Hu.
  destruct (read_header_encoded page_mask k Hsize r e _ Hwf He Hu) as (r1 & Hr1 & Hwf1 & Hu1).
  pose proof He as [_ _ [Hs0 Hs1]]. unfold sizeof_header in Hs.
  set (n := Z.of_nat (length payload)) in *.
  pose proof (available_unread k r1 Hwf1) as Hav. rewrite Hu1, length_app in Hav.
  assert (0 <= n <= available r1) as Hn by (unfold n; lia).
  exists (set_tail (data_tail r1 + n) r1).
  split_and!; [|by apply wf_set_tail|].
  2: { rewrite (unread_set_tail k) by done. rewrite Hu1. unfold n.
       by rewrite Nat2Z.id, drop_app_length. }
  unfold handle_record. rewrite (prog_bind_val _ _ _ _ _ (on_ring_val _ _ w _ _ _ Hp Hr1)).
  destruct (Z.eqb_spec (eh_type e) PERF_RECORD_SAMPLE); [done|].
  destruct (Z.eqb_spec (eh_size e) 0); [lia|].
  set (w1 := set_rings _ w).
  assert (w_rings w1 !! mmap_buf current = Some r1) as Hp1 by (simpl; by rewrite lookup_insert_eq).
  assert (perf_skip_record e (Some r1) = Val (true, Some (set_tail (data_tail r1 + n) r1))) as Hskip.
  { unfold perf_skip_record, sizeof_header. replace (eh_size e - 8) with n by lia.
    rewrite u64_small by (unfold is_u64, is_u16 in *; lia).
    rewrite (prog_bind_val _ _ _ _ _ (skip_spec k r1 n Hwf1 ltac:(unfold is_u16 in *; lia))).
    by rewrite Z.min_l by lia. }
  rewrite (prog_bind_val _ _ _ _ _ (on_ring_val _ _ w1 _ _ _ Hp1 Hskip)).
  unfold w1, set_rings; simpl. unfold mret, prog_ret. by rewrite insert_insert_eq.
Qed.

Lemma remaining_val r : wf_ring k r ->
  perf_num_of_remaining_data (Some r) = Val (available r, Some r).
Proof.
  intros Hwf. unfold perf_num_of_remaining_data, mbind, prog_bind, deref_mmap, mret, prog_ret.
  rewrite (available_u64 k) by done. rewrite s32_small; [done|].
  destruct Hwf as [? ? Hav ?]. destruct Hsize as [Hr _].
  assert (2 ^ k <= 2 ^ 30) by (apply Z.pow_le_mono_r; lia). unfold is_s32, available in *. lia.
Qed.

Lemma on_ring_same p (m : prog (option perf_mmap_t) Z) (w : world) r a :
  w_rings w !! p = Some r -> m (Some r) = Val (a, Some r) -> on_ring p m w = Val (a, w).
Proof.
  intros Hp Hm. rewrite (on_ring_val p m w r a r Hp Hm). unfold set_rings.
  rewrite insert_id by done. by destruct w.
Qed.

Lemma skip_all_any r : wf_ring k r ->
  perf_skip_all (Some r) = Val (true, Some (set_tail (data_head r) r)).
Proof.
  intros Hwf. unfold perf_skip_all. rewrite (prog_bind_val _ _ _ _ _ (remaining_val r Hwf)).
  pose proof Hwf as [Ht Hh Ha Hl]. unfold available in *.
  destruct (Z.ltb_spec 0 (data_head r - data_tail r)) as [Hpos|Hz].
  - rewrite (prog_bind_val _ _ _ _ _ (skip_spec k r (data_head r - data_tail r) Hwf ltac:(lia))).
    unfold available. rewrite Z.min_id.
    by replace (data_tail r + (data_head r - data_tail r)) with (data_head r) by lia.
  - unfold mret, prog_ret, set_tail. destruct r as [h t d]. simpl in *.
    by replace t with h by lia.
Qed.

(** A header of zeros makes the handler drop everything that is left. *)
Lemma handle_zeros (w : world) r rest :
  w_rings w !! mmap_buf current = Some r -> wf_ring k r -> unread k r = replicate 8 0 ++ rest ->
  exists r', handle_record page_mask cb current info w = Val (tt, upd w r' (w_tls w) (w_user w)) /\
    wf_ring k r' /\ unread k r' = [].
Proof.
  intros Hp Hwf Hu. change (replicate 8 0) with (encode_header (mk_ehdr 0 0 0)) in Hu.
  destruct (read_header_encoded page_mask k Hsize r (mk_ehdr 0 0 0) _ Hwf ltac:(by split) Hu)
    as (r1 & Hr1 & Hwf1 & Hu1).
  pose proof Hwf1 as [Ht Hh _ _]. exists (set_tail (data_head r1) r1).
  replace (data_head r1) with (data_tail r1 + available r1) by (unfold available; lia). split_and!.
  - unfold handle_record. rewrite (prog_bind_val _ _ _ _ _ (on_ring_val _ _ w _ _ _ Hp Hr1)).
    cbn -[perf_skip_all]. set (w1 := set_rings _ w).
    assert (w_rings w1 !! mmap_buf current = Some r1) as Hp1 by (simpl; by rewrite lookup_insert_eq).
    rewrite (prog_bind_val _ _ _ _ _ (on_ring_val _ _ w1 _ _ _ Hp1 (skip_all_any r1 Hwf1))).
    replace (data_tail r1 + available r1) with (data_head r1) by (unfold available; lia).
    unfold w1, set_rings, mret, prog_ret; simpl. by rewrite insert_insert_eq.
  - apply wf_set_tail; [done|]. unfold available. lia.
  - rewrite (unread_set_tail k) by (done || (unfold available; lia)).
    apply drop_ge. rewrite length_unread. done.
Qed.

Lemma encode_record_length st' rec : (8 <= length (encode_record st' rec))%nat.
Proof. destruct rec; unfold encode_record; rewrite length_app, length_encode_header; lia. Qed.

(** A round of the loop over a buffer with at least a header in it, and its end. *)
Lemma drain_round fuel (w w1 : world) r :
  w_rings w !! mmap_buf current = Some r -> wf_ring k r -> 8 <= available r ->
  handle_record page_mask cb current info w = Val (tt, w1) ->
  drain page_mask (S fuel) cb current info w = drain page_mask fuel cb current info w1.
Proof.
  intros Hp Hwf Hav Hrun. cbn [drain].
  rewrite (prog_bind_val _ _ _ _ _ (on_ring_same _ _ w r _ Hp (remaining_val r Hwf))).
  unfold sizeof_header. destruct (Z.ltb_spec 0 (available r)); [|lia].
  destruct (Z.ltb_spec (available r) 8); [lia|]. by rewrite (prog_bind_val _ _ _ _ _ Hrun).
Qed.

Lemma drain_done fuel (w : world) r :
  w_rings w !! mmap_buf current = Some r -> wf_ring k r -> unread k r = [] ->
  drain page_mask (S fuel) cb current info w = Val (tt, w).
Proof.
  intros Hp Hwf Hu. cbn [drain].
  rewrite (prog_bind_val _ _ _ _ _ (on_ring_same _ _ w r _ Hp (remaining_val r Hwf))).
  by rewrite (available_unread k r Hwf), Hu.
Qed.

Lemma drain_spec fuel rs (w : world) r t u :
  initialised (ei_attr info) ->
  w_rings w !! mmap_buf current = Some r -> wf_ring k r -> Forall (record_ok (ei_attr info)) rs ->
  unread k r = (rs ≫= encode_record st) -> (S (length rs) < fuel)%nat ->
  deliver rs (w_tls w, w_user w) = Val (tt, (t, u)) ->
  exists r', drain page_mask fuel cb current info w = Val (tt, upd w r' t u) /\
    wf_ring k r' /\ unread k r' = [].
Proof.
  intros Hinit Hp Hwf Hrs. revert fuel w r Hp Hwf.
  induction Hrs as [|rec rs Hrec _ IH]; intros fuel w r Hp Hwf Hu Hf Hdel;
    (destruct fuel as [|fuel]; [lia|]).
  - injection Hdel as <- <-. exists r. rewrite (drain_done fuel w r) by done.
    split_and!; [|done|done]. do 2 f_equal. destruct w; simpl in *. by rewrite insert_id.
  - pose proof (encode_record_length st rec) as Hl8. pose proof (available_unread k r Hwf) as Hav.
    rewrite Hu in Hav. cbn in Hav, Hf. rewrite length_app in Hav.
    destruct rec as [misc sd ips|e payload].
    + destruct (handle_sample w r misc sd ips _ t u Hp Hwf Hrec Hu Hdel) as (r1 & Hrun & Hwf1 & Hu1).
      rewrite (drain_round fuel w _ r) by (done || lia). destruct fuel as [|[|fuel]]; [lia..|].
      rewrite (initialised_rest _ _ _ _ Hinit Hrec), (replicate_add 8 4), <- app_assoc in Hu1.
      set (w1 := upd w r1 t u) in *.
      assert (w_rings w1 !! mmap_buf current = Some r1) as Hp1 by (simpl; by rewrite lookup_insert_eq).
      destruct (handle_zeros w1 r1 _ Hp1 Hwf1 Hu1) as (r2 & Hrun2 & Hwf2 & Hu2).
      pose proof (available_unread k r1 Hwf1) as Hav1. rewrite Hu1, length_app in Hav1.
      rewrite (drain_round _ w1 _ r1) by (done || (simpl in *; lia)).
      exists r2. rewrite (drain_done _ _ r2) by (done || (simpl; by rewrite lookup_insert_eq)).
      split_and!; [|done|done]. simpl. by rewrite insert_insert_eq.
    + destruct (handle_other w r e payload _ Hp Hwf Hrec Hu) as (r1 & Hrun & Hwf1 & Hu1).
      rewrite (drain_round fuel w _ r) by (done || lia).
      destruct (IH fuel (upd w r1 (w_tls w) (w_user w)) r1) as (r' & Hd & Hwf' & Hu');
        [by simpl; rewrite lookup_insert_eq|done|done|lia|done|].
      exists r'. split_and!; [|done|done]. rewrite Hd. simpl. by rewrite insert_insert_eq.
Qed.

(** ** Termination on any contents *)

Definition bytes_ok (r : perf_mmap_t) : Prop := Forall (fun b => 0 <= b < 256) (mm_data r).

Lemma le_combine_range bs : Forall (fun b => 0 <= b < 256) bs ->
  0 <= le_combine bs < 256 ^ Z.of_nat (length bs).
Proof.
  induction 1 as [|b bs Hb _ IH]; [done|]. cbn [le_combine length].
  rewrite Nat2Z.inj_succ, Z.pow_succ_r by lia. lia.
Qed.

Lemma unread_bytes r : wf_ring k r -> bytes_ok r -> Forall (fun b => 0 <= b < 256) (unread k r).
Proof.
  intros Hwf Hb. apply Forall_forall. unfold unread. intros x (i & -> & _)%list_elem_of_fmap.
  unfold byte_at. destruct Hwf as [_ _ _ Hlen]. destruct Hsize as [Hr _].
  pose proof (Z.mod_pos_bound i (2 ^ k) ltac:(lia)) as Hm.
  destruct (lookup_lt_is_Some_2 (mm_data r) (Z.to_nat (i mod 2 ^ k))) as [b Hlk]; [lia|].
  rewrite (list_lookup_total_correct _ _ _ Hlk). exact (Forall_lookup_1 _ _ _ _ Hb Hlk).
Qed.

(** A header read consumes eight bytes and gives fields of their width. *)
Lemma read_header_any r : wf_ring k r -> bytes_ok r -> 8 <= available r ->
  exists e, perf_read_header page_mask (Some r) = Val (Some e, Some (set_tail (data_tail r + 8) r)) /\
    is_u16 (eh_size e).
Proof.
  intros Hwf Hb Hav. unfold perf_read_header, sizeof_header.
  rewrite (prog_bind_val _ _ _ _ _ (read_enough page_mask k Hsize r 8 Hwf ltac:(lia))).
  cbn [Z.eqb]. eexists. split; [reflexivity|]. cbn [eh_size].
  pose proof (unread_bytes r Hwf Hb) as Hu. set (bs := take 2 _).
  assert (Forall (fun b => 0 <= b < 256) bs) as Hbs by (unfold bs; auto using Forall_take, Forall_drop).
  assert (length bs <= 2)%nat as Hl by (unfold bs; rewrite length_take; lia).
  pose proof (le_combine_range bs Hbs). unfold is_u16.
  assert (256 ^ Z.of_nat (length bs) <= 256 ^ 2) by (apply Z.pow_le_mono_r; lia). lia.
Qed.

(** Skipping a record whose header has been read: the tail ends behind the size
    that the header states, even when that is less than the header. *)
Lemma skip_record_any r e :
  wf_ring k r -> 8 <= available r -> is_u16 (eh_size e) -> 0 < eh_size e ->
  exists n, perf_skip_record e (Some (set_tail (data_tail r + 8) r)) =
      Val (true, Some (set_tail (data_tail r + n) r)) /\ 0 < n <= available r.
Proof.
  intros Hwf Hav Hs Hpos. pose proof Hwf as [Ht Hh Ha Hl]. unfold is_u16, available in *.
  unfold perf_skip_record, sizeof_header. destruct (Z.leb_spec 8 (eh_size e)).
  - rewrite u64_small by (unfold is_u64; lia).
    assert (wf_ring k (set_tail (data_tail r + 8) r)) as Hwf1
      by (apply wf_set_tail; unfold available; [done|lia]).
    rewrite (prog_bind_val _ _ _ _ _ (skip_spec k _ (eh_size e - 8) Hwf1 ltac:(lia))).
    eexists (8 + Z.min (eh_size e - 8) (available (set_tail (data_tail r + 8) r))).
    split; [unfold set_tail; simpl; by rewrite Z.add_assoc|]. unfold available; simpl. lia.
  - exists (eh_size e). split; [|lia].
    assert (u64 (eh_size e - 8) = 2 ^ 64 + (eh_size e - 8)) as ->.
    { unfold u64, to_unsigned. symmetry. apply Z.mod_unique_pos with (-1); lia. }
    unfold perf_skip_buffer_nbytes, mbind, prog_bind, deref_mmap, prog_put, mret, prog_ret. simpl.
    assert (u64 (data_tail r + 8 + (2 ^ 64 + (eh_size e - 8))) = data_tail r + eh_size e) as Hw.
    { unfold u64, to_unsigned. symmetry. apply Z.mod_unique_pos with 1; lia. }
    destruct (Z.ltb_spec (data_head r) (u64 (data_tail r + 8 + (2 ^ 64 + (eh_size e - 8)))));
      [lia|]. by rewrite Hw.
Qed.

(** The callback may stop the process but is not cut short by fuel. *)
Context (Hcb : forall id sd m1 m2 m3 s, cb id sd m1 m2 m3 s <> Fault OutOfFuel).

Definition ring_of (w : world) (r : perf_mmap_t) : Prop :=
  w_rings w !! mmap_buf current = Some r /\ wf_ring k r /\ bytes_ok r.

Lemma ring_of_upd (w : world) r n :
  ring_of w r -> 0 <= n <= available r ->
  ring_of (set_rings (<[mmap_buf current := set_tail (data_tail r + n) r]> (w_rings w)) w)
    (set_tail (data_tail r + n) r).
Proof.
  intros (Hp & Hwf & Hb) Hn. split_and!; [simpl; by rewrite lookup_insert_eq|by apply wf_set_tail|done].
Qed.

(** Ends in [Q] or stops the process, but not for want of fuel. *)
Definition ends {A} (o : outcome (A * world)) (Q : world -> Prop) : Prop :=
  match o with Val (_, w') => Q w' | Fault f => f <> OutOfFuel end.

Lemma ends_weaken {A} (o : outcome (A * world)) (Q Q' : world -> Prop) :
  ends o Q -> (forall w', Q w' -> Q' w') -> ends o Q'.
Proof. destruct o as [[a w']|f]; simpl; auto. Qed.

Lemma handle_sample_any (w : world) r e :
  ring_of w r ->
  ends ((sample_data ← on_ring (mmap_buf current) (perf_read_record_sample page_mask st e);
         on_user (cb (et_id current) sample_data (metric_id1 info) (metric_id2 info) (metric_id3 info))) w)
    (fun w' => exists r', ring_of w' r' /\ available r' <= available r).
Proof.
  intros Hring. pose proof Hring as (Hp & Hwf & Hb).
  destruct (consumes_sample page_mask k Hsize st e r Hwf) as [[Hc (sd & Hrun)]|[Hc Hrun]].
  - rewrite (prog_bind_val _ _ _ _ _ (on_ring_val _ _ w _ _ _ Hp Hrun)).
    assert (0 <= sample_bytes st) by (unfold sample_bytes; repeat case_match; lia).
    destruct (ring_of_upd w r (sample_bytes st) Hring ltac:(lia)) as (Hp' & Hwf' & Hb').
    unfold on_user. simpl. specialize (Hcb (et_id current) sd (metric_id1 info) (metric_id2 info)
      (metric_id3 info) (w_tls w, w_user w)).
    destruct (cb _ _ _ _ _ _) as [[[] [t u]]|f]; [|congruence].
    exists (set_tail (data_tail r + sample_bytes st) r). split; [done|]. unfold available. simpl. lia.
  - unfold mbind, prog_bind, on_ring. by rewrite Hp, Hrun.
Qed.

Lemma handle_record_progress (w : world) r :
  ring_of w r -> 8 <= available r ->
  ends (handle_record page_mask cb current info w)
    (fun w' => exists r', ring_of w' r' /\ available r' < available r).
Proof.
  intros Hring Hav. pose proof Hring as (Hp & Hwf & Hb).
  destruct (read_header_any r Hwf Hb Hav) as (e & Hh & He). unfold handle_record.
  rewrite (prog_bind_val _ _ _ _ _ (on_ring_val _ _ w _ _ _ Hp Hh)).
  pose proof (ring_of_upd w r 8 Hring ltac:(lia)) as Hring1.
  set (w1 := set_rings _ w) in *. set (r1 := set_tail (data_tail r + 8) r) in *.
  assert (available r1 = available r - 8) as Ha1 by (unfold available; simpl; lia).
  destruct (eh_type e =? PERF_RECORD_SAMPLE).
  - pose proof (handle_sample_any w1 r1 (mk_sample 0 0 0 0 0
      (negb (Z.land (eh_misc e) PERF_RECORD_MISC_EXACT_IP =? 0))) Hring1) as Hs.
    eapply ends_weaken; [exact Hs|]. intros w' (r' & Hr' & Hle). exists r'. split; [done|lia].
  - pose proof Hring1 as (Hp1 & Hwf1 & _). destruct (Z.eqb_spec (eh_size e) 0) as [H0|Hne].
    + rewrite (prog_bind_val _ _ _ _ _ (on_ring_val _ _ w1 _ _ _ Hp1 (skip_all_any r1 Hwf1))).
      unfold mret, prog_ret. exists (set_tail (data_head r1) r1). split.
      * replace (data_head r1) with (data_tail r1 + available r1) by (unfold available; lia).
        apply ring_of_upd; [done|lia].
      * unfold available. simpl. destruct Hwf. unfold available in Hav. lia.
    + assert (0 < eh_size e) as Hpos by (unfold is_u16 in He; lia).
      destruct (skip_record_any r e Hwf Hav He Hpos) as (n & Hskip & Hn).
      rewrite (prog_bind_val _ _ _ _ _ (on_ring_val _ _ w1 _ _ _ Hp1 Hskip)).
      unfold mret, prog_ret. exists (set_tail (data_tail r + n) r). split.
      * destruct (ring_of_upd w r n Hring ltac:(lia)) as (Hp' & Hwf' & Hb').
        split_and!; [|done|done]. simpl. by rewrite lookup_insert_eq.
      * unfold available. simpl. lia.
Qed.

Lemma drain_ends fuel (w : world) r :
  ring_of w r -> available r < Z.of_nat fuel ->
  drain page_mask fuel cb current info w <> Fault OutOfFuel.
Proof.
  revert w r. induction fuel as [|fuel IH]; intros w r Hring Hf.
  { destruct Hring as (_ & [] & _). unfold available in Hf. lia. }
  pose proof Hring as (Hp & Hwf & _). cbn [drain].
  rewrite (prog_bind_val _ _ _ _ _ (on_ring_same _ _ w r _ Hp (remaining_val r Hwf))).
  unfold sizeof_header. destruct (Z.ltb_spec 0 (available r)); [|done].
  destruct (Z.ltb_spec (available r) 8).
  - by rewrite (prog_bind_val _ _ _ _ _ (on_ring_val _ _ w _ _ _ Hp (skip_all_any r Hwf))).
  - pose proof (handle_record_progress w r Hring ltac:(lia)) as Hstep.
    unfold mbind at 1, prog_bind. destruct (handle_record _ _ _ _ w) as [[[] w']|f]; [|congruence].
    destruct Hstep as (r' & Hr' & Hlt). apply (IH w' r'); [done|lia].
Qed.
End Drain.

(** * The handler *)

Section HandlerFacts.
Context {X F T U : Type}.
Context (gettid page_mask : Z) (event_info : list perf_event_info_t).
Context (ioctl_ret : list (request * Z) -> request -> Z -> Z).
Context (Hioctl : forall h r fd, 0 <= ioctl_ret h r fd).

Abbreviation world := (@world X F T U).

Definition requests (req : request) (fds : list Z) : list (request * Z) :=
  (fun fd => (req, fd)) <$> base.filter (fun fd => 0 <= fd) fds.
Definition restarts (fds : list Z) : list (request * Z) :=
  fds ≫= fun fd => [(IOC_RESET, fd); (IOC_REFRESH, fd)].

Lemma ioctl_run fd r (w : world) :
  ioctl ioctl_ret fd r w = Val (ioctl_ret (w_ioctls w) r fd, set_ioctls (w_ioctls w ++ [(r, fd)]) w).
Proof. done. Qed.

Lemma set_ioctls_twice a b (w : world) : set_ioctls a (set_ioctls b w) = set_ioctls a w.
Proof. done. Qed.

Lemma all_fds_run req fds (w : world) :
  all_fds ioctl_ret req fds w = Val (true, set_ioctls (w_ioctls w ++ requests req fds) w).
Proof.
  revert w. induction fds as [|fd fds IH]; intros w; cbn [all_fds].
  { unfold requests. simpl. rewrite app_nil_r. by destruct w. }
  unfold requests. rewrite filter_cons. destruct (Z.ltb_spec fd 0) as [Hn|Hp].
  - rewrite decide_False by lia. apply IH.
  - rewrite decide_True by lia. rewrite (prog_bind_val _ _ _ _ _ (ioctl_run fd req w)).
    destruct (Z.ltb_spec (ioctl_ret (w_ioctls w) req fd) 0) as [Hb|_];
      [by specialize (Hioctl (w_ioctls w) req fd); lia|].
    rewrite IH. simpl. by rewrite set_ioctls_twice, <- app_assoc.
Qed.

Lemma restart_fds_run fds (w : world) : Forall (fun fd => 0 <= fd) fds ->
  restart_fds ioctl_ret fds w = Val (true, set_ioctls (w_ioctls w ++ restarts fds) w).
Proof.
  intros Hfds. revert w. induction Hfds as [|fd fds Hfd _ IH]; intros w; cbn [restart_fds].
  { unfold restarts. simpl. rewrite app_nil_r. by destruct w. }
  destruct (Z.ltb_spec fd 0); [lia|]. rewrite (prog_bind_val _ _ _ _ _ (ioctl_run fd _ w)).
  destruct (Z.ltb_spec (ioctl_ret (w_ioctls w) IOC_RESET fd) 0) as [Hb|_];
    [by specialize (Hioctl (w_ioctls w) IOC_RESET fd); lia|].
  rewrite (prog_bind_val _ _ _ _ _ (ioctl_run fd _ _)).
  match goal with |- context [if ?b then _ else _] => destruct b eqn:Hb end.
  { apply Z.ltb_lt in Hb. match type of Hb with ioctl_ret ?h ?r ?f < 0 =>
      specialize (Hioctl h r f); lia end. }
  rewrite IH. simpl. by rewrite set_ioctls_twice, <- !app_assoc.
Qed.

Lemma assert_ok_run (m : prog world bool) w w' :
  m w = Val (true, w') -> assert_ok m w = Val (tt, w').
Proof. intros Hm. unfold assert_ok. by rewrite (prog_bind_val _ _ _ _ _ Hm). Qed.

Lemma on_tls_run {A} (m : prog tls A) (w : world) a t :
  m (w_tls w) = Val (a, t) -> on_tls m w = Val (a, set_tls t w).
Proof. intros Hm. unfold on_tls. by rewrite Hm. Qed.

Lemma safe_enter_run (td : thread_data_t) (l : list thread_data_t) :
  profiler_safe_enter gettid (mk_tls (Some td) l : @tls (list perf_event_thread_t) X F T) =
    Val (negb (inside_agent td), mk_tls (Some (set_inside_agent true td)) l).
Proof. done. Qed.

(** The part of the handler between the checks and the end. *)
Lemma handler_run k cb current info rs l fuel si_code si_fd (w : world) td lst r t' u :
  ring_size page_mask k -> k <= 30 ->
  w_tls w = mk_tls (Some td) lst -> inside_agent td = false -> perf_state td = Some l ->
  0 <= si_code -> find_event si_fd l = Some current -> event_info !! et_event current = Some info ->
  Forall (fun fd => 0 <= fd) (et_fd current) ->
  initialised (ei_attr info) ->
  w_rings w !! mmap_buf current = Some r -> wf_ring k r -> Forall (record_ok (ei_attr info)) rs ->
  unread k r = (rs ≫= encode_record (sample_type (ei_attr info))) -> (S (length rs) < fuel)%nat ->
  deliver cb current info rs (mk_tls (Some (set_inside_agent true td)) lst, w_user w) =
    Val (tt, (t', u)) ->
  exists r', perf_event_handler gettid page_mask event_info (Some cb) ioctl_ret fuel si_code si_fd w =
    on_tls (profiler_safe_exit gettid)
      (mk_world t' (<[mmap_buf current := r']> (w_rings w)) (w_fds w)
         (w_ioctls w ++ requests IOC_DISABLE (l ≫= et_fd) ++ restarts (et_fd current) ++
            requests IOC_ENABLE (l ≫= et_fd)) u) /\
    wf_ring k r' /\ unread k r' = [].
Proof.
  intros Hsize Hk Htls Hin Hps Hcode Hcur Hinfo Hfds Hinit Hp Hwf Hrs Hu Hf Hdel.
  unfold perf_event_handler, perf_stop_all, perf_start_all, restart_perf_event.
  pose proof (safe_enter_run td lst) as Henter. rewrite <- Htls in Henter.
  rewrite (prog_bind_val _ _ _ _ _ (on_tls_run _ w _ _ Henter)). rewrite Hin. cbn [negb].
  set (w1 := set_tls _ w).
  assert (TD_GET gettid perf_state (w_tls w1) = Val (Some l, w_tls w1)) as Hget
    by (unfold TD_GET, thread_data_get; simpl; by rewrite Hps).
  rewrite (prog_bind_val _ _ _ _ _ (on_tls_run _ w1 _ _ Hget)).
  replace (set_tls (w_tls w1) w1) with w1 by done.
  rewrite (prog_bind_val _ _ _ _ _ (assert_ok_run _ _ _ (all_fds_run IOC_DISABLE (l ≫= et_fd) w1))).
  destruct (Z.ltb_spec si_code 0); [lia|]. rewrite Hcur, Hinfo. set (w2 := set_ioctls _ w1).
  destruct (drain_spec page_mask k Hsize Hk cb current info fuel rs w2 r t' u)
    as (r' & Hd & Hwf' & Hu'); [done..|]. exists r'. split_and!; [|done|done].
  rewrite (prog_bind_val _ _ _ _ _ Hd). set (w3 := mk_world t' _ _ _ _).
  rewrite (prog_bind_val _ _ _ _ _ (assert_ok_run _ _ _ (restart_fds_run (et_fd current) w3 Hfds))).
  rewrite (prog_bind_val _ _ _ _ _ (assert_ok_run _ _ _ (all_fds_run IOC_ENABLE (l ≫= et_fd) _))).
  rewrite set_ioctls_twice. unfold w3, w2, w1, set_ioctls, set_tls. simpl. by rewrite <- !app_assoc.
Qed.
End HandlerFacts.

(** * Setting up and closing *)

Section SetupFacts.
Context {X F T U : Type}.
Context (gettid : Z) (event_info : list perf_event_info_t) (num_events : Z).
Context (ioctl_ret : list (request * Z) -> request -> Z -> Z).
Context (Hioctl : forall h r fd, 0 <= ioctl_ret h r fd).
Context (sys_perf_event_open : list Z -> perf_event_attr -> Z -> Z).
Context (Hopen : forall fds a cpu, 0 <= sys_perf_event_open fds a cpu /\ sys_perf_event_open fds a cpu ∉ fds).
Context (sys_mmap : Z -> option perf_mmap_t) (Hmmap : forall fd, is_Some (sys_mmap fd)).

Abbreviation world := (@world X F T U).
Abbreviation fcntl_ok := (fun _ : Z => true).

(** [w'] has the descriptors [fds] and [n] buffers more than [w], among them [p]. *)
Record grown (w w' : world) (fds : list Z) (n : nat) : Prop := mk_grown {
  gr_user : w_user w' = w_user w;
  gr_fds : w_fds w' = w_fds w ++ fds;
  gr_new : Forall (fun fd => 0 <= fd /\ fd ∉ w_fds w) fds;
  gr_size : base.size (w_rings w') = (base.size (w_rings w) + n)%nat;
  gr_dom : dom (w_rings w) ⊆ dom (w_rings w')
}.

Lemma grown_refl w : grown w w [] 0.
Proof. split; [done|by rewrite app_nil_r|constructor|lia|done]. Qed.

Lemma grown_trans w1 w2 w3 f1 f2 n1 n2 :
  grown w1 w2 f1 n1 -> grown w2 w3 f2 n2 -> grown w1 w3 (f1 ++ f2) (n1 + n2).
Proof.
  intros [A2 A3 A4 A5 A6] [B2 B3 B4 B5 B6]. split; [congruence| | |lia|set_solver].
  - by rewrite B3, A3, app_assoc.
  - apply Forall_app. split; [done|]. eapply Forall_impl; [exact B4|]. intros fd [? Hn].
    split; [done|]. rewrite A3 in Hn. set_solver.
Qed.

Lemma open_cpu_run info cpu (w : world) :
  exists fd p w', open_cpu ioctl_ret sys_perf_event_open fcntl_ok sys_mmap info cpu w =
      Val (Some (fd, p), w') /\
    w_tls w' = w_tls w /\ grown w w' [fd] 1 /\ p ∈ dom (w_rings w') /\ p ∉ dom (w_rings w).
Proof.
  destruct (Hopen (w_fds w) (ei_attr info) cpu) as [Hfd Hnew].
  set (fd := sys_perf_event_open (w_fds w) (ei_attr info) cpu) in *.
  destruct (Hmmap fd) as [r0 Hr0]. set (p := fresh (dom (w_rings w))).
  exists fd, p. unfold open_cpu, mbind, prog_bind, prog_get, modify, ioctl, mret, prog_ret. fold fd.
  destruct (Z.leb_spec fd (-1)); [lia|]. cbn [negb]. unfold perf_set_mmap. rewrite Hr0.
  eexists. split; [reflexivity|]. simpl. fold p.
  assert (p ∉ dom (w_rings w)) as Hp by apply is_fresh.
  split_and!; [done| |set_solver|done]. split; simpl; try done.
  - by repeat constructor.
  - rewrite map_size_insert_None by by apply not_elem_of_dom. lia.
  - rewrite dom_insert. set_solver.
Qed.

Lemma open_cpus_run info l fds buf (w : world) :
  exists new p w', open_cpus ioctl_ret sys_perf_event_open fcntl_ok sys_mmap info l fds buf w =
      Val (Some (fds ++ new, if l is [] then buf else Some p), w') /\
    w_tls w' = w_tls w /\ grown w w' new (length l) /\
    (l <> [] -> p ∈ dom (w_rings w') /\ p ∉ dom (w_rings w)).
Proof.
  revert fds buf w. induction l as [|cpu l IH]; intros fds buf w.
  { exists [], 1%positive, w. split_and!; [by rewrite app_nil_r|done|apply grown_refl|done]. }
  destruct (open_cpu_run info cpu w) as (fd & p1 & w1 & Hrun & Ht1 & Hg1 & Hp1 & Hp1').
  destruct (IH (fds ++ [fd]) (Some p1) w1) as (new & p & w2 & Hrun2 & Ht2 & Hg2 & Hp).
  exists (fd :: new), (if l is [] then p1 else p), w2. cbn [open_cpus].
  rewrite (prog_bind_val _ _ _ _ _ Hrun), Hrun2. split_and!.
  - rewrite <- app_assoc. by destruct l.
  - congruence.
  - exact (grown_trans _ _ _ _ _ _ _ Hg1 Hg2).
  - intros _. pose proof (gr_dom _ _ _ _ Hg1). pose proof (gr_dom _ _ _ _ Hg2).
    destruct l; [set_solver|]. destruct Hp as [? ?]; [done|]. set_solver.
Qed.

Lemma push_event_run e (w : world) td lst l0 :
  w_tls w = mk_tls (Some td) lst -> perf_state td = Some l0 ->
  push_event gettid e w =
    Val (tt, set_tls (mk_tls (Some (set_perf_state (Some (l0 ++ [e])) td)) lst) w).
Proof.
  intros Ht Hp. unfold push_event, mbind, prog_bind, on_tls, TD_GET, thread_data_get. rewrite Ht.
  simpl. unfold TD_SET, thread_data_get. simpl. by rewrite Hp.
Qed.

Lemma setup_events_run n i (w : world) td lst l0 :
  (i + n <= length event_info)%nat ->
  w_tls w = mk_tls (Some td) lst -> perf_state td = Some l0 ->
  exists new w', setup_events gettid event_info ioctl_ret sys_perf_event_open fcntl_ok sys_mmap n i w =
      Val (true, w') /\
    length new = n /\ grown w w' (new ≫= et_fd) (8 * n) /\ NoDup (mmap_buf <$> new) /\
    Forall (fun e => mmap_buf e ∈ dom (w_rings w') /\ mmap_buf e ∉ dom (w_rings w)) new /\
    w_tls w' = mk_tls (Some (set_perf_state (Some (l0 ++ new)) td)) lst.
Proof.
  revert i w td l0. induction n as [|n IH]; intros i w td l0 Hi Ht Hp.
  { exists [], w. split_and!; [done|done|apply grown_refl|constructor|constructor|].
    rewrite app_nil_r, Ht. by destruct td; simpl in *; rewrite Hp. }
  cbn [setup_events]. destruct (event_info !! i) as [info|] eqn:Hinfo;
    [|apply lookup_ge_None in Hinfo; lia].
  destruct (open_cpus_run info cpus [] None w) as (fds & p & w1 & Hrun & Ht1 & Hg1 & Hpp).
  rewrite (prog_bind_val _ _ _ _ _ Hrun). simpl app. destruct Hpp as [Hp1 Hp2]; [done|].
  change (if cpus is [] then None else Some p) with (Some p). cbv iota beta.
  set (e := mk_event_thread (Z.of_nat i) fds p i). rewrite Ht in Ht1.
  rewrite (prog_bind_val _ _ _ _ _ (push_event_run e w1 td lst l0 Ht1 Hp)).
  set (w2 := set_tls _ w1). set (td2 := set_perf_state (Some (l0 ++ [e])) td).
  destruct (IH (S i) w2 td2 (l0 ++ [e])) as (new & w' & Hrun' & Hlen & Hg & Hnd & Hin & Ht');
    [lia|done|done|].
  assert (grown w w2 fds 8) as Hg2 by (destruct Hg1; by split).
  exists (e :: new), w'. split_and!.
  - done.
  - simpl. by rewrite Hlen.
  - replace (8 * S n)%nat with (8 + 8 * n)%nat by lia. exact (grown_trans _ _ _ _ _ _ _ Hg2 Hg).
  - simpl. apply NoDup_cons. split; [|done]. intros (e' & Heq & He')%list_elem_of_fmap.
    rewrite Forall_forall in Hin. destruct (Hin e' He') as [_ Hn]. apply Hn. simpl in Heq.
    rewrite <- Heq. exact Hp1.
  - pose proof (gr_dom _ _ _ _ Hg) as Hd. pose proof (gr_dom _ _ _ _ Hg2) as Hd2.
    constructor; [simpl; split; [set_solver|done]|].
    eapply Forall_impl; [exact Hin|]. intros e' [? ?]. split; [done|set_solver].
  - rewrite Ht'. unfold td2. by rewrite <- app_assoc.
Qed.

Lemma close_fds_run fds (w : world) : Forall (fun fd => 0 <= fd) fds ->
  close_fds fds w = Val (tt, set_fds (base.filter (fun f => f ∉ fds) (w_fds w)) w).
Proof.
  intros Hfds. revert w. induction Hfds as [|fd fds Hfd _ IH]; intros w; cbn [close_fds].
  { rewrite filter_all by (intros f _; apply not_elem_of_nil). by destruct w. }
  unfold close_fd at 1, mbind, prog_bind. destruct (Z.leb_spec 0 fd); [|lia].
  rewrite IH. do 2 f_equal. unfold set_fds. simpl. f_equal. rewrite list_filter_filter.
  apply list_filter_iff. intros f. rewrite not_elem_of_cons. tauto.
Qed.

Lemma close_events_run l1 l2 (w : world) :
  Forall (fun e => Forall (fun fd => 0 <= fd) (et_fd e)) l2 ->
  close_events (length l2) (length l1) (l1 ++ l2) w =
    Val (tt, set_rings (foldl (fun m e => delete (mmap_buf e) m) (w_rings w) l2)
           (set_fds (base.filter (fun f => f ∉ l2 ≫= et_fd) (w_fds w)) w)).
Proof.
  intros Hl. revert l1 w. induction Hl as [|e l2 He _ IH]; intros l1 w; cbn [close_events length].
  { rewrite filter_all by (intros f _; apply not_elem_of_nil). by destruct w. }
  rewrite list_lookup_middle by done. rewrite (prog_bind_val _ _ _ _ _ (close_fds_run _ w He)).
  set (w1 := set_fds _ w).
  specialize (IH (l1 ++ [e]) (set_rings (delete (mmap_buf e) (w_rings w1)) w1)).
  rewrite length_app, <- app_assoc in IH. simpl in IH. rewrite Nat.add_1_r in IH.
  etransitivity; [exact IH|]. do 2 f_equal. unfold set_rings, set_fds. simpl. f_equal.
  rewrite list_filter_filter. apply list_filter_iff. intros f. rewrite not_elem_of_app. tauto.
Qed.

Lemma size_unmap_all l (m : gmap positive perf_mmap_t) :
  NoDup (mmap_buf <$> l) -> Forall (fun e => mmap_buf e ∈ dom m) l ->
  (base.size (foldl (fun m e => delete (mmap_buf e) m) m l) + length l = base.size m)%nat.
Proof.
  revert m. induction l as [|e l IH]; intros m Hnd Hin; simpl; [lia|].
  apply NoDup_cons in Hnd as [Hne Hnd]. apply Forall_cons in Hin as [He Hin].
  assert (base.size m = S (base.size (delete (mmap_buf e) m))) as Hs.
  { apply elem_of_dom in He as [r Hr]. rewrite <- (insert_delete_id m _ r Hr) at 1.
    apply map_size_insert_None, lookup_delete_eq. }
  specialize (IH (delete (mmap_buf e) m) Hnd). rewrite Hs, <- IH; [lia|].
  apply Forall_forall. intros e' He'. rewrite dom_delete. apply elem_of_difference.
  rewrite Forall_forall in Hin. split; [by apply Hin|]. intros Heq%elem_of_singleton.
  apply Hne. rewrite <- Heq. apply list_elem_of_fmap. by exists e'.
Qed.

Lemma setup_run (w : world) td lst :
  (Z.to_nat num_events <= length event_info)%nat ->
  w_tls w = mk_tls (Some td) lst -> perf_state td = None ->
  exists new w1 ioc, setupEvents gettid event_info num_events ioctl_ret sys_perf_event_open fcntl_ok
      sys_mmap w = Val (true, set_ioctls ioc w1) /\
    length new = Z.to_nat num_events /\ grown w w1 (new ≫= et_fd) (8 * Z.to_nat num_events) /\
    NoDup (mmap_buf <$> new) /\ Forall (fun e => mmap_buf e ∈ dom (w_rings w1)) new /\
    w_tls w1 = mk_tls (Some (set_perf_state (Some new) td)) lst.
Proof.
  intros Hn Ht Hp. set (td1 := set_perf_state (Some []) td). set (w0 := set_tls (mk_tls (Some td1) lst) w).
  destruct (setup_events_run (Z.to_nat num_events) 0 w0 td1 lst []) as
    (new & w1 & Hrun & Hlen & Hg & Hnd & Hin & Ht1); [done..|].
  exists new, w1, (w_ioctls w1 ++ requests IOC_ENABLE (new ≫= et_fd)). split_and!; [|done| |done| |done].
  - unfold setupEvents.
    assert (TD_GET gettid perf_state (w_tls w) = Val (None, w_tls w)) as Hget
      by (unfold TD_GET, thread_data_get; rewrite Ht; simpl; by rewrite Hp).
    rewrite (prog_bind_val _ _ _ _ _ (on_tls_run _ w _ _ Hget)).
    replace (set_tls (w_tls w) w) with w by (by destruct w).
    assert (TD_SET gettid (set_perf_state (Some [])) (w_tls w) = Val (tt, mk_tls (Some td1) lst)) as Hset
      by (unfold TD_SET, thread_data_get; by rewrite Ht).
    rewrite (prog_bind_val _ _ _ _ _ (on_tls_run _ w _ _ Hset)). fold w0.
    rewrite (prog_bind_val _ _ _ _ _ Hrun). cbn [negb].
    assert (TD_GET gettid perf_state (w_tls w1) = Val (Some new, w_tls w1)) as Hget1
      by (unfold TD_GET, thread_data_get; by rewrite Ht1).
    rewrite (prog_bind_val _ _ _ _ _ (on_tls_run _ w1 _ _ Hget1)).
    replace (set_tls (w_tls w1) w1) with w1 by (by destruct w1).
    unfold perf_start_all. simpl default.
    by rewrite (prog_bind_val _ _ _ _ _ (all_fds_run ioctl_ret Hioctl IOC_ENABLE _ w1)).
  - destruct Hg. by split.
  - eapply Forall_impl; [exact Hin|]. by intros e [].
Qed.

Lemma grown_nonneg w w' new n : grown w w' (new ≫= et_fd) n ->
  Forall (fun e => Forall (fun fd => 0 <= fd) (et_fd e)) new.
Proof.
  intros [_ _ Hnew _ _]. apply Forall_forall. intros e He. apply Forall_forall. intros fd Hfd.
  rewrite Forall_forall in Hnew. apply Hnew. apply list_elem_of_bind. by exists e.
Qed.

Lemma close_run (w : world) td lst l :
  w_tls w = mk_tls (Some td) lst -> perf_state td = Some l -> length l = Z.to_nat num_events ->
  Forall (fun e => Forall (fun fd => 0 <= fd) (et_fd e)) l ->
  exists w', closeEvents gettid num_events ioctl_ret w = Val (true, w') /\
    w_tls w' = mk_tls (Some (set_perf_state None td)) lst /\
    w_rings w' = foldl (fun m e => delete (mmap_buf e) m) (w_rings w) l /\
    w_fds w' = base.filter (fun f => f ∉ l ≫= et_fd) (w_fds w).
Proof.
  intros Ht Hp Hlen Hl. unfold closeEvents.
  assert (TD_GET gettid perf_state (w_tls w) = Val (Some l, w_tls w)) as Hget
    by (unfold TD_GET, thread_data_get; rewrite Ht; simpl; by rewrite Hp).
  rewrite (prog_bind_val _ _ _ _ _ (on_tls_run _ w _ _ Hget)).
  replace (set_tls (w_tls w) w) with w by (by destruct w). unfold perf_stop_all.
  rewrite (prog_bind_val _ _ _ _ _ (all_fds_run ioctl_ret Hioctl IOC_DISABLE _ w)). rewrite <- Hlen.
  set (w1 := set_ioctls _ w). pose proof (close_events_run [] l w1 Hl) as Hc. simpl in Hc.
  rewrite (prog_bind_val _ _ _ _ _ Hc). set (w2 := set_rings _ _).
  assert (TD_SET gettid (set_perf_state None) (w_tls w2) =
    Val (tt, mk_tls (Some (set_perf_state None td)) lst)) as Hset.
  { unfold TD_SET, thread_data_get. change (w_tls w2) with (w_tls w). by rewrite Ht. }
  rewrite (prog_bind_val _ _ _ _ _ (on_tls_run _ w2 _ _ Hset)). eexists. by split.
Qed.
End SetupFacts.

(** * Properties *)

Section Theorems.
Context {X F T U : Type}.
Context (gettid page_mask : Z) (event_info : list perf_event_info_t).
Context (ioctl_ret : list (request * Z) -> request -> Z -> Z).

(** C12: a signal of the kernel for an event of the thread arrives outside of the
    agent, and the buffer holds any records as the kernel writes them for the
    attributes of [perf_attr_init].  The handler skips what is before the first sample,
    hands that sample to the callback, and drops everything behind it, since it takes
    the reserved word and the empty call chain for a header of size zero; it empties
    the buffer, restarts the event with all counters disabled in between, and leaves
    the agent.  So a buffer with one sample is handled whole, and of several only the
    first is seen. *)
Theorem handler_delivers k (cb : @callback X F T U) current info rs l fuel si_code si_fd (w : @world X F T U)
  td lst r td' lst' u
  (Hioctl : forall h r fd, 0 <= ioctl_ret h r fd)
  (Hsize : ring_size page_mask k) (Hk : k <= 30)
  (Htls : w_tls w = mk_tls (Some td) lst) (Hin : inside_agent td = false)
  (Hps : perf_state td = Some l) (Hcode : 0 <= si_code)
  (Hcur : find_event si_fd l = Some current) (Hinfo : event_info !! et_event current = Some info)
  (Hfds : Forall (fun fd => 0 <= fd) (et_fd current)) (Hattr : initialised (ei_attr info))
  (Hring : w_rings w !! mmap_buf current = Some r) (Hwf : wf_ring k r)
  (Hrs : Forall (record_ok (ei_attr info)) rs)
  (Hu : unread k r = (rs ≫= encode_record (sample_type (ei_attr info))))
  (Hfuel : (S (length rs) < fuel)%nat)
  (Hdel : match first_sample rs with
          | None => td' = set_inside_agent true td /\ lst' = lst /\ u = w_user w
          | Some (misc, sd) =>
            cb (et_id current) (sample_of (sample_type (ei_attr info)) misc sd)
              (metric_id1 info) (metric_id2 info) (metric_id3 info)
              (mk_tls (Some (set_inside_agent true td)) lst, w_user w) =
            Val (tt, (mk_tls (Some td') lst', u))
          end) :
  exists r', perf_event_handler gettid page_mask event_info (Some cb) ioctl_ret fuel si_code si_fd w =
    Val (tt, mk_world (mk_tls (Some (set_inside_agent false td')) lst')
      (<[mmap_buf current := r']> (w_rings w)) (w_fds w)
      (w_ioctls w ++ requests IOC_DISABLE (l ≫= et_fd) ++ restarts (et_fd current) ++
         requests IOC_ENABLE (l ≫= et_fd)) u) /\
    wf_ring k r' /\ unread k r' = [].
Proof.
  destruct (handler_run gettid page_mask event_info ioctl_ret Hioctl k cb current info rs l fuel
    si_code si_fd w td lst r (mk_tls (Some td') lst') u) as (r' & Hrun & Hwf' & Hu'); [done..| |].
  - unfold deliver. destruct (first_sample rs) as [[misc sd]|]; [done|]. by destruct Hdel as (-> & -> & ->).
  - exists r'. by rewrite Hrun.
Qed.


(** C13: whatever bytes the buffer holds, the loop of the handler ends within as
    many rounds as there are unread bytes, plus one. *)
Theorem drain_terminates k (cb : @callback X F T U) current info fuel (w : @world X F T U) r
  (Hsize : ring_size page_mask k) (Hk : k <= 30)
  (Hcb : forall id sd m1 m2 m3 s, cb id sd m1 m2 m3 s <> Fault OutOfFuel)
  (Hring : w_rings w !! mmap_buf current = Some r) (Hwf : wf_ring k r) (Hb : bytes_ok r)
  (Hfuel : available r < Z.of_nat fuel) :
  drain page_mask fuel cb current info w <> Fault OutOfFuel.
Proof. by eapply (drain_ends page_mask k). Qed.

(** C28: setting up the events of a thread and closing them again gives back every
    descriptor and the thread's list, but of the eight buffers that are mapped
    for each event only the last is unmapped: seven per event stay. *)
Theorem setup_close_leaks num_events sys_perf_event_open sys_mmap (w : @world X F T U) td lst
  (Hioctl : forall h r fd, 0 <= ioctl_ret h r fd)
  (Hopen : forall fds a cpu,
     0 <= sys_perf_event_open fds a cpu /\ sys_perf_event_open fds a cpu ∉ fds)
  (Hmmap : forall fd, is_Some (sys_mmap fd))
  (Hn : (Z.to_nat num_events <= length event_info)%nat)
  (Htls : w_tls w = mk_tls (Some td) lst) (Hps : perf_state td = None) :
  exists w1 w2,
    setupEvents gettid event_info num_events ioctl_ret sys_perf_event_open (fun _ => true) sys_mmap w =
      Val (true, w1) /\
    closeEvents gettid num_events ioctl_ret w1 = Val (true, w2) /\
    w_tls w2 = w_tls w /\ w_fds w2 = w_fds w /\
    base.size (w_rings w2) = (base.size (w_rings w) + 7 * Z.to_nat num_events)%nat.
Proof.
  destruct (setup_run gettid event_info num_events ioctl_ret Hioctl sys_perf_event_open Hopen
    sys_mmap Hmmap w td lst Hn Htls Hps) as (new & w1 & ioc & Hrun & Hlen & Hg & Hnd & Hin & Ht1).
  destruct (close_run gettid num_events ioctl_ret Hioctl (set_ioctls ioc w1)
    (set_perf_state (Some new) td) lst new Ht1 eq_refl Hlen) as (w2 & Hrun2 & Ht2 & Hr2 & Hf2);
    [by eapply grown_nonneg|].
  exists (set_ioctls ioc w1), w2. destruct Hg as [_ Hgf Hgn Hgs _]. split_and!; [done|done| | |].
  - rewrite Ht2, Htls. destruct td. simpl in *. by subst.
  - rewrite Hf2. simpl. rewrite Hgf, filter_app, filter_all, filter_none; [apply app_nil_r| |].
    + intros f Hf Hn'. by apply Hn'.
    + intros f Hf Hf'. rewrite Forall_forall in Hgn. by apply (Hgn f).
  - pose proof (size_unmap_all new (w_rings w1) Hnd Hin) as Hs.
    simpl in Hr2. rewrite <- Hr2 in Hs. lia.
Qed.
End Theorems.

Module Examples.
Import PerfMmap.Examples.

Definition user := list (Z * Z).
Definition cb0 : @callback unit unit unit user := fun id sd _ _ _ s =>
  Val (tt, (s.1, s.2 ++ [(id, sd_ip sd)])).
Definition info0 : perf_event_info_t := mk_event_info 0 1 2 (lit "CYCLES") 100
  (perf_attr_init 128 zero_attr 100 PERF_SAMPLE_TID).2.
Definition thread0 : perf_event_thread_t := mk_event_thread 0 [10; 11] 7%positive 0.
Definition td0 : @thread_data_t (list perf_event_thread_t) unit unit unit :=
  mk_td 42 false (Some [thread0]) None None None None None [].
Definition ioctl0 (h : list (request * Z)) (r : request) (fd : Z) : Z := 0.

(** A buffer of 128 bytes with a record of another type and two samples, as the kernel
    writes them: 12 bytes stay behind the fields of a sample. *)
Definition sd1 : perf_sample_data_t := mk_sample 4661 77 78 0 3 false.
Definition records0 : list record :=
  [OtherRecord (mk_ehdr 5 0 24) (replicate 16 1); SampleRecord 16384 sd0 []; SampleRecord 0 sd1 []].
Definition bytes0 : list Z := records0 ≫= encode_record (sample_type (ei_attr info0)).
Definition ring1 : perf_mmap_t := mk_mmap 220 100 (drop 28 bytes0 ++ replicate 8 0 ++ take 28 bytes0).
Definition world0 : @world unit unit unit user :=
  mk_world (mk_tls (Some td0) []) {[7%positive := ring1]} [10; 11] [] [].

Lemma ring1_wf : wf_ring 7 ring1.
Proof. split; [simpl; lia|simpl; lia|simpl; lia|reflexivity]. Qed.

Lemma sample_record_ok misc sd :
  is_u16 misc -> PerfMmap.sample_ok sd -> record_ok (ei_attr info0) (SampleRecord misc sd []).
Proof. intros Hm Hs. split; [split; [by vm_compute|done|by vm_compute]|]. by split. Qed.

Lemma records0_ok : Forall (record_ok (ei_attr info0)) records0.
Proof.
  repeat apply Forall_cons_2; [|apply sample_record_ok..|apply Forall_nil_2].
  all: repeat split; try (by vm_compute); try done.
Qed.

(** The first sample reaches the callback, the second does not. *)
Lemma handler_delivers_witness :
  exists w', perf_event_handler 42 127 [info0] (Some cb0) ioctl0 5 1 11 world0 = Val (tt, w') /\
    w_user w' = [(0, 4660)].
Proof.
  destruct (handler_delivers 42 127 [info0] ioctl0 7 cb0 thread0 info0 records0 [thread0] 5 1 11
    world0 td0 [] ring1 (set_inside_agent true td0) [] [(0, 4660)]) as (r' & Hrun & _);
    [..|exists (mk_world (mk_tls (Some (set_inside_agent false (set_inside_agent true td0))) [])
          (<[mmap_buf thread0 := r']> (w_rings world0)) [10; 11]
          (requests IOC_DISABLE [10; 11] ++ restarts [10; 11] ++ requests IOC_ENABLE [10; 11]) [(0, 4660)]);
        split; [exact Hrun|reflexivity]].
  - intros. unfold ioctl0. lia.
  - split; [lia|done].
  - lia.
  - reflexivity.
  - reflexivity.
  - reflexivity.
  - lia.
  - reflexivity.
  - reflexivity.
  - repeat constructor; lia.
  - by eexists _, _, _.
  - reflexivity.
  - exact ring1_wf.
  - exact records0_ok.
  - vm_compute. reflexivity.
  - apply Nat.ltb_lt. reflexivity.
  - vm_compute. reflexivity.
Defined.

Definition td1 : @thread_data_t (list perf_event_thread_t) unit unit unit := zero_td 42.
Definition world1 : @world unit unit unit user := mk_world (mk_tls (Some td1) []) ∅ [] [] [].


(** A buffer of arbitrary bytes. *)
Definition noise : perf_mmap_t := mk_mmap 100 60 ((fun i => (7 * i) mod 256) <$> seqZ 0 64).

Lemma drain_terminates_witness :
  drain 63 100 cb0 thread0 info0 (set_rings {[7%positive := noise]} world0) <> Fault OutOfFuel.
Proof.
  apply (drain_terminates 63 6 cb0 thread0 info0 100 _ noise); [exact size6|lia|done|reflexivity| | |].
  - split; simpl; [lia|lia|lia|reflexivity].
  - unfold bytes_ok. simpl. repeat (constructor; [split; by vm_compute|]). constructor.
  - reflexivity.
Defined.

Definition open0 (fds : list Z) (a : perf_event_attr) (cpu : Z) : Z := 1 + foldr Z.max 0 fds.

Lemma open0_fresh fds a cpu : 0 <= open0 fds a cpu /\ open0 fds a cpu ∉ fds.
Proof.
  assert (0 <= foldr Z.max 0 fds /\ forall f, f ∈ fds -> f <= foldr Z.max 0 fds) as [H0 Hmax].
  { induction fds as [|f fds [IH0 IH]]; simpl; [split; [done|by inversion 1]|]. split; [lia|].
    intros g [->|Hg]%elem_of_cons; [lia|]. specialize (IH g Hg). lia. }
  unfold open0. split; [lia|]. intros Hin%Hmax. lia.
Qed.

Lemma setup_close_leaks_witness :
  exists w1 w2,
    setupEvents 42 [info0; info0] 2 ioctl0 open0 (fun _ => true) (fun _ => Some ring0) world1 =
      Val (true, w1) /\
    closeEvents 42 2 ioctl0 w1 = Val (true, w2) /\ base.size (w_rings w2) = 14%nat.
Proof.
  destruct (setup_close_leaks 42 [info0; info0] ioctl0 2 open0 (fun _ => Some ring0) world1 td1 [])
    as (w1 & w2 & H1 & H2 & _ & _ & Hs).
  - intros. unfold ioctl0. lia.
  - exact open0_fresh.
  - intros. by eexists.
  - simpl. lia.
  - reflexivity.
  - reflexivity.
  - exists w1, w2. split; [exact H1|]. split; [exact H2|]. rewrite Hs. reflexivity.
Defined.
End Examples.
