(* ===== verification/Profiler.v ===== *)
(** The profiler ([profiler.h], [profiler.cpp]): what a thread sets up when it
    starts and gives back when it ends, what a sample writes, and the totals.

    The state of the agent is the [world] of [PerfEvents.v] with the records
    [globals] (one per process) and [locals] (the [thread_local] variables of the
    thread that runs). *)
From stdpp Require Import base numbers option list gmap strings.
From Stdlib Require Import ZArith Lia Ascii.
From S2P Require Import Prelude.
From S2P Require Import Cxx.
From S2P Require Import PerfMmap.
From S2P Require Import Metrics.
From S2P Require Import NewContext.
From S2P Require Import OutBuf.
From S2P Require Import Output.
From S2P Require Import ThreadData.
From S2P Require Import PerfUtil.
From S2P Require Import ProfilerSupport.
From S2P Require Import PerfConfig.
From S2P Require Import PerfEvents.

(** * State *)

(** The totals that are kept per thread and over all threads. *)
Inductive counter :=
| WrittenBytes | LoadedBytes | UsedBytes | DeadBytes | NewBytes | OldBytes | OldAppxBytes
| AllocTimes | SameNUMA | DiffNUMA | L1Cachemiss | GenericCounter | PMUCounter.

#[global] Instance counter_eq_dec : EqDecision counter.
Proof. solve_decision. Defined.

(** [std::ofstream]: insertions into a stream that is not open set its fail bit
    and are lost. *)
Record ofstream := mk_ofstream { of_open : bool; of_fail : bool; of_text : str; of_pos : nat }.
Definition ofstream0 : ofstream := mk_ofstream false false [] 0.

Definition insert_text (s : str) (f : ofstream) : ofstream :=
  if of_fail f || negb (of_open f) then mk_ofstream (of_open f) true (of_text f) (of_pos f)
  else mk_ofstream true false (take (of_pos f) (of_text f) ++ s ++ drop (of_pos f + length s) (of_text f))
         (of_pos f + length s).
Definition seekp0 (f : ofstream) : ofstream :=
  if of_fail f || negb (of_open f) then mk_ofstream (of_open f) true (of_text f) (of_pos f)
  else mk_ofstream true false (of_text f) 0.
Definition close_stream (f : ofstream) : ofstream :=
  mk_ofstream false (of_fail f || negb (of_open f)) (of_text f) (of_pos f).

Record globals := mk_globals {
  clientName : str;
  onload_flag : bool;
  jni_flag : bool;
  grandTot : counter -> Z;
  active_memory_usage : Z;
  GCCounter : Z;
  output_lock : bool;
  _statistics_file : ofstream;
  _method_file : ofstream;
  _rdx_file : ofstream;
  rdx_map : list (Z * Z);
  metric_infos : list metric_info_t;
  black_list : blacklist;
  object_live_cycle : list str;
  object_cyc_lock : bool;
  object_info : str;
  (* what the runtime keeps for the agent: blocks it allocated and the agent has
     not given back, and classes whose method identifiers it was made to create *)
  runtime_blocks : Z;
  forced_classes : list Z
}.

Record locals := mk_locals {
  total : counter -> Z;
  method_id_list : gset Z;
  object_alloc_counter : gmap Z Z;
  callpath_vec : list (Z * str)
}.

Record profiler := mk_profiler { glob : globals; loc : locals }.

Definition set_glob g p := mk_profiler g (loc p).
Definition set_loc l p := mk_profiler (glob p) l.

Definition set_clientName n g := mk_globals n (onload_flag g) (jni_flag g) (grandTot g)
  (active_memory_usage g) (GCCounter g) (output_lock g) (_statistics_file g) (_method_file g)
  (_rdx_file g) (rdx_map g) (metric_infos g) (black_list g) (object_live_cycle g)
  (object_cyc_lock g) (object_info g) (runtime_blocks g) (forced_classes g).
Definition set_grandTot t g := mk_globals (clientName g) (onload_flag g) (jni_flag g) t
  (active_memory_usage g) (GCCounter g) (output_lock g) (_statistics_file g) (_method_file g)
  (_rdx_file g) (rdx_map g) (metric_infos g) (black_list g) (object_live_cycle g)
  (object_cyc_lock g) (object_info g) (runtime_blocks g) (forced_classes g).
Definition set_memory m g := mk_globals (clientName g) (onload_flag g) (jni_flag g) (grandTot g)
  m (GCCounter g) (output_lock g) (_statistics_file g) (_method_file g) (_rdx_file g)
  (rdx_map g) (metric_infos g) (black_list g) (object_live_cycle g) (object_cyc_lock g)
  (object_info g) (runtime_blocks g) (forced_classes g).
Definition set_GCCounter n g := mk_globals (clientName g) (onload_flag g) (jni_flag g)
  (grandTot g) (active_memory_usage g) n (output_lock g) (_statistics_file g) (_method_file g)
  (_rdx_file g) (rdx_map g) (metric_infos g) (black_list g) (object_live_cycle g)
  (object_cyc_lock g) (object_info g) (runtime_blocks g) (forced_classes g).
Definition set_files st me rd g := mk_globals (clientName g) (onload_flag g) (jni_flag g)
  (grandTot g) (active_memory_usage g) (GCCounter g) (output_lock g) st me rd (rdx_map g)
  (metric_infos g) (black_list g) (object_live_cycle g) (object_cyc_lock g) (object_info g)
  (runtime_blocks g) (forced_classes g).
Definition set_infos i g := mk_globals (clientName g) (onload_flag g) (jni_flag g) (grandTot g)
  (active_memory_usage g) (GCCounter g) (output_lock g) (_statistics_file g) (_method_file g)
  (_rdx_file g) (rdx_map g) i (black_list g) (object_live_cycle g) (object_cyc_lock g)
  (object_info g) (runtime_blocks g) (forced_classes g).
Definition set_black_list b g := mk_globals (clientName g) (onload_flag g) (jni_flag g)
  (grandTot g) (active_memory_usage g) (GCCounter g) (output_lock g) (_statistics_file g)
  (_method_file g) (_rdx_file g) (rdx_map g) (metric_infos g) b (object_live_cycle g)
  (object_cyc_lock g) (object_info g) (runtime_blocks g) (forced_classes g).
Definition set_objects live info g := mk_globals (clientName g) (onload_flag g) (jni_flag g)
  (grandTot g) (active_memory_usage g) (GCCounter g) (output_lock g) (_statistics_file g)
  (_method_file g) (_rdx_file g) (rdx_map g) (metric_infos g) (black_list g) live
  (object_cyc_lock g) info (runtime_blocks g) (forced_classes g).
Definition set_cyc_lock b g := mk_globals (clientName g) (onload_flag g) (jni_flag g)
  (grandTot g) (active_memory_usage g) (GCCounter g) (output_lock g) (_statistics_file g)
  (_method_file g) (_rdx_file g) (rdx_map g) (metric_infos g) (black_list g)
  (object_live_cycle g) b (object_info g) (runtime_blocks g) (forced_classes g).
Definition set_runtime n c g := mk_globals (clientName g) (onload_flag g) (jni_flag g)
  (grandTot g) (active_memory_usage g) (GCCounter g) (output_lock g) (_statistics_file g)
  (_method_file g) (_rdx_file g) (rdx_map g) (metric_infos g) (black_list g)
  (object_live_cycle g) (object_cyc_lock g) (object_info g) n c.

Definition set_method_id_list m l := mk_locals (total l) m (object_alloc_counter l) (callpath_vec l).
Definition set_alloc_counter c l := mk_locals (total l) (method_id_list l) c (callpath_vec l).
Definition set_callpath v l := mk_locals (total l) (method_id_list l) (object_alloc_counter l) v.

Abbreviation events := (list perf_event_thread_t).
Abbreviation TLS := (@tls events NewContextTree OUTPUT unit).
Abbreviation agent := (@world NewContextTree OUTPUT unit profiler).
Abbreviation P := (prog (TLS * profiler)).
Abbreviation A := (prog agent).

(** Operations on the data of the thread and on the variables. *)
Definition tls_op {R} (m : prog TLS R) : P R := fun s =>
  match m s.1 with Val (a, t) => Val (a, (t, s.2)) | Fault f => Fault f end.
Definition get_prof : P profiler := fun s => Val (s.2, s).
Definition mod_glob (f : globals -> globals) : P unit := fun s =>
  Val (tt, (s.1, set_glob (f (glob s.2)) s.2)).
Definition mod_loc (f : locals -> locals) : P unit := fun s =>
  Val (tt, (s.1, set_loc (f (loc s.2)) s.2)).

(** [n] more blocks of the runtime belong to the agent. *)
Definition owning (n : Z) (g : globals) : globals :=
  set_runtime (runtime_blocks g + n) (forced_classes g) g.
Definition own (n : Z) : P unit := mod_glob (owning n).

Lemma owning_add m n g : owning m (owning n g) = owning (m + n) g.
Proof. unfold owning. destruct g. unfold set_runtime. simpl. f_equal. lia. Qed.

Lemma owning_0 g : owning 0 g = g.
Proof. unfold owning. destruct g. unfold set_runtime. simpl. f_equal. lia. Qed.

Lemma own_run n t p : own n (t, p) = Val (tt, (t, mk_profiler (owning n (glob p)) (loc p))).
Proof. done. Qed.

Definition on_agent {R} (m : P R) : A R := fun w =>
  match m (w_tls w, w_user w) with
  | Val (a, (t, u)) => Val (a, mk_world t (w_rings w) (w_fds w) (w_ioctls w) u)
  | Fault f => Fault f
  end.

(** * Formats *)

Definition fmt_d (z : Z) : str := dec (s32 (u32 z)).     (* %d *)
Definition fmt_u (z : Z) : str := dec (u32 z).           (* %u *)
Definition fmt_ld (z : Z) : str := dec (s64 z).          (* %ld *)

(** What [writef] prints of a call path: one entry per run of entries with the
    same method. *)
Fixpoint path_pieces (prev : option Z) (path : list (Z * str)) : list str :=
  match path with
  | [] => []
  | (m, line) :: path =>
    (if decide (prev = Some m) then [] else [line ++ lit ":" ++ fmt_d m ++ lit " "]) ++
    path_pieces (Some m) path
  end.

Section Profiler.
Context (gettid : Z).
Context (sys_open : str -> open_result) (answers : nat -> write_event) (close_ok : bool) (ffuel : nat).

(** [stream->writef(text)] through a field of the data of the thread. *)
Definition td_writef (field : thread_data_t -> option OUTPUT)
  (set : option OUTPUT -> thread_data_t -> thread_data_t) (text : str) : P unit :=
  o ← tls_op (TD_GET gettid field);
  match o with
  | None => prog_fault UndefinedBehaviour
  | Some o =>
    '(_, o) ← prog_lift (writef sys_open answers ffuel text o);
    tls_op (TD_SET gettid (set (Some o)))
  end.

Fixpoint td_write_all field set (pieces : list str) : P unit :=
  match pieces with
  | [] => mret tt
  | t :: pieces => td_writef field set t;; td_write_all field set pieces
  end.

(** The line that a sample adds to a trace: the path and a number. *)
Definition trace_pieces (path : list (Z * str)) (n : Z) : list str :=
  path_pieces None path ++
  match path with [] => [] | _ => [lit "|" ++ fmt_d n ++ [ascii_of_nat 10]] end.

Definition write_trace field set (n : Z) : P unit :=
  o ← tls_op (TD_GET gettid field);
  match o with
  | None => mret tt
  | Some _ => p ← get_prof; td_write_all field set (trace_pieces (callpath_vec (loc p)) n)
  end.

(** [constructContext]; the result is always null. *)
Definition constructContext : P unit :=
  ctxt_tree ← tls_op (TD_GET gettid context_state);
  match ctxt_tree with
  | None => mret tt
  | Some _ =>
    p ← get_prof;
    write_trace output_state_trace set_output_state_trace (active_memory_usage (glob p));;
    write_trace output_state_cachemiss set_output_state_cachemiss 100000000
  end.

Definition GenericAnalysis : P unit := constructContext.

(** [Profiler::OnSample]; [tdata], [td] and [sizeof_td] are the addresses that
    [IsValidAddress] looks at. *)
Context (tdata td sizeof_td : Z).

Definition OnSample (eventID : Z) (sampleData : perf_sample_data_t)
  (metric_id1 metric_id2 metric_id3 : Z) : P unit :=
  p ← get_prof;
  let client := clientName (glob p) in
  if negb (is_client client GENERIC) && (negb (isPrecise sampleData) || (sd_addr sampleData =? 0))
  then mret tt
  else
    let other := negb (is_client client DATA_CENTRIC_CLIENT_NAME) &&
      negb (is_client client NUMANODE_CLIENT_NAME) && negb (is_client client GENERIC) &&
      negb (is_client client HEAP) && negb (is_client client ALLOCATION_TIMES) in
    if other && negb (IsValidAddress tdata td sizeof_td (sd_ip sampleData) (sd_addr sampleData)
                        (black_list (glob p)))
    then mret tt
    else
      match getMetricInfo metric_id1 (metric_infos (glob p)) with
      | None => prog_fault UndefinedBehaviour
      | Some _ => if is_client client GENERIC then GenericAnalysis else mret tt
      end.

(** * Threads *)

Definition zero_totals : counter -> Z := fun _ => 0.

(** One [OUTPUT] of the thread: its object, whose memory holds [raw] and [mem],
    its name cut to 128 bytes, and the field that keeps it. *)
Context (raw : outbuf) (mem : list ascii).

Definition output_name (kind : str) : str :=
  take 127 (lit "/sdcard/Documents/" ++ kind ++ lit "-thread-" ++ fmt_u gettid ++ lit ".run").

Definition new_output (kind : str) (set : option OUTPUT -> thread_data_t -> thread_data_t) : P unit :=
  let '(_, o) := setFileName (output_name kind) (new_OUTPUT raw mem) in
  tls_op (TD_SET gettid (set (Some o))).

Context (realpath : option str -> str -> str) (loadmap : option (list str)) (garbage : str) (pagesize : Z).
Context (event_info : list perf_event_info_t) (num_events : Z).
Context (ioctl_ret : list (request * Z) -> request -> Z -> Z).
Context (sys_perf_event_open : list Z -> perf_event_attr -> Z -> Z).
Context (fcntl_ok : Z -> bool) (sys_mmap : Z -> option perf_mmap_t).

(** What [threadStart] does before it opens the events. *)
Definition start_thread : P unit :=
  mod_loc (fun _ => mk_locals zero_totals ∅ ∅ []);;
  tls_op (fun s => let '(_, s) := thread_data_alloc gettid s in Val (tt, s));;
  tls_op (TD_SET gettid (set_context_state (Some new_NewContextTree)));;
  new_output (lit "method") set_output_state;;
  new_output (lit "trace") set_output_state_trace;;
  new_output (lit "alloc") set_output_state_alloc;;
  new_output (lit "cachemiss") set_output_state_cachemiss;;
  p ← get_prof;
  b ← prog_lift (PopulateBlackListAddresses realpath loadmap garbage pagesize (black_list (glob p)));
  mod_glob (set_black_list b).

Definition threadStart : A unit :=
  on_agent start_thread;;
  setupEvents gettid event_info num_events ioctl_ret sys_perf_event_open fcntl_ok sys_mmap;;
  mret tt.

(** [delete stream; TD_GET(field) = nullptr]; the file of a deleted stream is
    what [destroy_OUTPUT] leaves. *)
Definition delete_output (field : thread_data_t -> option OUTPUT)
  (set : option OUTPUT -> thread_data_t -> thread_data_t) : P (option OUTPUT) :=
  o ← tls_op (TD_GET gettid field);
  o ← match o with
      | None => mret None
      | Some o => o ← prog_lift (destroy_OUTPUT answers close_ok ffuel o); mret (Some o)
      end;
  tls_op (TD_SET gettid (set None));;
  mret o.

(** The text of the statistics; [ratio] formats a quotient of totals. *)
Context (ratio : Z -> Z -> str).

Definition endl : str := [ascii_of_nat 10].

Definition statistics_text (g : globals) : str :=
  let n c := dec (grandTot g c) in
  let plus c1 c2 := u64 (grandTot g c1 + grandTot g c2) in
  let plus3 c1 c2 c3 := u64 (plus c1 c2 + grandTot g c3) in
  let client := clientName g in
  if is_client client DEADSTORE_CLIENT_NAME then
    n WrittenBytes ++ endl ++ n DeadBytes ++ endl ++
    ratio (grandTot g DeadBytes) (plus DeadBytes UsedBytes)
  else if is_client client SILENTSTORE_CLIENT_NAME then
    n WrittenBytes ++ endl ++ dec (plus OldBytes OldAppxBytes) ++ endl ++
    ratio (grandTot g OldBytes) (plus3 OldBytes OldAppxBytes NewBytes) ++ endl ++
    ratio (grandTot g OldAppxBytes) (plus3 OldBytes OldAppxBytes NewBytes)
  else if is_client client SILENTLOAD_CLIENT_NAME then
    n LoadedBytes ++ endl ++ dec (plus OldBytes OldAppxBytes) ++ endl ++
    ratio (grandTot g OldBytes) (plus3 OldBytes OldAppxBytes NewBytes) ++ endl ++
    ratio (grandTot g OldAppxBytes) (plus3 OldBytes OldAppxBytes NewBytes)
  else if is_client client DATA_CENTRIC_CLIENT_NAME then
    client ++ endl ++ n AllocTimes ++ endl ++ n L1Cachemiss ++ endl
  else if is_client client NUMANODE_CLIENT_NAME then
    client ++ endl ++ n SameNUMA ++ endl ++ n DiffNUMA ++ endl
  else if is_client client GENERIC then client ++ endl ++ n GenericCounter ++ endl
  else if is_client client HEAP then client ++ endl
  else if is_client client ALLOCATION_TIMES then client ++ endl ++ n AllocTimes ++ endl
  else if is_client client REUSE_DISTANCE then client ++ endl ++ n PMUCounter ++ endl
  else [].

(** A client without statistics inserts nothing. *)
Definition output_statistics (g : globals) : globals :=
  match statistics_text g with
  | [] => g
  | text => set_files (insert_text text (_statistics_file g)) (_method_file g) (_rdx_file g) g
  end.

Definition add_totals (l : locals) (g : globals) : globals :=
  set_grandTot (fun c => u64 (grandTot g c + total l c)) g.

(** The end of [Profiler::threadEnd]: in attach mode the totals are added under the
    output lock, which the thread does not hold before. *)
Definition rewind (g : globals) : globals :=
  set_files (seekp0 (_statistics_file g)) (_method_file g) (_rdx_file g) g.

Definition merge_totals : P unit :=
  p ← get_prof;
  if onload_flag (glob p) then mod_glob (add_totals (loc p))
  else if output_lock (glob p) then prog_fault Deadlock
  else mod_glob (add_totals (loc p));; mod_glob rewind;; mod_glob output_statistics.

(** [Profiler::threadEnd]; the results are the four deleted streams. *)
Definition threadEnd : P (list (option OUTPUT)) :=
  o1 ← delete_output output_state set_output_state;
  o2 ← delete_output output_state_trace set_output_state_trace;
  o3 ← delete_output output_state_alloc set_output_state_alloc;
  o4 ← delete_output output_state_cachemiss set_output_state_cachemiss;
  tls_op (TD_SET gettid (set_context_state None));;
  tls_op (TD_SET gettid (fun t => set_ctxt_sample_state ((fun _ => None) <$> ctxt_sample_state t) t));;
  p ← get_prof;
  tls_op (thread_data_dealloc (clientName (glob p)));;
  merge_totals;;
  mret [o1; o2; o3; o4].

(** * The process *)

Definition output_method (buf : str) : P Z :=
  mod_glob (fun g => set_files (_statistics_file g) (insert_text (c_str buf) (_method_file g))
                       (_rdx_file g) g);;
  mret 0.

Definition IncrementGCCouter : P unit := mod_glob (fun g => set_GCCounter (u64 (GCCounter g + 1)) g).

(** [Profiler::shutdown]; [delete_key] is [thread_data_shutdown] as the thread sees it:
    what was behind the key is out of reach. *)
Definition delete_key : P unit := tls_op (fun s => Val (tt, forget s)).

Definition shutdown : P unit :=
  p ← get_prof;
  if onload_flag (glob p) then
    delete_key;;
    mod_glob output_statistics;;
    mod_glob (fun g => set_files (close_stream (_statistics_file g)) (close_stream (_method_file g))
                         (_rdx_file g) g);;
    mod_glob (fun g =>
      if is_client (clientName g) REUSE_DISTANCE
      then set_files (_statistics_file g) (_method_file g)
             (foldl (fun f e => insert_text (dec (e.1) ++ lit " " ++ dec (e.2) ++ endl) f)
                (_rdx_file g) (rdx_map g)) g
      else g)
  else mret tt.
End Profiler.

(** * The start of the process *)

(** What [Profiler::init] works on: the variables of the events, those of the
    profiler, and the record of the thread that loads the agent. *)
Record start_state (C : Type) := mk_start_state {
  ss_perf : perf_vars C;
  ss_glob : globals;
  ss_thread : @keyed events NewContextTree OUTPUT unit
}.
Arguments mk_start_state {C}.
Arguments ss_perf {C}.
Arguments ss_glob {C}.
Arguments ss_thread {C}.

Section Init.
Context {C : Type}.
Abbreviation I := (prog (start_state C)).

Definition on_perf {A} (m : prog (perf_vars C) A) : I A := fun s =>
  '(a, v) ← m (ss_perf s); mret (a, mk_start_state v (ss_glob s) (ss_thread s)).
Definition on_thread {A} (m : prog (@keyed events NewContextTree OUTPUT unit) A) : I A := fun s =>
  '(a, k) ← m (ss_thread s); mret (a, mk_start_state (ss_perf s) (ss_glob s) k).
Definition mod_globals (f : globals -> globals) : I unit := fun s =>
  mret (tt, mk_start_state (ss_perf s) (f (ss_glob s)) (ss_thread s)).

(** [Profiler::init]: [clientName] grows by the name of the first event's client. *)
Definition init (sizeof_attr : Z) (pfm_encode : str -> perf_event_attr -> option perf_event_attr)
  (key_created pfm_initialized : bool) (sc_pagesize sigaction_ret pthread_sigmask_ret : Z)
  (OnSample : C) (event_list : list str) : I unit :=
  on_thread (thread_data_init key_created);;
  ok ← on_perf (processInit sizeof_attr pfm_encode pfm_initialized sc_pagesize sigaction_ret
                  pthread_sigmask_ret event_list OnSample);
  prog_lift (cxx_assert ok);;
  s ← prog_get;
  let c := pv_config (ss_perf s) in
  client_name ← prog_lift (GetClientName (wmark c) (registry c));
  mod_globals (fun g => set_infos (registry c) (set_clientName (clientName g ++ to_upper client_name) g)).
End Init.

(** * Facts about outputs of a thread *)

(** The interface of a field of the data of a thread that holds an output: the
    operations below are proved against it. *)
Class td_field (field : @thread_data_t events NewContextTree OUTPUT unit -> option OUTPUT)
  (set : option OUTPUT -> @thread_data_t events NewContextTree OUTPUT unit ->
         @thread_data_t events NewContextTree OUTPUT unit) : Prop := mk_td_field {
  tf_get : forall o t, field (set o t) = o;
  tf_set : forall o1 o2 t, set o1 (set o2 t) = set o1 t;
  tf_id : forall t, set (field t) t = t
}.
#[global] Arguments tf_get field set {_} o t.
#[global] Arguments tf_set field set {_} o1 o2 t.
#[global] Arguments tf_id field set {_} t.

#[export] Instance td_trace : td_field output_state_trace set_output_state_trace.
Proof. split; [done|done|by intros []]. Qed.
#[export] Instance td_cachemiss : td_field output_state_cachemiss set_output_state_cachemiss.
Proof. split; [done|done|by intros []]. Qed.

#[export] Instance td_method : td_field output_state set_output_state.
Proof. split; [done|done|by intros []]. Qed.
#[export] Instance td_alloc : td_field output_state_alloc set_output_state_alloc.
Proof. split; [done|done|by intros []]. Qed.

(** A piece that [writef] prints as it is. *)
Definition printable (t : str) : Prop := size t < LOCAL_BUFFER_SIZE /\ c_str t = t.

Section OutputFacts.
Context (gettid : Z) (sys_open : str -> open_result) (answers : nat -> write_event).
Context (K ffuel : nat) (Hk : steady answers K) (Hfuel : (K * PRINT_BUFFER_SIZE < ffuel)%nat).

Abbreviation TD := (@thread_data_t events NewContextTree OUTPUT unit).
Context (field : TD -> option OUTPUT).
Context (set : option OUTPUT -> TD -> TD) {Hf : td_field field set}.

Lemma td_writef_run text td lst p o :
  field td = Some o -> usable sys_open o -> printable text ->
  exists o', td_writef gettid sys_open answers ffuel field set text (mk_tls (Some td) lst, p) =
      Val (tt, (mk_tls (Some (set (Some o') td)) lst, p)) /\
    usable sys_open o' /\ file_text o' = file_text o ++ text.
Proof.
  intros Ho Hu [Ht Hc]. destruct (writef_usable sys_open answers K ffuel Hk Hfuel text o Hu Ht)
    as (o' & Hw & Hu' & Hst). exists o'. rewrite Hc in Hst. split_and!; [|done|done].
  unfold td_writef, tls_op, TD_GET, TD_SET, thread_data_get, mbind, prog_bind, prog_lift. simpl.
  rewrite Ho. by rewrite Hw.
Qed.

Lemma td_write_all_run pieces td lst p o :
  field td = Some o -> usable sys_open o -> Forall printable pieces ->
  exists td' o', td_write_all gettid sys_open answers ffuel field set pieces (mk_tls (Some td) lst, p) =
      Val (tt, (mk_tls (Some td') lst, p)) /\
    td' = set (Some o') td /\ usable sys_open o' /\ file_text o' = file_text o ++ mjoin pieces.
Proof.
  intros Ho Hu Hp. revert td o Ho Hu. induction Hp as [|t pieces Ht _ IH]; intros td o Ho Hu.
  - exists td, o. simpl. rewrite app_nil_r. split_and!; [done| |done|done].
    rewrite <- Ho. symmetry. apply (tf_id field set).
  - cbn [td_write_all].
    destruct (td_writef_run t td lst p o Ho Hu Ht) as (o1 & Hrun & Hu1 & Hst1).
    rewrite (prog_bind_val _ _ _ _ _ Hrun).
    destruct (IH (set (Some o1) td) o1) as (td' & o' & Hrun' & -> & Hu' & Hst');
      [apply (tf_get field set)|done|].
    exists (set (Some o') (set (Some o1) td)), o'. split_and!; [done|apply (tf_set field set)|done|].
    rewrite Hst', Hst1. simpl. by rewrite <- app_assoc.
Qed.

Lemma write_trace_run n td lst p o :
  field td = Some o -> usable sys_open o ->
  Forall printable (trace_pieces (callpath_vec (loc p)) n) ->
  exists o', write_trace gettid sys_open answers ffuel field set n (mk_tls (Some td) lst, p) =
      Val (tt, (mk_tls (Some (set (Some o') td)) lst, p)) /\
    usable sys_open o' /\ file_text o' = file_text o ++ mjoin (trace_pieces (callpath_vec (loc p)) n).
Proof.
  intros Ho Hu Hp.
  destruct (td_write_all_run _ td lst p o Ho Hu Hp) as (td' & o' & Hrun & -> & Hu' & Hst').
  exists o'. split_and!; [|done|done].
  unfold write_trace, tls_op, TD_GET, thread_data_get, mbind, prog_bind, get_prof. simpl. by rewrite Ho.
Qed.
End OutputFacts.

(** What [constructContext] does to a thread with both traces. *)
Lemma constructContext_run gettid sys_open answers K ffuel td lst p ct o1 o2 :
  steady answers K -> (K * PRINT_BUFFER_SIZE < ffuel)%nat -> context_state td = Some ct ->
  output_state_trace td = Some o1 -> usable sys_open o1 ->
  output_state_cachemiss td = Some o2 -> usable sys_open o2 ->
  let line n := trace_pieces (callpath_vec (loc p)) n in
  Forall printable (line (active_memory_usage (glob p))) -> Forall printable (line 100000000) ->
  exists o1' o2', constructContext gettid sys_open answers ffuel (mk_tls (Some td) lst, p) =
      Val (tt, (mk_tls (Some (set_output_state_cachemiss (Some o2')
                  (set_output_state_trace (Some o1') td))) lst, p)) /\
    usable sys_open o1' /\ usable sys_open o2' /\
    file_text o1' = file_text o1 ++ mjoin (line (active_memory_usage (glob p))) /\
    file_text o2' = file_text o2 ++ mjoin (line 100000000).
Proof.
  intros Hk Hfuel Hct Ho1 Hu1 Ho2 Hu2 line Hp1 Hp2.
  destruct (write_trace_run gettid sys_open answers K ffuel Hk Hfuel _ _
    (active_memory_usage (glob p)) td lst p o1 Ho1 Hu1 Hp1) as (o1' & Hrun1 & Hu1' & Hst1).
  destruct (write_trace_run gettid sys_open answers K ffuel Hk Hfuel _ _ 100000000
    (set_output_state_trace (Some o1') td) lst p o2 Ho2 Hu2 Hp2) as (o2' & Hrun2 & Hu2' & Hst2).
  exists o1', o2'. split_and!; [|done|done|done|done].
  unfold constructContext. unfold mbind at 1, prog_bind at 1, tls_op, TD_GET, thread_data_get. simpl.
  rewrite Hct. unfold mbind at 1, prog_bind at 1, get_prof. simpl.
  rewrite (prog_bind_val _ _ _ _ _ Hrun1). exact Hrun2.
Qed.

(** ** What a trace line says *)

(** The reference: the first entry of every maximal run of equal methods. *)
Fixpoint run_heads (path : list (Z * str)) : list (Z * str) :=
  match path with
  | [] => []
  | (m, line) :: path' =>
    (m, line) :: (match run_heads path' with
                  | (m', line') :: rest => if decide (m = m') then rest else (m', line') :: rest
                  | [] => []
                  end)
  end.

Definition print_entry (e : Z * str) : str := e.2 ++ lit ":" ++ fmt_d e.1 ++ lit " ".

Lemma path_pieces_some m path :
  path_pieces (Some m) path =
  print_entry <$> (match run_heads path with
                   | (m', l') :: rest => if decide (m = m') then rest else (m', l') :: rest
                   | [] => []
                   end).
Proof.
  revert m. induction path as [|[m' l'] path IH]; intros m; [done|]. simpl. rewrite IH.
  destruct (decide (m = m')) as [->|Hne].
  - by rewrite decide_True.
  - rewrite decide_False by congruence. done.
Qed.

Lemma path_pieces_heads path : path_pieces None path = print_entry <$> run_heads path.
Proof.
  destruct path as [|[m l] path]; [done|]. simpl. rewrite path_pieces_some. done.
Qed.

(** The line of a sample. *)
Definition trace_text (path : list (Z * str)) (n : Z) : str :=
  mjoin (print_entry <$> run_heads path) ++
  (if path is [] then [] else lit "|" ++ fmt_d n ++ [ascii_of_nat 10]).

Lemma trace_line path n : mjoin (trace_pieces path n) = trace_text path n.
Proof.
  unfold trace_pieces, trace_text. rewrite path_pieces_heads, join_app.
  destruct path; simpl; [done|]. by rewrite app_nil_r.
Qed.

(** * Ending a thread *)

(** Statistics leave an unopened file as it is. *)
Lemma output_statistics_unopened ratio g :
  of_open (_statistics_file g) = false ->
  grandTot (output_statistics ratio g) = grandTot g /\
  of_text (_statistics_file (output_statistics ratio g)) = of_text (_statistics_file g).
Proof.
  intros Hf. unfold output_statistics. destruct (statistics_text ratio g); [done|].
  simpl. unfold insert_text. by rewrite Hf, orb_true_r.
Qed.

Lemma seekp0_unopened f : of_open f = false -> of_open (seekp0 f) = false /\ of_text (seekp0 f) = of_text f.
Proof. intros Hf. unfold seekp0. by rewrite Hf, orb_true_r. Qed.

Definition droppable (sys_open : str -> open_result) (o : option OUTPUT) : Prop :=
  match o with None => True | Some o => usable sys_open o end.

(** The stream that is left of a deleted output: its file holds what was written. *)
Definition dropped (o r : option OUTPUT) : Prop :=
  match o, r with
  | None, None => True
  | Some o, Some r => 0 <= fd (_output_buffer o) ->
      contents (o_kernel r) = file_text o /\ is_open (o_kernel r) = false
  | _, _ => False
  end.

Section EndFacts.
Context (gettid : Z) (sys_open : str -> open_result) (answers : nat -> write_event).
Context (K ffuel : nat) (Hk : steady answers K) (Hfuel : (K * PRINT_BUFFER_SIZE < ffuel)%nat).

Lemma delete_output_run field set td lst p :
  droppable sys_open (field td) ->
  exists r, delete_output gettid answers true ffuel field set (mk_tls (Some td) lst, p) =
    Val (r, (mk_tls (Some (set None td)) lst, p)) /\ dropped (field td) r.
Proof.
  intros Hd. unfold delete_output, tls_op, TD_GET, TD_SET, thread_data_get, mbind, prog_bind, prog_lift.
  simpl. destruct (field td) as [o|]; simpl in Hd.
  - destruct (destroy_usable sys_open answers K ffuel Hk Hfuel o Hd) as (o' & -> & Ho').
    exists (Some o'). by split.
  - by exists None.
Qed.

(** What [threadEnd] needs of the variables of the process in attach mode. *)
Record attached_mode (g : globals) : Prop := mk_attached_mode {
  am_onload : onload_flag g = false;
  am_lock : output_lock g = false;
  am_statistics : of_open (_statistics_file g) = false
}.

Lemma threadEnd_run ratio td lst p :
  attached_mode (glob p) ->
  droppable sys_open (output_state td) -> droppable sys_open (output_state_trace td) ->
  droppable sys_open (output_state_alloc td) -> droppable sys_open (output_state_cachemiss td) ->
  let client := clientName (glob p) in
  if is_client client GENERIC || is_client client HEAP || is_client client ALLOCATION_TIMES ||
     bool_decide (perf_state td = None)
  then exists r1 r2 r3 r4 p', threadEnd gettid answers true ffuel ratio (mk_tls (Some td) lst, p) =
         Val ([r1; r2; r3; r4], (mk_tls None lst, p')) /\
       (dropped (output_state td) r1 /\ dropped (output_state_trace td) r2 /\
        dropped (output_state_alloc td) r3 /\ dropped (output_state_cachemiss td) r4) /\
       (forall c, grandTot (glob p') c = u64 (grandTot (glob p) c + total (loc p) c)) /\
       of_text (_statistics_file (glob p')) = of_text (_statistics_file (glob p)) /\ loc p' = loc p
  else threadEnd gettid answers true ffuel ratio (mk_tls (Some td) lst, p) = Fault AssertFailure.
Proof.
  intros [Hload Hlock Hstat] H1 H2 H3 H4. cbv zeta. unfold threadEnd.
  destruct (delete_output_run output_state set_output_state td lst p H1) as (r1 & E1 & D1).
  rewrite !(prog_bind_val _ _ _ _ _ E1).
  destruct (delete_output_run output_state_trace set_output_state_trace
    (set_output_state None td) lst p H2) as (r2 & E2 & D2). rewrite !(prog_bind_val _ _ _ _ _ E2).
  destruct (delete_output_run output_state_alloc set_output_state_alloc
    (set_output_state_trace None (set_output_state None td)) lst p H3) as (r3 & E3 & D3).
  rewrite !(prog_bind_val _ _ _ _ _ E3).
  destruct (delete_output_run output_state_cachemiss set_output_state_cachemiss
    (set_output_state_alloc None (set_output_state_trace None (set_output_state None td))) lst p H4)
    as (r4 & E4 & D4). rewrite !(prog_bind_val _ _ _ _ _ E4).
  unfold merge_totals, mbind, prog_bind, tls_op, TD_SET, thread_data_get, get_prof, thread_data_dealloc. simpl.
  assert (forallb (fun c => bool_decide (c = None))
    ((fun _ : option unit => @None unit) <$> ctxt_sample_state td) = true) as ->
    by (by induction (ctxt_sample_state td)).
  destruct (is_client (clientName (glob p)) GENERIC), (is_client (clientName (glob p)) HEAP),
    (is_client (clientName (glob p)) ALLOCATION_TIMES), (bool_decide (perf_state td = None));
    simpl; rewrite ?Hload, ?Hlock; simpl; try done.
  all: eexists r1, r2, r3, r4, _; split; [reflexivity|].
  all: match goal with |- context [output_statistics ?r ?g] =>
    destruct (output_statistics_unopened r g (proj1 (seekp0_unopened _ Hstat))) as [E5 E6] end.
  all: cbn [glob set_glob loc]; split_and!;
    [exact D1|exact D2|exact D3|exact D4|by intros c; rewrite E5|rewrite E6; by apply seekp0_unopened|done].
Qed.
End EndFacts.

Lemma size_c_str s : size (c_str s) <= size s.
Proof.
  unfold size. induction s as [|c s IH]; [simpl; lia|]. cbn [c_str].
  case_decide; simpl in *; lia.
Qed.

Lemma new_output_closed gettid raw mem kind :
  length mem = PRINT_BUFFER_SIZE ->
  exists o, setFileName (output_name gettid kind) (new_OUTPUT raw mem) = (true, o) /\
    closed_output (c_str (output_name gettid kind)) o.
Proof.
  intros Hm. unfold setFileName.
  assert (size (c_str (output_name gettid kind)) <= 127) as Hs.
  { etransitivity; [apply size_c_str|]. unfold size, output_name. rewrite length_take. lia. }
  set (n := c_str (output_name gettid kind)) in *. clearbody n.
  unfold NAME_BUFFER_SIZE. destruct (Z.leb_spec (256 - 1) (size n)); [lia|].
  eexists. split; [reflexivity|]. by split.
Qed.

(** What a thread has after its start. *)
Definition started gettid o1 o2 o3 o4 : @thread_data_t events NewContextTree OUTPUT unit :=
  mk_td gettid false None (Some new_NewContextTree) (Some o1) (Some o2) (Some o3) (Some o4)
    (replicate 4 None).

Lemma start_thread_run gettid raw mem realpath loadmap garbage pagesize old lst p b :
  length mem = PRINT_BUFFER_SIZE ->
  PopulateBlackListAddresses realpath loadmap garbage pagesize (black_list (glob p)) = Val b ->
  let name kind := c_str (output_name gettid (lit kind)) in
  exists o1 o2 o3 o4, start_thread gettid raw mem realpath loadmap garbage pagesize (mk_tls old lst, p) =
      Val (tt, (mk_tls (Some (started gettid o1 o2 o3 o4))
                  (match old with Some t => t :: lst | None => lst end),
                mk_profiler (set_black_list b (glob p)) (mk_locals zero_totals ∅ ∅ []))) /\
    closed_output (name "method") o1 /\ closed_output (name "trace") o2 /\
    closed_output (name "alloc") o3 /\ closed_output (name "cachemiss") o4.
Proof.
  intros Hmem Hb.
  destruct (new_output_closed gettid raw mem (lit "method") Hmem) as (o1 & E1 & C1).
  destruct (new_output_closed gettid raw mem (lit "trace") Hmem) as (o2 & E2 & C2).
  destruct (new_output_closed gettid raw mem (lit "alloc") Hmem) as (o3 & E3 & C3).
  destruct (new_output_closed gettid raw mem (lit "cachemiss") Hmem) as (o4 & E4 & C4).
  exists o1, o2, o3, o4. split_and!; [|done|done|done|done].
  unfold start_thread, new_output. rewrite E1, E2, E3, E4.
  unfold mbind, prog_bind, mod_loc, tls_op, get_prof, prog_lift. simpl. rewrite Hb. reflexivity.
Qed.

(** * Properties *)

Section Theorems.
Context (gettid : Z) (sys_open : str -> open_result) (answers : nat -> write_event).

(** A sample of a thread adds one line to each of its two traces: the methods
    of the call path with their lines, the first of every run of equal methods,
    then the memory in use or the fixed period; an empty path adds nothing. *)
Theorem constructContext_trace K ffuel td lst p ct o1 o2
  (Hk : steady answers K) (Hfuel : (K * PRINT_BUFFER_SIZE < ffuel)%nat)
  (Hct : context_state td = Some ct)
  (Ho1 : output_state_trace td = Some o1) (Hu1 : usable sys_open o1)
  (Ho2 : output_state_cachemiss td = Some o2) (Hu2 : usable sys_open o2)
  (Hp1 : Forall printable (trace_pieces (callpath_vec (loc p)) (active_memory_usage (glob p))))
  (Hp2 : Forall printable (trace_pieces (callpath_vec (loc p)) 100000000)) :
  exists o1' o2', constructContext gettid sys_open answers ffuel (mk_tls (Some td) lst, p) =
      Val (tt, (mk_tls (Some (set_output_state_cachemiss (Some o2')
                  (set_output_state_trace (Some o1') td))) lst, p)) /\
    file_text o1' = file_text o1 ++ trace_text (callpath_vec (loc p)) (active_memory_usage (glob p)) /\
    file_text o2' = file_text o2 ++ trace_text (callpath_vec (loc p)) 100000000.
Proof.
  destruct (constructContext_run gettid sys_open answers K ffuel td lst p ct o1 o2 Hk Hfuel Hct
    Ho1 Hu1 Ho2 Hu2 Hp1 Hp2) as (o1' & o2' & Hrun & _ & _ & Hst1 & Hst2).
  exists o1', o2'. split; [done|]. by rewrite Hst1, Hst2, !trace_line.
Qed.

(** A thread that starts gets fresh variables, a fresh calling context tree
    and four unopened outputs named after it; the data it had before is lost, and
    with it the mark that the start callback had set to keep samples out. *)
Theorem start_thread_state raw mem realpath loadmap garbage pagesize old lst p b
  (Hmem : length mem = PRINT_BUFFER_SIZE) (Hin : inside_agent old = true)
  (Hb : PopulateBlackListAddresses realpath loadmap garbage pagesize (black_list (glob p)) = Val b) :
  exists td p', start_thread gettid raw mem realpath loadmap garbage pagesize
      (mk_tls (Some old) lst, p) = Val (tt, (mk_tls (Some td) (old :: lst), p')) /\
    inside_agent td = false /\ tid td = gettid /\ perf_state td = None /\
    context_state td = Some new_NewContextTree /\
    (exists o, output_state td = Some o /\ closed_output (c_str (output_name gettid (lit "method"))) o) /\
    (exists o, output_state_trace td = Some o /\ closed_output (c_str (output_name gettid (lit "trace"))) o) /\
    (exists o, output_state_alloc td = Some o /\ closed_output (c_str (output_name gettid (lit "alloc"))) o) /\
    (exists o, output_state_cachemiss td = Some o /\
       closed_output (c_str (output_name gettid (lit "cachemiss"))) o) /\
    (forall c, total (loc p') c = 0) /\ callpath_vec (loc p') = [] /\ black_list (glob p') = b.
Proof.
  destruct (start_thread_run gettid raw mem realpath loadmap garbage pagesize (Some old) lst p b Hmem Hb)
    as (o1 & o2 & o3 & o4 & Hrun & C1 & C2 & C3 & C4).
  eexists _, _. split; [exact Hrun|]. simpl. split_and!; eauto.
Qed.

(** C24: ending a thread closes its files, which then hold what was written,
    removes its data and adds its totals to those of the process, modulo 2^64, but only for the clients GENERIC, HEAP and ALLOCTIMES
    or when no events were set up: for the others the events are never closed and
    the assertion on them stops the process.  The statistics file, which nothing
    opens, stays as it is. *)
Theorem threadEnd_outcome K ffuel ratio td lst p
  (Hk : steady answers K) (Hfuel : (K * PRINT_BUFFER_SIZE < ffuel)%nat)
  (Hg : attached_mode (glob p))
  (H1 : droppable sys_open (output_state td)) (H2 : droppable sys_open (output_state_trace td))
  (H3 : droppable sys_open (output_state_alloc td)) (H4 : droppable sys_open (output_state_cachemiss td)) :
  let client := clientName (glob p) in
  if is_client client GENERIC || is_client client HEAP || is_client client ALLOCATION_TIMES ||
     bool_decide (perf_state td = None)
  then exists rs p', threadEnd gettid answers true ffuel ratio (mk_tls (Some td) lst, p) =
         Val (rs, (mk_tls None lst, p')) /\
       Forall2 dropped [output_state td; output_state_trace td; output_state_alloc td;
                        output_state_cachemiss td] rs /\
       (forall c, grandTot (glob p') c = u64 (grandTot (glob p) c + total (loc p) c)) /\
       of_text (_statistics_file (glob p')) = of_text (_statistics_file (glob p)) /\ loc p' = loc p
  else threadEnd gettid answers true ffuel ratio (mk_tls (Some td) lst, p) = Fault AssertFailure.
Proof.
  pose proof (threadEnd_run gettid sys_open answers K ffuel Hk Hfuel ratio td lst p Hg H1 H2 H3 H4) as Hrun.
  cbv zeta in *. destruct (_ || _); [|done].
  destruct Hrun as (r1 & r2 & r3 & r4 & p' & Hrun & (D1 & D2 & D3 & D4) & Hrest).
  exists [r1; r2; r3; r4], p'. split_and!; [done|by repeat constructor|apply Hrest..].
Qed.
End Theorems.

Module Examples.
Definition globals0 : globals := mk_globals GENERIC false false (fun _ => 5) 64 0 false
  ofstream0 ofstream0 ofstream0 [] [] (mk_blacklist false []) [] false [] 0 [].
Definition locals0 : locals := mk_locals (fun _ => 3) ∅ ∅
  [(7, lit "12"); (7, lit "15"); (9, lit "0")].
Definition named (name : str) : OUTPUT :=
  set_file_name name (new_OUTPUT Output.Examples.raw Output.Examples.mem).
Definition td0 : @thread_data_t events NewContextTree OUTPUT unit :=
  mk_td 42 true None (Some new_NewContextTree) None (Some (named (lit "trace"))) None
    (Some (named (lit "miss"))) (replicate 4 None).
Definition always_open (n : str) : open_result := Opened 5.

Lemma named_usable name : name <> [] -> size name < 200 -> usable always_open (named name).
Proof.
  intros Hn Hs. right. exists name. split_and!; [by split; try reflexivity|done|].
  exists 0%nat, 5. split_and!; [by intros ? ?%Nat.nlt_0_r|done|done|].
  unfold candidate, NAME_BUFFER_SIZE. simpl. rewrite app_nil_r. lia.
Qed.

Lemma constructContext_trace_witness :
  exists o1 o2, constructContext 42 always_open Output.Examples.answers 3000
      (mk_tls (Some td0) [], mk_profiler globals0 locals0) =
    Val (tt, (mk_tls (Some (set_output_state_cachemiss (Some o2)
                (set_output_state_trace (Some o1) td0))) [], mk_profiler globals0 locals0)) /\
    file_text o1 = lit "12:7 0:9 |64" ++ [ascii_of_nat 10] /\
    file_text o2 = lit "12:7 0:9 |100000000" ++ [ascii_of_nat 10].
Proof.
  destruct (constructContext_trace 42 always_open Output.Examples.answers 2 3000 td0 []
    (mk_profiler globals0 locals0) new_NewContextTree (named (lit "trace")) (named (lit "miss")))
    as (o1 & o2 & Hrun & H1 & H2).
  - apply Output.Examples.answers_steady.
  - apply Nat.ltb_lt. reflexivity.
  - reflexivity.
  - reflexivity.
  - by apply named_usable.
  - reflexivity.
  - by apply named_usable.
  - vm_compute. repeat constructor.
  - vm_compute. repeat constructor.
  - exists o1, o2. split_and!; [exact Hrun|rewrite H1; reflexivity|rewrite H2; reflexivity].
Defined.

Lemma start_thread_state_witness :
  exists td p', start_thread 42 Output.Examples.raw Output.Examples.mem (fun _ s => s)
      (Some []) [] 4096 (mk_tls (Some td0) [], mk_profiler globals0 locals0) =
    Val (tt, (mk_tls (Some td) [td0], p')) /\
    inside_agent td0 = true /\ inside_agent td = false.
Proof.
  destruct (start_thread_state 42 Output.Examples.raw Output.Examples.mem (fun _ s => s)
    (Some []) [] 4096 td0 [] (mk_profiler globals0 locals0) (mk_blacklist false [mk_blrange 0 4096]))
    as (td & p' & Hrun & Hi & _); [reflexivity|reflexivity|reflexivity|].
  exists td, p'. split_and!; [exact Hrun|reflexivity|exact Hi].
Defined.

Lemma threadEnd_outcome_witness :
  exists rs p', threadEnd 42 Output.Examples.answers true 3000 (fun _ _ => [])
      (mk_tls (Some td0) [], mk_profiler globals0 locals0) = Val (rs, (mk_tls None [], p')) /\
    grandTot (glob p') GenericCounter = 8.
Proof.
  assert (Hu : droppable always_open (Some (named (lit "trace")))) by by apply named_usable.
  assert (Hu' : droppable always_open (Some (named (lit "miss")))) by by apply named_usable.
  destruct (threadEnd_outcome 42 always_open Output.Examples.answers 2 3000 (fun _ _ => []) td0 []
    (mk_profiler globals0 locals0) Output.Examples.answers_steady
    ltac:(apply Nat.ltb_lt; reflexivity) (mk_attached_mode globals0 eq_refl eq_refl eq_refl) I Hu I Hu')
    as (rs & p' & Hrun & _ & Htot & _).
  exists rs, p'. split; [exact Hrun|]. rewrite (Htot GenericCounter). reflexivity.
Defined.
End Examples.
