(* ===== verification/Totals.v ===== *)
(** Threads that end at the same time ([Profiler::threadEnd]): each adds its totals
    to those of the process, by atomic additions when the agent was loaded, or under
    [output_lock] with plain assignments and a new text of the statistics when it was
    attached.  Other threads run between any two accesses. *)
From stdpp Require Import base numbers option list gmap strings.
From Stdlib Require Import ZArith Lia Ascii.
From S2P Require Import Prelude.
From S2P Require Import Cxx.
From S2P Require Import Lock.
From S2P Require Import Critical.
From S2P Require Import NewContext.
From S2P Require Import OutBuf.
From S2P Require Import Output.
From S2P Require Import ThreadData.
From S2P Require Import PerfEvents.
From S2P Require Import Profiler.

(** * The accesses *)

(** In the order of the code. *)
Definition all_counters : list counter :=
  [WrittenBytes; LoadedBytes; UsedBytes; DeadBytes; NewBytes; OldBytes; OldAppxBytes;
   AllocTimes; SameNUMA; DiffNUMA; L1Cachemiss; GenericCounter; PMUCounter].

Definition set_counter (c : counter) (n : Z) (g : globals) : globals :=
  set_grandTot (fun c' => if decide (c' = c) then n else grandTot g c') g.

(** [__sync_fetch_and_add(&grandTot..., total...)] *)
Definition add_counter (c : counter) (n : Z) (g : globals) : globals :=
  set_counter c (u64 (grandTot g c + n)) g.

Section Ending.
Context (ratio : Z -> Z -> str).

(** [grandTot... += total...], one after the other, and what follows. *)
Fixpoint sum_code (l : locals) (cs : list counter) (k : code globals) : code globals :=
  match cs with
  | [] => k
  | c :: cs =>
    fetch (fun g => grandTot g c) (fun old =>
    assign (set_counter c (u64 (old + total l c))) (sum_code l cs k))
  end.

Definition attached_end (l : locals) : code globals :=
  sum_code l all_counters (assign rewind (assign (output_statistics ratio) Done)).

(** What the end of a thread with the totals of [l] does to the variables. *)
Inductive tally :=
| Added (c : counter) (n : Z)
| Summed (l : locals).

Definition tallies (onload : bool) (l : locals) : list tally :=
  if onload then (fun c => Added c (total l c)) <$> all_counters else [Summed l].

Definition piece_of (e : tally) : piece globals unit :=
  match e with
  | Added c n => Atomic (add_counter c n)
  | Summed l => Locked (attached_end l)
  end.

(** Each thread ends, and its number is given to threads that end later. *)
Definition endings (onload : bool) (work : list (list locals)) : list (list (piece globals unit)) :=
  (fun ls : list locals => piece_of <$> (ls ≫= tallies onload)) <$> work.

(** * Facts *)

Definition amount (e : tally) (c : counter) : Z :=
  match e with Added c' n => if decide (c' = c) then n else 0 | Summed l => total l c end.
Definition amount_all (es : list tally) (c : counter) : Z := foldr (fun e n => amount e c + n) 0 es.

Definition total_all (ls : list locals) (c : counter) : Z := foldr (fun l n => total l c + n) 0 ls.

(** The statistics are in the file, from its start. *)
Definition good (f : ofstream) : Prop := of_open f = true /\ of_fail f = false.
Definition shown (g : globals) : Prop :=
  good (_statistics_file g) /\ statistics_text ratio g `prefix_of` of_text (_statistics_file g).

Lemma sum_code_alone l cs k g :
  alone (sum_code l cs k) g = alone k (foldl (fun g c => add_counter c (total l c) g) g cs).
Proof. revert g. induction cs as [|c cs IH]; intros g; [done|]. cbn. rewrite IH. done. Qed.

(** The sums of the section are those of [add_totals]. *)
Lemma sums_add_totals l g :
  let g' := foldl (fun g c => add_counter c (total l c) g) g all_counters in
  (forall c, grandTot g' c = grandTot (add_totals l g) c) /\ clientName g' = clientName g /\
  _statistics_file g' = _statistics_file g /\ _method_file g' = _method_file g /\ _rdx_file g' = _rdx_file g.
Proof. cbn zeta. split_and!; [|done..]. by intros []. Qed.

Lemma output_shown g :
  let g' := output_statistics ratio (rewind g) in
  (forall c, grandTot g' c = grandTot g c) /\ clientName g' = clientName g /\
  (good (_statistics_file g) -> shown g').
Proof.
  assert (Hrew : good (_statistics_file g) -> good (_statistics_file (rewind g)) /\
    of_pos (_statistics_file (rewind g)) = 0%nat).
  { intros [H1 H2]. unfold rewind, seekp0. cbn. by rewrite H1, H2. }
  cbn zeta. unfold output_statistics.
  assert (Htext : statistics_text ratio (rewind g) = statistics_text ratio g) by done.
  rewrite Htext. destruct (statistics_text ratio g) as [|a text] eqn:E; (split; [done|split; [done|]]).
  - intros Hg. split; [by apply Hrew|]. rewrite Htext, ?E. apply prefix_nil.
  - intros [[H1 H2] H3]%Hrew. unfold shown, good. cbn [_statistics_file set_files].
    unfold insert_text. rewrite H1, H2, H3. cbn [orb negb of_open of_fail of_text]. split; [done|].
    match goal with |- statistics_text ratio ?x `prefix_of` _ =>
      change (statistics_text ratio x) with (statistics_text ratio g) end.
    rewrite E. cbn [take app]. rewrite take_0. by eexists.
Qed.

Lemma attached_end_alone l g : exists g', alone (attached_end l) g = Val g' /\
  (forall c, grandTot g' c = u64 (grandTot g c + total l c)) /\ clientName g' = clientName g /\
  (good (_statistics_file g) -> shown g').
Proof.
  unfold attached_end. rewrite sum_code_alone.
  destruct (sums_add_totals l g) as (H1 & H2 & H3 & _ & _).
  set (g1 := foldl _ g all_counters) in *. cbn [alone assign].
  destruct (output_shown g1) as (H5 & H6 & H7). eexists. split; [reflexivity|]. split_and!.
  - intros c. rewrite H5, H1. done.
  - by rewrite H6.
  - intros Hg. apply H7. by rewrite H3.
Qed.

(** One piece: the totals, and the statistics after a section. *)
Lemma piece_amount e g : exists g', whole (piece_of e) g = Val g' /\
  (forall c, u64 (grandTot g' c) = u64 (grandTot g c + amount e c)) /\
  (match e with Summed _ => good (_statistics_file g) -> shown g'
   | Added _ _ => _statistics_file g' = _statistics_file g end).
Proof.
  destruct e as [c n|l].
  - eexists. split; [reflexivity|]. split; [|done]. intros c'. cbn. case_decide as Hc.
    + subst. rewrite decide_True by done. by autorewrite with cxx_arith.
    + rewrite decide_False by done. by rewrite Z.add_0_r.
  - destruct (attached_end_alone l g) as (g' & H1 & H2 & _ & H4). exists g'. split; [exact H1|].
    split; [|exact H4]. intros c. rewrite H2. by autorewrite with cxx_arith.
Qed.

Lemma pieces_amount es g : exists g', serial (piece_of <$> es) g = Val g' /\
  (forall c, u64 (grandTot g' c) = u64 (grandTot g c + amount_all es c)).
Proof.
  revert g. induction es as [|e es IH]; intros g.
  - exists g. split; [done|]. intros c. by rewrite Z.add_0_r.
  - destruct (piece_amount e g) as (g1 & H1 & H2 & _). destruct (IH g1) as (g' & H3 & H4).
    exists g'. split; [cbn [fmap list_fmap serial]; by rewrite H1|].
    intros c. rewrite H4, <- u64_add_l, H2, u64_add_l. f_equal. unfold amount_all. cbn. lia.
Qed.

(** After sections only, and at least one, the statistics of the sums are shown. *)
Lemma sections_shown ls g g' :
  serial (piece_of <$> (Summed <$> ls)) g = Val g' -> good (_statistics_file g) ->
  good (_statistics_file g') /\ (ls <> [] -> shown g').
Proof.
  revert g. induction ls as [|l ls IH]; intros g; [by intros [= <-]|].
  intros (g1 & H1 & H2)%outcome_bind_inv Hg. destruct (piece_amount (Summed l) g) as (g2 & H3 & _ & H4).
  rewrite H1 in H3. injection H3 as <-. specialize (H4 Hg). destruct (IH g1 H2 (proj1 H4)) as [H5 H6].
  split; [done|]. intros _. destruct ls as [|l' ls]; [|by apply H6]. by injection H2 as <-.
Qed.

Lemma amount_all_perm es es' c : es ≡ₚ es' -> amount_all es c = amount_all es' c.
Proof. unfold amount_all. induction 1; cbn [foldr] in *; lia. Qed.

Lemma amount_all_app es es' c : amount_all (es ++ es') c = amount_all es c + amount_all es' c.
Proof. unfold amount_all. induction es as [|e es IH]; cbn [foldr app] in *; lia. Qed.

Lemma tallies_amount onload l c : amount_all (tallies onload l) c = total l c.
Proof.
  unfold amount_all, tallies. destruct onload; cbn [foldr amount]; [|lia].
  cbn [fmap list_fmap all_counters foldr amount]. destruct c; repeat first [rewrite decide_True by done | rewrite decide_False by done]; lia.
Qed.

Lemma all_tallies_amount onload ls c : amount_all (ls ≫= tallies onload) c = total_all ls c.
Proof.
  induction ls as [|l ls IH]; [done|]. cbn [mbind list_bind]. rewrite amount_all_app, tallies_amount, IH.
  done.
Qed.

Lemma endings_compatible onload (work : list (list locals)) : compatible (concat (endings onload work)).
Proof.
  intros f c Hf Hc. exfalso. assert (forall p, p ∈ concat (endings onload work) ->
    if onload then exists f, p = Atomic f else exists c, p = Locked c) as H.
  { intros p (ps & Hps & Hp)%list_elem_of_In%in_concat. apply list_elem_of_In in Hps, Hp.
    apply list_elem_of_fmap in Hps as (ls & -> & _). apply list_elem_of_fmap in Hp as (e & -> & He).
    apply list_elem_of_bind in He as (l & He & _). unfold tallies in He. destruct onload.
    - apply list_elem_of_fmap in He as (c' & -> & _). by eexists.
    - apply list_elem_of_singleton in He as ->. by eexists. }
  destruct onload; [destruct (H _ Hc)|destruct (H _ Hf)]; done.
Qed.
End Ending.

Lemma endings_tallies ratio onload (work : list (list locals)) :
  endings ratio onload work =
  (fun es : list tally => piece_of ratio <$> es) <$> ((fun ls : list locals => ls ≫= tallies onload) <$> work).
Proof. unfold endings. by rewrite <- list_fmap_compose. Qed.

Lemma endings_summed ratio (work : list (list locals)) :
  endings ratio false work = (fun ls : list locals => (fun l => piece_of ratio (Summed l)) <$> ls) <$> work.
Proof.
  unfold endings. apply list_fmap_ext. intros i ls _. induction ls as [|l ls IH]; [done|].
  cbn in IH |- *. by rewrite IH.
Qed.

Lemma concat_bind (work : list (list locals)) onload :
  concat ((fun ls : list locals => ls ≫= tallies onload) <$> work) = concat work ≫= tallies onload.
Proof. induction work as [|ls work IH]; [done|]. cbn. by rewrite IH, bind_app. Qed.

Lemma serial_added ratio l cs g :
  serial (piece_of ratio <$> ((fun c => Added c (total l c)) <$> cs)) g =
  Val (foldl (fun g c => add_counter c (total l c) g) g cs).
Proof. revert g. induction cs as [|c cs IH]; intros g; [done|]. cbn. by rewrite <- IH. Qed.

(** Variables with the same totals give the same statistics. *)
Lemma statistics_same ratio g1 g2 :
  (forall c, grandTot g1 c = grandTot g2 c) -> clientName g1 = clientName g2 ->
  _statistics_file g1 = _statistics_file g2 ->
  let g1' := output_statistics ratio (rewind g1) in
  let g2' := output_statistics ratio (rewind g2) in
  (forall c, grandTot g1' c = grandTot g2' c) /\ _statistics_file g1' = _statistics_file g2'.
Proof.
  intros H1 H2 H3. cbn zeta.
  assert (statistics_text ratio (rewind g1) = statistics_text ratio (rewind g2)) as Ht.
  { unfold statistics_text, rewind. cbn [grandTot clientName set_files]. by rewrite H2, !H1. }
  assert (_statistics_file (rewind g1) = _statistics_file (rewind g2)) as Hf
    by (unfold rewind; cbn [_statistics_file set_files]; by rewrite H3).
  unfold output_statistics. rewrite Ht.
  destruct (statistics_text ratio (rewind g2)); (split; [exact H1|]); [exact Hf|].
  cbn [_statistics_file set_files]. by rewrite Hf.
Qed.

(** Uninterrupted, the pieces do what the end of [threadEnd] does. *)
Lemma merge_totals_pieces ratio t l g :
  output_lock g = false ->
  exists g1 g2, serial (piece_of ratio <$> tallies (onload_flag g) l) g = Val g1 /\
    merge_totals ratio (t, mk_profiler g l) = Val (tt, (t, mk_profiler g2 l)) /\
    (forall c, grandTot g1 c = grandTot g2 c) /\ _statistics_file g1 = _statistics_file g2.
Proof.
  intros Hlock. unfold tallies. destruct (sums_add_totals l g) as (H1 & H2 & H3 & _ & _).
  destruct (onload_flag g) eqn:Hload.
  - rewrite serial_added. eexists _, (add_totals l g). split; [reflexivity|]. split; [|by split].
    unfold merge_totals, get_prof, mbind, prog_bind. cbn [snd glob loc]. by rewrite Hload.
  - cbn [fmap list_fmap serial piece_of whole mbind outcome_bind]. unfold attached_end. rewrite sum_code_alone.
    destruct (statistics_same ratio _ (add_totals l g) H1 H2 H3) as [H4 H5].
    eexists _, (output_statistics ratio (rewind (add_totals l g))). split; [reflexivity|]. split; [|by split].
    unfold merge_totals, get_prof, mod_glob, mbind, prog_bind. cbn [fst snd glob loc set_glob].
    by rewrite Hload, Hlock.
Qed.

(** * Properties *)

(** C23: however many threads end at the same time and however their accesses
    interleave, the totals of the process end as what they were plus the totals of
    every thread, modulo 2^64, none lost or counted twice, whether they are added
    atomically or under the lock; and in attach mode an open statistics file starts
    with the statistics of exactly these sums. *)
Theorem totals_account ratio onload work schedule g c
  (Hrun : run schedule (start g (endings ratio onload work)) = Val c) (Hfin : finished c) :
  (forall k, u64 (grandTot (vars c) k) = u64 (grandTot g k + total_all (concat work) k)) /\
  (onload = false -> good (_statistics_file g) -> concat work <> [] -> shown ratio (vars c)).
Proof.
  pose proof (reduction g (endings ratio onload work) schedule (endings_compatible ratio onload work)) as H.
  rewrite Hrun in H. destruct (H Hfin) as (order & Hm & Hs). clear H. split.
  - intros k. rewrite endings_tallies in Hm. apply merges_fmap in Hm as (order' & -> & Hm).
    rewrite snd_map in Hs. destruct (pieces_amount ratio order'.*2 g) as (g' & H1 & H2).
    rewrite H1 in Hs. injection Hs as <-. apply merges_permutation in Hm.
    by rewrite H2, (amount_all_perm _ _ k Hm), concat_bind, all_tallies_amount.
  - intros -> Hg Hne. rewrite endings_summed in Hm. apply merges_fmap in Hm as (order' & -> & Hm).
    rewrite (snd_map (fun l => piece_of ratio (Summed l))) in Hs.
    rewrite (list_fmap_compose Summed (piece_of ratio)) in Hs.
    apply (sections_shown ratio _ _ _ Hs Hg). intros E. apply merges_permutation in Hm.
    rewrite E in Hm. by apply Permutation_nil_l in Hm.
Qed.

Module Examples.
Definition ratio0 (a b : Z) : str := [].
Definition globals1 : globals := set_files (mk_ofstream true false [] 0) ofstream0 ofstream0 Profiler.Examples.globals0.
Definition ended (n : Z) : locals := mk_locals (fun _ => n) ∅ ∅ [].

(** Three threads on two numbers, a step of each in turn. *)
Definition work0 : list (list locals) := [[ended 3; ended 4]; [ended (2 ^ 64 - 1)]].
Definition schedule0 : list nat := concat (replicate 150 [0; 1; 1]%nat).
Definition start0 : config globals unit := start globals1 (endings ratio0 false work0).
Definition result0 : config globals unit := match run schedule0 start0 with Val c => c | Fault _ => start0 end.

Lemma totals_run0 : run schedule0 start0 = Val result0.
Proof. unfold result0. destruct (run schedule0 start0) eqn:E; [done|]. exfalso. revert E. vm_compute. done. Qed.

Lemma totals_account_witness :
  u64 (grandTot (vars result0) GenericCounter) = u64 (5 + (3 + 4 - 1)) /\
  lit "GENERIC" `prefix_of` of_text (_statistics_file (vars result0)).
Proof.
  destruct (totals_account ratio0 false work0 schedule0 globals1 result0 totals_run0) as [H1 H2].
  - apply finishedb_true. vm_compute. reflexivity.
  - split; [rewrite H1; vm_compute; reflexivity|].
    destruct (H2 eq_refl) as [_ [rest H3]]; [by split|done|].
    rewrite H3. eexists. vm_compute. reflexivity.
Defined.
End Examples.
