(* ===== verification/Registration.v ===== *)
(** What the agent asks of the runtime when it is loaded ([JVM::init],
    [Agent_OnLoad] and [Agent_OnAttach] of [agent.cpp], [class JVM] of [agent.h]):
    capabilities, callbacks and events, and which events then reach a callback. *)
From stdpp Require Import base numbers option list strings.
From Stdlib Require Import ZArith Lia.
From S2P Require Import Prelude.
From S2P Require Import Cxx.
From S2P Require Import Jvmti.
From S2P Require Import Argument.

Import Enum.

(** * The structures that are passed *)

(** The functions of the agent that the runtime can call. *)
Inductive handler :=
| fn_ObjectAllocCallback | fn_ObjectFreeCallback | fn_callbackVMInit | fn_callbackVMDeath
| fn_callbackThreadStart | fn_callbackThreadEnd | fn_callbackGCStart | fn_callbackGCEnd
| fn_callbackClassLoad | fn_callbackClassPrepare | fn_MethodEntry | fn_MethodExit.

#[global] Instance handler_eq_dec : EqDecision handler.
Proof. solve_decision. Defined.

(** The position of a member in its structure. *)
Definition index_of `{EqDecision A} (a : A) (l : list A) : nat :=
  match list_find (a =.) l with Some (i, _) => i | None => length l end.

(** A [jvmtiEventCallbacks] over the functions [H] of an agent: a function pointer
    per field, and the assignment to a field. *)
Definition callbacks_t (H : Type) : Type := list (option H).
Definition memset_callbacks {H} : callbacks_t H := replicate (length jvmtiEventCallbacks) None.
Definition set_callback {H} (cb : callbacks_t H) (a : callback_field * H) : callbacks_t H :=
  <[index_of a.1 jvmtiEventCallbacks := Some a.2]> cb.

(** A [jvmtiCapabilities] as an integer, and the assignment to a bit field. *)
Definition set_capability (capa : Z) (a : capability * bool) : Z :=
  let i := Z.of_nat (index_of a.1 jvmtiCapabilities) in
  if a.2 then Z.setbit capa i else Z.clearbit capa i.
Definition has_capability (capa : Z) (c : capability) : bool :=
  Z.testbit capa (Z.of_nat (index_of c jvmtiCapabilities)).

(** * The calls *)

Inductive jvmti_call {H : Type} :=
| AddCapabilities (capa : Z)
| SetEventCallbacks (callbacks : callbacks_t H)
| SetEventNotificationMode (mode : Z) (event : jvmtiEvent).
Arguments jvmti_call : clear implicits.

(** The calls made so far with their answers, and one more call. *)
Notation log_t H := (list (jvmti_call H * jvmtiError)).
Definition ask {H} (answer : log_t H -> jvmti_call H -> jvmtiError) (log : log_t H)
  (c : jvmti_call H) : log_t H := log ++ [(c, answer log c)].

(** [class JVM] with the calls it made and what the runtime answered. *)
Record JVM := mk_JVM {
  _argument : option Argument;
  calls : log_t handler
}.
Definition JVM0 : JVM := mk_JVM None [].

Section Start.
(** The answer of the runtime to a call, given the calls before. *)
Context (answer : log_t handler -> jvmti_call handler -> jvmtiError).

(** A call whose answer is at most logged ([check_jvmti_error]). *)
Definition call (c : jvmti_call handler) (j : JVM) : JVM :=
  mk_JVM (_argument j) (ask answer (calls j) c).

Definition parseArgs (arg : str) (j : JVM) : outcome JVM :=
  a ← new_Argument arg;
  mret (mk_JVM (Some a) (calls j)).

Definition capa : Z := foldl set_capability 0 [
  (can_generate_all_class_hook_events, true); (can_generate_garbage_collection_events, true);
  (can_get_source_file_name, true); (can_get_line_numbers, true);
  (can_generate_method_entry_events, true); (can_generate_method_exit_events, false);
  (can_retransform_classes, true); (can_retransform_any_class, true); (can_get_bytecodes, true);
  (can_get_constant_pool, true); (can_generate_monitor_events, true); (can_tag_objects, true);
  (can_generate_vm_object_alloc_events, true); (can_generate_object_free_events, true)].

Definition agent_callbacks : callbacks_t handler := foldl set_callback memset_callbacks [
  (cb_VMObjectAlloc, fn_ObjectAllocCallback); (cb_ObjectFree, fn_ObjectFreeCallback);
  (cb_VMInit, fn_callbackVMInit); (cb_VMDeath, fn_callbackVMDeath);
  (cb_ThreadStart, fn_callbackThreadStart); (cb_ThreadEnd, fn_callbackThreadEnd);
  (cb_GarbageCollectionStart, fn_callbackGCStart);
  (cb_GarbageCollectionFinish, fn_callbackGCEnd); (cb_ClassLoad, fn_callbackClassLoad);
  (cb_ClassPrepare, fn_callbackClassPrepare); (cb_MethodEntry, fn_MethodEntry);
  (cb_MethodExit, fn_MethodExit)].

Definition agent_events : list jvmtiEvent := [
  JVMTI_EVENT_GARBAGE_COLLECTION_START; JVMTI_EVENT_VM_OBJECT_ALLOC; JVMTI_EVENT_OBJECT_FREE;
  JVMTI_EVENT_VM_INIT; JVMTI_EVENT_VM_DEATH; JVMTI_EVENT_THREAD_START; JVMTI_EVENT_THREAD_END;
  JVMTI_EVENT_GARBAGE_COLLECTION_FINISH; JVMTI_EVENT_COMPILED_METHOD_LOAD;
  JVMTI_EVENT_COMPILED_METHOD_UNLOAD; JVMTI_EVENT_DYNAMIC_CODE_GENERATED;
  JVMTI_EVENT_CLASS_LOAD; JVMTI_EVENT_CLASS_PREPARE; JVMTI_EVENT_METHOD_ENTRY;
  JVMTI_EVENT_METHOD_EXIT].

(** The requests of [JVM::init], in order. *)
Definition requests : list (jvmti_call handler) :=
  [AddCapabilities capa; SetEventCallbacks agent_callbacks] ++
  (SetEventNotificationMode JVMTI_ENABLE <$> agent_events).

(** [JVM::init]: [profiler_init] is [Profiler::init] on the list of events. *)
Definition JVM_init {S} (profiler_init : list str -> prog S unit) (arg : str)
  (get_env_ok : bool) (location_error location_format : Z) : prog (S * JVM) bool := fun s =>
  j ← parseArgs arg s.2;
  if negb get_env_ok then mret (false, (s.1, j))
  else
    cxx_assert (check_jvmti_error location_error);;
    cxx_assert (location_format =? JVMTI_JLOCATION_JVMBCI);;
    '(_, s1) ← profiler_init (from_option getPerfEventList [] (_argument j)) s.1;
    mret (true, (s1, foldl (fun j c => call c j) j requests)).

(** [JVM::shutdown] *)
Definition JVM_shutdown {S} (profiler_shutdown : prog S unit) : prog (S * JVM) bool := fun s =>
  '(_, s1) ← profiler_shutdown s.1;
  mret (true, (s1, mk_JVM None (calls s.2))).

(** [Agent_OnLoad] and [Agent_OnAttach]: the result of the start is dropped. *)
Definition JNI_OK : Z := 0.
Definition Agent_OnLoad {S} (block unblock : prog (S * JVM) unit) (start : prog (S * JVM) bool)
  : prog (S * JVM) Z :=
  block;; start;; unblock;; mret JNI_OK.
Definition Agent_OnAttach {S} (block unblock : prog (S * JVM) unit) (start : prog (S * JVM) bool)
  : prog (S * JVM) Z :=
  block;; start;; unblock;; mret 0.
End Start.

(** * What the runtime makes of the calls *)

(** The field of an event. *)
Definition event_field (e : jvmtiEvent) : callback_field :=
  match e with
  | JVMTI_EVENT_VM_INIT => cb_VMInit
  | JVMTI_EVENT_VM_DEATH => cb_VMDeath
  | JVMTI_EVENT_THREAD_START => cb_ThreadStart
  | JVMTI_EVENT_THREAD_END => cb_ThreadEnd
  | JVMTI_EVENT_CLASS_FILE_LOAD_HOOK => cb_ClassFileLoadHook
  | JVMTI_EVENT_CLASS_LOAD => cb_ClassLoad
  | JVMTI_EVENT_CLASS_PREPARE => cb_ClassPrepare
  | JVMTI_EVENT_VM_START => cb_VMStart
  | JVMTI_EVENT_EXCEPTION => cb_Exception
  | JVMTI_EVENT_EXCEPTION_CATCH => cb_ExceptionCatch
  | JVMTI_EVENT_SINGLE_STEP => cb_SingleStep
  | JVMTI_EVENT_FRAME_POP => cb_FramePop
  | JVMTI_EVENT_BREAKPOINT => cb_Breakpoint
  | JVMTI_EVENT_FIELD_ACCESS => cb_FieldAccess
  | JVMTI_EVENT_FIELD_MODIFICATION => cb_FieldModification
  | JVMTI_EVENT_METHOD_ENTRY => cb_MethodEntry
  | JVMTI_EVENT_METHOD_EXIT => cb_MethodExit
  | JVMTI_EVENT_NATIVE_METHOD_BIND => cb_NativeMethodBind
  | JVMTI_EVENT_COMPILED_METHOD_LOAD => cb_CompiledMethodLoad
  | JVMTI_EVENT_COMPILED_METHOD_UNLOAD => cb_CompiledMethodUnload
  | JVMTI_EVENT_DYNAMIC_CODE_GENERATED => cb_DynamicCodeGenerated
  | JVMTI_EVENT_DATA_DUMP_REQUEST => cb_DataDumpRequest
  | JVMTI_EVENT_MONITOR_WAIT => cb_MonitorWait
  | JVMTI_EVENT_MONITOR_WAITED => cb_MonitorWaited
  | JVMTI_EVENT_MONITOR_CONTENDED_ENTER => cb_MonitorContendedEnter
  | JVMTI_EVENT_MONITOR_CONTENDED_ENTERED => cb_MonitorContendedEntered
  | JVMTI_EVENT_RESOURCE_EXHAUSTED => cb_ResourceExhausted
  | JVMTI_EVENT_GARBAGE_COLLECTION_START => cb_GarbageCollectionStart
  | JVMTI_EVENT_GARBAGE_COLLECTION_FINISH => cb_GarbageCollectionFinish
  | JVMTI_EVENT_OBJECT_FREE => cb_ObjectFree
  | JVMTI_EVENT_VM_OBJECT_ALLOC => cb_VMObjectAlloc
  end.

(** The slot of an event by its number. *)
Definition slot (e : jvmtiEvent) : nat := Z.to_nat (event_code e - JVMTI_MIN_EVENT_TYPE_VAL).

Section Meaning.
Context {H : Type}.
Implicit Types (log : log_t H).

Definition succeeded log : list (jvmti_call H) := (filter (fun c => c.2 = JVMTI_ERROR_NONE) log).*1.

Definition possessed log (c : capability) : bool :=
  existsb (fun k => if k is AddCapabilities capa then has_capability capa c else false) (succeeded log).

Definition enabled log (e : jvmtiEvent) : Prop :=
  SetEventNotificationMode JVMTI_ENABLE e ∈ succeeded log.

Definition installed log : callbacks_t H :=
  foldl (fun cb k => if k is SetEventCallbacks cb' then cb' else cb) [] (succeeded log).

(** An event reaches a function when it is enabled and its slot is not null. *)
Definition delivers log (e : jvmtiEvent) (h : H) : Prop :=
  enabled log e /\ installed log !! slot e = Some (Some h).

(** The documented answers: the capabilities [capa] are available; [needs] lists
    the capabilities that an event needs, and an event is enabled exactly when they
    are possessed. *)
Record documented (capa : Z) (needs : jvmtiEvent -> list capability)
  (answer : log_t H -> jvmti_call H -> jvmtiError) : Prop := mk_documented {
  do_capabilities : forall log, answer log (AddCapabilities capa) = Enum.JVMTI_ERROR_NONE;
  do_callbacks : forall log cb, answer log (SetEventCallbacks cb) = Enum.JVMTI_ERROR_NONE;
  do_events : forall log m e, answer log (SetEventNotificationMode m e) =
    if forallb (possessed log) (needs e) then Enum.JVMTI_ERROR_NONE
    else JVMTI_ERROR_MUST_POSSESS_CAPABILITY
}.
End Meaning.

(** * Facts *)

(** The fields are in the order of the event numbers. *)
Lemma slot_field e :
  JVMTI_MIN_EVENT_TYPE_VAL <= event_code e <= JVMTI_MAX_EVENT_TYPE_VAL /\
  jvmtiEventCallbacks !! slot e = Some (event_field e).
Proof. destruct e; (split; [vm_compute; split; congruence|reflexivity]). Qed.

Lemma slot_inj e1 e2 : slot e1 = slot e2 -> e1 = e2.
Proof.
  intros H. destruct (slot_field e1) as [_ H1], (slot_field e2) as [_ H2].
  rewrite H, H2 in H1. injection H1. by destruct e1, e2.
Qed.

(** The reference: the capabilities that are asked for, and the function of the
    agent for each event. *)
Definition requested : list capability := [
  can_generate_all_class_hook_events; can_generate_garbage_collection_events;
  can_get_source_file_name; can_get_line_numbers; can_generate_method_entry_events;
  can_retransform_classes; can_retransform_any_class; can_get_bytecodes; can_get_constant_pool;
  can_generate_monitor_events; can_tag_objects; can_generate_vm_object_alloc_events;
  can_generate_object_free_events].

Definition agent_handler (e : jvmtiEvent) : option handler :=
  match e with
  | JVMTI_EVENT_VM_OBJECT_ALLOC => Some fn_ObjectAllocCallback
  | JVMTI_EVENT_OBJECT_FREE => Some fn_ObjectFreeCallback
  | JVMTI_EVENT_VM_INIT => Some fn_callbackVMInit
  | JVMTI_EVENT_VM_DEATH => Some fn_callbackVMDeath
  | JVMTI_EVENT_THREAD_START => Some fn_callbackThreadStart
  | JVMTI_EVENT_THREAD_END => Some fn_callbackThreadEnd
  | JVMTI_EVENT_GARBAGE_COLLECTION_START => Some fn_callbackGCStart
  | JVMTI_EVENT_GARBAGE_COLLECTION_FINISH => Some fn_callbackGCEnd
  | JVMTI_EVENT_CLASS_LOAD => Some fn_callbackClassLoad
  | JVMTI_EVENT_CLASS_PREPARE => Some fn_callbackClassPrepare
  | JVMTI_EVENT_METHOD_ENTRY => Some fn_MethodEntry
  | JVMTI_EVENT_METHOD_EXIT => Some fn_MethodExit
  | _ => None
  end.

Lemma capa_requested c : has_capability capa c = bool_decide (c ∈ requested).
Proof. destruct c; vm_compute; reflexivity. Qed.

Lemma agent_callbacks_slot e : agent_callbacks !! slot e = Some (agent_handler e).
Proof. destruct e; vm_compute; reflexivity. Qed.

Lemma handled_requested e h : agent_handler e = Some h -> e ∈ agent_events.
Proof. intros H. apply (bool_decide_unpack _). by destruct e. Qed.

Section Log.
Context {H : Type} (answer : log_t H -> jvmti_call H -> jvmtiError).
Context (capa : Z) (callbacks : callbacks_t H) (events : list jvmtiEvent).
Context (needs : jvmtiEvent -> list capability) (Hdoc : documented capa needs answer).

(** What an agent asks for: capabilities, callbacks, events. *)
Definition registration : list (jvmti_call H) :=
  [AddCapabilities capa; SetEventCallbacks callbacks] ++
  (SetEventNotificationMode JVMTI_ENABLE <$> events).

Definition base_log : log_t H :=
  [(AddCapabilities capa, JVMTI_ERROR_NONE); (SetEventCallbacks callbacks, JVMTI_ERROR_NONE)].

Definition event_answer (e : jvmtiEvent) : jvmti_call H * jvmtiError :=
  (SetEventNotificationMode JVMTI_ENABLE e,
   if forallb (has_capability capa) (needs e) then JVMTI_ERROR_NONE
   else JVMTI_ERROR_MUST_POSSESS_CAPABILITY).

Lemma succeeded_app (l1 l2 : log_t H) : succeeded (l1 ++ l2) = succeeded l1 ++ succeeded l2.
Proof. unfold succeeded. by rewrite filter_app, fmap_app. Qed.

Lemma succeeded_events k l :
  k ∈ succeeded (event_answer <$> l) <->
  exists e, e ∈ l /\ k = SetEventNotificationMode JVMTI_ENABLE e /\
    forallb (has_capability capa) (needs e) = true.
Proof.
  unfold succeeded. rewrite list_elem_of_fmap. setoid_rewrite list_elem_of_filter.
  setoid_rewrite list_elem_of_fmap. unfold event_answer. split.
  - intros (y & -> & Hy & e & -> & He). exists e. split_and!; [done|done|].
    simpl in Hy. by destruct (forallb _ _).
  - intros (e & He & -> & Hn). eexists. split; [|split; [|by exists e]]; simpl; [done|by rewrite Hn].
Qed.

Lemma possessed_log l c : possessed (base_log ++ (event_answer <$> l)) c = has_capability capa c.
Proof.
  unfold possessed. rewrite succeeded_app, existsb_app. simpl. rewrite orb_false_r.
  assert (existsb (fun k => if k is AddCapabilities capa then has_capability capa c else false)
    (succeeded (event_answer <$> l)) = false) as ->; [|by rewrite orb_false_r].
  apply not_true_is_false. rewrite existsb_exists. intros (k & Hk & Hc).
  apply list_elem_of_In, succeeded_events in Hk as (e & _ & -> & _). done.
Qed.

Lemma events_log done_ l :
  foldl (ask answer) (base_log ++ (event_answer <$> done_)) (SetEventNotificationMode JVMTI_ENABLE <$> l) =
  base_log ++ (event_answer <$> done_ ++ l).
Proof.
  revert done_. induction l as [|e l IH]; intros done_; [by rewrite app_nil_r|].
  cbn [fmap list_fmap foldl]. unfold ask at 2.
  rewrite (do_events _ _ _ Hdoc).
  assert (forallb (possessed (base_log ++ (event_answer <$> done_))) (needs e) =
          forallb (has_capability capa) (needs e)) as ->.
  { induction (needs e) as [|c cs IHc]; [done|]. cbn [forallb]. by rewrite possessed_log, IHc. }
  specialize (IH (done_ ++ [e])). rewrite fmap_app, <- !app_assoc in IH. rewrite <- app_assoc.
  exact IH.
Qed.

Lemma registration_log :
  foldl (ask answer) [] registration = base_log ++ (event_answer <$> events).
Proof.
  unfold registration. rewrite foldl_app. cbn [foldl]. unfold ask at 2 3. cbn [app].
  rewrite (do_capabilities _ _ _ Hdoc), (do_callbacks _ _ _ Hdoc). apply (events_log []).
Qed.

Lemma installed_log l : installed (base_log ++ (event_answer <$> l)) = callbacks.
Proof.
  unfold installed. rewrite succeeded_app, foldl_app. simpl.
  assert (Forall (fun k => exists e, k = SetEventNotificationMode JVMTI_ENABLE e)
    (succeeded (event_answer <$> l))) as Hf.
  { apply Forall_forall. intros k (e & _ & -> & _)%succeeded_events. by exists e. }
  induction Hf as [|k ks (e & ->) _ IH]; [done|]. exact IH.
Qed.

Lemma delivers_log e h :
  delivers (foldl (ask answer) [] registration) e h <->
  e ∈ events /\ callbacks !! slot e = Some (Some h) /\
  forall c, c ∈ needs e -> has_capability capa c = true.
Proof.
  unfold delivers, enabled. rewrite registration_log, installed_log, succeeded_app, elem_of_app.
  assert (forallb (has_capability capa) (needs e) = true <->
          forall c, c ∈ needs e -> has_capability capa c = true) as Hn.
  { rewrite forallb_forall. by setoid_rewrite <- list_elem_of_In. }
  split.
  - intros [[Hb|(e' & He & [= <-] & Hc)%succeeded_events] Hh]; [|by rewrite <- Hn].
    vm_compute in Hb. by repeat (apply elem_of_cons in Hb as [?|Hb]; [done|]); inversion Hb.
  - intros (He & Hh & Hc). split; [|done]. right. apply succeeded_events. exists e.
    split_and!; [done|done|by apply Hn].
Qed.
End Log.

Lemma calls_foldl answer cs j :
  calls (foldl (fun j c => call answer c j) j cs) = foldl (ask answer) (calls j) cs.
Proof. revert j. induction cs as [|c cs IH]; intros j; [done|]. apply (IH (call answer c j)). Qed.

(** * Properties *)

(** C21: after a successful start an event reaches a function of the agent exactly
    when it is one of the twelve with a callback, the function being its own, and
    all capabilities the event needs are among the thirteen asked for.  So method
    exits never arrive, and events of compiled code are asked for in vain. *)
Theorem registration_delivers {S} answer needs (profiler_init : list str -> prog S unit) arg s s' j'
  (Hdoc : documented capa needs answer)
  (Hinit : JVM_init answer profiler_init arg true 0 JVMTI_JLOCATION_JVMBCI (s, JVM0) = Val (true, (s', j'))) :
  (forall e h, delivers (calls j') e h <->
     agent_handler e = Some h /\ forall c, c ∈ needs e -> c ∈ requested) /\
  (can_generate_method_exit_events ∈ needs JVMTI_EVENT_METHOD_EXIT ->
   forall h, ~ delivers (calls j') JVMTI_EVENT_METHOD_EXIT h).
Proof.
  unfold JVM_init, parseArgs in Hinit. cbn [snd fst] in Hinit.
  apply outcome_bind_inv in Hinit as (j & Hj & Hinit).
  apply outcome_bind_inv in Hj as (a & _ & [= <-]). cbn [negb] in Hinit.
  apply outcome_bind_inv in Hinit as ([] & _ & Hinit).
  apply outcome_bind_inv in Hinit as ([] & _ & Hinit).
  apply outcome_bind_inv in Hinit as ([u s1] & _ & Hinit).
  assert (j' = foldl (fun j c => call answer c j) (mk_JVM (Some a) []) requests) as ->
    by (by injection Hinit).
  assert (calls (foldl (fun j c => call answer c j) (mk_JVM (Some a) []) requests) =
          foldl (ask answer) [] (registration capa agent_callbacks agent_events)) as ->
    by apply calls_foldl.
  assert (Hd : forall e h, delivers (foldl (ask answer) [] (registration capa agent_callbacks agent_events)) e h <->
     agent_handler e = Some h /\ forall c, c ∈ needs e -> c ∈ requested).
  { intros e h. rewrite (delivers_log _ _ _ _ _ Hdoc), agent_callbacks_slot.
    setoid_rewrite capa_requested. setoid_rewrite bool_decide_eq_true.
    split; [by intros (_ & [= ->] & Hc)|]. intros [Hh Hc]. split_and!; [|by rewrite Hh|done].
    by eapply handled_requested. }
  split; [exact Hd|].
  intros Hn h [_ H]%Hd. apply H in Hn. by apply (bool_decide_pack _) in Hn.
Qed.

(** A runtime without the interface is reported as a success. *)
Lemma Agent_OnLoad_ignores_failure {S} answer (profiler_init : list str -> prog S unit) arg a err fmt s j :
  new_Argument arg = Val a ->
  Agent_OnLoad (mret tt) (mret tt) (JVM_init answer profiler_init arg false err fmt) (s, j) =
    Val (JNI_OK, (s, mk_JVM (Some a) (calls j))).
Proof. intros Ha. unfold Agent_OnLoad, JVM_init, parseArgs, mbind, prog_bind. simpl. by rewrite Ha. Qed.

Module Examples.
(** Part of the documentation of the interface. *)
Definition needs0 (e : jvmtiEvent) : list capability :=
  match e with
  | JVMTI_EVENT_METHOD_ENTRY => [can_generate_method_entry_events]
  | JVMTI_EVENT_METHOD_EXIT => [can_generate_method_exit_events]
  | JVMTI_EVENT_COMPILED_METHOD_LOAD | JVMTI_EVENT_COMPILED_METHOD_UNLOAD =>
    [can_generate_compiled_method_load_events]
  | JVMTI_EVENT_OBJECT_FREE => [can_generate_object_free_events]
  | JVMTI_EVENT_VM_OBJECT_ALLOC => [can_generate_vm_object_alloc_events]
  | JVMTI_EVENT_GARBAGE_COLLECTION_START | JVMTI_EVENT_GARBAGE_COLLECTION_FINISH =>
    [can_generate_garbage_collection_events]
  | _ => []
  end.

Definition answer0 {H} (log : log_t H) (c : jvmti_call H) : jvmtiError :=
  match c with
  | SetEventNotificationMode _ e =>
    if forallb (possessed log) (needs0 e) then JVMTI_ERROR_NONE else JVMTI_ERROR_MUST_POSSESS_CAPABILITY
  | _ => JVMTI_ERROR_NONE
  end.

Lemma registration_delivers_witness :
  exists j, JVM_init answer0 (fun _ => mret tt) (lit "GENERIC::CYCLES@100") true 0
      JVMTI_JLOCATION_JVMBCI (tt, JVM0) = Val (true, (tt, j)) /\
    delivers (calls j) JVMTI_EVENT_METHOD_ENTRY fn_MethodEntry /\
    ~ delivers (calls j) JVMTI_EVENT_METHOD_EXIT fn_MethodExit.
Proof.
  eexists. split; [vm_compute; reflexivity|].
  match goal with |- delivers (calls ?j) _ _ /\ _ =>
    destruct (registration_delivers answer0 needs0 (fun _ => mret tt : prog unit unit)
      (lit "GENERIC::CYCLES@100") tt tt j) as [H1 H2]; [by split|vm_compute; reflexivity|] end.
  split; [apply H1; split; [reflexivity|]|by apply H2; left].
  intros c [->|H]%elem_of_cons; [by apply (bool_decide_unpack _)|by apply not_elem_of_nil in H].
Defined.
End Examples.
