(* ===== verification/Agent.v ===== *)
(** The callbacks of the agent ([agent.cpp]): method entry, allocation and free of
    objects, threads, death of the runtime.

    A callback runs on one thread over the data of the thread and the variables
    of [Profiler.v].  The functions of the runtime are the records [jvmti] and
    [runtime]; the call of a Java method, which can bring the runtime back into a
    callback, is a program of its own. *)
From stdpp Require Import base numbers option list gmap strings sorting.
From Stdlib Require Import ZArith Lia Ascii.
From S2P Require Import Prelude.
From S2P Require Import Cxx.
From S2P Require Import Xml.
From S2P Require Import Jvmti.
From S2P Require Import CodeCache.
From S2P Require Import NewContext.
From S2P Require Import OutBuf.
From S2P Require Import Output.
From S2P Require Import ThreadData.
From S2P Require Import PerfUtil.
From S2P Require Import PerfEvents.
From S2P Require Import Profiler.

(** * Lines *)

(** The loop over the line table: the entries after the first one, with the line
    found so far. *)
Fixpoint lookup_line (location lineNumber : Z) (rest : list jvmtiLineNumberEntry) : Z :=
  match rest with
  | [] => lineNumber
  | e :: rest =>
    if location <? start_location e then lineNumber else lookup_line location (line_number e) rest
  end.

(** The line of a location with the first and the last line of the table; the
    first entry of an empty table is read out of bounds. *)
Definition line_and_scope (location : Z) (table : list jvmtiLineNumberEntry) : outcome (str * str) :=
  match table, last table with
  | e0 :: rest, Some e1 =>
    let lineNumber := lookup_line location (line_number e0) rest in
    mret (dec lineNumber,
          dec lineNumber ++ lit "0" ++ dec (line_number e0) ++ lit "0" ++ dec (line_number e1))
  | _, _ => Fault UndefinedBehaviour
  end.

(** * Callbacks *)

(** More functions of the runtime: the stack of a thread (null: the current one)
    from a depth up to a number of frames, the tag of an object, the methods of a
    class, the classes loaded so far. *)
Record runtime := mk_runtime {
  rt_env : jvmti;
  GetStackTrace : option Z -> Z -> Z -> Z * list jvmtiFrameInfo;
  GetTag : Z -> Z * Z;
  GetClassMethods : Z -> Z * list Z;
  GetLoadedClasses : Z * list Z
}.

Section Callbacks.
Context (gettid : Z).
Context (sys_open : str -> open_result) (answers : nat -> write_event) (ffuel : nat).
Context (rt : runtime).

Abbreviation env := (rt_env rt).
Abbreviation newline := [ascii_of_nat 10].

Definition block : P unit := tls_op (BLOCK_SAMPLE gettid).
Definition unblock : P unit := tls_op (UNBLOCK_SAMPLE gettid).

(** Callbacks that do nothing between the marks. *)
Definition callbackGCStart : P unit := block;; unblock.
Definition callbackGCEnd : P unit := block;; unblock.
Definition callbackClassLoad : P unit := block;; unblock.
Definition MethodExit : P unit := mret tt.

(** The name of a class from its signature, which the agent owns afterwards. *)
Definition class_name (klass : Z) : P str :=
  let '(err, signature) := GetClassSignature env klass in
  if err =? JVMTI_ERROR_NONE then own 1;; prog_lift (class_of_signature (c_str signature))
  else prog_fault UndefinedBehaviour.

(** The line table of a method, which the agent owns, and [Deallocate] on it (on
    null for a method without one). *)
Definition line_table (m : Z) : P (option (list jvmtiLineNumberEntry)) :=
  let '(err, lineTable) := GetLineNumberTable env m in
  if err =? JVMTI_ERROR_NONE then own 1;; mret (Some lineTable) else mret None.
Definition deallocate_table (lineTable : option (list jvmtiLineNumberEntry)) : P unit :=
  match lineTable with Some _ => own (-1) | None => mret tt end.

(** ** Method entry *)

(** The scope string: a method without a table has ["0"]. *)
Definition scope_of (location : Z) (lineTable : option (list jvmtiLineNumberEntry)) : outcome str :=
  match lineTable with
  | Some lineTable => '(_, scope) ← line_and_scope location lineTable; mret scope
  | None => mret (lit "0")
  end.

Definition method_line (m : Z) (name info class : str) : str :=
  fmt_d m ++ lit " " ++ name ++ lit " " ++ info ++ class ++ newline.

(** The line of frame [i]; the leaf, which has index 0, is not looked up. *)
Definition frame_line (i : nat) (f : jvmtiFrameInfo) : P str :=
  lineTable ← (match i with O => mret None | S _ => line_table (fi_method f) end);
  lineNumber_scope ← prog_lift (scope_of (fi_location f) lineTable);
  deallocate_table lineTable;;
  mret lineNumber_scope.

(** The block of the name is never given back. *)
Definition entry_frame (i : nat) (f : jvmtiFrameInfo) : P unit :=
  let m := fi_method f in
  let '(name_err, name) := GetMethodName env m in
  (if name_err =? JVMTI_ERROR_NONE then own 1 else mret tt);;
  let '(class_err, declaring_class) := GetMethodDeclaringClass env m in
  if negb (class_err =? JVMTI_ERROR_NONE) then prog_fault UndefinedBehaviour
  else
    cn ← class_name declaring_class;
    lineNumber_scope ← frame_line i f;
    mod_loc (fun l => mk_locals (total l) (method_id_list l) (object_alloc_counter l)
                        (callpath_vec l ++ [(m, lineNumber_scope)]));;
    p ← get_prof;
    (if decide (m ∈ method_id_list (loc p)) then mret tt
     else if negb (name_err =? JVMTI_ERROR_NONE) then prog_fault UndefinedBehaviour
     else
       td_writef gettid sys_open answers ffuel output_state set_output_state
         (method_line m (c_str name) (object_info (glob p)) (cn ++ lit ".java"));;
       mod_loc (fun l => set_method_id_list ({[m]} ∪ method_id_list l) l));;
    own (-1).

(** The loop from the root to the leaf, which has index 0. *)
Fixpoint entry_frames (path : list jvmtiFrameInfo) : P unit :=
  match path with
  | [] => mret tt
  | f :: path => entry_frame (length path) f;; entry_frames path
  end.

Definition MethodEntry : P unit :=
  block;;
  mod_loc (set_callpath []);;
  output_stream ← tls_op (TD_GET gettid output_state);
  match output_stream with
  | None => mret tt
  | Some _ =>
    let '(err, frame_buffer) := GetStackTrace rt None 0 32 in
    if err =? JVMTI_ERROR_NONE then entry_frames (reverse frame_buffer) else mret tt
  end;;
  unblock.

(** ** Objects *)

(** [object_cyc_lock]; a thread that holds it waits for itself. *)
Definition cyc_lock : P unit :=
  p ← get_prof;
  if object_cyc_lock (glob p) then prog_fault Deadlock else mod_glob (set_cyc_lock true).
Definition cyc_unlock : P unit := mod_glob (set_cyc_lock false).

Definition set_object_info (info : str) : P unit :=
  mod_glob (fun g => set_objects (object_live_cycle g) info g).

(** The loop of [ObjectFreeCallback]; the iterator of an erased element cannot be
    advanced. *)
Fixpoint free_loop (obj_tag : Z) (it : list str) : P unit :=
  match it with
  | [] => mret tt
  | s :: it =>
    let index := s32 (u32 (find s (lit "#"))) in
    tag_inset ← prog_lift (substr s (u64 (index + 1)) npos);
    t ← prog_lift (stoi tag_inset);
    if obj_tag =? u64 t then prog_fault UndefinedBehaviour
    else
      part ← prog_lift (substr s 0 (u64 index));
      mod_glob (fun g => set_objects (object_live_cycle g) (object_info g ++ part) g);;
      free_loop obj_tag it
  end.

(** The locked part of [ObjectFreeCallback]; [order]: the iteration order of the set
    of live objects. *)
Definition rebuild_info (order : list str -> list str) (obj_tag : Z) : P unit :=
  cyc_lock;;
  set_object_info [];;
  p ← get_prof;
  free_loop obj_tag (order (object_live_cycle (glob p)));;
  cyc_unlock.

Definition ObjectFreeCallback (order : list str -> list str) (tag : Z) : P unit :=
  let obj_tag := u64 tag in
  mod_glob (fun g => set_memory (u64 (active_memory_usage g - obj_tag)) g);;
  rebuild_info order obj_tag.

Definition excluded (class : str) : bool :=
  negb (find class (lit "java.") =? npos) || negb (find class (lit "android.") =? npos) ||
  negb (find class (lit "dalvik.") =? npos) || negb (find class (lit "sun.") =? npos).

Definition insert_live (id : str) (live : list str) : list str :=
  if decide (id ∈ live) then live else live ++ [id].

Definition short_identifier (class line : str) (obj_size : Z) : str :=
  class ++ lit ";LN" ++ line ++ lit ";sz" ++ dec obj_size.

(** The identifier of an object in the live set, and the locked part of the loop. *)
Definition identifier (class line : str) (obj_size obj_tag : Z) : str :=
  short_identifier class line obj_size ++ lit "#" ++ dec obj_tag.

Definition record_live (class line : str) (obj_size obj_tag : Z) : P unit :=
  cyc_lock;;
  mod_glob (fun g => set_objects
    (insert_live (identifier class line obj_size obj_tag) (object_live_cycle g))
    (object_info g ++ lit "[" ++ short_identifier class line obj_size ++ lit "]") g);;
  cyc_unlock.

Definition noted (obj_size : Z) (class : str) : bool :=
  negb (bool_decide (class = [])) && (24 <? obj_size) && negb (excluded class).

(** What the loop does with a frame that is not [getName]; the class name grows. *)
Definition note_object (line : str) (obj_size obj_tag : Z) (class : str) : P str :=
  if noted obj_size class then
    let class := class ++ lit ".java" in
    record_live class line obj_size obj_tag;;
    mret class
  else mret class.

(** The class name and the scope string after a frame was looked up. *)
Definition alloc_line (obj_size obj_tag : Z) (f : jvmtiFrameInfo) (class : str) : P (str * str) :=
  lineTable ← line_table (fi_method f);
  r ← match lineTable with
      | Some table =>
        '(line, scope) ← prog_lift (line_and_scope (fi_location f) table);
        class ← note_object line obj_size obj_tag class;
        mret (class, scope)
      | None => mret (class, lit "0")
      end;
  deallocate_table lineTable;;
  mret r.

Definition alloc_frame (obj_size obj_tag : Z) (f : jvmtiFrameInfo) (class : str) : P str :=
  '(class, scope) ← alloc_line obj_size obj_tag f class;
  td_writef gettid sys_open answers ffuel output_state_alloc set_output_state_alloc
    (scope ++ lit ":" ++ fmt_d (fi_method f) ++ lit " ");;
  mret class.

(** The loop from the root to the leaf; the result is [inside]. *)
Fixpoint alloc_frames (mid_getName obj_size obj_tag : Z) (path : list jvmtiFrameInfo)
  (class : str) (inside : bool) : P bool :=
  match path with
  | [] => mret inside
  | f :: path =>
    if fi_method f =? mid_getName
    then alloc_frames mid_getName obj_size obj_tag path class inside
    else
      class ← alloc_frame obj_size obj_tag f class;
      alloc_frames mid_getName obj_size obj_tag path class true
  end.

(** [call_getName]: what happens while the runtime runs [Class.getName]. *)
Definition ObjectAllocCallback (call_getName : P unit) (mid_getName thread object klass size : Z)
  : P unit :=
  block;;
  mod_loc (fun l => set_alloc_counter
    (<[object := u64 (default 0 (object_alloc_counter l !! object) + 1)]> (object_alloc_counter l)) l);;
  let obj_size := u64 size in
  mod_glob (fun g => set_memory (u64 (active_memory_usage g + obj_size)) g);;
  let '(tag_err, object_tag) := GetTag rt object in
  (if tag_err =? JVMTI_ERROR_NONE then mret tt else prog_fault UndefinedBehaviour);;
  class ← class_name klass;
  ctxt_tree ← tls_op (TD_GET gettid context_state);
  output_stream_alloc ← tls_op (TD_GET gettid output_state_alloc);
  match ctxt_tree, output_stream_alloc with
  | Some _, Some _ =>
    call_getName;;
    let '(err, frame_buffer) := GetStackTrace rt (Some thread) 0 10 in
    if err =? JVMTI_ERROR_NONE then
      inside ← alloc_frames mid_getName obj_size (u64 object_tag) (reverse frame_buffer) class false;
      if inside : bool then
        p ← get_prof;
        td_writef gettid sys_open answers ffuel output_state_alloc set_output_state_alloc
          (lit "|" ++ fmt_ld (default 0 (object_alloc_counter (loc p) !! object)) ++ newline)
      else mret tt
    else mret tt
  | _, _ => mret tt
  end;;
  unblock;;
  own (-1).

(** ** Death of the runtime *)

Context (attr_order : gmap str str -> list (str * str)).

Definition dump_uncompiled_method (print_id : Z -> str) (method : Z) : P unit :=
  if method =? 0 then mret tt
  else
    m ← prog_lift (new_Method env method);
    output_method (getXMLStr attr_order 0 (createXMLObj_InterpretMethod print_id m));;
    mret tt.

Definition then_do (cb : Z -> P unit) (m : Z) (rest : P unit) : P unit := rest;; cb m.

Definition callbackVMDeath (print_id : Z -> str) (order : gset Z -> list Z) (methods : gset Z) : P unit :=
  block;;
  performActionAll order (then_do (dump_uncompiled_method print_id)) methods (mret tt);;
  unblock.
(** ** Threads *)

(** [start] and [stop]: the threadStart and threadEnd of the profiler. *)
Definition callbackThreadStart (start : A unit) : A unit :=
  on_agent block;; start;; on_agent unblock.
Definition callbackThreadEnd (stop : A unit) : A unit :=
  on_agent block;; stop;; on_agent unblock.
End Callbacks.

(** * Facts about lines *)

Lemma lookup_line_at location e rest :
  StronglySorted (fun e1 e2 => start_location e1 <= start_location e2) (e :: rest) ->
  lookup_line location (line_number e) rest =
  line_number (from_option id e (line_at (e :: rest) location)).
Proof.
  revert e. induction rest as [|e' rest IH]; intros e Hs.
  - simpl. rewrite line_at_cons. simpl. by case_decide.
  - inversion Hs as [|? ? Hs' Hle]; subst. cbn [lookup_line]. rewrite line_at_cons.
    destruct (Z.ltb_spec location (start_location e')).
    + rewrite line_at_none; [by case_decide|]. inversion Hs' as [|? ? _ Hle']; subst.
      rewrite Forall_forall in Hle'. intros x [->|Hx]%elem_of_cons; [done|].
      specialize (Hle' x Hx). simpl in Hle'. lia.
    + rewrite (IH e' Hs'). destruct (line_at_head e' rest location) as [x ->]; [lia|done].
Qed.

(** * Facts about method entry *)

(** The reference: the methods of a list that are not in a set, once each, in
    order of their first occurrence. *)
Fixpoint first_seen (seen : gset Z) (ms : list Z) : list Z :=
  match ms with
  | [] => []
  | m :: ms =>
    if decide (m ∈ seen) then first_seen seen ms else m :: first_seen ({[m]} ∪ seen) ms
  end.

(** The scope string of frame [i]; the leaf, which has index 0, is not looked up. *)
Definition frame_scope (rt : runtime) (i : nat) (f : jvmtiFrameInfo) : outcome str :=
  match i with
  | O => mret (lit "0")
  | S _ =>
    let '(err, lineTable) := GetLineNumberTable (rt_env rt) (fi_method f) in
    scope_of (fi_location f) (if err =? JVMTI_ERROR_NONE then Some lineTable else None)
  end.

(** The call path with its scope strings, from the root to the leaf. *)
Fixpoint path_of (rt : runtime) (path : list jvmtiFrameInfo) : outcome (list (Z * str)) :=
  match path with
  | [] => mret []
  | f :: path =>
    scope ← frame_scope rt (length path) f;
    rest ← path_of rt path;
    mret ((fi_method f, scope) :: rest)
  end.

(** The runtime knows the name and the class of a method. *)
Definition described (env : jvmti) (name_of class_of : Z -> str) (m : Z) : Prop :=
  exists name c signature, GetMethodName env m = (JVMTI_ERROR_NONE, name) /\ c_str name = name_of m /\
    GetMethodDeclaringClass env m = (JVMTI_ERROR_NONE, c) /\
    GetClassSignature env c = (JVMTI_ERROR_NONE, signature) /\
    class_of_signature (c_str signature) = Val (class_of m).

Section EntryFacts.
Context (gettid : Z) (sys_open : str -> open_result) (answers : nat -> write_event).
Context (K ffuel : nat) (Hk : steady answers K) (Hfuel : (K * PRINT_BUFFER_SIZE < ffuel)%nat).
Context (rt : runtime) (name_of class_of : Z -> str).

Definition line_of (info : str) (m : Z) : str :=
  method_line m (name_of m) info (class_of m ++ lit ".java").

Definition entered (f : Z) (scope : str) (p : profiler) : profiler :=
  mk_profiler (owning 1 (glob p)) (mk_locals (total (loc p)) ({[f]} ∪ method_id_list (loc p))
    (object_alloc_counter (loc p)) (callpath_vec (loc p) ++ [(f, scope)])).

(** Looking up the line of a frame gives back what it takes. *)
Lemma frame_line_run i f scope t p :
  frame_scope rt i f = Val scope -> frame_line rt i f (t, p) = Val (scope, (t, p)).
Proof.
  intros H. unfold frame_line. destruct i as [|i]; cbn [frame_scope] in H; [by injection H as <-|].
  unfold line_table. destruct (GetLineNumberTable _ _) as [err table].
  destruct (err =? JVMTI_ERROR_NONE); [|by injection H as <-].
  unfold mbind, prog_bind, prog_lift. cbv beta. rewrite own_run. cbv beta iota.
  cbn [mret prog_ret]. rewrite H.
  cbn [deallocate_table]. rewrite own_run. cbn -[owning]. rewrite owning_add, owning_0. by destruct p.
Qed.

Lemma entry_frame_run i f scope td lst p o :
  described (rt_env rt) name_of class_of (fi_method f) -> frame_scope rt i f = Val scope ->
  printable (line_of (object_info (glob p)) (fi_method f)) ->
  output_state td = Some o -> usable sys_open o ->
  exists o', entry_frame gettid sys_open answers ffuel rt i f (mk_tls (Some td) lst, p) =
      Val (tt, (mk_tls (Some (set_output_state (Some o') td)) lst, entered (fi_method f) scope p)) /\
    usable sys_open o' /\
    file_text o' = file_text o ++
      (if decide (fi_method f ∈ method_id_list (loc p)) then []
       else line_of (object_info (glob p)) (fi_method f)).
Proof.
  intros (name & c & signature & Hn & Hname & Hc & Hsig & Hclass) Hscope Hp Ho Hu.
  unfold entry_frame. rewrite Hn, Hc. cbn [negb Z.eqb JVMTI_ERROR_NONE].
  rewrite (prog_bind_val _ _ _ _ _ (own_run 1 _ _)). unfold class_name. rewrite Hsig.
  cbn [Z.eqb JVMTI_ERROR_NONE].
  erewrite (prog_bind_val (own 1 ;; _)) by
    (rewrite (prog_bind_val _ _ _ _ _ (own_run 1 _ _)); unfold prog_lift; rewrite Hclass; reflexivity).
  rewrite (prog_bind_val _ _ _ _ _ (frame_line_run i f scope _ _ Hscope)).
  rewrite (prog_bind_val (mod_loc _) _ _ _ _ eq_refl), (prog_bind_val get_prof _ _ _ _ eq_refl).
  cbn [fst snd loc set_loc glob method_id_list]. case_decide as Hm.
  - exists o. split_and!; [|done|by rewrite app_nil_r].
    unfold entered. rewrite subseteq_union_1_L by set_solver. rewrite <- Ho at 1.
    rewrite (tf_id output_state set_output_state).
    rewrite (prog_bind_val (mret tt) _ _ _ _ eq_refl), own_run. cbn -[owning]. by rewrite !owning_add.
  - rewrite Hname. set (p2 := set_loc _ _).
    destruct (td_writef_run gettid sys_open answers K ffuel Hk Hfuel output_state set_output_state
      _ td lst p2 o Ho Hu Hp) as (o' & Hrun & Hu' & Hst).
    exists o'. split_and!; [|done|done].
    erewrite (prog_bind_val (td_writef _ _ _ _ _ _ _ ;; _)) by (etransitivity; [exact (prog_bind_val _ _ _ _ _ Hrun)|reflexivity]).
    rewrite own_run. unfold entered. cbn -[owning]. by rewrite !owning_add.
Qed.

Definition entered_all (entries : list (Z * str)) (p : profiler) : profiler :=
  mk_profiler (owning (Z.of_nat (length entries)) (glob p))
    (mk_locals (total (loc p)) (method_id_list (loc p) ∪ list_to_set entries.*1)
       (object_alloc_counter (loc p)) (callpath_vec (loc p) ++ entries)).

Lemma entered_all_cons f scope entries p :
  entered_all entries (entered f scope p) = entered_all ((f, scope) :: entries) p.
Proof.
  unfold entered_all, entered. cbn -[owning]. rewrite owning_add, <- app_assoc.
  f_equal; [f_equal; lia|]. simpl. f_equal. set_solver.
Qed.

Lemma entered_all_nil p : entered_all [] p = p.
Proof.
  destruct p as [g []]. unfold entered_all. cbn -[owning]. rewrite owning_0, app_nil_r. f_equal.
  f_equal. set_solver.
Qed.

Lemma path_of_cons f path entries :
  path_of rt (f :: path) = Val entries ->
  exists scope rest, frame_scope rt (length path) f = Val scope /\ path_of rt path = Val rest /\
    entries = (fi_method f, scope) :: rest.
Proof.
  simpl. intros (scope & H1 & H2)%outcome_bind_inv.
  apply outcome_bind_inv in H2 as (rest & H2 & [= <-]). by exists scope, rest.
Qed.

Lemma path_of_length path entries : path_of rt path = Val entries -> length entries = length path.
Proof.
  revert entries. induction path as [|f path IH]; intros entries; [by intros [= <-]|].
  intros (scope & rest & _ & Hrest & ->)%path_of_cons. simpl. by rewrite (IH rest).
Qed.

Lemma entry_frames_run path entries td lst p o :
  Forall (fun f => described (rt_env rt) name_of class_of (fi_method f) /\
    printable (line_of (object_info (glob p)) (fi_method f))) path ->
  path_of rt path = Val entries -> output_state td = Some o -> usable sys_open o ->
  exists td' o', entry_frames gettid sys_open answers ffuel rt path (mk_tls (Some td) lst, p) =
      Val (tt, (mk_tls (Some td') lst, entered_all entries p)) /\
    td' = set_output_state (Some o') td /\ usable sys_open o' /\
    file_text o' = file_text o ++
      (first_seen (method_id_list (loc p)) (fi_method <$> path) ≫= line_of (object_info (glob p))).
Proof.
  intros Hd. revert entries td p o Hd.
  induction path as [|f path IH]; intros entries td p o Hd Hpath Ho Hu.
  - injection Hpath as <-. exists td, o. rewrite entered_all_nil. simpl. rewrite app_nil_r.
    split_and!; [done| |done|done]. rewrite <- Ho. symmetry. apply (tf_id output_state set_output_state).
  - apply path_of_cons in Hpath as (scope & rest & Hscope & Hrest & ->).
    apply Forall_cons_1 in Hd as [[Hd Hp] Hds].
    destruct (entry_frame_run _ f scope td lst p o Hd Hscope Hp Ho Hu) as (o1 & Hrun & Hu1 & Hst1).
    destruct (IH rest (set_output_state (Some o1) td) (entered (fi_method f) scope p) o1)
      as (td' & o' & Hrun' & -> & Hu' & Hst'); [done|done|done|done|].
    exists (set_output_state (Some o') (set_output_state (Some o1) td)), o'.
    split_and!; [|done|done|].
    + cbn [entry_frames]. rewrite (prog_bind_val _ _ _ _ _ Hrun), Hrun'. by rewrite entered_all_cons.
    + rewrite Hst', Hst1. simpl. rewrite <- app_assoc. f_equal. case_decide as Hm; [|done].
      simpl. by rewrite subseteq_union_1_L by set_solver.
Qed.

Lemma MethodEntry_run frames entries td lst p o :
  output_state td = Some o -> usable sys_open o ->
  GetStackTrace rt None 0 32 = (JVMTI_ERROR_NONE, frames) ->
  path_of rt (reverse frames) = Val entries ->
  Forall (fun f => described (rt_env rt) name_of class_of (fi_method f) /\
    printable (line_of (object_info (glob p)) (fi_method f))) frames ->
  exists o', MethodEntry gettid sys_open answers ffuel rt (mk_tls (Some td) lst, p) =
      Val (tt, (mk_tls (Some (set_inside_agent false (set_output_state (Some o') td))) lst,
                entered_all entries (set_loc (set_callpath [] (loc p)) p))) /\
    usable sys_open o' /\
    file_text o' = file_text o ++
      (first_seen (method_id_list (loc p)) (fi_method <$> reverse frames)
        ≫= line_of (object_info (glob p))).
Proof.
  intros Ho Hu Hstack Hpath Hd.
  destruct (entry_frames_run (reverse frames) entries (set_inside_agent true td) lst
    (set_loc (set_callpath [] (loc p)) p) o)
    as (td' & o' & Hrun & -> & Hu' & Hst); [by apply Forall_reverse|done|done|done|].
  exists o'. split_and!; [|done|done].
  unfold MethodEntry. unfold block, tls_op, BLOCK_SAMPLE, TD_SET, TD_GET, thread_data_get, mod_loc.
  do 3 (unfold mbind at 1, prog_bind at 1; cbn [fst snd td_ptr lost]).
  cbn [output_state set_inside_agent]. rewrite Ho, Hstack. cbn [Z.eqb JVMTI_ERROR_NONE].
  rewrite (prog_bind_val _ _ _ _ _ Hrun). reflexivity.
Qed.
End EntryFacts.

(** * Facts about the set of live objects *)

(** An element of the set: what the object is called and its tag. *)
Definition object_id (e : str * Z) : str := e.1 ++ lit "#" ++ dec e.2.

Record object_ok (e : str * Z) : Prop := mk_object_ok {
  oi_hash : "#"%char ∉ e.1;
  oi_tag : 0 <= e.2 < 2 ^ 31;
  oi_size : size (object_id e) < 2 ^ 31
}.

Lemma find_hash ident t i :
  "#"%char ∉ ident -> find_from (lit "#") (ident ++ lit "#" ++ t) i = i + size ident.
Proof.
  revert i. induction ident as [|c ident IH]; intros i Hc.
  - simpl. unfold size. simpl. lia.
  - apply not_elem_of_cons in Hc as [Hc Hident]. cbn [app find_from is_prefix].
    change (lit "#") with ["#"%char] at 1. cbn [is_prefix]. rewrite decide_False by done.
    rewrite IH by done. unfold size. simpl. lia.
Qed.

Lemma object_id_parts e :
  object_ok e ->
  let index := s32 (u32 (find (object_id e) (lit "#"))) in
  substr (object_id e) (u64 (index + 1)) npos = Val (dec e.2) /\
  substr (object_id e) 0 (u64 index) = Val e.1.
Proof.
  intros [Hh Ht Hs]. unfold find, object_id in *. rewrite find_hash by done. rewrite !size_app in Hs.
  change (size (lit "#")) with 1 in Hs. rewrite Z.add_0_l. assert (0 <= size e.1) by (unfold size; lia).
  assert (0 <= size (dec e.2)) by (unfold size; lia).
  assert (s32 (u32 (size e.1)) = size e.1) as ->.
  { rewrite u32_small by machine_lia. apply s32_small. machine_lia. }
  cbv zeta. unfold u64, to_unsigned. rewrite !Z.mod_small by lia. split.
  - rewrite app_assoc. replace (size e.1 + 1) with (size (e.1 ++ lit "#")) by by rewrite size_app.
    rewrite <- (app_nil_r (dec e.2)) at 1. apply substr_app. right. unfold npos. split; [done|lia].
  - change 0 with (size []) at 1. rewrite <- (app_nil_l (e.1 ++ _)). apply substr_app. by left.
Qed.

(** The reference: the names of the objects one after the other. *)
Definition info_of (objects : list (str * Z)) : str := objects ≫= fst.

Lemma free_loop_run obj_tag objects t p :
  Forall object_ok objects ->
  free_loop obj_tag (object_id <$> objects) (t, p) =
  if decide (Exists (fun e => e.2 = obj_tag) objects) then Fault UndefinedBehaviour
  else Val (tt, (t, set_glob (set_objects (object_live_cycle (glob p))
                                (object_info (glob p) ++ info_of objects) (glob p)) p)).
Proof.
  intros Hok. revert p. induction Hok as [|e objects He Hok IH]; intros p.
  - rewrite decide_False by by intros ?%Exists_nil. simpl. rewrite app_nil_r. by destruct p as [[] ?].
  - destruct (object_id_parts e He) as [H1 H2]. cbn [fmap list_fmap free_loop].
    unfold mbind at 1, prog_bind at 1, prog_lift at 1. rewrite H1.
    unfold mbind at 1, prog_bind at 1, prog_lift at 1. rewrite stoi_dec by apply He.
    assert (u64 e.2 = e.2) as -> by (destruct He; apply Z.mod_small; lia).
    destruct (Z.eqb_spec obj_tag e.2) as [->|Hne].
    { rewrite decide_True; [done|]. by left. }
    unfold mbind at 1, prog_bind at 1, prog_lift at 1. rewrite H2.
    unfold mbind at 1, prog_bind at 1, mod_glob at 1. cbn [fst snd]. rewrite IH.
    destruct (decide (Exists _ objects)) as [Hex|Hex].
    { rewrite decide_True; [done|]. by right. }
    rewrite decide_False by (intros [?|?]%Exists_cons; [by apply Hne|done]).
    unfold info_of. simpl. by rewrite app_assoc.
Qed.

(** * Facts about allocations *)

(** What the stream of allocations gets for a frame. *)
Definition line_text (rt : runtime) (f : jvmtiFrameInfo) : outcome str :=
  let '(err, lineTable) := GetLineNumberTable (rt_env rt) (fi_method f) in
  if err =? JVMTI_ERROR_NONE
  then '(_, scope) ← line_and_scope (fi_location f) lineTable; mret scope
  else mret (lit "0").
Definition alloc_text (rt : runtime) (f : jvmtiFrameInfo) : outcome str :=
  scope ← line_text rt f;
  mret (scope ++ lit ":" ++ fmt_d (fi_method f) ++ lit " ").

Fixpoint alloc_texts (rt : runtime) (mid_getName : Z) (path : list jvmtiFrameInfo) : outcome (list str) :=
  match path with
  | [] => mret []
  | f :: path =>
    if fi_method f =? mid_getName then alloc_texts rt mid_getName path
    else t ← alloc_text rt f; ts ← alloc_texts rt mid_getName path; mret (t :: ts)
  end.

(** A set of live objects that grew by identifiers of one object. *)
Definition grew (obj_size obj_tag : Z) (live live' : list str) : Prop :=
  Forall (fun id => id ∈ live \/ exists class line,
    id = short_identifier class line obj_size ++ lit "#" ++ dec obj_tag) live'.

Lemma grew_refl sz tag live : grew sz tag live live.
Proof. apply Forall_forall. by left. Qed.

Lemma grew_trans sz tag l1 l2 l3 : grew sz tag l1 l2 -> grew sz tag l2 l3 -> grew sz tag l1 l3.
Proof.
  unfold grew. rewrite !Forall_forall. intros H1 H2 id Hid.
  destruct (H2 id Hid) as [Hin|?]; [by apply H1|by right].
Qed.

Definition with_objects (live : list str) (info : str) (p : profiler) : profiler :=
  mk_profiler (set_objects live info (glob p)) (loc p).

Lemma note_object_run line sz tag class t p :
  object_cyc_lock (glob p) = false ->
  exists class' live' info', note_object line sz tag class (t, p) =
      Val (class', (t, with_objects live' info' p)) /\ grew sz tag (object_live_cycle (glob p)) live'.
Proof.
  destruct p as [[] l]. intros Hl. cbn in Hl. subst. unfold note_object. destruct (noted sz class); simpl.
  - unfold record_live, cyc_lock, cyc_unlock, mod_glob, get_prof, mbind, prog_bind. simpl.
    eexists _, _, _. split.
    + reflexivity.
    + simpl. unfold insert_live. case_decide; [apply grew_refl|]. apply Forall_app. split; [apply grew_refl|].
      constructor; [|done]. right. by eexists _, _.
  - eexists class, _, _. split; [reflexivity|apply grew_refl].
Qed.

Section AllocFacts.
Context (gettid : Z) (sys_open : str -> open_result) (answers : nat -> write_event).
Context (K ffuel : nat) (Hk : steady answers K) (Hfuel : (K * PRINT_BUFFER_SIZE < ffuel)%nat).
Context (rt : runtime).

Lemma alloc_line_run sz tag f class scope t p :
  line_text rt f = Val scope -> object_cyc_lock (glob p) = false ->
  exists class' live' info', alloc_line rt sz tag f class (t, p) =
      Val ((class', scope), (t, with_objects live' info' p)) /\
    grew sz tag (object_live_cycle (glob p)) live'.
Proof.
  intros Hscope Hl. unfold line_text in Hscope. unfold alloc_line, line_table.
  destruct (GetLineNumberTable _ _) as [err table]. destruct (err =? JVMTI_ERROR_NONE).
  - apply outcome_bind_inv in Hscope as ([line sc] & Hls & [= <-]).
    destruct (note_object_run line sz tag class t (mk_profiler (owning 1 (glob p)) (loc p)) Hl)
      as (class' & live' & info' & Hrun & Hg).
    exists class', live', info'. split; [|done].
    erewrite (prog_bind_val (own 1 ;; _)) by (rewrite (prog_bind_val _ _ _ _ _ (own_run 1 _ _)); reflexivity).
    cbv iota. erewrite (prog_bind_val (prog_lift _ ≫= _)).
    2: { unfold mbind at 1, prog_bind at 1, prog_lift. rewrite Hls.
         rewrite (prog_bind_val _ _ _ _ _ Hrun). reflexivity. }
    cbn [deallocate_table]. rewrite (prog_bind_val _ _ _ _ _ (own_run (-1) _ _)).
    destruct p as [g l]. unfold with_objects, own. cbn -[owning].
    change (owning (-1) (set_objects live' info' (owning 1 g))) with
      (set_objects live' info' (owning (-1) (owning 1 g))). by rewrite owning_add, owning_0.
  - injection Hscope as <-. exists class, (object_live_cycle (glob p)), (object_info (glob p)).
    split; [by destruct p as [[] ?]|apply grew_refl].
Qed.

Lemma alloc_frame_run sz tag f class text td lst p o :
  alloc_text rt f = Val text -> printable text -> object_cyc_lock (glob p) = false ->
  output_state_alloc td = Some o -> usable sys_open o ->
  exists class' live' info' o',
    alloc_frame gettid sys_open answers ffuel rt sz tag f class (mk_tls (Some td) lst, p) =
      Val (class', (mk_tls (Some (set_output_state_alloc (Some o') td)) lst, with_objects live' info' p)) /\
    usable sys_open o' /\ file_text o' = file_text o ++ text /\
    grew sz tag (object_live_cycle (glob p)) live'.
Proof.
  intros Htext Hp Hl Ho Hu. apply outcome_bind_inv in Htext as (scope & Hscope & [= <-]).
  destruct (alloc_line_run sz tag f class scope (mk_tls (Some td) lst) p Hscope Hl)
    as (class' & live' & info' & Hrun & Hg).
  destruct (td_writef_run gettid sys_open answers K ffuel Hk Hfuel output_state_alloc
    set_output_state_alloc _ td lst (with_objects live' info' p) o Ho Hu Hp) as (o' & Hw & Hu' & Hst).
  exists class', live', info', o'. split_and!; [|done|done|done]. unfold alloc_frame.
  rewrite (prog_bind_val _ _ _ _ _ Hrun), (prog_bind_val _ _ _ _ _ Hw). reflexivity.
Qed.

Lemma alloc_frames_run mid sz tag path class inside texts td lst p o :
  alloc_texts rt mid path = Val texts -> Forall printable texts -> object_cyc_lock (glob p) = false ->
  output_state_alloc td = Some o -> usable sys_open o ->
  exists live' info' o' td',
    alloc_frames gettid sys_open answers ffuel rt mid sz tag path class inside (mk_tls (Some td) lst, p) =
      Val (inside || negb (bool_decide (texts = [])),
           (mk_tls (Some td') lst, with_objects live' info' p)) /\
    td' = set_output_state_alloc (Some o') td /\
    usable sys_open o' /\ file_text o' = file_text o ++ mjoin texts /\
    grew sz tag (object_live_cycle (glob p)) live'.
Proof.
  revert class inside texts td p o. induction path as [|f path IH];
    intros class inside texts td p o Ht Hp Hl Ho Hu; cbn [alloc_texts alloc_frames] in *.
  - injection Ht as <-. exists (object_live_cycle (glob p)), (object_info (glob p)), o, td.
    rewrite app_nil_r. split_and!; [|by rewrite <- Ho, (tf_id output_state_alloc set_output_state_alloc)|done|done|apply grew_refl].
    simpl. rewrite orb_false_r. by destruct p as [[] ?].
  - destruct (fi_method f =? mid); [by eapply IH|].
    apply outcome_bind_inv in Ht as (text & Htext & Ht).
    apply outcome_bind_inv in Ht as (texts' & Htexts & [= <-]).
    apply Forall_cons_1 in Hp as [Hp Hps].
    destruct (alloc_frame_run sz tag f class text td lst p o Htext Hp Hl Ho Hu)
      as (class' & live1 & info1 & o1 & Hrun & Hu1 & Hst1 & Hg1).
    destruct (IH class' true texts' (set_output_state_alloc (Some o1) td) (with_objects live1 info1 p) o1)
      as (live' & info' & o' & td' & Hrun' & -> & Hu' & Hst' & Hg'); [done|done|done|done|done|].
    exists live', info', o', (set_output_state_alloc (Some o') td). split_and!; [|done|done| |].
    + rewrite (prog_bind_val _ _ _ _ _ Hrun), Hrun'. by rewrite orb_true_r.
    + rewrite Hst', Hst1. simpl. by rewrite <- app_assoc.
    + by eapply grew_trans.
Qed.

Lemma write_count_run (texts : list str) last object n td lst p o :
  object_alloc_counter (loc p) !! object = Some n ->
  last = lit "|" ++ fmt_ld n ++ [ascii_of_nat 10] -> printable last ->
  output_state_alloc td = Some o -> usable sys_open o ->
  exists o', (if negb (bool_decide (texts = [])) then
      p ← get_prof;
      td_writef gettid sys_open answers ffuel output_state_alloc set_output_state_alloc
        (lit "|" ++ fmt_ld (default 0 (object_alloc_counter (loc p) !! object)) ++ [ascii_of_nat 10])
    else mret tt) (mk_tls (Some td) lst, p) =
    Val (tt, (mk_tls (Some (set_output_state_alloc (Some o') td)) lst, p)) /\
    usable sys_open o' /\ file_text o' = file_text o ++ (if texts is [] then [] else last).
Proof.
  intros Hn -> Hp Ho Hu. destruct texts as [|t0 texts].
  - exists o. rewrite app_nil_r. split; [|done]. simpl. by rewrite <- Ho, (tf_id output_state_alloc set_output_state_alloc).
  - unfold mbind at 1, prog_bind at 1, get_prof. simpl. rewrite Hn. simpl.
    destruct (td_writef_run gettid sys_open answers K ffuel Hk Hfuel output_state_alloc
      set_output_state_alloc _ td lst p o Ho Hu Hp) as (o' & Hw & Hu' & Hst).
    exists o'. by split.
Qed.
End AllocFacts.

(** The variables after the allocation is counted and the class is named. *)
Definition counted (object size : Z) (p : profiler) : profiler :=
  mk_profiler (owning 1 (set_memory (u64 (active_memory_usage (glob p) + u64 size)) (glob p)))
    (set_alloc_counter (<[object := u64 (default 0 (object_alloc_counter (loc p) !! object) + 1)]>
       (object_alloc_counter (loc p))) (loc p)).

(** The whole callback, with the loop over the frames in it. *)
Lemma ObjectAlloc_run gettid sys_open answers K ffuel rt call_getName mid thread object klass size tag
    signature class frames texts td lst p td2 p2 ct o n :
  steady answers K -> (K * PRINT_BUFFER_SIZE < ffuel)%nat ->
  GetTag rt object = (JVMTI_ERROR_NONE, tag) ->
  GetClassSignature (rt_env rt) klass = (JVMTI_ERROR_NONE, signature) ->
  class_of_signature (c_str signature) = Val class ->
  context_state td = Some ct -> is_Some (output_state_alloc td) ->
  call_getName (mk_tls (Some (set_inside_agent true td)) lst, counted object size p) =
    Val (tt, (mk_tls (Some td2) lst, p2)) ->
  object_alloc_counter (loc p2) !! object = Some n -> object_cyc_lock (glob p2) = false ->
  output_state_alloc td2 = Some o -> usable sys_open o ->
  GetStackTrace rt (Some thread) 0 10 = (JVMTI_ERROR_NONE, frames) ->
  alloc_texts rt mid (reverse frames) = Val texts -> Forall printable texts ->
  let last := lit "|" ++ fmt_ld n ++ [ascii_of_nat 10] in
  printable last ->
  exists o' live' info' b t',
    ObjectAllocCallback gettid sys_open answers ffuel rt call_getName mid thread object klass size
      (mk_tls (Some td) lst, p) =
    Val (tt, (mk_tls (Some (set_inside_agent false (set_output_state_alloc (Some o') td2))) lst,
              mk_profiler (owning (-1) (set_objects live' info' (glob p2))) (loc p2))) /\
    alloc_frames gettid sys_open answers ffuel rt mid (u64 size) (u64 tag) (reverse frames) class false
      (mk_tls (Some td2) lst, p2) = Val (b, (t', with_objects live' info' p2)) /\
    usable sys_open o' /\
    file_text o' = file_text o ++ mjoin texts ++ (if texts is [] then [] else last) /\
    grew (u64 size) (u64 tag) (object_live_cycle (glob p2)) live'.
Proof.
  intros Hk Hfuel Htag Hsig Hclass Hct [oa Hoa] Hcall Hn Hlock Ho Hu Hstack Htexts Hp last0 Hlast.
  destruct (alloc_frames_run gettid sys_open answers K ffuel Hk Hfuel rt mid (u64 size) (u64 tag)
    (reverse frames) class false texts td2 lst p2 o Htexts Hp Hlock Ho Hu)
    as (live' & info' & o1 & td' & Hrun & -> & Hu1 & Hst1 & Hg).
  destruct (write_count_run gettid sys_open answers K ffuel Hk Hfuel texts last0 object n
    (set_output_state_alloc (Some o1) td2) lst (with_objects live' info' p2) o1)
    as (o' & Hw & Hu' & Hst); [exact Hn|done|done|done|done|].
  exists o', live', info'. do 2 eexists. split_and!; [|exact Hrun|exact Hu'| |exact Hg].
  - unfold ObjectAllocCallback, block, unblock, BLOCK_SAMPLE, UNBLOCK_SAMPLE, class_name.
    rewrite Htag, Hsig. cbn [Z.eqb JVMTI_ERROR_NONE].
    unfold mod_loc, mod_glob, tls_op, TD_SET, TD_GET, thread_data_get, prog_lift.
    unfold mbind, prog_bind. cbn [fst snd td_ptr lost]. cbn [mret prog_ret]. rewrite Hclass, own_run.
    cbn [fst snd td_ptr lost context_state output_state_alloc set_inside_agent]. rewrite Hct, Hoa.
    match goal with |- context [call_getName ?s] =>
      change s with (mk_tls (Some (set_inside_agent true td)) lst, counted object size p) end.
    rewrite Hcall, Hstack. cbn [Z.eqb JVMTI_ERROR_NONE]. rewrite Hrun. cbn [orb].
    unfold mbind, prog_bind in Hw. rewrite Hw. reflexivity.
  - by rewrite Hst, Hst1, app_assoc.
Qed.

(** * Properties *)

(** C20: the line reported for a location is the line of the last entry of the
    line table at or before it, or of the first entry when there is none; the
    scope adds the first and the last line of the table, with a zero between. *)
Theorem line_and_scope_correct location e rest
  (Hs : StronglySorted (fun e1 e2 => start_location e1 <= start_location e2) (e :: rest)) :
  let line := line_number (from_option id e (line_at (e :: rest) location)) in
  exists e1, last (e :: rest) = Some e1 /\
    line_and_scope location (e :: rest) =
      Val (dec line, dec line ++ lit "0" ++ dec (line_number e) ++ lit "0" ++ dec (line_number e1)).
Proof.
  destruct (last (e :: rest)) as [e1|] eqn:Hl; [|by apply last_None in Hl].
  exists e1. split; [done|]. unfold line_and_scope. by rewrite Hl, lookup_line_at.
Qed.

Section EntryTheorem.
Context (gettid : Z) (sys_open : str -> open_result) (answers : nat -> write_event).

(** C17: on method entry the call path of the thread becomes the path of the stack
    from the root to the leaf; the methods that the thread has not listed yet get
    one line each, in order, with the objects alive, and are listed from then on;
    samples are admitted again.  One block of the runtime per frame, that of the
    name, is never given back; nothing else changes. *)
Theorem MethodEntry_records K ffuel rt name_of class_of frames entries td lst p o
  (Hk : steady answers K) (Hfuel : (K * PRINT_BUFFER_SIZE < ffuel)%nat)
  (Ho : output_state td = Some o) (Hu : usable sys_open o)
  (Hstack : GetStackTrace rt None 0 32 = (JVMTI_ERROR_NONE, frames))
  (Hpath : path_of rt (reverse frames) = Val entries)
  (Hd : Forall (fun f => described (rt_env rt) name_of class_of (fi_method f) /\
    printable (line_of name_of class_of (object_info (glob p)) (fi_method f))) frames) :
  exists o' p', MethodEntry gettid sys_open answers ffuel rt (mk_tls (Some td) lst, p) =
      Val (tt, (mk_tls (Some (set_inside_agent false (set_output_state (Some o') td))) lst, p')) /\
    file_text o' = file_text o ++
      (first_seen (method_id_list (loc p)) (fi_method <$> reverse frames)
        ≫= line_of name_of class_of (object_info (glob p))) /\
    glob p' = owning (Z.of_nat (length frames)) (glob p) /\ callpath_vec (loc p') = entries /\
    method_id_list (loc p') = method_id_list (loc p) ∪ list_to_set (entries.*1) /\
    total (loc p') = total (loc p) /\ object_alloc_counter (loc p') = object_alloc_counter (loc p).
Proof.
  destruct (MethodEntry_run gettid sys_open answers K ffuel Hk Hfuel rt name_of class_of frames entries
    td lst p o Ho Hu Hstack Hpath Hd) as (o' & Hrun & _ & Hst).
  apply path_of_length in Hpath. rewrite length_reverse in Hpath.
  eexists o', _. split; [exact Hrun|]. split_and!; [done| |done..].
  unfold entered_all. cbn [glob set_loc]. by rewrite Hpath.
Qed.
End EntryTheorem.

Section ObjectTheorems.
Context (gettid : Z) (sys_open : str -> open_result) (answers : nat -> write_event).

(** C19: when the runtime frees a tagged object, the memory in use goes down by the
    tag, which is not its size; if the set holds an object with that tag the loop
    goes on with the iterator it erased, otherwise the set stays and the text of
    the live objects is rebuilt from it. *)
Theorem ObjectFree_outcome order tag objects t p
  (Hlock : object_cyc_lock (glob p) = false)
  (Horder : order (object_live_cycle (glob p)) = object_id <$> objects)
  (Hok : Forall object_ok objects) :
  if decide (Exists (fun e => e.2 = u64 tag) objects)
  then ObjectFreeCallback order tag (t, p) = Fault UndefinedBehaviour
  else exists p', ObjectFreeCallback order tag (t, p) = Val (tt, (t, p')) /\
    active_memory_usage (glob p') = u64 (active_memory_usage (glob p) - tag) /\
    object_live_cycle (glob p') = object_live_cycle (glob p) /\
    object_info (glob p') = info_of objects /\ object_cyc_lock (glob p') = false /\ loc p' = loc p.
Proof.
  unfold ObjectFreeCallback, rebuild_info, mod_glob, cyc_lock, cyc_unlock, set_object_info, mod_glob, get_prof, mbind, prog_bind.
  cbn [fst snd glob set_glob loc]. simpl. rewrite Hlock. simpl. rewrite Horder.
  rewrite free_loop_run by done. destruct (decide (Exists _ objects)); [done|].
  eexists. split; [reflexivity|]. simpl. split_and!; try done. autorewrite with cxx_arith. done.
Qed.
End ObjectTheorems.

Section AllocTheorem.
Context (gettid : Z) (sys_open : str -> open_result) (answers : nat -> write_event).

(** C18: an allocation adds its size to the memory in use and one to the count of
    the object; the stream of allocations gets the path of the stack without
    [getName] and the count, and the set of live objects grows by identifiers of
    this object only.  The Java method that the callback calls can run callbacks
    of its own: the data of the thread is what it leaves.  What the runtime gave
    is given back. *)
Theorem ObjectAlloc_records K ffuel rt call_getName mid thread object klass size tag signature class
    frames texts td lst p td2 p2 ct o
  (Hk : steady answers K) (Hfuel : (K * PRINT_BUFFER_SIZE < ffuel)%nat)
  (Htag : GetTag rt object = (JVMTI_ERROR_NONE, tag))
  (Hsig : GetClassSignature (rt_env rt) klass = (JVMTI_ERROR_NONE, signature))
  (Hclass : class_of_signature (c_str signature) = Val class)
  (Hct : context_state td = Some ct) (Halloc : is_Some (output_state_alloc td))
  (Hcall : call_getName (mk_tls (Some (set_inside_agent true td)) lst, counted object size p) =
     Val (tt, (mk_tls (Some td2) lst, p2)))
  (Hmem : active_memory_usage (glob p2) = active_memory_usage (glob (counted object size p)))
  (Hcount : object_alloc_counter (loc p2) = object_alloc_counter (loc (counted object size p)))
  (Hlock : object_cyc_lock (glob p2) = false)
  (Ho : output_state_alloc td2 = Some o) (Hu : usable sys_open o)
  (Hstack : GetStackTrace rt (Some thread) 0 10 = (JVMTI_ERROR_NONE, frames))
  (Htexts : alloc_texts rt mid (reverse frames) = Val texts)
  (Hp : Forall printable texts) :
  let n := u64 (default 0 (object_alloc_counter (loc p) !! object) + 1) in
  let last := lit "|" ++ fmt_ld n ++ [ascii_of_nat 10] in
  printable last ->
  exists o' p', ObjectAllocCallback gettid sys_open answers ffuel rt call_getName mid thread object
      klass size (mk_tls (Some td) lst, p) =
    Val (tt, (mk_tls (Some (set_inside_agent false (set_output_state_alloc (Some o') td2))) lst, p')) /\
    file_text o' = file_text o ++ mjoin texts ++ (if texts is [] then [] else last) /\
    active_memory_usage (glob p') = u64 (active_memory_usage (glob p) + size) /\
    object_alloc_counter (loc p') !! object = Some n /\
    grew (u64 size) (u64 tag) (object_live_cycle (glob p2)) (object_live_cycle (glob p')) /\
    runtime_blocks (glob p') = runtime_blocks (glob p2) - 1.
Proof.
  intros n last0 Hlast.
  destruct (ObjectAlloc_run gettid sys_open answers K ffuel rt call_getName mid thread object klass size tag
    signature class frames texts td lst p td2 p2 ct o n) as (o' & live' & info' & b & t' & Hrun & _ & _ & Hst & Hg);
    try done; [by rewrite Hcount; apply lookup_insert_eq|].
  eexists o', _. split_and!; [exact Hrun|exact Hst| | |exact Hg|reflexivity].
  - simpl. rewrite Hmem. simpl. by autorewrite with cxx_arith.
  - simpl. rewrite Hcount. simpl. by rewrite lookup_insert_eq.
Qed.
End AllocTheorem.

Module Examples.
(** Two methods of one class; the stack has the leaf first. *)
Definition table0 : list jvmtiLineNumberEntry := [mk_line 0 10; mk_line 5 11; mk_line 9 13].
Definition env0 : jvmti := mk_jvmti
  (fun m => (0, lit "m" ++ dec m)) (fun _ => (0, 7)) (fun _ => (0, lit "Foo.java"))
  (fun _ => (0, lit "La/Foo;")) (fun _ => (0, false)) (fun _ => (0, (0, 20)))
  (fun m => (0, table0)).
Definition rt0 : runtime := mk_runtime env0
  (fun _ _ _ => (0, [mk_frame_info 2 0; mk_frame_info 2 6; mk_frame_info 1 20])) (fun _ => (0, 0))
  (fun c => if c =? 8 then (22, []) else (0, [1; 2])) (0, [7; 8; 9]).
Definition td1 := set_output_state_alloc (Some (Profiler.Examples.named (lit "alloc"))) Profiler.Examples.td0.
Definition td2 := set_output_state (Some (Profiler.Examples.named (lit "method"))) td1.
Definition prof (live : list str) (info : str) : profiler :=
  mk_profiler (set_objects live info Profiler.Examples.globals0) Profiler.Examples.locals0.

(** Lines 1 of 101..1 and 101 of 1..1 are written alike. *)
Example scope_is_ambiguous :
  exists s, line_and_scope 9 [mk_line 0 101; mk_line 5 1] = Val (dec 1, s) /\
    line_and_scope 7 [mk_line 0 1; mk_line 5 101; mk_line 9 1] = Val (dec 101, s).
Proof. eexists. split; vm_compute; reflexivity. Qed.

Lemma line_and_scope_correct_witness : line_and_scope 6 table0 = Val (lit "11", lit "11010013").
Proof.
  destruct (line_and_scope_correct 6 (mk_line 0 10) [mk_line 5 11; mk_line 9 13])
    as (e1 & [= <-] & H).
  - repeat constructor; simpl; lia.
  - exact H.
Defined.

Lemma MethodEntry_records_witness :
  exists o' p', MethodEntry 42 Profiler.Examples.always_open Output.Examples.answers 3000 rt0
      (mk_tls (Some td2) [], prof [] (lit "[x]")) =
    Val (tt, (mk_tls (Some (set_inside_agent false (set_output_state (Some o') td2))) [], p')) /\
    file_text o' = lit "1 m1 [x]a.Foo.java" ++ [ascii_of_nat 10] ++ lit "2 m2 [x]a.Foo.java" ++
      [ascii_of_nat 10] /\
    callpath_vec (loc p') = [(1, lit "13010013"); (2, lit "11010013"); (2, lit "0")].
Proof.
  destruct (MethodEntry_records 42 Profiler.Examples.always_open Output.Examples.answers 2 3000 rt0
    (fun m => lit "m" ++ dec m) (fun _ => lit "a.Foo")
    [mk_frame_info 2 0; mk_frame_info 2 6; mk_frame_info 1 20]
    [(1, lit "13010013"); (2, lit "11010013"); (2, lit "0")] td2 [] (prof [] (lit "[x]"))
    (Profiler.Examples.named (lit "method"))) as (o' & p' & Hrun & Hst & _ & Hpath & _).
  - apply Output.Examples.answers_steady.
  - apply Nat.ltb_lt. reflexivity.
  - reflexivity.
  - by apply Profiler.Examples.named_usable.
  - reflexivity.
  - vm_compute. reflexivity.
  - repeat constructor; try (eexists _, _, _; split_and!; reflexivity); vm_compute; reflexivity.
  - exists o', p'. split_and!; [exact Hrun|rewrite Hst; vm_compute; reflexivity|exact Hpath].
Defined.

(** An object text of a thousand characters makes the next new method stop the
    process: the line does not fit the buffer of [writef]. *)
Example long_object_info_aborts :
  MethodEntry 42 Profiler.Examples.always_open Output.Examples.answers 3000 rt0
    (mk_tls (Some td2) [], prof [] (replicate 1010 "o"%char)) = Fault AssertFailure.
Proof. vm_compute. reflexivity. Qed.

Definition objects0 : list (str * Z) := [(lit "a.Foo.java;LN11;sz64", 0); (lit "b", 9)].

Lemma ObjectFree_outcome_witness :
  ObjectFreeCallback id 9 (mk_tls (Some td2) [], prof (object_id <$> objects0) []) =
    Fault UndefinedBehaviour /\
  exists p', ObjectFreeCallback id 5 (mk_tls (Some td2) [], prof (object_id <$> objects0) []) =
    Val (tt, (mk_tls (Some td2) [], p')) /\ active_memory_usage (glob p') = 59.
Proof.
  assert (Hok : Forall object_ok objects0).
  { repeat constructor; try (vm_compute; congruence).
    all: apply (bool_decide_unpack _); vm_compute; exact I. }
  split.
  - exact (ObjectFree_outcome id 9 objects0 (mk_tls (Some td2) []) (prof (object_id <$> objects0) [])
             eq_refl eq_refl Hok).
  - destruct (ObjectFree_outcome id 5 objects0 (mk_tls (Some td2) [])
      (prof (object_id <$> objects0) []) eq_refl eq_refl Hok) as (p' & Hrun & Hmem & _).
    exists p'. split; [exact Hrun|]. rewrite Hmem. reflexivity.
Defined.

(** The method that the runtime runs for [getName] makes the thread enter a
    method: the mark that keeps samples out is gone afterwards. *)
Definition getName0 : P unit :=
  MethodEntry 42 Profiler.Examples.always_open Output.Examples.answers 3000 rt0.

Example getName_unblocks :
  exists td p, getName0 (mk_tls (Some (set_inside_agent true td1)) [], prof [] []) =
    Val (tt, (mk_tls (Some td) [], p)) /\ inside_agent td = false.
Proof. eexists _, _. split; [vm_compute; reflexivity|reflexivity]. Qed.

(** One object of a class of the application leaves two identifiers, one per
    frame of the stack until the name contains [java.]. *)
Example object_has_two_identifiers :
  exists t p, ObjectAllocCallback 42 Profiler.Examples.always_open Output.Examples.answers 3000 rt0
      (mret tt) 99 1 5 7 64 (mk_tls (Some td1) [], prof [] []) = Val (tt, (t, p)) /\
    object_live_cycle (glob p) =
      [lit "a.Foo.java;LN13;sz64#0"; lit "a.Foo.java.java;LN11;sz64#0"].
Proof. eexists _, _. split; [vm_compute; reflexivity|vm_compute; reflexivity]. Qed.

Lemma ObjectAlloc_records_witness :
  exists o' p', ObjectAllocCallback 42 Profiler.Examples.always_open Output.Examples.answers 3000 rt0
      getName0 99 1 5 7 64 (mk_tls (Some td1) [], prof [] []) =
    Val (tt, (mk_tls (Some (set_inside_agent false (set_output_state_alloc (Some o') td1))) [], p')) /\
    file_text o' = lit "13010013:1 11010013:2 10010013:2 |1" ++ [ascii_of_nat 10] /\
    active_memory_usage (glob p') = 128.
Proof.
  destruct (ObjectAlloc_records 42 Profiler.Examples.always_open Output.Examples.answers 2 3000 rt0
    getName0 99 1 5 7 64 0 (lit "La/Foo;") (lit "a.Foo")
    [mk_frame_info 2 0; mk_frame_info 2 6; mk_frame_info 1 20]
    [lit "13010013:1 "; lit "11010013:2 "; lit "10010013:2 "] td1 [] (prof [] [])
    (set_inside_agent false td1)
    (mk_profiler (glob (counted 5 64 (prof [] [])))
       (set_callpath [] (loc (counted 5 64 (prof [] []))))) new_NewContextTree
    (Profiler.Examples.named (lit "alloc"))) as (o' & p' & Hrun & Hst & Hmem & _).
  - apply Output.Examples.answers_steady.
  - apply Nat.ltb_lt. reflexivity.
  - reflexivity.
  - reflexivity.
  - vm_compute. reflexivity.
  - reflexivity.
  - by eexists.
  - reflexivity.
  - reflexivity.
  - reflexivity.
  - reflexivity.
  - reflexivity.
  - by apply Profiler.Examples.named_usable.
  - reflexivity.
  - vm_compute. reflexivity.
  - repeat constructor.
  - repeat constructor.
  - exists o', p'. split_and!; [exact Hrun|rewrite Hst; vm_compute; reflexivity|rewrite Hmem; reflexivity].
Defined.
End Examples.
