(* ===== verification/Shared.v ===== *)
(** Callbacks that run at the same time on several threads ([agent.cpp]): the
    variables they share are the memory in use, which is changed by atomic
    additions; the set and the text of the live objects, which are changed under
    [object_cyc_lock]; and the text again, which method entry reads without it.

    Here other threads run between any two accesses.  The programs of [Agent.v]
    for the parts of the callbacks are what each part does when it is not
    interrupted. *)
From stdpp Require Import base numbers option list gmap strings.
From Stdlib Require Import ZArith Lia Ascii.
From S2P Require Import Prelude.
From S2P Require Import Cxx.
From S2P Require Import Lock.
From S2P Require Import Critical.
From S2P Require Import Jvmti.
From S2P Require Import CodeCache.
From S2P Require Import NewContext.
From S2P Require Import OutBuf.
From S2P Require Import Output.
From S2P Require Import ThreadData.
From S2P Require Import PerfEvents.
From S2P Require Import Profiler.
From S2P Require Import Agent.

(** * The shared variables and the parts of the callbacks *)

Record objects := mk_objects { ob_memory : Z; ob_live : list str; ob_info : str }.

Definition objects_of (g : globals) : objects :=
  mk_objects (active_memory_usage g) (object_live_cycle g) (object_info g).
Definition put_objects (o : objects) (g : globals) : globals :=
  set_memory (ob_memory o) (set_objects (ob_live o) (ob_info o) g).

Definition set_info (info : str) (o : objects) : objects := mk_objects (ob_memory o) (ob_live o) info.
Definition add_memory (n : Z) (o : objects) : objects :=
  mk_objects (u64 (ob_memory o + n)) (ob_live o) (ob_info o).

Inductive part :=
| Add (obj_size : Z)
| Sub (obj_tag : Z)
| Record_live (class line : str) (obj_size obj_tag : Z)
| Rebuild (order : list str -> list str) (obj_tag : Z)
| ReadInfo.

(** The section of an allocation: the set is changed, the text is read and then
    assigned. *)
Definition record_code (class line : str) (obj_size obj_tag : Z) : code objects :=
  assign (fun o => mk_objects (ob_memory o)
           (insert_live (identifier class line obj_size obj_tag) (ob_live o)) (ob_info o))
    (fetch ob_info (fun info =>
     assign (set_info (info ++ lit "[" ++ short_identifier class line obj_size ++ lit "]")) Done)).

(** An element of the set: the part of the text, unless it has the tag. *)
Definition free_element (obj_tag : Z) (s : str) : outcome str :=
  let index := s32 (u32 (find s (lit "#"))) in
  tag_inset ← substr s (u64 (index + 1)) npos;
  t ← stoi tag_inset;
  if obj_tag =? u64 t then Fault UndefinedBehaviour else substr s 0 (u64 index).

(** The loop of a free, from an iterator on: the element is read, then the text is
    read and assigned. *)
Fixpoint free_code (obj_tag : Z) (it : list str) : code objects :=
  match it with
  | [] => Done
  | s :: it =>
    Access (fun o => part ← free_element obj_tag s; Val (part, o)) (fun part =>
    fetch ob_info (fun info =>
    assign (set_info (info ++ part)) (free_code obj_tag it)))
  end.

Definition rebuild_code (order : list str -> list str) (obj_tag : Z) : code objects :=
  assign (set_info []) (fetch (fun o => order (ob_live o)) (free_code obj_tag)).

Definition piece_of (p : part) : piece objects str :=
  match p with
  | Add n => Atomic (add_memory n)
  | Sub n => Atomic (add_memory (- n))
  | Record_live class line sz tag => Locked (record_code class line sz tag)
  | Rebuild order tag => Locked (rebuild_code order tag)
  | ReadInfo => Look ob_info
  end.

(** What the threads do, access by access. *)
Definition pieces_of (work : list (list part)) : list (list (piece objects str)) :=
  (fun ps : list part => piece_of <$> ps) <$> work.

(** The programs of [Agent.v], each of them uninterrupted. *)
Definition part_prog (p : part) : P unit :=
  match p with
  | Add n => mod_glob (fun g => set_memory (u64 (active_memory_usage g + n)) g)
  | Sub n => mod_glob (fun g => set_memory (u64 (active_memory_usage g - n)) g)
  | Record_live class line sz tag => record_live class line sz tag
  | Rebuild order tag => rebuild_info order tag
  | ReadInfo => get_prof;; mret tt
  end.

Fixpoint run_parts (ps : list part) : P unit :=
  match ps with [] => mret tt | p :: ps => part_prog p;; run_parts ps end.

(** ** The parts of a callback *)

(** A method entry reads the text for every method that is not listed yet. *)
Definition entry_parts (listed : gset Z) (methods : list Z) : list part :=
  (fun _ => ReadInfo) <$> first_seen listed methods.

Definition free_parts (order : list str -> list str) (tag : Z) : list part :=
  [Sub (u64 tag); Rebuild order (u64 tag)].

Definition note_parts (line : str) (sz tag : Z) (class : str) : list part * str :=
  if noted sz class
  then ([Record_live (class ++ lit ".java") line sz tag], class ++ lit ".java")
  else ([], class).

Definition frame_parts (rt : runtime) (sz tag : Z) (f : jvmtiFrameInfo) (class : str)
  : outcome (list part * str) :=
  let '(err, lineTable) := GetLineNumberTable (rt_env rt) (fi_method f) in
  if err =? JVMTI_ERROR_NONE
  then '(line, _) ← line_and_scope (fi_location f) lineTable; mret (note_parts line sz tag class)
  else mret ([], class).

Fixpoint frames_parts (rt : runtime) (mid_getName sz tag : Z) (path : list jvmtiFrameInfo) (class : str)
  : outcome (list part) :=
  match path with
  | [] => mret []
  | f :: path =>
    if fi_method f =? mid_getName then frames_parts rt mid_getName sz tag path class
    else
      '(ps, class) ← frame_parts rt sz tag f class;
      qs ← frames_parts rt mid_getName sz tag path class;
      mret (ps ++ qs)
  end.

Definition stack_parts (rt : runtime) (mid_getName sz tag : Z) (class : str) (stack : Z * list jvmtiFrameInfo)
  : outcome (list part) :=
  let '(err, frame_buffer) := stack in
  if err =? JVMTI_ERROR_NONE then frames_parts rt mid_getName sz tag (reverse frame_buffer) class else mret [].

(** What the text of the live objects becomes by records. *)
Fixpoint noted_info (ps : list part) (info : str) : str :=
  match ps with
  | Record_live class line sz _ :: ps =>
    noted_info ps (info ++ lit "[" ++ short_identifier class line sz ++ lit "]")
  | _ :: ps => noted_info ps info
  | [] => info
  end.

(** The test of [context_state] and [output_state_alloc] of the thread. *)
Definition has_streams (u : TLS) : bool :=
  match td_ptr u with
  | Some td =>
    match context_state td, output_state_alloc td with Some _, Some _ => true | _, _ => false end
  | None => false
  end.

(** [during]: the parts of what runs while Java is called; a thread without context tree
    or stream, in the record [u] from before, does no more than the addition. *)
Definition alloc_parts (rt : runtime) (during : list part) (mid_getName thread object klass size : Z)
  (u : TLS) : outcome (list part) :=
  class ← class_of_signature (c_str (GetClassSignature (rt_env rt) klass).2);
  noted ← (if has_streams u
           then
             noted ← stack_parts rt mid_getName (u64 size) (u64 (GetTag rt object).2) class
                       (GetStackTrace rt (Some thread) 0 10);
             mret (during ++ noted)
           else mret []);
  mret (Add (u64 size) :: noted).

(** * Facts *)

Section Facts.
Context (t : TLS) (l : locals).

Lemma put_objects_of g : put_objects (objects_of g) g = g.
Proof. by destruct g. Qed.

Lemma objects_of_put o g : objects_of (put_objects o g) = o.
Proof. by destruct g, o. Qed.

Lemma put_put o o' g : put_objects o (put_objects o' g) = put_objects o g.
Proof. by destruct g. Qed.

(** What [P] and [whole] compute. *)
Definition agree (m : P unit) (f : objects -> outcome objects) : Prop := forall g,
  object_cyc_lock g = false ->
  m (t, mk_profiler g l) =
  match f (objects_of g) with
  | Val o => Val (tt, (t, mk_profiler (put_objects o g) l))
  | Fault e => Fault e
  end.

Lemma free_code_run tag it live memory info g :
  free_loop tag it (t, mk_profiler (set_cyc_lock true (put_objects (mk_objects memory live info) g)) l) =
  match alone (free_code tag it) (mk_objects memory live info) with
  | Val o => Val (tt, (t, mk_profiler (set_cyc_lock true (put_objects o g)) l))
  | Fault e => Fault e
  end.
Proof.
  revert info. induction it as [|s it IH]; intros info; [done|].
  cbn [free_loop free_code alone]. unfold free_element.
  unfold mbind at 1, prog_bind at 1, prog_lift at 1.
  destruct (substr s (u64 (s32 (u32 (find s (lit "#"))) + 1)) npos) as [ins|e]; [|done].
  cbn [mbind outcome_bind]. unfold mbind at 1, prog_bind at 1, prog_lift at 1.
  destruct (stoi ins) as [n|e]; [|done]. cbn [mbind outcome_bind].
  destruct (tag =? u64 n); [done|].
  unfold mbind at 1, prog_bind at 1, prog_lift at 1.
  destruct (substr s 0 _) as [part|e]; [|done]. cbn [mbind outcome_bind].
  unfold fetch, assign. cbn [alone]. unfold set_info. cbn [ob_memory ob_live ob_info].
  rewrite <- IH. by destruct g.
Qed.

Lemma agree_part p : agree (part_prog p) (whole (piece_of p)).
Proof.
  intros g Hl. destruct p as [n|n|class line sz tag|order tag|]; cbn [part_prog piece_of whole].
  - by destruct g.
  - by destruct g.
  - unfold record_live, cyc_lock, cyc_unlock, mod_glob, get_prof, mbind, prog_bind. cbn [fst snd glob loc].
    rewrite Hl. cbn. destruct g. cbn in *. by subst.
  - unfold rebuild_info, cyc_lock, cyc_unlock, set_object_info, mod_glob, get_prof, mbind, prog_bind.
    cbn [fst snd glob loc]. rewrite Hl. cbn [set_glob loc glob fst snd].
    pose proof (free_code_run tag (order (object_live_cycle g)) (object_live_cycle g)
      (active_memory_usage g) [] g) as H.
    match goal with |- context [free_loop tag ?it ?s] =>
      change (free_loop tag it s) with (free_loop tag (order (object_live_cycle g))
        (t, mk_profiler (set_cyc_lock true
          (put_objects (mk_objects (active_memory_usage g) (object_live_cycle g) []) g)) l)) end.
    cbn [whole alone rebuild_code assign fetch objects_of ob_live set_info ob_memory] in *. rewrite H.
    destruct (alone _ _) as [o|e]; [|done]. destruct g. cbn in Hl. by subst.
  - unfold get_prof. cbn. by rewrite put_objects_of.
Qed.

Lemma agree_parts ps : agree (run_parts ps) (serial (piece_of <$> ps)).
Proof.
  induction ps as [|p ps IH]; intros g Hl; cbn [run_parts fmap list_fmap serial].
  - cbn. by rewrite put_objects_of.
  - pose proof (agree_part p g Hl) as Hp. destruct (whole (piece_of p) (objects_of g)) as [o|e].
    + rewrite (prog_bind_val _ _ _ _ _ Hp). rewrite IH by by destruct g. rewrite objects_of_put.
      cbn [mbind outcome_bind]. destruct (serial _ o); [by rewrite put_put|done].
    + by rewrite (prog_bind_fault _ _ _ _ Hp).
Qed.
End Facts.

(** Additions change nothing that the sections look at. *)
Lemma free_code_independent n tag it : independent (add_memory n) (free_code tag it).
Proof.
  induction it as [|s it IH]; cbn; [done|]. repeat split; try intros _; try done.
  intros o. by destruct (free_element tag s).
Qed.

Lemma parts_compatible (ps : list part) : compatible (piece_of <$> ps).
Proof.
  intros f c (p & Hp & _)%list_elem_of_fmap (q & Hq & _)%list_elem_of_fmap.
  assert (exists n, f = add_memory n) as [n ->].
  { destruct p; try done; injection Hp as ->; by eexists. }
  destruct q; try done; injection Hq as ->; cbn; repeat split; try done.
  intros it. apply free_code_independent.
Qed.

(** ** The callbacks are made of their parts *)

(** Whenever [m] returns, it has done parts in [Q] to the shared variables. *)
Definition does {B} (m : P B) (Q : list part -> B -> Prop) : Prop := forall s b s', m s = Val (b, s') ->
  exists ps, Q ps b /\ serial (piece_of <$> ps) (objects_of (glob s.2)) = Val (objects_of (glob s'.2)).

Definition silent {B} (m : P B) : Prop :=
  forall s b s', m s = Val (b, s') -> objects_of (glob s'.2) = objects_of (glob s.2).

Section Does.
Lemma does_bind {B C} (m : P B) (k : B -> P C) Q1 Q2 :
  does m Q1 -> (forall ps b, Q1 ps b -> does (k b) (fun qs c => Q2 (ps ++ qs) c)) -> does (m ≫= k) Q2.
Proof.
  intros Hm Hk s c s' (b & s1 & H1 & H2)%prog_bind_inv.
  destruct (Hm _ _ _ H1) as (ps & Hps & Hs). destruct (Hk ps b Hps _ _ _ H2) as (qs & Hqs & Hs').
  exists (ps ++ qs). split; [done|]. rewrite fmap_app, serial_app, Hs. exact Hs'.
Qed.

Lemma does_silent {B} (m : P B) : silent m -> does m (fun ps _ => ps = []).
Proof. intros Hm s b s' H. exists []. split; [done|]. cbn. by rewrite (Hm _ _ _ H). Qed.

(** A silent program before another. *)
Lemma does_after {B C} (m : P B) (k : B -> P C) Q :
  silent m -> (forall b, does (k b) Q) -> does (m ≫= k) Q.
Proof. intros Hm Hk. apply (does_bind _ _ _ _ (does_silent m Hm)). intros ps b ->. apply Hk. Qed.

Lemma does_ret {B} (b : B) (Q : list part -> B -> Prop) : Q [] b -> does (mret b) Q.
Proof. intros HQ s b' s' [= <- <-]. by exists []. Qed.

Lemma does_fault {B} f (Q : list part -> B -> Prop) : does (prog_fault f) Q.
Proof. by intros s b s'. Qed.

Lemma does_lift {B C} (o : outcome B) (k : B -> P C) Q :
  (forall b, o = Val b -> does (k b) Q) -> does (prog_lift o ≫= k) Q.
Proof.
  intros Hk s c s' H. unfold mbind, prog_bind, prog_lift in H. destruct o as [b|]; [|done]. by eapply Hk.
Qed.

Lemma does_weaken {B} (m : P B) (Q Q' : list part -> B -> Prop) :
  does m Q -> (forall ps b, Q ps b -> Q' ps b) -> does m Q'.
Proof. intros Hm HQ s b s' H. destruct (Hm _ _ _ H) as (ps & Hps & Hs). exists ps. by split; [apply HQ|]. Qed.

Lemma silent_bind {B C} (m : P B) (k : B -> P C) : silent m -> (forall b, silent (k b)) -> silent (m ≫= k).
Proof. intros Hm Hk s c s' (b & s1 & H1 & H2)%prog_bind_inv. rewrite (Hk _ _ _ _ H2). by eapply Hm. Qed.
Lemma silent_ret {B} (b : B) : silent (mret b).
Proof. by intros s b' s' [= _ <-]. Qed.
Lemma silent_fault {B} f : silent (@prog_fault _ B f).
Proof. by intros s b s'. Qed.
Lemma silent_lift {B} (o : outcome B) : silent (prog_lift o).
Proof. intros s b s' H. unfold prog_lift in H. destruct o; [|done]. by injection H as _ <-. Qed.
Lemma silent_tls {B} (m : prog TLS B) : silent (tls_op m).
Proof. intros s b s' H. unfold tls_op in H. destruct (m s.1) as [[a u]|]; [|done]. by injection H as _ <-. Qed.
Lemma silent_own n : silent (own n).
Proof. intros [u [g l]] b s' [= _ <-]. by destruct g. Qed.
Lemma silent_get : silent get_prof.
Proof. by intros s b s' [= _ <-]. Qed.
Lemma silent_loc f : silent (mod_loc f).
Proof. by intros s b s' [= _ <-]. Qed.
End Does.

(** Silent programs by their structure. *)
Ltac silence :=
  repeat first
    [ progress cbn beta
    | match goal with
      | |- silent (mret _) => apply silent_ret
      | |- silent (prog_fault _) => apply silent_fault
      | |- silent (prog_lift _) => apply silent_lift
      | |- silent (tls_op _) => apply silent_tls
      | |- silent (own _) => apply silent_own
      | |- silent (deallocate_table _) => unfold deallocate_table
      | |- silent (td_writef _ _ _ _ _ _ _) => unfold td_writef
      | |- silent get_prof => apply silent_get
      | |- silent (mod_loc _) => apply silent_loc
      | |- silent (_ ≫= _) => apply silent_bind; [|intros ?]
      | |- silent (match ?x with _ => _ end) => destruct x
      end
    | done ].

Section Callbacks.
Context (gettid : Z) (sys_open : str -> open_result) (answers : nat -> write_event) (ffuel : nat).
Context (rt : runtime).

Lemma does_part p : does (part_prog p) (fun ps _ => ps = [p]).
Proof.
  intros [u [g l]] [] s' H. exists [p]. split; [done|]. cbn [fmap list_fmap serial snd glob].
  destruct (object_cyc_lock g) eqn:Hl.
  - destruct p; cbn [part_prog] in H;
      unfold record_live, rebuild_info, cyc_lock, get_prof, mod_glob, mbind, prog_bind in H; cbn in H;
      rewrite ?Hl in H; try done; injection H as <-; by destruct g.
  - rewrite (agree_part u l p g Hl) in H. destruct (whole _ _) as [o|]; [|done].
    injection H as <-. cbn. by rewrite objects_of_put.
Qed.

Lemma does_note line sz tag class :
  does (note_object line sz tag class) (fun ps c => note_parts line sz tag class = (ps, c)).
Proof.
  unfold note_object, note_parts. destruct (noted sz class); [|by apply does_ret].
  eapply does_bind; [apply (does_part (Record_live (class ++ lit ".java") line sz tag))|].
  intros ps [] ->. by apply does_ret.
Qed.

Lemma does_table m : does (line_table rt m) (fun ps tb => ps = [] /\
  tb = let '(err, table) := GetLineNumberTable (rt_env rt) m in
       if err =? JVMTI_ERROR_NONE then Some table else None).
Proof.
  unfold line_table. destruct (GetLineNumberTable _ _) as [err table]. destruct (err =? JVMTI_ERROR_NONE).
  - apply does_after; [silence|intros []]. by apply does_ret.
  - by apply does_ret.
Qed.

Lemma does_line_note sz tag f class table :
  does ('(line, scope) ← prog_lift (line_and_scope (fi_location f) table);
        class ← note_object line sz tag class; mret (class, scope))
    (fun ps r => ('(line, _) ← line_and_scope (fi_location f) table; mret (note_parts line sz tag class)) =
       Val (ps, r.1)).
Proof.
  apply does_lift. intros [line scope] ->. eapply does_bind; [apply does_note|].
  intros ps c Hn. apply does_ret. rewrite app_nil_r. cbn. by rewrite Hn.
Qed.

Lemma does_line sz tag f class :
  does (alloc_line rt sz tag f class) (fun ps r => frame_parts rt sz tag f class = Val (ps, r.1)).
Proof.
  unfold alloc_line, frame_parts. eapply does_bind; [apply does_table|]. intros ps tb [-> ->].
  destruct (GetLineNumberTable _ _) as [err table]. destruct (err =? JVMTI_ERROR_NONE).
  - eapply does_bind; [apply does_line_note|]. intros ps r Hr.
    apply does_after; [silence|intros []]. apply does_ret. by rewrite app_nil_r.
  - eapply (does_bind _ _ (fun ps r => ps = [] /\ r = (class, lit "0"))); [by apply does_ret|].
    intros ? ? [-> ->]. apply does_after; [silence|intros []]. by apply does_ret.
Qed.

Lemma does_frames mid sz tag path class inside :
  does (alloc_frames gettid sys_open answers ffuel rt mid sz tag path class inside)
    (fun ps _ => frames_parts rt mid sz tag path class = Val ps).
Proof.
  revert class inside. induction path as [|f path IH]; intros class inside; cbn [alloc_frames frames_parts];
    [by apply does_ret|]. destruct (_ =? _); [apply IH|].
  eapply (does_bind _ _ (fun ps c => frame_parts rt sz tag f class = Val (ps, c))).
  - unfold alloc_frame. eapply does_bind; [apply does_line|]. intros ps [c scope] Hps.
    apply does_after; [silence|intros []]. apply does_ret. by rewrite app_nil_r.
  - intros ps c ->. eapply does_weaken; [apply IH|]. intros qs r Hqs. cbn. cbn in Hqs. by rewrite Hqs.
Qed.

Definition is_record (p : part) : Prop := match p with Record_live _ _ _ _ => True | _ => False end.

Lemma frames_parts_records mid sz tag path class ps :
  frames_parts rt mid sz tag path class = Val ps -> Forall is_record ps.
Proof.
  revert class ps. induction path as [|f path IH]; intros class ps; cbn [frames_parts]; [by intros [= <-]|].
  destruct (_ =? _); [apply IH|]. intros ([qs c] & Hq & (rs & Hr & [= <-])%outcome_bind_inv)%outcome_bind_inv.
  apply Forall_app. split; [|by eapply IH]. unfold frame_parts, note_parts in Hq.
  destruct (GetLineNumberTable _ _) as [err table]. destruct (_ =? _); [|by injection Hq as <- _].
  apply outcome_bind_inv in Hq as ([line scope] & _ & Hq). destruct (noted sz class); injection Hq as <- _;
    by repeat constructor.
Qed.

Lemma records_info ps o o' : Forall is_record ps -> serial (piece_of <$> ps) o = Val o' ->
  ob_info o' = noted_info ps (ob_info o).
Proof.
  intros Hps. revert o. induction Hps as [|p ps Hp _ IH]; intros o; [by intros [= <-]|].
  destruct p; try done. intros (o1 & [= <-] & H)%outcome_bind_inv. by rewrite (IH _ H).
Qed.

(** The text after the loop of an allocation over the frames. *)
Lemma frames_info mid sz tag path class inside s b s' :
  alloc_frames gettid sys_open answers ffuel rt mid sz tag path class inside s = Val (b, s') ->
  exists ps, frames_parts rt mid sz tag path class = Val ps /\
    object_info (glob s'.2) = noted_info ps (object_info (glob s.2)).
Proof.
  intros H. destruct (does_frames _ _ _ _ _ _ _ _ _ H) as (ps & Hps & Hs). exists ps. split; [done|].
  exact (records_info _ _ _ (frames_parts_records _ _ _ _ _ _ Hps) Hs).
Qed.

Lemma class_name_inv klass s class s' : class_name rt klass s = Val (class, s') ->
  s'.1 = s.1 /\ objects_of (glob s'.2) = objects_of (glob s.2) /\
  class_of_signature (c_str (GetClassSignature (rt_env rt) klass).2) = Val class.
Proof.
  unfold class_name. destruct (GetClassSignature _ _) as [err signature].
  destruct (err =? JVMTI_ERROR_NONE); [|done].
  intros ([] & s1 & H1 & H2)%prog_bind_inv. pose proof (silent_own _ _ _ _ H1) as Ho.
  injection H1 as <-. unfold prog_lift in H2. cbn [snd].
  destruct (class_of_signature _) as [c|]; [|done]. by injection H2 as <- <-.
Qed.

Lemma block_inv s s' : block gettid s = Val (tt, s') ->
  s'.2 = s.2 /\ has_streams s'.1 = has_streams s.1 /\ exists td lst, s'.1 = mk_tls (Some td) lst.
Proof. destruct s as [[[td|] lst] p]; intros [= <-]; (split; [done|]); split; [done|by eexists _, _|done|by eexists _, _]. Qed.

Lemma TD_GET_run {B} (field : thread_data_t -> B) td lst (p : profiler) :
  tls_op (TD_GET gettid field) (mk_tls (Some td) lst, p) = Val (field td, (mk_tls (Some td) lst, p)).
Proof. done. Qed.

Lemma does_stack mid sz tag class (last : P unit) stack :
  silent last ->
  does (let '(err, frame_buffer) := stack in
        if err =? JVMTI_ERROR_NONE then
          inside ← alloc_frames gettid sys_open answers ffuel rt mid sz tag (reverse frame_buffer) class false;
          if inside : bool then last else mret tt
        else mret tt)
    (fun ps _ => stack_parts rt mid sz tag class stack = Val ps).
Proof.
  intros Hlast. destruct stack as [err fb]. cbn [stack_parts]. destruct (err =? JVMTI_ERROR_NONE); [|by apply does_ret].
  eapply does_bind; [apply does_frames|]. intros ps inside Hps.
  assert (silent (if inside then last else mret tt)) as Hs by (destruct inside; [done|apply silent_ret]).
  eapply does_weaken; [apply (does_silent _ Hs)|]. intros qs [] ->. by rewrite app_nil_r.
Qed.

(** What an allocation does while nothing runs in between, but for what the Java
    method that it calls does. *)
Lemma alloc_does call_getName during mid thread object klass size s b s' :
  does call_getName (fun ps _ => ps = during) ->
  ObjectAllocCallback gettid sys_open answers ffuel rt call_getName mid thread object klass size s =
    Val (b, s') ->
  exists ps, alloc_parts rt during mid thread object klass size s.1 = Val ps /\
    serial (piece_of <$> ps) (objects_of (glob s.2)) = Val (objects_of (glob s'.2)).
Proof.
  intros Hcall. unfold ObjectAllocCallback, alloc_parts. cbv zeta.
  intros ([] & s1 & (Hp & Hs & td & lst & Ht)%block_inv & H)%prog_bind_inv.
  rewrite <- Hs, <- Hp. clear s Hs Hp. destruct s1 as [u p]. cbn [fst] in Ht. subst u.
  apply prog_bind_inv in H as ([] & s2 & [= <-] & H).
  apply prog_bind_inv in H as ([] & s3 & [= <-] & H). destruct (GetTag rt object) as [err tag].
  apply prog_bind_inv in H as ([] & s4 & H4 & H).
  assert (s4 = (mk_tls (Some td) lst, mk_profiler (set_memory (u64 (active_memory_usage (glob p) + u64 size))
    (glob p)) (set_alloc_counter (<[object := u64 (default 0 (object_alloc_counter (loc p) !! object) + 1)]>
       (object_alloc_counter (loc p))) (loc p)))) as ->
    by (destruct (err =? _); [by injection H4 as <-|done]).
  clear H4. apply prog_bind_inv in H as (class & [u q] & (Hu & Hq & ->)%class_name_inv & H).
  cbn [fst snd glob] in Hu, Hq. subst u. cbn [mbind outcome_bind fst snd].
  rewrite (prog_bind_val _ _ _ _ _ (TD_GET_run context_state td lst q)) in H.
  rewrite (prog_bind_val _ _ _ _ _ (TD_GET_run output_state_alloc td lst q)) in H.
  apply prog_bind_inv in H as ([] & s5 & Hnote & H).
  assert (objects_of (glob s'.2) = objects_of (glob s5.2)) as ->.
  { revert H. apply (silent_bind (unblock gettid)); [unfold unblock; silence|intros []; silence]. }
  assert (Hn : exists qs, (if has_streams (mk_tls (Some td) lst) then
      noted ← stack_parts rt mid (u64 size) (u64 tag) class (GetStackTrace rt (Some thread) 0 10);
      mret (during ++ noted) else mret []) = Val qs /\
    serial (piece_of <$> qs) (objects_of (glob q)) = Val (objects_of (glob s5.2))).
  { revert Hnote. unfold has_streams. cbn [td_ptr].
    destruct (context_state td); [|intros [= <-]; by exists []].
    destruct (output_state_alloc td); [|intros [= <-]; by exists []].
    intros Hnote. refine (does_bind _ _ (fun ps _ => ps = during) (fun ps _ =>
      (noted ← stack_parts rt mid (u64 size) (u64 tag) class (GetStackTrace rt (Some thread) 0 10);
       mret (during ++ noted)) = Val ps) Hcall _ _ _ _ Hnote).
    intros ? [] ->. eapply does_weaken; [apply does_stack; silence|]. intros ps [] Hps. by rewrite Hps. }
  destruct Hn as (qs & Hqs & Hser). exists (Add (u64 size) :: qs).
  rewrite Hqs. split; [done|]. rewrite Hq in Hser. cbn [fmap list_fmap serial piece_of whole mbind outcome_bind].
  exact Hser.
Qed.

Lemma silent_frame i f : silent (entry_frame gettid sys_open answers ffuel rt i f).
Proof.
  unfold entry_frame, class_name, frame_line, line_table. destruct (GetMethodName _ _) as [ne name].
  destruct (GetMethodDeclaringClass _ _) as [ce klass]. silence.
Qed.

Lemma silent_entry : silent (MethodEntry gettid sys_open answers ffuel rt).
Proof.
  unfold MethodEntry, block, unblock. silence. match goal with |- silent (entry_frames _ _ _ _ _ ?l) => generalize l end.
  intros path. induction path as [|f path IH]; cbn [entry_frames]; [silence|].
  apply silent_bind; [apply silent_frame|done].
Qed.

(** A free is its two parts. *)
Lemma free_run order tag s : ObjectFreeCallback order tag s = run_parts (free_parts order tag) s.
Proof.
  unfold ObjectFreeCallback, free_parts. cbn [run_parts part_prog]. cbv zeta.
  unfold mbind, prog_bind, mod_glob. cbn -[rebuild_info].
  destruct (rebuild_info _ _ _) as [[[] s']|]; done.
Qed.
End Callbacks.

(** * Properties *)

(** What the parts add up to. *)
Definition part_net (p : part) : Z := match p with Add n => n | Sub n => - n | _ => 0 end.
Definition net_of (ps : list part) : Z := foldr (fun p n => part_net p + n) 0 ps.

Definition part_ids (p : part) : list str :=
  match p with Record_live class line sz tag => [identifier class line sz tag] | _ => [] end.

Section Account.
Lemma net_of_perm ps qs : ps ≡ₚ qs -> net_of ps = net_of qs.
Proof. unfold net_of. induction 1; cbn in *; lia. Qed.

Lemma insert_live_elem id live x : x ∈ insert_live id live <-> x ∈ live \/ x = id.
Proof.
  unfold insert_live. case_decide.
  - split; [by left|]. by intros [?| ->].
  - by rewrite elem_of_app, list_elem_of_singleton.
Qed.

Lemma free_code_account tag it o o' : alone (free_code tag it) o = Val o' ->
  ob_memory o' = ob_memory o /\ ob_live o' = ob_live o.
Proof.
  revert o. induction it as [|s it IH]; intros o; cbn; [by intros [= <-]|].
  destruct (free_element tag s); [|done]. cbn. intros H. by destruct (IH _ H).
Qed.

Lemma part_account p o o' : whole (piece_of p) o = Val o' ->
  u64 (ob_memory o') = u64 (ob_memory o + part_net p) /\
  forall id, id ∈ ob_live o' <-> id ∈ ob_live o \/ id ∈ part_ids p.
Proof.
  assert (Hnil : forall id (live : list str), id ∈ live <-> id ∈ live \/ id ∈ @nil str)
    by (intros id live; rewrite elem_of_nil; tauto).
  destruct p as [n|n|class line sz tag|order tag|]; cbn [piece_of whole part_net part_ids].
  - intros [= <-]. cbn. autorewrite with cxx_arith. by split.
  - intros [= <-]. cbn. autorewrite with cxx_arith. by split.
  - intros [= <-]. cbn. split; [by rewrite Z.add_0_r|]. intros id.
    by rewrite insert_live_elem, list_elem_of_singleton.
  - cbn. intros [Hm Hv]%free_code_account. cbn in Hm, Hv. rewrite Hm, Hv, Z.add_0_r. by split.
  - intros [= <-]. rewrite Z.add_0_r. by split.
Qed.

Lemma parts_account ps o o' : serial (piece_of <$> ps) o = Val o' ->
  u64 (ob_memory o') = u64 (ob_memory o + net_of ps) /\
  forall id, id ∈ ob_live o' <-> id ∈ ob_live o \/ id ∈ ps ≫= part_ids.
Proof.
  revert o. induction ps as [|p ps IH]; intros o; cbn [fmap list_fmap serial net_of foldr].
  - intros [= <-]. rewrite Z.add_0_r. split; [done|]. intros id. cbn. rewrite elem_of_nil. tauto.
  - intros (o1 & H1 & H2)%outcome_bind_inv. destruct (part_account p o o1 H1) as [Hm Hv].
    destruct (IH o1 H2) as [Hm' Hv']. split.
    + change (foldr _ 0 ps) with (net_of ps). rewrite Hm', Z.add_assoc.
      by rewrite <- (u64_add_l (ob_memory o1)), Hm, u64_add_l.
    + intros id. rewrite Hv', Hv. cbn. rewrite elem_of_app. tauto.
Qed.

Lemma concat_pieces (work : list (list part)) :
  concat (pieces_of work) = piece_of <$> concat work.
Proof. unfold pieces_of. induction work as [|ps work IH]; [done|]. cbn. by rewrite IH, fmap_app. Qed.

Lemma start_reduction (work : list (list part)) o schedule :
  match run schedule (start o (pieces_of work)) with
  | Val c => finished c -> exists order, merges work order /\ serial (piece_of <$> order.*2) o = Val (vars c)
  | Fault e => exists order, begins work order /\ serial (piece_of <$> order.*2) o = Fault e
  end.
Proof.
  pose proof (reduction o (pieces_of work) schedule) as H.
  rewrite concat_pieces in H. specialize (H (parts_compatible _)).
  destruct (run schedule _) as [c|e].
  - intros Hf. destruct (H Hf) as (order & Hm & Hs).
    apply merges_fmap in Hm as (order' & -> & Hm). exists order'. by rewrite snd_map in Hs.
  - destruct H as (order & Hm & Hs).
    apply begins_fmap in Hm as (order' & -> & Hm). exists order'. by rewrite snd_map in Hs.
Qed.

(** Faults of the parts: an iterator of an erased element, or a text without a
    number. *)
Definition free_fault (e : fault) : Prop := e = UndefinedBehaviour \/ e = UncaughtException.

Lemma free_element_fault tag s e : free_element tag s = Fault e -> free_fault e.
Proof.
  unfold free_element, free_fault. intros H. cbv zeta in H.
  assert (Hsub : forall pos n, substr s pos n = Fault e -> e = UncaughtException)
    by (intros pos n; unfold substr; case_match; by intros [= <-]).
  destruct (substr s (u64 _) npos) as [ins|e'] eqn:E1; cbn in H; [|injection H as ->; right; by eapply Hsub].
  destruct (stoi ins) as [n|e'] eqn:E2; cbn in H.
  - case_match; [injection H as <-; by left|right; by eapply Hsub].
  - injection H as ->. right. revert E2. unfold stoi. destruct (split_sign _) as [neg r].
    repeat case_match; congruence.
Qed.

Lemma part_fault p o e : whole (piece_of p) o = Fault e -> free_fault e.
Proof.
  destruct p as [n|n|class line sz tag|order tag|]; try done. cbn.
  generalize (order (ob_live o)). generalize (set_info [] o). intros o' it. revert o'.
  induction it as [|s it IH]; intros o'; [done|]. cbn.
  destruct (free_element tag s) eqn:E; cbn; [apply IH|]. intros [= <-]. by eapply free_element_fault.
Qed.

Lemma parts_fault ps o e : serial (piece_of <$> ps) o = Fault e -> free_fault e.
Proof.
  revert o. induction ps as [|p ps IH]; intros o; [done|]. cbn [fmap list_fmap serial].
  destruct (whole (piece_of p) o) as [o'|e'] eqn:E; cbn; [apply IH|]. intros [= <-]. by eapply part_fault.
Qed.
End Account.

(** C5: when any number of threads run parts of callbacks, with other threads in
    between any two accesses, the shared variables end as when the programs of
    [Agent.v] for these parts run whole, in some order that keeps the order of each
    thread; and a fault that stops the process stops such an order too. *)
Theorem accesses_serialize work schedule g t l (Hlock : object_cyc_lock g = false) :
  match run schedule (start (objects_of g) (pieces_of work)) with
  | Val c => finished c -> exists order, merges work order /\
      run_parts order.*2 (t, mk_profiler g l) = Val (tt, (t, mk_profiler (put_objects (vars c) g) l))
  | Fault e => exists order, begins work order /\ run_parts order.*2 (t, mk_profiler g l) = Fault e
  end.
Proof.
  pose proof (start_reduction work (objects_of g) schedule) as H. destruct (run schedule _) as [c|e].
  - intros Hf. destruct (H Hf) as (order & Hm & Hs). exists order. split; [done|].
    by rewrite (agree_parts t l _ g Hlock), Hs.
  - destruct H as (order & Hm & Hs). exists order. split; [done|].
    by rewrite (agree_parts t l _ g Hlock), Hs.
Qed.

(** C6: run alone, the accesses of these parts are what the callbacks of [Agent.v] do to
    the shared variables.  A free is a subtraction and the section that rebuilds the
    text, with its faults.  An allocation that returns did an addition and, exactly when
    its thread has a context tree and a stream for allocations, what ran during the call
    of Java and then the sections that record the object for the frames of its stack, in
    the order of the stack.  A method entry changes none of the variables. *)
Theorem callbacks_are_parts gettid sys_open answers ffuel rt :
  (forall order tag s, object_cyc_lock (glob s.2) = false ->
     ObjectFreeCallback order tag s =
     match serial (piece_of <$> free_parts order tag) (objects_of (glob s.2)) with
     | Val o => Val (tt, (s.1, mk_profiler (put_objects o (glob s.2)) (loc s.2)))
     | Fault e => Fault e
     end) /\
  (forall call_getName during mid thread object klass size s s',
     does call_getName (fun ps _ => ps = during) ->
     ObjectAllocCallback gettid sys_open answers ffuel rt call_getName mid thread object klass size s =
       Val (tt, s') ->
     exists ps, alloc_parts rt during mid thread object klass size s.1 = Val ps /\
       serial (piece_of <$> ps) (objects_of (glob s.2)) = Val (objects_of (glob s'.2))) /\
  (forall s s', MethodEntry gettid sys_open answers ffuel rt s = Val (tt, s') ->
     objects_of (glob s'.2) = objects_of (glob s.2)).
Proof.
  split_and!.
  - intros order tag [t [g l]] Hlock. rewrite free_run. by apply (agree_parts t l).
  - intros call during mid thread object klass size s s' Hcall. by apply alloc_does.
  - intros s s'. apply (silent_entry gettid sys_open answers ffuel rt).
Qed.

(** C7: however the accesses interleave, the memory in use ends as what it was plus
    every allocation and less every tag, modulo 2^64, no addition lost; and the set
    of live objects as what it was with every object that was recorded. *)
Theorem objects_account work schedule g c
  (Hrun : run schedule (start (objects_of g) (pieces_of work)) = Val c) (Hfin : finished c) :
  u64 (ob_memory (vars c)) = u64 (active_memory_usage g + net_of (concat work)) /\
  forall id, id ∈ ob_live (vars c) <-> id ∈ object_live_cycle g \/ id ∈ concat work ≫= part_ids.
Proof.
  pose proof (start_reduction work (objects_of g) schedule) as H. rewrite Hrun in H.
  destruct (H Hfin) as (order & Hm & Hs). destruct (parts_account _ _ _ Hs) as [Hmem Hlive].
  apply merges_permutation in Hm. split.
  - by rewrite Hmem, (net_of_perm _ _ Hm).
  - intros id. by rewrite Hlive, (bind_Permutation part_ids _ _ Hm).
Qed.

(** C8: at no time are two threads between the accesses of their sections, so the
    set and the text are never written while another thread reads or writes them
    there; and from wherever the threads are they can all finish, unless one of
    them advances an erased iterator or throws: none waits for ever. *)
Theorem objects_exclusive work schedule g c
  (Hrun : run schedule (start (objects_of g) (pieces_of work)) = Val c) :
  (forall i j ti tj bi bj, threads c !! i = Some ti -> threads c !! j = Some tj ->
     now ti = Hold bi -> now tj = Hold bj -> i = j) /\
  exists schedule', match run schedule' c with Val c' => finished c' | Fault e => free_fault e end.
Proof.
  pose proof (locking_run schedule _ c (locking_start (objects_of g) (pieces_of work)) Hrun) as Hl.
  split; [by intros; eapply locking_one|].
  destruct (completes c Hl) as [s2 H2]. exists s2.
  pose proof (start_reduction work (objects_of g) (schedule ++ s2)) as H. rewrite run_app, Hrun in H. cbn in H.
  destruct (run s2 c); [done|]. destruct H as (order & _ & Hs). by eapply parts_fault.
Qed.

Module Examples.
Definition live0 : str := lit "a;LN1;sz64".
Definition globals1 : globals :=
  set_objects [live0 ++ lit "#0"] (lit "[" ++ live0 ++ lit "]") Profiler.Examples.globals0.

(** One thread allocates 64 bytes and records the object twice; another frees an
    object with tag 5; they alternate. *)
Definition work0 : list (list part) :=
  [[Add 64; Record_live (lit "b") (lit "2") 64 0; Record_live (lit "b.java") (lit "3") 64 0];
   free_parts id 5].
Definition schedule0 : list nat := concat (replicate 40 [0; 1]%nat).
Definition start0 : config objects str := start (objects_of globals1) (pieces_of work0).
Definition result0 : config objects str := match run schedule0 start0 with Val c => c | Fault _ => start0 end.

Lemma shared_run0 : run schedule0 start0 = Val result0.
Proof. vm_compute. reflexivity. Qed.

Lemma finished0 : finished result0.
Proof. apply finishedb_true. vm_compute. reflexivity. Qed.

Lemma accesses_serialize_witness :
  exists order, merges work0 order /\
    run_parts order.*2 (mk_tls None [], mk_profiler globals1 Profiler.Examples.locals0) =
    Val (tt, (mk_tls None [], mk_profiler (put_objects (vars result0) globals1) Profiler.Examples.locals0)).
Proof.
  pose proof (accesses_serialize work0 schedule0 globals1 (mk_tls None []) Profiler.Examples.locals0 eq_refl) as H.
  change (start (objects_of globals1) (pieces_of work0)) with start0 in H. rewrite shared_run0 in H.
  exact (H finished0).
Defined.

Lemma objects_account_witness :
  u64 (ob_memory (vars result0)) = 64 + 64 - 5 /\
  identifier (lit "b") (lit "2") 64 0 ∈ ob_live (vars result0).
Proof.
  destruct (objects_account work0 schedule0 globals1 result0 shared_run0 finished0) as [H1 H2]. split.
  - rewrite H1. vm_compute. reflexivity.
  - apply H2. right. vm_compute. left.
Defined.

(** In the middle: the first thread is inside, the second waits. *)
Definition middle0 : config objects str :=
  match run [0; 0; 0; 0; 1; 1; 1]%nat start0 with Val c => c | Fault _ => start0 end.

Lemma objects_exclusive_witness : exists schedule',
  match run schedule' middle0 with Val c' => finished c' | Fault e => free_fault e end.
Proof. exact (proj2 (objects_exclusive work0 [0; 0; 0; 0; 1; 1; 1]%nat globals1 middle0 eq_refl)). Defined.

Lemma callbacks_are_parts_witness : exists ps,
  alloc_parts Agent.Examples.rt0 [] 99 1 5 7 64 (mk_tls (Some Agent.Examples.td1) []) = Val ps /\
  serial (piece_of <$> ps) (objects_of globals1) = Val (mk_objects 128
      [live0 ++ lit "#0"; lit "a.Foo.java;LN13;sz64#0"; lit "a.Foo.java.java;LN11;sz64#0"]
      (lit "[" ++ live0 ++ lit "][a.Foo.java;LN13;sz64][a.Foo.java.java;LN11;sz64]")).
Proof.
  destruct (callbacks_are_parts 42 Profiler.Examples.always_open Output.Examples.answers 3000 Agent.Examples.rt0)
    as (_ & H & _).
  edestruct (H (mret tt) [] 99 1 5 7 64
    (mk_tls (Some Agent.Examples.td1) [], mk_profiler globals1 Profiler.Examples.locals0))
    as (ps & H1 & H2).
  - by apply does_ret.
  - vm_compute. reflexivity.
  - exists ps. split; [exact H1|]. etransitivity; [exact H2|]. vm_compute. reflexivity.
Defined.

(** Without a stream for allocations only the memory in use is counted. *)
Example alloc_parts_without_stream :
  alloc_parts Agent.Examples.rt0 [] 99 1 5 7 64
    (mk_tls (Some (set_output_state_alloc None Agent.Examples.td1)) []) = Val [Add 64].
Proof. reflexivity. Qed.

(** A method entry reads the text without the lock: while a free rebuilds it, it can
    see a text that is neither the one before nor the one after. *)
Example entry_reads_torn_text :
  exists c, run [0; 0; 0; 1; 0; 0; 0; 0; 0]%nat
      (start (objects_of globals1) (pieces_of [[Rebuild id 5]; [ReadInfo]])) = Val c /\ finished c /\
    seen <$> threads c !! 1%nat = Some [[]] /\
    ob_info (objects_of globals1) = lit "[" ++ live0 ++ lit "]" /\ ob_info (vars c) = live0.
Proof. eexists. split; [vm_compute; reflexivity|]. split; [by apply finishedb_true|done]. Qed.

(** Two allocations that record two frames each can mix their records: a whole
    allocation is not uninterrupted, only its sections are. *)
Example allocations_mix :
  exists c, run [0; 0; 0; 0; 0; 0; 1; 1; 1; 1; 1; 1; 0; 0; 0; 0; 0; 0; 1; 1; 1; 1; 1; 1]%nat
      (start (mk_objects 0 [] []) (pieces_of
        [[Record_live (lit "a") (lit "1") 64 0; Record_live (lit "b") (lit "1") 64 0];
         [Record_live (lit "c") (lit "1") 64 0; Record_live (lit "d") (lit "1") 64 0]])) = Val c /\
    finished c /\ ob_info (vars c) = lit "[a;LN1;sz64][c;LN1;sz64][b;LN1;sz64][d;LN1;sz64]".
Proof. eexists. split; [vm_compute; reflexivity|]. split; [by apply finishedb_true|done]. Qed.
End Examples.
