(* ===== verification/MethodIds.v ===== *)
(** The creation of method identifiers ([agent.cpp]): the agent asks for the methods
    of every class, which makes the runtime create their identifiers, and gives the
    answers back through [JvmtiScopedPtr] or [Deallocate]. *)
From stdpp Require Import base numbers option list gmap strings.
From Stdlib Require Import ZArith Lia Ascii.
From S2P Require Import Prelude.
From S2P Require Import Cxx.
From S2P Require Import Jvmti.
From S2P Require Import ThreadData.
From S2P Require Import Profiler.
From S2P Require Import Agent.

Section MethodIds.
Context (gettid : Z) (rt : runtime).

(** [~JvmtiScopedPtr]: the block is given back if there is one. *)
Definition scoped_release (allocated : bool) : P unit := if allocated then own (-1) else mret tt.

(** [GetClassMethods]: on success a block, and the identifiers exist. *)
Definition class_methods (klass : Z) : P Z :=
  let '(err, methods) := GetClassMethods rt klass in
  if err =? JVMTI_ERROR_NONE then
    mod_glob (fun g => set_runtime (runtime_blocks g + 1) (klass :: forced_classes g) g);;
    mret err
  else mret err.

(** [createJMethodIDsForClass]: the signature is only used in a message. *)
Definition createJMethodIDsForClass (klass : Z) : P unit :=
  err ← class_methods klass;
  (if negb (err =? JVMTI_ERROR_NONE) && negb (err =? JVMTI_ERROR_CLASS_NOT_PREPARED) then
     let '(err, signature) := GetClassSignature (rt_env rt) klass in
     (if err =? JVMTI_ERROR_NONE then own 1 else mret tt);;
     scoped_release (err =? JVMTI_ERROR_NONE)
   else mret tt);;
  scoped_release (err =? JVMTI_ERROR_NONE).

Fixpoint create_all (classList : list Z) : P unit :=
  match classList with
  | [] => mret tt
  | klass :: classList => createJMethodIDsForClass klass;; create_all classList
  end.

(** [callbackVMInit] *)
Definition callbackVMInit : P unit :=
  let '(err, classes) := GetLoadedClasses rt in
  prog_lift (cxx_assert (err =? JVMTI_ERROR_NONE));;
  own 1;;
  create_all classes;;
  scoped_release true.

(** [callbackClassPrepare] *)
Definition callbackClassPrepare (klass : Z) : P unit :=
  block gettid;; createJMethodIDsForClass klass;; unblock gettid.

(** [JVM::loadMethodIDs] and [JVM::loadAllMethodIDs] *)
Definition loadMethodIDs (klass : Z) : P unit :=
  err ← class_methods klass;
  if err =? 0 then own (-1) else mret tt.

Fixpoint load_all (classes : list Z) : P unit :=
  match classes with
  | [] => mret tt
  | klass :: classes => loadMethodIDs klass;; load_all classes
  end.

Definition loadAllMethodIDs : P unit :=
  let '(err, classes) := GetLoadedClasses rt in
  if err =? 0 then own 1;; load_all classes;; own (-1) else mret tt.
End MethodIds.

(** * Facts *)

(** The reference: the classes whose methods the runtime gives, in order. *)
Definition answering (rt : runtime) (classes : list Z) : list Z :=
  filter (fun k => (GetClassMethods rt k).1 = JVMTI_ERROR_NONE) classes.

(** The variables after the identifiers of more classes exist. *)
Definition with_forced (classes : list Z) (p : profiler) : profiler :=
  mk_profiler (set_runtime (runtime_blocks (glob p)) (classes ++ forced_classes (glob p)) (glob p)) (loc p).

Lemma with_forced_nil p : with_forced [] p = p.
Proof. by destruct p as [[] ?]. Qed.

Lemma with_forced_app l1 l2 p : with_forced l1 (with_forced l2 p) = with_forced (l1 ++ l2) p.
Proof. unfold with_forced. simpl. by rewrite app_assoc. Qed.

Section Facts.
Context (rt : runtime).

Lemma class_methods_run klass t p :
  class_methods rt klass (t, p) =
  Val ((GetClassMethods rt klass).1,
       (t, if decide ((GetClassMethods rt klass).1 = JVMTI_ERROR_NONE)
           then mk_profiler (owning 1 (glob (with_forced [klass] p))) (loc p) else p)).
Proof.
  unfold class_methods. destruct (GetClassMethods rt klass) as [err ms]. simpl.
  destruct (Z.eqb_spec err JVMTI_ERROR_NONE) as [->|Hne].
  - rewrite decide_True by done. reflexivity.
  - by rewrite decide_False.
Qed.

Lemma own_back p : mk_profiler (owning (-1) (owning 1 (glob p))) (loc p) = p.
Proof. rewrite owning_add. change (-1 + 1) with 0. rewrite owning_0. by destruct p. Qed.

Lemma create_class_run klass t p :
  createJMethodIDsForClass rt klass (t, p) = Val (tt, (t, with_forced (answering rt [klass]) p)).
Proof.
  unfold createJMethodIDsForClass. rewrite (prog_bind_val _ _ _ _ _ (class_methods_run klass t p)).
  unfold answering. rewrite filter_cons, filter_nil. case_decide as H.
  - rewrite H. cbn [Z.eqb JVMTI_ERROR_NONE negb andb].
    rewrite (prog_bind_val (mret tt) _ _ _ _ eq_refl). cbn [scoped_release]. rewrite own_run.
    cbn [glob loc]. exact (f_equal (fun q => Val (tt, (t, q))) (own_back (with_forced [klass] p))).
  - destruct (Z.eqb_spec (GetClassMethods rt klass).1 JVMTI_ERROR_NONE); [done|]. cbn [negb andb].
    rewrite with_forced_nil. cbn [scoped_release]. destruct (negb _); [|done].
    destruct (GetClassSignature _ _) as [err s]. destruct (err =? JVMTI_ERROR_NONE); [|done].
    erewrite (prog_bind_val (own 1 ;; _)).
    2: { rewrite (prog_bind_val _ _ _ _ _ (own_run 1 _ _)). cbn [scoped_release]. apply own_run. }
    cbn [glob loc]. by rewrite own_back.
Qed.

Lemma create_all_run classes t p :
  create_all rt classes (t, p) = Val (tt, (t, with_forced (reverse (answering rt classes)) p)).
Proof.
  revert p. induction classes as [|k classes IH]; intros p; [by rewrite with_forced_nil|].
  cbn [create_all]. rewrite (prog_bind_val _ _ _ _ _ (create_class_run k t p)), IH, with_forced_app.
  unfold answering. rewrite !filter_cons, filter_nil. case_decide; [by rewrite reverse_cons|].
  by rewrite app_nil_r.
Qed.

Lemma load_all_run classes t p :
  load_all rt classes (t, p) = Val (tt, (t, with_forced (reverse (answering rt classes)) p)).
Proof.
  revert p. induction classes as [|k classes IH]; intros p; [by rewrite with_forced_nil|].
  cbn [load_all]. erewrite (prog_bind_val (loadMethodIDs rt k)).
  2: { unfold loadMethodIDs. rewrite (prog_bind_val _ _ _ _ _ (class_methods_run k t p)).
       instantiate (1 := (t, with_forced (answering rt [k]) p)). instantiate (1 := tt).
       unfold answering. rewrite filter_cons, filter_nil. case_decide as H.
       - rewrite H. cbn [Z.eqb JVMTI_ERROR_NONE]. rewrite own_run. cbn [glob loc].
         exact (f_equal (fun q => Val (tt, (t, q))) (own_back (with_forced [k] p))).
       - rewrite with_forced_nil. unfold JVMTI_ERROR_NONE in H.
         by destruct (Z.eqb_spec (GetClassMethods rt k).1 0). }
  rewrite IH, with_forced_app. unfold answering. rewrite !filter_cons, filter_nil.
  case_decide; [by rewrite reverse_cons|]. by rewrite app_nil_r.
Qed.
End Facts.

(** * Properties *)

(** At the start of the runtime every class loaded so far whose methods the
    runtime gives gets its identifiers; every block is given back; loading all
    identifiers by hand comes to the same, except that it ignores a failure which
    the callback asserts away. *)
Theorem callbackVMInit_forces rt err classes t p
  (Hloaded : GetLoadedClasses rt = (err, classes)) :
  callbackVMInit rt (t, p) =
    (if decide (err = JVMTI_ERROR_NONE)
     then Val (tt, (t, with_forced (reverse (answering rt classes)) p)) else Fault AssertFailure) /\
  loadAllMethodIDs rt (t, p) =
    Val (tt, (t, if decide (err = JVMTI_ERROR_NONE)
                 then with_forced (reverse (answering rt classes)) p else p)).
Proof.
  unfold callbackVMInit, loadAllMethodIDs. rewrite Hloaded.
  destruct (Z.eqb_spec err JVMTI_ERROR_NONE) as [->|Hne].
  - rewrite !decide_True by done. cbn [Z.eqb JVMTI_ERROR_NONE].
    rewrite (prog_bind_val (prog_lift (cxx_assert true)) _ _ tt _ eq_refl),
      !(prog_bind_val _ _ _ _ _ (own_run 1 _ _)).
    rewrite (prog_bind_val _ _ _ _ _ (create_all_run rt classes _ _)).
    rewrite (prog_bind_val _ _ _ _ _ (load_all_run rt classes _ _)).
    cbn [scoped_release]. rewrite own_run.
    split; exact (f_equal (fun q => Val (tt, (t, q))) (own_back (with_forced _ p))).
  - rewrite !decide_False by done. split; [done|]. unfold JVMTI_ERROR_NONE in Hne.
    by destruct (Z.eqb_spec err 0).
Qed.

Module Examples.
Lemma callbackVMInit_forces_witness :
  exists p, callbackVMInit Agent.Examples.rt0 (mk_tls None [], Agent.Examples.prof [] []) =
    Val (tt, (mk_tls None [], p)) /\ forced_classes (glob p) = [9; 7] /\ runtime_blocks (glob p) = 0.
Proof.
  destruct (callbackVMInit_forces Agent.Examples.rt0 0 [7; 8; 9] (mk_tls None [])
    (Agent.Examples.prof [] []) eq_refl) as [H _].
  eexists. split_and!; [exact H|reflexivity|reflexivity].
Defined.
End Examples.
