(* ===== verification/Frame.v ===== *)
(** What a callback of the agent can change beside its own work: a judgement
    [runs] that says how the memory in use and the readiness of the thread move,
    that the invariants of thread and process hold again, and that no lock is
    waited for that is held already, whatever the runtime answers.  The judgement
    composes along [≫=], so a callback's proof follows its program. *)
From stdpp Require Import base numbers option list gmap strings.
From Stdlib Require Import ZArith Lia Ascii.
From S2P Require Import Prelude.
From S2P Require Import Cxx.
From S2P Require Import PerfMmap.
From S2P Require Import Xml.
From S2P Require Import Jvmti.
From S2P Require Import CodeCache.
From S2P Require Import NewContext.
From S2P Require Import OutBuf.
From S2P Require Import Output.
From S2P Require Import ThreadData.
From S2P Require Import ProfilerSupport.
From S2P Require Import PerfUtil.
From S2P Require Import PerfConfig.
From S2P Require Import PerfEvents.
From S2P Require Import Profiler.
From S2P Require Import Agent.
From S2P Require Import MethodIds.

Create HintDb frame.

(** * Outcomes that are no deadlock *)

Definition safe {A} (o : outcome A) (Q : A -> Prop) : Prop :=
  match o with Val a => Q a | Fault f => f <> Deadlock end.
Definition live {A} (o : outcome A) : Prop := safe o (fun _ => True).

Lemma safe_bind {A B} (o : outcome A) (k : A -> outcome B) (R : A -> Prop) Q :
  safe o R -> (forall a, R a -> safe (k a) Q) -> safe (o ≫= k) Q.
Proof. intros Ho Hk. destruct o; [by apply Hk|done]. Qed.

Lemma live_bind {A B} (o : outcome A) (k : A -> outcome B) Q :
  live o -> (forall a, safe (k a) Q) -> safe (o ≫= k) Q.
Proof. intros Ho Hk. by apply (safe_bind o k (fun _ => True)). Qed.

Lemma safe_weaken {A} (o : outcome A) (Q R : A -> Prop) : safe o Q -> (forall a, Q a -> R a) -> safe o R.
Proof. intros Ho HQ. destruct o; [by apply HQ|done]. Qed.

Lemma clean_live {A} (o : outcome A) Q : clean o Q -> live o.
Proof. destruct o; [done|]. by intros [-> | ->]. Qed.

(** Goes through binds and branches. *)
Ltac live :=
  repeat first
    [ progress cbn beta
    | match goal with
      | |- live _ => unfold live
      | |- safe (_ ≫= _) _ => apply live_bind; [|intros ?]
      | |- safe (match ?x with _ => _ end) _ => destruct x
      | |- safe (let '_ := ?x in _) _ => destruct x
      end
    | done
    | solve [match goal with |- safe ?o (fun _ => True) => change (live o) end; eauto 2 with frame] ].

Lemma live_cxx_assert b : live (cxx_assert b).
Proof. by destruct b. Qed.
#[export] Hint Resolve live_cxx_assert : frame.

Lemma live_substr s pos n : live (substr s pos n).
Proof. unfold substr. live. Qed.
Lemma live_stoi s : live (stoi s).
Proof. unfold stoi. live. Qed.
#[export] Hint Resolve live_substr live_stoi : frame.

Lemma live_class_of_signature s : live (class_of_signature s).
Proof. unfold class_of_signature. live. Qed.
Lemma live_line_and_scope l t : live (line_and_scope l t).
Proof. unfold line_and_scope. live. Qed.
#[export] Hint Resolve live_class_of_signature live_line_and_scope : frame.

Lemma live_scope_of l t : live (scope_of l t).
Proof. unfold scope_of. live. Qed.
Lemma live_new_Method env m : live (new_Method env m).
Proof. eapply clean_live, clean_new_Method. Qed.
#[export] Hint Resolve live_scope_of live_new_Method : frame.

(** The black list: its lock is given back. *)
Lemma live_add_range r l : live (add_range r l).
Proof. unfold add_range. live. Qed.
#[export] Hint Resolve live_add_range : frame.

Lemma live_match_modules modules name addr l : live (match_modules modules name addr l).
Proof.
  revert addr l. induction modules as [|m modules IH]; intros addr l; [done|]. cbn [match_modules].
  live.
Qed.
#[export] Hint Resolve live_match_modules : frame.

Lemma live_scan_lines rp lines name l : live (scan_lines rp lines name l).
Proof.
  revert name l. induction lines as [|line lines IH]; intros name l; [done|]. cbn [scan_lines].
  unfold scan_line. live.
Qed.
#[export] Hint Resolve live_scan_lines : frame.

Lemma safe_Populate rp lm g ps b :
  bl_locked b = false -> safe (PopulateBlackListAddresses rp lm g ps b) (fun b => bl_locked b = false).
Proof. intros Hb. unfold PopulateBlackListAddresses. rewrite Hb. live. Qed.

(** * Output files: no lock is held between two operations *)

Record unlocked (o : OUTPUT) : Prop := mk_unlocked {
  un_lock : o_locked o = false;
  un_buffer : 0 <= fd (_output_buffer o) -> use_lock (_output_buffer o) = false
}.

Section Output.
Context (sys_open : str -> open_result) (answers : nat -> write_event) (close_ok : bool) (ffuel : nat).

(** An operation on a buffer that has no lock of its own. *)
Definition plain (b : outbuf) : Prop := use_lock b = false.

Lemma safe_flush_loop fuel done_ b k :
  plain b -> safe (flush_loop answers fuel done_ b k) (fun r => plain r.1.2).
Proof.
  revert done_ b k. induction fuel as [|fuel IH]; intros done_ b k Hb; [done|]. cbn [flush_loop].
  destruct (_ <? _)%nat; [|done]. destruct (sys_write _ _ _) as [[ret eintr] k'].
  destruct (_ || _); [by apply IH|]. by destruct (_ <? _)%nat.
Qed.

Lemma safe_write_loop fuel done_ data b k :
  plain b -> safe (write_loop answers ffuel fuel done_ data b k) (fun r => plain r.1.2).
Proof.
  revert done_ b k. induction fuel as [|fuel IH]; intros done_ b k Hb; [done|]. cbn [write_loop].
  destruct (_ <? _)%nat; [|done].
  apply (safe_bind _ _ (fun r => plain r.1.2)).
  - destruct (_ <? _)%nat; [|done].
    eapply safe_bind; [by apply safe_flush_loop|]. by intros [[] ?] ?.
  - intros [[full b'] k'] Hb'. destruct full; [done|]. by apply IH.
Qed.

Lemma safe_ob_lock b : plain b -> safe (ob_lock b) plain.
Proof. intros Hb. unfold ob_lock. by rewrite Hb. Qed.

Lemma safe_hpcio_outbuf_write data b k :
  plain b -> safe (hpcio_outbuf_write answers ffuel data b k) (fun r => plain r.1.2).
Proof.
  intros Hb. unfold hpcio_outbuf_write. destruct (negb _); [done|].
  apply (safe_bind _ _ plain); [by apply safe_ob_lock|]. intros b1 Hb1.
  eapply safe_bind; [by apply (safe_write_loop (S (length data)) 0 data b1 k)|].
  intros [[n b'] k'] Hb'. unfold ob_unlock. simpl in *. by rewrite Hb'.
Qed.

Lemma safe_send_loop fuel data o :
  plain (_output_buffer o) -> safe (send_loop answers ffuel fuel data o)
    (fun o' => plain (_output_buffer o') /\ o_locked o' = o_locked o).
Proof.
  revert data o. induction fuel as [|fuel IH]; intros data o Hb; [done|]. cbn [send_loop].
  destruct data as [|c data]; [done|].
  eapply safe_bind; [by apply safe_hpcio_outbuf_write|]. intros [[n b] k] Hb'. simpl in Hb'.
  destruct (0 <=? n); [|done]. exact (IH (drop (Z.to_nat n) (c :: data)) (set_buffer b k o) Hb').
Qed.

Lemma live_open_loop fuel name : live (open_loop sys_open fuel name).
Proof.
  revert name. induction fuel as [|fuel IH]; intros name; [done|]. cbn [open_loop].
  destruct (sys_open name); [done| |done]. destruct (_ <=? _); [done|apply IH].
Qed.

Lemma safe_openFile o :
  (0 <= fd (_output_buffer o) -> plain (_output_buffer o)) ->
  safe (_openFile sys_open o) (fun r => o_locked r.2 = o_locked o /\
    (r.1 = true -> plain (_output_buffer r.2)) /\
    (0 <= fd (_output_buffer r.2) -> plain (_output_buffer r.2))).
Proof.
  intros Hb. unfold _openFile. destruct (Z.leb_spec 0 (fd (_output_buffer o))); [simpl; by split_and!; auto|].
  apply live_bind; [apply live_open_loop|]. intros [name [fd'|]].
  2: { split_and!; [done|done|]. simpl. lia. }
  destruct (hpcio_outbuf_attach _ _ _ _) as [ret b] eqn:Ha.
  unfold hpcio_outbuf_attach in Ha. destruct (_ || _); injection Ha as <- <-; [done|].
  simpl. by split_and!.
Qed.

Lemma safe_writef text o : unlocked o -> safe (writef sys_open answers ffuel text o) (fun r => unlocked r.2).
Proof.
  intros [Hl Hb]. unfold writef. destruct (size text <? _); [|done]. unfold mbind at 1, outcome_bind at 1, cxx_assert, writeb. rewrite Hl.
  apply (safe_bind _ _ (fun r => o_locked r.2 = true /\
    (r.1 = true -> plain (_output_buffer r.2)) /\
    (0 <= fd (_output_buffer r.2) -> plain (_output_buffer r.2)))).
  - destruct (Z.ltb_spec (fd (_output_buffer (set_o_locked true o))) 0) as [Hfd|Hfd].
    + destruct (_ =? _); [by split_and!|]. by apply safe_openFile.
    + split_and!; [done| |done]. intros _. by apply Hb.
  - intros [ready o1] (Hl1 & Hr & Hb1). cbn [fst snd] in *. destruct ready; cbn [negb]; cbv zeta.
    + eapply safe_bind; [apply safe_send_loop; by apply Hr|]. intros o2 [Hp Hl2]. by split.
    + by apply mk_unlocked.
Qed.

Lemma live_destroy o : unlocked o -> live (destroy_OUTPUT answers close_ok ffuel o).
Proof.
  intros [_ Hb]. unfold destroy_OUTPUT. destruct (Z.leb_spec 0 (fd (_output_buffer o))) as [Hfd|]; [|done].
  apply live_bind; [|by intros [[? ?] ?]]. unfold hpcio_outbuf_close.
  destruct (negb _); [done|]. apply (safe_bind _ _ plain); [by apply safe_ob_lock, Hb|]. intros b1 Hb1.
  eapply safe_bind; [by apply safe_flush_loop|].
  intros [[ret b] k] _. by destruct (_ && _).
Qed.
End Output.

(** * Invariants *)

Lemma bool_decide_is_Some {A} (o : option A) :
  bool_decide (is_Some o) = match o with Some _ => true | None => false end.
Proof. by destruct o. Qed.

Abbreviation TD := (@thread_data_t events NewContextTree OUTPUT unit).

(** A record of thread [t]; a thread is ready when it has the tree and the stream
    that the callback of allocations looks for. *)
Record td_ok (t : Z) (td : TD) : Prop := mk_td_ok {
  to_tid : tid td = t;
  to_method : from_option unlocked True (output_state td);
  to_trace : from_option unlocked True (output_state_trace td);
  to_alloc : from_option unlocked True (output_state_alloc td);
  to_miss : from_option unlocked True (output_state_cachemiss td)
}.

Definition td_ready (td : TD) : bool :=
  bool_decide (is_Some (context_state td)) && bool_decide (is_Some (output_state_alloc td)).
Definition ready (t : TLS) : bool := from_option td_ready false (td_ptr t).

Record tls_ok (t : Z) (s : TLS) : Prop := mk_tls_ok {
  ts_current : from_option (td_ok t) True (td_ptr s);
  ts_lost : Forall (td_ok t) (lost s)
}.

(** The variables of the process between two callbacks, [g0] those of the start:
    the locks are free, the memory in use is a machine word, the set of live
    objects has no duplicates; totals, client, mode and metrics are those of the
    start. *)
Record globals_ok (g0 : globals) (g : globals) : Prop := mk_globals_ok {
  gl_output_lock : output_lock g = false;
  gl_cyc_lock : object_cyc_lock g = false;
  gl_black_list : bl_locked (black_list g) = false;
  gl_memory : is_u64 (active_memory_usage g);
  gl_totals : forall c, grandTot g c = grandTot g0 c;
  gl_live : NoDup (object_live_cycle g);
  gl_client : clientName g = clientName g0;
  gl_onload : onload_flag g = onload_flag g0;
  gl_infos : metric_infos g = metric_infos g0;
  gl_statistics : of_open (_statistics_file g) = of_open (_statistics_file g0)
}.

Record locals_ok (l : locals) : Prop := mk_locals_ok {
  lo_total : forall c, total l c = 0;
  lo_counter : map_Forall (fun _ n => is_u64 n) (object_alloc_counter l)
}.

Section Runs.
Context (gettid : Z) (g0 : globals) (Htotals : forall c, is_u64 (grandTot g0 c)).

Record state_ok (s : TLS * profiler) : Prop := mk_state_ok {
  so_tls : tls_ok gettid s.1;
  so_glob : globals_ok g0 (glob s.2);
  so_loc : locals_ok (loc s.2)
}.

(** From a thread with readiness [r] to one with readiness [r'], adding [n] to the
    memory in use. *)
Definition runs_at {B} (s : TLS * profiler) (r' : bool) (n : Z) (m : P B) : Prop :=
  safe (m s) (fun o => state_ok o.2 /\ ready o.2.1 = r' /\
    active_memory_usage (glob o.2.2) = u64 (active_memory_usage (glob s.2) + n)).
Definition runs {B} (r r' : bool) (n : Z) (m : P B) : Prop :=
  forall s, state_ok s -> ready s.1 = r -> runs_at s r' n m.
Definition keeps {B} (m : P B) : Prop := forall r, runs r r 0 m.

Lemma memory_same s : state_ok s ->
  active_memory_usage (glob s.2) = u64 (active_memory_usage (glob s.2) + 0).
Proof. intros [_ [_ _ _ Hm _ _] _]. rewrite Z.add_0_r. symmetry. by apply u64_small. Qed.

Lemma runs_bind {B C} r r1 r2 n1 n2 (m : P B) (k : B -> P C) :
  runs r r1 n1 m -> (forall a, runs r1 r2 n2 (k a)) -> runs r r2 (n1 + n2) (m ≫= k).
Proof.
  intros Hm Hk s Hs Hr. specialize (Hm s Hs Hr). unfold runs_at, mbind, prog_bind in *.
  destruct (m s) as [[a s']|f]; [|done]. destruct Hm as (Hs' & Hr' & Hmem).
  eapply safe_weaken; [by apply (Hk a s')|]. intros [b s''] (Hs'' & Hr'' & Hmem'').
  split_and!; [done|done|]. cbn [fst snd] in *. rewrite Hmem'', Hmem. autorewrite with cxx_arith.
  f_equal. lia.
Qed.

Lemma keeps_bind {B C} (m : P B) (k : B -> P C) :
  keeps m -> (forall a, keeps (k a)) -> keeps (m ≫= k).
Proof. intros Hm Hk r. apply (runs_bind r r r 0 0); [apply Hm|]. intros a. apply Hk. Qed.

Lemma keeps_runs {B C} r r' n (m : P B) (k : B -> P C) :
  keeps m -> (forall a, runs r r' n (k a)) -> runs r r' n (m ≫= k).
Proof. intros Hm Hk. apply (runs_bind r r r' 0 n); [apply Hm|done]. Qed.

Lemma runs_keeps {B C} r r' n (m : P B) (k : B -> P C) :
  runs r r' n m -> (forall a, keeps (k a)) -> runs r r' n (m ≫= k).
Proof.
  intros Hm Hk. rewrite <- (Z.add_0_r n). apply (runs_bind r r' r' n 0); [done|]. intros a. apply Hk.
Qed.

Lemma keeps_ret {B} (a : B) : keeps (mret a).
Proof. intros r s Hs Hr. split_and!; [done|done|by apply memory_same]. Qed.

Lemma keeps_fault {B} f : f <> Deadlock -> keeps (@prog_fault _ B f).
Proof. by intros Hf r s _ _. Qed.

Lemma keeps_lift {B} (o : outcome B) : live o -> keeps (prog_lift o).
Proof.
  intros Ho r s Hs Hr. unfold runs_at, prog_lift. destruct o; [|done].
  split_and!; [done|done|by apply memory_same].
Qed.

(** The variables that are read satisfy the invariants. *)
Lemma runs_get {B} r r' n (k : profiler -> P B) :
  (forall p, globals_ok g0 (glob p) -> locals_ok (loc p) -> runs r r' n (k p)) ->
  runs r r' n (get_prof ≫= k).
Proof. intros Hk s Hs Hr. unfold runs_at. apply (Hk s.2); [apply Hs|apply Hs|done|done]. Qed.

Lemma keeps_get {B} (k : profiler -> P B) :
  (forall p, globals_ok g0 (glob p) -> locals_ok (loc p) -> keeps (k p)) -> keeps (get_prof ≫= k).
Proof. intros Hk r. apply runs_get. intros p Hg Hl. by apply Hk. Qed.

Lemma keeps_mod_glob (f : globals -> globals) :
  (forall g, globals_ok g0 g ->
     globals_ok g0 (f g) /\ active_memory_usage (f g) = active_memory_usage g) ->
  keeps (mod_glob f).
Proof.
  intros Hf r s Hs Hr. destruct (Hf _ (so_glob _ Hs)) as [Hg Hm].
  split_and!; [by split; [apply Hs|exact Hg|apply Hs]|done|]. simpl. rewrite Hm. by apply memory_same.
Qed.

Lemma keeps_mod_loc (f : locals -> locals) :
  (forall l, locals_ok l -> locals_ok (f l)) -> keeps (mod_loc f).
Proof.
  intros Hf r s Hs Hr.
  split_and!; [split; [apply Hs|apply Hs|apply Hf, Hs]|done|]. exact (memory_same s Hs).
Qed.

Lemma keeps_own n : keeps (own n).
Proof. apply keeps_mod_glob. intros g Hg. by destruct Hg; split. Qed.

(** ** The data of the thread *)

Lemma get_ok s : tls_ok gettid s ->
  exists td, thread_data_get gettid s = (td, mk_tls (Some td) (lost s)) /\ td_ok gettid td /\
    td_ready td = ready s.
Proof.
  intros [Hc Hl]. unfold thread_data_get, ready. destruct s as [[td|] l]; simpl in *.
  - by exists td.
  - exists (zero_td gettid). split_and!; [done|by split|done].
Qed.

Lemma runs_TD_GET {B C} r r' n (field : TD -> B) (k : B -> P C) :
  (forall td, td_ok gettid td -> td_ready td = r -> runs r r' n (k (field td))) ->
  runs r r' n (tls_op (TD_GET gettid field) ≫= k).
Proof.
  intros Hk [t p] Hs Hr. destruct (get_ok t (so_tls _ Hs)) as (td & Hget & Htd & Hrd).
  unfold runs_at, tls_op, TD_GET, mbind, prog_bind. simpl. rewrite Hget.
  assert (state_ok (mk_tls (Some td) (lost t), p)) as Hs'.
  { split; [split; [done|apply Hs]|apply Hs|apply Hs]. }
  apply (Hk td); [done|by rewrite Hrd|exact Hs'|exact (eq_trans Hrd Hr)].
Qed.

(** Two fields of the same record. *)
Lemma runs_TD_GET2 {B1 B2 C} r r' n (f1 : TD -> B1) (f2 : TD -> B2) (k : B1 -> B2 -> P C) :
  (forall td, td_ok gettid td -> td_ready td = r -> runs r r' n (k (f1 td) (f2 td))) ->
  runs r r' n (x ← tls_op (TD_GET gettid f1); y ← tls_op (TD_GET gettid f2); k x y).
Proof.
  intros Hk [t p] Hs Hr. pose proof (runs_TD_GET r r' n (fun td => (f1 td, f2 td)) (fun x => k x.1 x.2) Hk
    (t, p) Hs Hr) as H.
  unfold runs_at, tls_op, TD_GET, mbind, prog_bind in *. cbn [fst snd] in *.
  destruct (thread_data_get gettid t) as [td t'] eqn:E. cbn [fst snd] in *.
  assert (thread_data_get gettid t' = (td, t')) as ->; [|exact H].
  unfold thread_data_get, thread_data_alloc in *. by destruct (td_ptr t) eqn:Et; injection E as <- <-; rewrite ?Et.
Qed.

Lemma keeps_TD_GET {B} (field : TD -> B) : keeps (tls_op (TD_GET gettid field)).
Proof.
  intros r. rewrite <- (Z.add_0_l 0).
  assert (H : runs r r 0 (tls_op (TD_GET gettid field) ≫= mret)).
  { apply runs_TD_GET. intros td _ _. apply keeps_ret. }
  intros s Hs Hr. specialize (H s Hs Hr). unfold runs_at, mbind, prog_bind in *.
  by destruct (tls_op _ s) as [[b s']|f].
Qed.

Lemma runs_TD_SET r r' (set : TD -> TD) :
  (forall td, td_ok gettid td -> td_ready td = r -> td_ok gettid (set td) /\ td_ready (set td) = r') ->
  runs r r' 0 (tls_op (TD_SET gettid set)).
Proof.
  intros Hset [t p] Hs Hr. destruct (get_ok t (so_tls _ Hs)) as (td & Hget & Htd & Hrd).
  unfold runs_at, tls_op, TD_SET. simpl. rewrite Hget. destruct (Hset td Htd) as [H1 H2].
  { by rewrite Hrd. }
  split_and!; [|done|exact (memory_same (t, p) Hs)].
  split; [split; [done|apply Hs]|apply Hs|apply Hs].
Qed.

Lemma keeps_TD_SET (set : TD -> TD) :
  (forall td, td_ok gettid td -> td_ok gettid (set td) /\ td_ready (set td) = td_ready td) ->
  keeps (tls_op (TD_SET gettid set)).
Proof.
  intros Hset r. apply runs_TD_SET. intros td Htd <-. by apply Hset.
Qed.
End Runs.

(** Goes through a program: binds, branches, and the hints for what remains. *)
Ltac keep :=
  repeat first
    [ progress cbn beta
    | match goal with
      | |- keeps _ _ (mret _) => apply keeps_ret
      | |- keeps _ _ (prog_fault _) => apply keeps_fault; discriminate
      | |- keeps _ _ (prog_lift _) => apply keeps_lift; live
      | |- keeps _ _ (own _) => apply keeps_own
      | |- keeps _ _ (get_prof ≫= _) => apply keeps_get; intros ? ? ?
      | |- keeps _ _ (_ ≫= _) => apply keeps_bind; [|intros ?]
      | |- keeps _ _ (match ?x with _ => _ end) => destruct x
      | |- keeps _ _ (let '_ := ?x in _) => destruct x
      end
    | solve [eauto 2 with frame] ].

(** ** Operations that the callbacks share *)

(** A field with an output file. *)
Class output_field (field : TD -> option OUTPUT) (set : option OUTPUT -> TD -> TD) : Prop :=
  mk_output_field {
  ofl_field : td_field field set;
  ofl_get : forall t td, td_ok t td -> from_option unlocked True (field td);
  ofl_set : forall t td o, td_ok t td -> unlocked o -> is_Some (field td) ->
    td_ok t (set (Some o) td) /\ td_ready (set (Some o) td) = td_ready td
}.
#[export] Hint Mode output_field - - : typeclass_instances.

#[export] Instance of_method : output_field output_state set_output_state.
Proof. split; [apply _|by intros ? ? []|]. intros t td o [] Ho _. by split. Qed.
#[export] Instance of_trace : output_field output_state_trace set_output_state_trace.
Proof. split; [apply _|by intros ? ? []|]. intros t td o [] Ho _. by split. Qed.
#[export] Instance of_miss : output_field output_state_cachemiss set_output_state_cachemiss.
Proof. split; [apply _|by intros ? ? []|]. intros t td o [] Ho _. by split. Qed.
#[export] Instance of_alloc : output_field output_state_alloc set_output_state_alloc.
Proof.
  split; [apply _|by intros ? ? []|]. intros t td o [] Ho [o0 H0]. split; [by split|].
  unfold td_ready. simpl. by rewrite H0.
Qed.

Section Shared.
Context (gettid : Z) (g0 : globals).
Context (sys_open : str -> open_result) (answers : nat -> write_event) (ffuel : nat).
Abbreviation keeps := (keeps gettid g0).

Lemma keeps_block : keeps (block gettid).
Proof. apply keeps_TD_SET. intros td []. by repeat split. Qed.
Lemma keeps_unblock : keeps (unblock gettid).
Proof. apply keeps_TD_SET. intros td []. by repeat split. Qed.

Lemma keeps_td_writef field set text :
  output_field field set -> keeps (td_writef gettid sys_open answers ffuel field set text).
Proof.
  intros Hf r [t p] Hs Hr. destruct (get_ok gettid t (so_tls _ _ _ Hs)) as (td & Hget & Htd & Hrd).
  pose proof (ofl_get gettid td Htd) as Hu.
  unfold runs_at, td_writef, tls_op, TD_GET, TD_SET, mbind, prog_bind, prog_lift.
  cbn [fst snd]. rewrite Hget. destruct (field td) as [o|] eqn:Ho; [|done]. simpl in Hu.
  pose proof (safe_writef sys_open answers ffuel text o Hu) as Hw.
  destruct (writef _ _ _ text o) as [[n o']|f]; [|done]. simpl in Hw.
  destruct (ofl_set gettid td o' Htd Hw) as [H1 H2]; [by rewrite Ho|].
  cbn. split_and!; [|exact (eq_trans H2 (eq_trans Hrd Hr))|exact (memory_same _ _ (t, p) Hs)].
  split; [split; [done|apply Hs]|apply Hs|apply Hs].
Qed.

Lemma keeps_class_name rt klass : keeps (class_name rt klass).
Proof. unfold class_name. keep. Qed.
Lemma keeps_line_table rt m : keeps (line_table rt m).
Proof. unfold line_table. keep. Qed.
Lemma keeps_deallocate_table l : keeps (deallocate_table l).
Proof. unfold deallocate_table. keep. Qed.
End Shared.
#[export] Hint Resolve keeps_block keeps_unblock keeps_td_writef keeps_class_name keeps_line_table
  keeps_deallocate_table keeps_TD_GET of_method of_trace of_miss of_alloc : frame.

(** * The callbacks *)

Section Callbacks.
Context (gettid : Z) (g0 : globals).
Context (sys_open : str -> open_result) (answers : nat -> write_event) (ffuel : nat).
Abbreviation keeps := (keeps gettid g0).
Abbreviation runs := (runs gettid g0).

(** ** Method entry *)

Lemma keeps_frame_line rt i f : keeps (frame_line rt i f).
Proof. unfold frame_line. keep. Qed.

Lemma keeps_entry_frame rt i f : keeps (entry_frame gettid sys_open answers ffuel rt i f).
Proof.
  unfold entry_frame. pose proof keeps_frame_line. keep.
  all: apply keeps_mod_loc; intros ? []; by split.
Qed.

Lemma keeps_entry_frames rt path : keeps (entry_frames gettid sys_open answers ffuel rt path).
Proof.
  induction path as [|f path IH]; cbn [entry_frames]; [apply keeps_ret|].
  apply keeps_bind; [apply keeps_entry_frame|]. by intros _.
Qed.

Lemma keeps_MethodEntry rt : keeps (MethodEntry gettid sys_open answers ffuel rt).
Proof.
  unfold MethodEntry. pose proof keeps_entry_frames. pose proof (keeps_TD_GET gettid g0 output_state).
  keep. apply keeps_mod_loc. intros l []. by split.
Qed.

(** ** Objects *)

Lemma globals_ok_objects info live g :
  globals_ok g0 g -> NoDup live -> globals_ok g0 (set_objects live info g).
Proof. intros [] Hl. by split. Qed.

Lemma insert_live_NoDup id live : NoDup live -> NoDup (insert_live id live).
Proof.
  intros Hl. unfold insert_live. case_decide; [done|]. apply NoDup_app. split_and!; [done| |].
  - intros x Hx ->%list_elem_of_singleton. done.
  - apply NoDup_singleton.
Qed.

(** The lock of the live objects is held in between. *)
Lemma keeps_note_object line sz tag class : keeps (note_object line sz tag class).
Proof.
  intros r [t [g l]] Hs Hr. unfold note_object. destruct (noted sz class);
    [|exact (keeps_ret gettid g0 class r _ Hs Hr)].
  unfold runs_at, record_live, cyc_lock, cyc_unlock, mod_glob, get_prof, mbind, prog_bind.
  cbn [fst snd glob loc].
  pose proof (so_glob _ _ _ Hs) as Hg. cbn [snd glob] in Hg. rewrite (gl_cyc_lock _ _ Hg).
  cbn. split_and!; [|exact Hr|exact (memory_same _ _ _ Hs)].
  split; [apply Hs| |apply Hs]. destruct Hg as [? ? ? ? ? Hl]. split; try done.
  cbn. by apply insert_live_NoDup.
Qed.

Lemma keeps_alloc_line rt sz tag f class : keeps (alloc_line rt sz tag f class).
Proof. unfold alloc_line. pose proof keeps_note_object. keep. Qed.

Lemma keeps_alloc_frames rt mid sz tag path class inside :
  keeps (alloc_frames gettid sys_open answers ffuel rt mid sz tag path class inside).
Proof.
  revert class inside. induction path as [|f path IH]; intros class inside; cbn [alloc_frames];
    [apply keeps_ret|]. destruct (_ =? _); [apply IH|]. apply keeps_bind; [|by intros ?].
  unfold alloc_frame. pose proof keeps_alloc_line. keep.
Qed.

Lemma runs_add_memory r n :
  runs r r n (mod_glob (fun g => set_memory (u64 (active_memory_usage g + n)) g)).
Proof.
  intros s Hs Hr. unfold runs_at. cbn. split_and!; [|done|done].
  split; [apply Hs| |apply Hs]. destruct (so_glob _ _ _ Hs). split; try done. apply u64_range.
Qed.

Lemma map_u64_insert (m : gmap Z Z) k n :
  map_Forall (fun _ n => is_u64 n) m -> map_Forall (fun _ n => is_u64 n) (<[k := u64 n]> m).
Proof. intros Hm. apply map_Forall_insert_2; [apply u64_range|done]. Qed.

(** An allocation: what runs while the class is asked for its name counts when the
    thread is ready. *)
Lemma runs_ObjectAlloc rt (call : P unit) n mid thread object klass size r :
  (r = true -> runs true true n call) ->
  runs r r (u64 size + if r then n else 0)
    (ObjectAllocCallback gettid sys_open answers ffuel rt call mid thread object klass size).
Proof.
  intros Hcall. unfold ObjectAllocCallback.
  apply keeps_runs; [apply keeps_block|intros _].
  apply keeps_runs; [apply keeps_mod_loc; intros l []; split; [done|by apply map_u64_insert]|intros _].
  cbv zeta. apply runs_bind with r; [apply runs_add_memory|intros _].
  destruct (GetTag rt object) as [tag_err object_tag].
  apply keeps_runs; [keep|intros _]. apply keeps_runs; [apply keeps_class_name|intros class].
  assert (Hend : keeps (unblock gettid;; own (-1))) by keep.
  apply runs_TD_GET2. intros td _ <-. unfold td_ready in *.
  rewrite !bool_decide_is_Some in *.
  destruct (context_state td), (output_state_alloc td); cbn [andb] in *;
    try (apply keeps_runs; [apply keeps_ret|intros _; apply Hend]).
  apply runs_keeps; [|intros _; exact Hend]. apply runs_keeps; [by apply Hcall|intros _].
  pose proof keeps_alloc_frames. keep.
Qed.

(** The loop of a free only rebuilds the text of the live objects. *)
Lemma free_loop_result tag it t g l :
  match free_loop tag it (t, mk_profiler g l) with
  | Val (_, s') => exists info, s' = (t, mk_profiler (set_objects (object_live_cycle g) info g) l)
  | Fault f => f <> Deadlock
  end.
Proof.
  revert g. induction it as [|s it IH]; intros g; cbn [free_loop].
  - exists (object_info g). by destruct g.
  - unfold mbind, prog_bind, prog_lift. cbv zeta. pose proof (live_substr s
      (u64 (s32 (u32 (find s (lit "#"))) + 1)) npos) as H1.
    destruct (substr s _ npos) as [tag_inset|f]; [|done]. pose proof (live_stoi tag_inset) as H2.
    destruct (stoi tag_inset) as [n|f]; [|done]. destruct (_ =? _); [done|].
    pose proof (live_substr s 0 (u64 (s32 (u32 (find s (lit "#")))))) as H3.
    destruct (substr s 0 _) as [part|f]; [|done].
    specialize (IH (set_objects (object_live_cycle g) (object_info g ++ part) g)).
    unfold mod_glob. cbn [fst snd set_glob glob loc].
    destruct (free_loop tag it _) as [[u s']|f]; [|done]. destruct IH as [info ->]. by exists info.
Qed.

Lemma runs_ObjectFree order tag r : runs r r (- u64 tag) (ObjectFreeCallback order tag).
Proof.
  unfold ObjectFreeCallback. cbv zeta. rewrite <- (Z.add_0_r (- u64 tag)).
  apply (runs_bind gettid g0 r r r (- u64 tag) 0); [apply runs_add_memory|intros _].
  intros [t [g l]] Hs Hr. unfold runs_at, rebuild_info, cyc_lock, cyc_unlock, set_object_info, mod_glob, get_prof, mbind, prog_bind.
  pose proof (so_glob _ _ _ Hs) as Hg. unfold set_glob. cbn [snd glob fst loc] in *.
  rewrite (gl_cyc_lock _ _ Hg). cbn [snd glob fst loc].
  match goal with |- context [free_loop ?tg ?it (t, mk_profiler ?g' l)] =>
    pose proof (free_loop_result tg it t g' l) as H; destruct (free_loop tg it _) as [[u s']|f]; [|done] end.
  destruct H as [info ->]. cbn.
  split_and!; [|exact Hr|exact (memory_same _ _ _ Hs)].
  split; [apply Hs| |apply Hs]. by destruct Hg; split.
Qed.

(** ** Callbacks without an effect of their own *)

Lemma keeps_GCStart : keeps (callbackGCStart gettid).
Proof. unfold callbackGCStart. keep. Qed.
Lemma keeps_GCEnd : keeps (callbackGCEnd gettid).
Proof. unfold callbackGCEnd. keep. Qed.
Lemma keeps_ClassLoad : keeps (callbackClassLoad gettid).
Proof. unfold callbackClassLoad. keep. Qed.

Lemma keeps_class_methods rt klass : keeps (class_methods rt klass).
Proof.
  unfold class_methods. keep. apply keeps_mod_glob. intros g Hg. by destruct Hg; split.
Qed.

Lemma keeps_createJMethodIDs rt klass : keeps (createJMethodIDsForClass rt klass).
Proof. unfold createJMethodIDsForClass, scoped_release. pose proof keeps_class_methods. keep. Qed.

Lemma keeps_ClassPrepare rt klass : keeps (callbackClassPrepare gettid rt klass).
Proof. unfold callbackClassPrepare. pose proof keeps_createJMethodIDs. keep. Qed.

Lemma keeps_VMInit rt : keeps (callbackVMInit rt).
Proof.
  unfold callbackVMInit, scoped_release. destruct (GetLoadedClasses rt) as [err classes].
  assert (H : keeps (create_all rt classes)).
  { induction classes as [|k classes IH]; cbn [create_all]; [apply keeps_ret|].
    pose proof keeps_createJMethodIDs. keep. }
  keep.
Qed.

Lemma keeps_VMDeath rt attr_order print_id order methods :
  keeps (callbackVMDeath gettid rt attr_order print_id order methods).
Proof.
  unfold callbackVMDeath, performActionAll. apply keeps_bind; [apply keeps_block|intros _].
  apply keeps_bind; [|intros _; apply keeps_unblock].
  assert (Hd : forall m, keeps (dump_uncompiled_method rt attr_order print_id m)).
  { intros m. unfold dump_uncompiled_method, output_method. keep.
    apply keeps_mod_glob. intros g Hg. by destruct Hg; split. }
  assert (H : forall l m, keeps m ->
    keeps (foldl (fun data m => then_do (dump_uncompiled_method rt attr_order print_id) m data) m l)).
  { induction l as [|k l IH]; intros m Hm; [done|]. apply IH. unfold then_do. by apply keeps_bind. }
  apply H, keeps_ret.
Qed.

(** ** Samples *)

Lemma keeps_write_trace field set n :
  output_field field set -> keeps (write_trace gettid sys_open answers ffuel field set n).
Proof.
  intros Hf. unfold write_trace. apply keeps_bind; [apply keeps_TD_GET|]. intros [o|]; [|apply keeps_ret].
  apply keeps_get. intros p _ _. induction (trace_pieces _ n) as [|t l IH]; cbn [td_write_all]; keep.
Qed.

Lemma keeps_OnSample tdata td sizeof_td id sd m1 m2 m3 :
  keeps (OnSample gettid sys_open answers ffuel tdata td sizeof_td id sd m1 m2 m3).
Proof.
  unfold OnSample, GenericAnalysis, constructContext. pose proof keeps_write_trace.
  pose proof (keeps_TD_GET gettid g0 context_state). keep.
Qed.
End Callbacks.

(** ** Reading the ring buffer *)

Definition waitless {S A} (m : prog S A) : Prop := forall s, live (m s).

Lemma waitless_bind {S A B} (m : prog S A) (k : A -> prog S B) :
  waitless m -> (forall a, waitless (k a)) -> waitless (m ≫= k).
Proof.
  intros Hm Hk s. specialize (Hm s). unfold mbind, prog_bind. destruct (m s) as [[a s']|f]; [apply Hk|done].
Qed.

Lemma waitless_read page_mask n : waitless (perf_read_buffer_nbytes page_mask n).
Proof.
  intros [r|]; [|done]. cbn [perf_read_buffer_nbytes]. cbv zeta. destruct (_ <? n); [done|].
  unfold memcpy_from. destruct (_ <=? _); [|done]. destruct (_ <? n); [|done]. by destruct (_ <=? _).
Qed.

Lemma waitless_copy page_mask n : waitless (COPY_SAMPLE_DATA page_mask n).
Proof.
  unfold COPY_SAMPLE_DATA. apply waitless_bind; [apply waitless_read|]. intros [ret bs].
  apply waitless_bind; [|by intros ? ?]. intros s. unfold prog_lift. by destruct (ret =? 0).
Qed.

Lemma waitless_sample page_mask st sd : waitless (perf_read_record_sample page_mask st sd).
Proof.
  pose proof (waitless_copy page_mask) as Hc. unfold perf_read_record_sample.
  repeat match goal with
    | |- waitless (_ ≫= _) => apply waitless_bind; [|intros ?]
    | |- waitless (if ?b then _ else _) => destruct b
    | |- waitless (COPY_SAMPLE_DATA _ _) => apply Hc
    | |- waitless (mret _) => by intros ?
    end.
Qed.

Lemma waitless_header page_mask : waitless (perf_read_header page_mask).
Proof.
  unfold perf_read_header. apply waitless_bind; [apply waitless_read|]. intros [ret bs].
  by destruct (ret =? 0).
Qed.

Lemma waitless_remaining : waitless perf_num_of_remaining_data.
Proof. by intros [r|]. Qed.
Lemma waitless_skip_nbytes n : waitless (perf_skip_buffer_nbytes n).
Proof. by intros [r|]. Qed.
Lemma waitless_skip_all : waitless perf_skip_all.
Proof.
  intros [r|]; [|done]. unfold perf_skip_all.
  refine (waitless_bind _ _ waitless_remaining _ (Some r)). intros n.
  apply waitless_bind; [|by intros _ ?]. destruct (0 <? n); [apply waitless_skip_nbytes|by intros ?].
Qed.
Lemma waitless_skip e : waitless (perf_skip_record e).
Proof. by intros [r|]. Qed.
#[export] Hint Resolve waitless_sample waitless_header waitless_remaining waitless_skip_all
  waitless_skip : frame.

(** ** The judgement over the whole state of a thread *)

Section World.
Context (gettid : Z) (g0 : globals).

Definition world_ok (w : agent) : Prop := state_ok gettid g0 (w_tls w, w_user w).

Definition Aruns {B} (r r' : bool) (n : Z) (m : A B) : Prop := forall w, world_ok w -> ready (w_tls w) = r ->
  safe (m w) (fun o => world_ok o.2 /\ ready (w_tls o.2) = r' /\
    active_memory_usage (glob (w_user o.2)) = u64 (active_memory_usage (glob (w_user w)) + n)).
Definition Akeeps {B} (m : A B) : Prop := forall r, Aruns r r 0 m.

Lemma world_same w : world_ok w ->
  active_memory_usage (glob (w_user w)) = u64 (active_memory_usage (glob (w_user w)) + 0).
Proof. intros Hw. exact (memory_same gettid g0 (w_tls w, w_user w) Hw). Qed.

Lemma Aruns_bind {B C} r r1 r2 n1 n2 (m : A B) (k : B -> A C) :
  Aruns r r1 n1 m -> (forall a, Aruns r1 r2 n2 (k a)) -> Aruns r r2 (n1 + n2) (m ≫= k).
Proof.
  intros Hm Hk w Hw Hr. specialize (Hm w Hw Hr). unfold mbind, prog_bind in *.
  destruct (m w) as [[a w']|f]; [|done]. destruct Hm as (Hw' & Hr' & Hmem).
  eapply safe_weaken; [by apply (Hk a w')|]. intros [b w''] (Hw'' & Hr'' & Hmem'').
  split_and!; [done|done|]. cbn [fst snd] in *. rewrite Hmem'', Hmem. autorewrite with cxx_arith.
  f_equal. lia.
Qed.

Lemma Akeeps_bind {B C} (m : A B) (k : B -> A C) : Akeeps m -> (forall a, Akeeps (k a)) -> Akeeps (m ≫= k).
Proof. intros Hm Hk r. apply (Aruns_bind r r r 0 0); [apply Hm|]. intros a. apply Hk. Qed.

Lemma Akeeps_ret {B} (a : B) : Akeeps (mret a).
Proof. intros r w Hw Hr. split_and!; [done|done|exact (world_same w Hw)]. Qed.

Lemma Akeeps_fault {B} f : f <> Deadlock -> Akeeps (@prog_fault _ B f).
Proof. by intros Hf r w _ _. Qed.

Lemma Akeeps_lift {B} (o : outcome B) : live o -> Akeeps (prog_lift o).
Proof.
  intros Ho r w Hw Hr. unfold prog_lift. destruct o; [|done]. split_and!; [done|done|exact (world_same w Hw)].
Qed.

Lemma Aruns_on_agent {B} r r' n (m : P B) : runs gettid g0 r r' n m -> Aruns r r' n (on_agent m).
Proof.
  intros Hm w Hw Hr. specialize (Hm _ Hw Hr). unfold runs_at, on_agent in *.
  by destruct (m _) as [[b [t u]]|f].
Qed.

Lemma Aruns_on_user r r' n (m : P unit) : runs gettid g0 r r' n m -> Aruns r r' n (on_user m).
Proof.
  intros Hm w Hw Hr. specialize (Hm _ Hw Hr). unfold runs_at, on_user in *.
  by destruct (m _) as [[b [t u]]|f].
Qed.

Lemma Aruns_on_tls {B} r r' n (m : prog TLS B) :
  runs gettid g0 r r' n (tls_op m) -> Aruns r r' n (on_tls m).
Proof.
  intros Hm w Hw Hr. specialize (Hm _ Hw Hr). unfold runs_at, on_tls, tls_op in *. cbn [fst snd] in *.
  by destruct (m _) as [[b t]|f].
Qed.

Lemma Akeeps_on_tls {B} (m : prog TLS B) : keeps gettid g0 (tls_op m) -> Akeeps (on_tls m).
Proof. intros Hm r. apply Aruns_on_tls, Hm. Qed.

Lemma Akeeps_on_user (m : P unit) : keeps gettid g0 m -> Akeeps (on_user m).
Proof. intros Hm r. apply Aruns_on_user, Hm. Qed.

Lemma Akeeps_on_ring {B} p (m : prog (option perf_mmap_t) B) : waitless m -> Akeeps (on_ring p m).
Proof.
  intros Hm r w Hw Hr. unfold on_ring. destruct (w_rings w !! p) as [ring|]; [|done].
  specialize (Hm (Some ring)). destruct (m (Some ring)) as [[a [ring'|]]|f]; [|done|done].
  split_and!; [done|done|exact (world_same w Hw)].
Qed.

(** The parts of the state that the invariants do not look at. *)
Lemma Akeeps_modify f :
  (forall w : agent, w_tls (f w) = w_tls w /\ w_user (f w) = w_user w) -> Akeeps (modify f).
Proof.
  intros Hf r w Hw Hr. destruct (Hf w) as [Ht Hu]. cbn. unfold world_ok. rewrite Ht, Hu.
  split_and!; [done|done|exact (world_same w Hw)].
Qed.

Lemma Akeeps_ioctl ret fd q : Akeeps (ioctl ret fd q).
Proof. intros r w Hw Hr. split_and!; [done|done|exact (world_same w Hw)]. Qed.

Lemma Akeeps_get : Akeeps prog_get.
Proof. intros r w Hw Hr. split_and!; [done|done|exact (world_same w Hw)]. Qed.
End World.
#[export] Hint Resolve Akeeps_ioctl Akeeps_get : frame.

Ltac akeep :=
  repeat first
    [ progress cbn beta
    | match goal with
      | |- Akeeps _ _ (mret _) => apply Akeeps_ret
      | |- Akeeps _ _ (prog_fault _) => apply Akeeps_fault; discriminate
      | |- Akeeps _ _ (prog_lift _) => apply Akeeps_lift; live
      | |- Akeeps _ _ (modify _) => apply Akeeps_modify; by intros ?
      | |- Akeeps _ _ (on_ring _ _) => apply Akeeps_on_ring
      | |- Akeeps _ _ (on_tls (TD_GET _ _)) => apply Akeeps_on_tls, keeps_TD_GET
      | |- Akeeps _ _ (_ ≫= _) => apply Akeeps_bind; [|intros ?]
      | |- Akeeps _ _ (match ?x with _ => _ end) => destruct x
      | |- Akeeps _ _ (let '_ := ?x in _) => destruct x
      end
    | solve [eauto 2 with frame] ].

(** * Threads *)

Section Threads.
Context (gettid : Z) (g0 : globals) (Htotals : forall c, is_u64 (grandTot g0 c)).
Context (sys_open : str -> open_result) (answers : nat -> write_event) (close_ok : bool) (ffuel : nat).
Context (raw : outbuf) (mem : list ascii).
Context (realpath : option str -> str -> str) (loadmap : option (list str)) (garbage : str) (pagesize : Z).
Abbreviation keeps := (keeps gettid g0).
Abbreviation runs := (runs gettid g0).

Lemma unlocked_new name : unlocked (setFileName name (new_OUTPUT raw mem)).2.
Proof. unfold setFileName. repeat case_match; (split; [done|simpl; lia]). Qed.

Lemma runs_start_thread r :
  runs r true 0 (start_thread gettid raw mem realpath loadmap garbage pagesize).
Proof.
  intros [t p] Hs Hr. unfold runs_at, start_thread, new_output.
  pose proof (unlocked_new (output_name gettid (lit "method"))) as H1.
  pose proof (unlocked_new (output_name gettid (lit "trace"))) as H2.
  pose proof (unlocked_new (output_name gettid (lit "alloc"))) as H3.
  pose proof (unlocked_new (output_name gettid (lit "cachemiss"))) as H4.
  destruct (setFileName (output_name gettid (lit "method")) _) as [b1 o1],
    (setFileName (output_name gettid (lit "trace")) _) as [b2 o2],
    (setFileName (output_name gettid (lit "alloc")) _) as [b3 o3],
    (setFileName (output_name gettid (lit "cachemiss")) _) as [b4 o4].
  unfold mbind, prog_bind, mod_loc, tls_op, get_prof, prog_lift. cbn in H1, H2, H3, H4 |- *.
  pose proof (so_glob _ _ _ Hs) as Hg. cbn in Hg.
  pose proof (safe_Populate realpath loadmap garbage pagesize _ (gl_black_list _ _ Hg)) as Hb.
  destruct (PopulateBlackListAddresses _ _ _ _ _) as [b|f]; [|done]. cbn in Hb |- *.
  split_and!; [|done|exact (memory_same _ _ (t, p) Hs)].
  split; [|by destruct Hg; split|by split].
  destruct (so_tls _ _ _ Hs) as [Hc Hl]. split; [by split|]. cbn in Hc, Hl |- *. destruct (td_ptr t); [by constructor|done].
Qed.

(** ** The end *)

Lemma td_ok_delete_context t td : td_ok t td -> td_ok t (set_context_state None td).
Proof. by intros []; split. Qed.

(** Deleting an output: [r'] is what the readiness becomes. *)
Lemma runs_delete_output field set r r' :
  output_field field set ->
  (forall td, td_ok gettid td -> td_ready td = r ->
     td_ok gettid (set None td) /\ td_ready (set None td) = r') ->
  runs r r' 0 (delete_output gettid answers close_ok ffuel field set).
Proof.
  intros Hf Hset [t p] Hs Hr. destruct (get_ok gettid t (so_tls _ _ _ Hs)) as (td & Hget & Htd & Hrd).
  unfold runs_at, delete_output, tls_op, TD_GET, TD_SET, mbind, prog_bind, prog_lift, mret, prog_ret.
  cbn [fst snd]. rewrite Hget. destruct (Hset td Htd (eq_trans Hrd Hr)) as [H1 H2].
  assert (Hfin : state_ok gettid g0 (mk_tls (Some (set None td)) (lost t), p)).
  { split; [split; [done|apply Hs]|apply Hs|apply Hs]. }
  pose proof (ofl_get gettid td Htd) as Hu. destruct (field td) as [o|]; cbn [fst snd].
  - pose proof (live_destroy answers close_ok ffuel o Hu) as Hd.
    destruct (destroy_OUTPUT answers close_ok ffuel o); [|done]. cbn.
    split_and!; [exact Hfin|exact H2|exact (memory_same _ _ (t, p) Hs)].
  - split_and!; [exact Hfin|exact H2|exact (memory_same _ _ (t, p) Hs)].
Qed.

Lemma keeps_files f1 f2 f3 :
  (forall g, of_open (f1 g) = of_open (_statistics_file g)) ->
  keeps (mod_glob (fun g => set_files (f1 g) (f2 g) (f3 g) g)).
Proof.
  intros Hf. apply keeps_mod_glob. intros g Hg. split; [|done]. destruct Hg. split; try done.
  cbn. by rewrite Hf.
Qed.

Lemma open_insert_text text f : of_open (insert_text text f) = of_open f.
Proof. unfold insert_text. by destruct (of_fail f), (of_open f). Qed.
Lemma open_seekp0 f : of_open (seekp0 f) = of_open f.
Proof. unfold seekp0. by destruct (of_fail f), (of_open f). Qed.

Lemma keeps_output_statistics ratio : keeps (mod_glob (output_statistics ratio)).
Proof.
  apply keeps_mod_glob. intros g Hg. unfold output_statistics. destruct (statistics_text ratio g); [done|].
  split; [|done]. destruct Hg. split; try done. cbn. by rewrite open_insert_text.
Qed.

Lemma keeps_add_totals l : locals_ok l -> keeps (mod_glob (add_totals l)).
Proof.
  intros Hl. apply keeps_mod_glob. intros g Hg. destruct Hg as [? ? ? ? Ht ?]. split; [|done].
  split; try done. intros c. cbn. rewrite (lo_total _ Hl), Z.add_0_r, Ht. by apply u64_small.
Qed.

Lemma runs_dealloc client : runs false false 0 (tls_op (thread_data_dealloc client)).
Proof.
  intros [t p] Hs Hr. unfold runs_at, tls_op, thread_data_dealloc. cbn [fst snd].
  destruct (td_ptr t) as [td|] eqn:Ht.
  2: { split_and!; [exact Hs|exact Hr|exact (memory_same _ _ (t, p) Hs)]. }
  assert (state_ok gettid g0 (mk_tls None (lost t), p)) as Hs'.
  { split; [split; [done|apply Hs]|apply Hs|apply Hs]. }
  unfold cxx_assert, mbind, outcome_bind, mret, outcome_ret.
  repeat match goal with |- context [if ?b then _ else _] => destruct b; try done end.
  all: split_and!; [exact Hs'|done|exact (memory_same _ _ (t, p) Hs)].
Qed.

Lemma keeps_merge_totals ratio : keeps (merge_totals ratio).
Proof.
  unfold merge_totals. intros r. apply runs_get. intros p Hg Hl.
  pose proof (keeps_add_totals (loc p) Hl). rewrite (gl_output_lock _ _ Hg).
  pose proof (keeps_output_statistics ratio).
  pose proof (keeps_files (fun g => seekp0 (_statistics_file g)) _method_file _rdx_file
    (fun g => open_seekp0 (_statistics_file g))).
  assert (K : keeps (if onload_flag (glob p) then mod_glob (add_totals (loc p)) else
    mod_glob (add_totals (loc p));; mod_glob rewind;; mod_glob (output_statistics ratio)))
    by (unfold rewind; keep).
  apply K.
Qed.

Lemma runs_threadEnd ratio r :
  runs r false 0 (threadEnd gettid answers close_ok ffuel ratio).
Proof.
  unfold threadEnd.
  apply (runs_bind gettid g0 r r false 0 0);
    [apply runs_delete_output; [apply _|]; intros td [] <-; by repeat split|intros o1].
  apply (runs_bind gettid g0 r r false 0 0);
    [apply runs_delete_output; [apply _|]; intros td [] <-; by repeat split|intros o2].
  apply (runs_bind gettid g0 r false false 0 0);
    [apply runs_delete_output; [apply _|]; intros td [] _; split; [by split|apply andb_false_r]|intros o3].
  apply (runs_bind gettid g0 false false false 0 0);
    [apply runs_delete_output; [apply _|]; intros td [] <-; by repeat split|intros o4].
  apply (runs_bind gettid g0 false false false 0 0); [apply runs_TD_SET; by intros td []|intros _].
  apply (runs_bind gettid g0 false false false 0 0);
    [apply runs_TD_SET; intros td [] <-; by repeat split|intros _].
  apply runs_get. intros p1 _ _.
  apply (runs_bind gettid g0 false false false 0 0); [apply runs_dealloc|intros _].
  apply keeps_runs; [apply keeps_merge_totals|]. intros _. apply keeps_ret.
Qed.
End Threads.

(** ** Events and the signal handler *)

Section Events.
Context (gettid : Z) (g0 : globals).
Context (event_info : list perf_event_info_t) (num_events : Z).
Context (ioctl_ret : list (request * Z) -> request -> Z -> Z).
Context (sys_perf_event_open : list Z -> perf_event_attr -> Z -> Z).
Context (fcntl_ok : Z -> bool) (sys_mmap : Z -> option perf_mmap_t).
Abbreviation Akeeps := (Akeeps gettid g0).

Lemma Akeeps_set_perf (f : TD -> option events) :
  Akeeps (on_tls (TD_SET gettid (fun td => set_perf_state (f td) td))).
Proof. apply Akeeps_on_tls, keeps_TD_SET. intros td []. by repeat split. Qed.

Lemma Akeeps_enter : Akeeps (on_tls (profiler_safe_enter gettid)).
Proof.
  apply Akeeps_on_tls.
  intros r [t p] Hs Hr. destruct (get_ok gettid t (so_tls _ _ _ Hs)) as (td & Hget & Htd & Hrd).
  unfold runs_at, tls_op, profiler_safe_enter, TD_GET, TD_SET, mbind, prog_bind. cbn [fst snd].
  rewrite Hget. cbn. split_and!; [|exact (eq_trans Hrd Hr)|exact (memory_same _ _ (t, p) Hs)].
  split; [split; [|apply Hs]|apply Hs|apply Hs]. by destruct Htd; split.
Qed.

Lemma Akeeps_exit : Akeeps (on_tls (profiler_safe_exit gettid)).
Proof. apply Akeeps_on_tls, keeps_TD_SET. intros td []. by repeat split. Qed.

Lemma Akeeps_restart_fds fds : Akeeps (restart_fds ioctl_ret fds).
Proof. induction fds as [|fd fds IH]; cbn [restart_fds]; akeep. Qed.

Lemma Akeeps_all_fds q fds : Akeeps (all_fds ioctl_ret q fds).
Proof. induction fds as [|fd fds IH]; cbn [all_fds]; akeep. Qed.

Lemma Akeeps_assert_ok (m : A bool) : Akeeps m -> Akeeps (assert_ok m).
Proof. intros Hm. unfold assert_ok. akeep. Qed.

Lemma Akeeps_handle_record page_mask cb current info :
  (forall id sd m1 m2 m3, keeps gettid g0 (cb id sd m1 m2 m3)) ->
  Akeeps (handle_record page_mask cb current info).
Proof. intros Hcb. unfold handle_record. pose proof (Akeeps_on_user gettid g0). akeep. Qed.

Lemma Akeeps_drain page_mask fuel cb current info :
  (forall id sd m1 m2 m3, keeps gettid g0 (cb id sd m1 m2 m3)) ->
  Akeeps (drain page_mask fuel cb current info).
Proof.
  intros Hcb. pose proof (Akeeps_handle_record page_mask cb current info Hcb).
  induction fuel as [|fuel IH]; cbn [drain]; akeep.
Qed.

Lemma Akeeps_handler page_mask cb fuel si_code si_fd :
  (forall id sd m1 m2 m3, keeps gettid g0 (cb id sd m1 m2 m3)) ->
  Akeeps (perf_event_handler gettid page_mask event_info (Some cb) ioctl_ret fuel si_code si_fd).
Proof.
  intros Hcb. unfold perf_event_handler, perf_stop_all, perf_start_all, restart_perf_event,
    restart_perf_event_fd. pose proof Akeeps_enter. pose proof Akeeps_exit.
  pose proof Akeeps_assert_ok. pose proof Akeeps_all_fds. pose proof Akeeps_restart_fds.
  pose proof (fun current info => Akeeps_drain page_mask fuel cb current info Hcb). akeep.
Qed.

Lemma Akeeps_open_cpus info cpus fds buf :
  Akeeps (open_cpus ioctl_ret sys_perf_event_open fcntl_ok sys_mmap info cpus fds buf).
Proof.
  revert fds buf. induction cpus as [|cpu cpus IH]; intros fds buf; cbn [open_cpus]; [akeep|].
  apply Akeeps_bind; [unfold open_cpu; akeep|]. intros [[fd p]|]; [apply IH|apply Akeeps_ret].
Qed.

Lemma Akeeps_setup_events n i :
  Akeeps (setup_events gettid event_info ioctl_ret sys_perf_event_open fcntl_ok sys_mmap n i).
Proof.
  revert i. induction n as [|n IH]; intros i; cbn [setup_events]; unfold push_event; [akeep|].
  pose proof Akeeps_open_cpus. pose proof Akeeps_set_perf. akeep.
Qed.

Lemma Akeeps_setupEvents :
  Akeeps (setupEvents gettid event_info num_events ioctl_ret sys_perf_event_open fcntl_ok sys_mmap).
Proof.
  unfold setupEvents, perf_start_all. pose proof Akeeps_setup_events. pose proof Akeeps_all_fds.
  pose proof Akeeps_set_perf. akeep.
Qed.
End Events.
