(* ===== verification/Process.v ===== *)
(** A process with many threads: the runtime runs callbacks of the agent and the
    signal handler on any thread, in any order, nested where a callback calls back
    into Java, while the kernel writes to the buffers.  The threads share the variables of [profiler.cpp] and the
    descriptors; each has its own data.

    An abstract process keeps no more than the threads that are started and the
    memory in use; every run of the agent is a run of it. *)
From stdpp Require Import base numbers option list gmap sets strings.
From Stdlib Require Import ZArith Lia Ascii.
From S2P Require Import Prelude.
From S2P Require Import Cxx.
From S2P Require Import PerfMmap.
From S2P Require Import Metrics.
From S2P Require Import Xml.
From S2P Require Import Jvmti.
From S2P Require Import NewContext.
From S2P Require Import OutBuf.
From S2P Require Import Output.
From S2P Require Import ThreadData.
From S2P Require Import PerfUtil.
From S2P Require Import ProfilerSupport.
From S2P Require Import PerfConfig.
From S2P Require Import PerfEvents.
From S2P Require Import Profiler.
From S2P Require Import Agent.
From S2P Require Import MethodIds.
From S2P Require Import Frame.

(** * The program *)

(** What the system answers, and the addresses and bytes that the code reads. *)
Record system := mk_system {
  s_open : str -> open_result;
  s_answers : nat -> write_event;
  s_close_ok : bool;
  s_raw : outbuf;
  s_mem : list ascii;
  s_realpath : option str -> str -> str;
  s_loadmap : option (list str);
  s_garbage : str;
  s_pagesize : Z;
  s_page_mask : Z;
  s_event_info : list perf_event_info_t;
  s_num_events : Z;
  s_ioctl : list (request * Z) -> request -> Z -> Z;
  s_perf_event_open : list Z -> perf_event_attr -> Z -> Z;
  s_fcntl_ok : Z -> bool;
  s_mmap : Z -> option perf_mmap_t;
  s_tdata : Z;
  s_td : Z;
  s_sizeof_td : Z;
  s_ratio : Z -> Z -> str;
  s_ffuel : nat;
  s_fuel : nat
}.

(** What the runtime reports of Java; during an allocation the method
    [Class.getName] runs and can cause more reports. *)
Inductive java_event :=
| MethodEntered (rt : runtime)
| Allocated (rt : runtime) (during : list java_event) (mid_getName thread object klass size : Z)
| Freed (order : list str -> list str) (tag : Z)
| GarbageStart
| GarbageEnd
| ClassLoaded
| ClassPrepared (rt : runtime) (klass : Z)
| VMStarted (rt : runtime)
| VMDied (rt : runtime) (attr_order : gmap str str -> list (str * str)) (print_id : Z -> str)
    (order : gset Z -> list Z) (methods : gset Z).

Inductive event :=
| ThreadStarted
| ThreadEnded
| Java (e : java_event)
| Signal (si_code si_fd : Z)
| KernelWrote (buffer : positive) (head : Z) (data : list Z).

Section Program.
Context (sys : system) (t : Z).

Fixpoint run_java (e : java_event) : P unit :=
  match e with
  | MethodEntered rt => MethodEntry t (s_open sys) (s_answers sys) (s_ffuel sys) rt
  | Allocated rt during mid thread object klass size =>
    ObjectAllocCallback t (s_open sys) (s_answers sys) (s_ffuel sys) rt
      (foldr (fun e rest => run_java e;; rest) (mret tt) during) mid thread object klass size
  | Freed order tag => ObjectFreeCallback order tag
  | GarbageStart => callbackGCStart t
  | GarbageEnd => callbackGCEnd t
  | ClassLoaded => callbackClassLoad t
  | ClassPrepared rt klass => callbackClassPrepare t rt klass
  | VMStarted rt => callbackVMInit rt
  | VMDied rt attr_order print_id order methods => callbackVMDeath t rt attr_order print_id order methods
  end.

Definition sample_callback (id : Z) (sd : perf_sample_data_t) (m1 m2 m3 : Z) : P unit :=
  OnSample t (s_open sys) (s_answers sys) (s_ffuel sys) (s_tdata sys) (s_td sys) (s_sizeof_td sys)
    id sd m1 m2 m3.

(** The kernel moves the head of a buffer of the thread and changes its data. *)
Definition kernel_write (buffer : positive) (head : Z) (data : list Z) : A unit :=
  modify (fun w => set_rings
    (alter (fun r => mk_mmap head (data_tail r) data) buffer (w_rings w)) w).

Definition run (e : event) : A unit :=
  match e with
  | ThreadStarted =>
    callbackThreadStart t (threadStart t (s_raw sys) (s_mem sys) (s_realpath sys) (s_loadmap sys)
      (s_garbage sys) (s_pagesize sys) (s_event_info sys) (s_num_events sys) (s_ioctl sys)
      (s_perf_event_open sys) (s_fcntl_ok sys) (s_mmap sys))
  | ThreadEnded =>
    callbackThreadEnd t (on_agent
      (threadEnd t (s_answers sys) (s_close_ok sys) (s_ffuel sys) (s_ratio sys));; mret tt)
  | Java e => on_agent (run_java e)
  | Signal si_code si_fd =>
    perf_event_handler t (s_page_mask sys) (s_event_info sys) (Some sample_callback) (s_ioctl sys)
      (s_fuel sys) si_code si_fd
  | KernelWrote buffer head data => kernel_write buffer head data
  end.
End Program.

(** * The process *)

(** What a thread has for itself; a thread that was never seen has nothing. *)
Record thread := mk_thread {
  th_tls : TLS; th_rings : gmap positive perf_mmap_t; th_ioctls : list (request * Z); th_loc : locals
}.
Definition new_thread : thread := mk_thread (mk_tls None []) ∅ [] (mk_locals zero_totals ∅ ∅ []).

Record process := mk_process { shared : globals; open_fds : list Z; threads : gmap Z thread }.

Definition thread_of (p : process) (t : Z) : thread := default new_thread (threads p !! t).

(** The state as thread [t] sees it, and the process after [t] has run. *)
Definition view (p : process) (t : Z) : agent :=
  let th := thread_of p t in
  mk_world (th_tls th) (th_rings th) (open_fds p) (th_ioctls th) (mk_profiler (shared p) (th_loc th)).
Definition commit (p : process) (t : Z) (w : agent) : process :=
  mk_process (glob (w_user w)) (w_fds w)
    (<[t := mk_thread (w_tls w) (w_rings w) (w_ioctls w) (loc (w_user w))]> (threads p)).

(** One event on one thread, and a sequence of them. *)
Definition step (sys : system) (p : process) (e : Z * event) : outcome process :=
  match run sys e.1 e.2 (view p e.1) with
  | Val (_, w) => Val (commit p e.1 w)
  | Fault f => Fault f
  end.

Fixpoint steps (sys : system) (p : process) (es : list (Z * event)) : outcome process :=
  match es with [] => mret p | e :: es => p ← step sys p e; steps sys p es end.

(** * The abstract process *)

(** What an event adds to the memory in use: nested events count when the thread
    is started. *)
Fixpoint net (started : bool) (e : java_event) : Z :=
  match e with
  | Allocated _ during _ _ _ _ size =>
    u64 size + if started then foldr (fun e n => net started e + n) 0 during else 0
  | Freed _ tag => - u64 tag
  | _ => 0
  end.

Record abstract := mk_abstract { ab_started : gset Z; ab_memory : Z }.

Definition account (a : abstract) (e : Z * event) : abstract :=
  match e.2 with
  | ThreadStarted => mk_abstract ({[e.1]} ∪ ab_started a) (ab_memory a)
  | ThreadEnded => mk_abstract (ab_started a ∖ {[e.1]}) (ab_memory a)
  | Java j => mk_abstract (ab_started a)
                (u64 (ab_memory a + net (bool_decide (e.1 ∈ ab_started a)) j))
  | Signal _ _ | KernelWrote _ _ _ => a
  end.

(** The invariant of a process: of the variables and of every thread. *)
Record process_ok (g0 : globals) (p : process) : Prop := mk_process_ok {
  po_shared : globals_ok g0 (shared p);
  po_threads : map_Forall (fun t th => tls_ok t (th_tls th) /\ locals_ok (th_loc th)) (threads p)
}.

(** The abstract process describes a process. *)
Record describes (g0 : globals) (a : abstract) (p : process) : Prop := mk_describes {
  de_ok : process_ok g0 p;
  de_memory : active_memory_usage (shared p) = ab_memory a;
  de_started : forall t, ready (th_tls (thread_of p t)) = bool_decide (t ∈ ab_started a)
}.

(** * Facts *)

(** Induction with the nested events. *)
Lemma java_event_nested (Q : java_event -> Prop) :
  (forall rt, Q (MethodEntered rt)) ->
  (forall rt during mid thread object klass size, Forall Q during ->
     Q (Allocated rt during mid thread object klass size)) ->
  (forall order tag, Q (Freed order tag)) -> Q GarbageStart -> Q GarbageEnd -> Q ClassLoaded ->
  (forall rt klass, Q (ClassPrepared rt klass)) -> (forall rt, Q (VMStarted rt)) ->
  (forall rt a i o ms, Q (VMDied rt a i o ms)) -> forall e, Q e.
Proof.
  intros HM HA HF HG1 HG2 HC HP HV HD. fix IH 1. intros [ |rt during| | | | | | | ];
    [apply HM| |apply HF|exact HG1|exact HG2|exact HC|apply HP|apply HV|apply HD].
  apply HA. induction during as [|e l IHl]; constructor; [apply IH|exact IHl].
Qed.

Section Facts.
Context (sys : system) (g0 : globals) (Htotals : forall c, is_u64 (grandTot g0 c)).

Lemma run_java_runs t e r : runs t g0 r r (net r e) (run_java sys t e).
Proof.
  revert r. induction e as [rt|rt during mid thread object klass size IH|order tag| | | |rt k|rt|rt a i o ms]
    using java_event_nested; intros r; cbn [run_java net].
  - apply keeps_MethodEntry.
  - apply runs_ObjectAlloc. intros ->. induction IH as [|e l He _ IHl]; cbn [foldr]; [apply keeps_ret|].
    by apply (runs_bind t g0 true true true); [apply He|intros _].
  - apply runs_ObjectFree.
  - apply keeps_GCStart.
  - apply keeps_GCEnd.
  - apply keeps_ClassLoad.
  - apply keeps_ClassPrepare.
  - apply keeps_VMInit.
  - apply keeps_VMDeath.
Qed.

(** What becomes of the readiness and the memory. *)
Definition ready_after (e : event) (r : bool) : bool :=
  match e with ThreadStarted => true | ThreadEnded => false | _ => r end.
Definition added (e : event) (r : bool) : Z := match e with Java j => net r j | _ => 0 end.

Lemma run_runs t e r : Aruns t g0 r (ready_after e r) (added e r) (run sys t e).
Proof.
  destruct e as [| |j|code fd|buffer head data]; cbn [run ready_after added].
  - unfold callbackThreadStart, threadStart.
    apply (Aruns_bind t g0 r r true 0 0); [apply Aruns_on_agent, keeps_block|intros _].
    apply (Aruns_bind t g0 r true true 0 0);
      [|intros _; apply Aruns_on_agent, keeps_unblock].
    apply (Aruns_bind t g0 r true true 0 0); [by apply Aruns_on_agent, runs_start_thread|intros _].
    pose proof Akeeps_setupEvents. apply Akeeps_bind; [done|intros _; apply Akeeps_ret].
  - unfold callbackThreadEnd.
    apply (Aruns_bind t g0 r r false 0 0); [apply Aruns_on_agent, keeps_block|intros _].
    apply (Aruns_bind t g0 r false false 0 0);
      [|intros _; apply Aruns_on_agent, keeps_unblock].
    apply (Aruns_bind t g0 r false false 0 0);
      [by apply Aruns_on_agent, runs_threadEnd|intros _; apply Akeeps_ret].
  - apply Aruns_on_agent, run_java_runs.
  - apply Akeeps_handler. intros. apply keeps_OnSample.
  - apply Akeeps_modify. by intros w.
Qed.

Lemma new_thread_ok t : tls_ok t (th_tls new_thread) /\ locals_ok (th_loc new_thread).
Proof. by split. Qed.

Lemma view_ok p t : process_ok g0 p -> world_ok t g0 (view p t).
Proof.
  intros [Hg Ht]. unfold view, thread_of, world_ok. cbn.
  assert (tls_ok t (th_tls (default new_thread (threads p !! t))) /\
          locals_ok (th_loc (default new_thread (threads p !! t)))) as [H1 H2].
  { destruct (threads p !! t) as [th|] eqn:E; [exact (Ht t th E)|apply new_thread_ok]. }
  by split.
Qed.

Lemma thread_of_commit p t w t' :
  thread_of (commit p t w) t' =
  if decide (t = t') then mk_thread (w_tls w) (w_rings w) (w_ioctls w) (loc (w_user w)) else thread_of p t'.
Proof.
  unfold thread_of, commit. cbn. case_decide as H; [subst; by rewrite lookup_insert_eq|].
  by rewrite lookup_insert_ne.
Qed.

Lemma step_describes a p e :
  describes g0 a p ->
  safe (step sys p e) (describes g0 (account a e)).
Proof.
  intros [Hok Hm Hr]. destruct e as [t e]. unfold step. cbn [fst snd].
  pose proof (run_runs t e (bool_decide (t ∈ ab_started a)) (view p t) (view_ok p t Hok) (Hr t)) as H.
  destruct (run sys t e (view p t)) as [[u w]|f]; [|exact H].
  destruct H as (Hw & Hr' & Hm'). cbn [fst snd] in *. cbn in Hm'. rewrite Hm in Hm'.
  split.
  - split; [apply Hw|]. cbn. apply map_Forall_insert_2; [split; apply Hw|apply Hok].
  - cbn. rewrite Hm'. pose proof (gl_memory _ _ (po_shared _ _ Hok)) as Hu. rewrite Hm in Hu.
    destruct e; cbn; rewrite ?Z.add_0_r; try done; by apply u64_small.
  - intros t'. rewrite thread_of_commit. destruct (decide (t = t')) as [<-|Ht].
    + cbn. rewrite Hr'. symmetry. destruct e; cbn; [| |done|done|done].
      * apply bool_decide_eq_true_2. set_solver.
      * apply bool_decide_eq_false_2. set_solver.
    + rewrite Hr. destruct e; cbn; [| |done|done|done]; apply bool_decide_ext; set_solver.
Qed.

(** The abstract process of a process. *)
Definition abstract_of (p : process) : abstract :=
  mk_abstract (dom (base.filter (fun th => ready (th_tls th.2) = true) (threads p)))
    (active_memory_usage (shared p)).

Lemma abstract_of_describes p : process_ok g0 p -> describes g0 (abstract_of p) p.
Proof.
  intros Hp. split; [done|done|]. intros t. symmetry. unfold thread_of. cbn.
  destruct (threads p !! t) as [th|] eqn:E; cbn.
  - destruct (ready (th_tls th)) eqn:Er.
    + apply bool_decide_eq_true_2, elem_of_dom. exists th. by apply map_lookup_filter_Some_2.
    + apply bool_decide_eq_false_2. intros [th' [H1 H2]%map_lookup_filter_Some]%elem_of_dom.
      rewrite E in H1. injection H1 as <-. cbn in H2. congruence.
  - apply bool_decide_eq_false_2. intros [th' [H1 H2]%map_lookup_filter_Some]%elem_of_dom. congruence.
Qed.

Lemma steps_describe es a p :
  describes g0 a p -> safe (steps sys p es) (describes g0 (foldl account a es)).
Proof.
  revert a p. induction es as [|e es IH]; intros a p Hp; [done|]. cbn [steps foldl].
  apply (safe_bind _ _ (describes g0 (account a e))); [by apply step_describes|].
  intros p1. apply IH.
Qed.
End Facts.

(** * Properties *)

(** C4: no sequence of events on any threads breaks the invariants of the process,
    and none waits for a lock that is held already: between two events every lock is
    free, the records of a thread are its own and their streams unlocked, counters
    are machine words, the set of live objects has no duplicates. *)
Theorem process_invariant sys g0 es p
  (Htotals : forall c, is_u64 (grandTot g0 c)) (Hp : process_ok g0 p) :
  match steps sys p es with Val p' => process_ok g0 p' | Fault f => f <> Deadlock end.
Proof.
  pose proof (steps_describe sys g0 Htotals es _ p (abstract_of_describes g0 p Hp)) as H.
  destruct (steps sys p es); [apply H|exact H].
Qed.

(** C3: a process refines an account of its events: the memory in use is what was
    there plus every allocation and less every tag of a free, on whatever thread and
    however nested, an allocation within an allocation counting on started threads;
    a thread is started exactly between its start and its end; no total ever
    changes. *)
Theorem process_refines sys g0 es p p'
  (Htotals : forall c, is_u64 (grandTot g0 c)) (Hp : process_ok g0 p)
  (Hrun : steps sys p es = Val p') :
  let a := foldl account (abstract_of p) es in
  active_memory_usage (shared p') = ab_memory a /\
  (forall t, ready (th_tls (thread_of p' t)) = bool_decide (t ∈ ab_started a)) /\
  (forall c, grandTot (shared p') c = grandTot (shared p) c).
Proof.
  pose proof (steps_describe sys g0 Htotals es _ p (abstract_of_describes g0 p Hp)) as H.
  rewrite Hrun in H. destruct H as [Hp' Hm Hr]. split_and!; [done|done|].
  intros c. by rewrite (gl_totals _ _ (po_shared _ _ Hp')), (gl_totals _ _ (po_shared _ _ Hp)).
Qed.

Module Examples.
Definition system0 : system := mk_system Profiler.Examples.always_open Output.Examples.answers true
  Output.Examples.raw Output.Examples.mem (fun _ s => s) (Some []) [] 4096 4095 [] 0 (fun _ _ _ => 0)
  (fun _ _ _ => -1) (fun _ => true) (fun _ => None) 0 0 0 (fun _ _ => []) 3000 10.
Definition process0 : process := mk_process Profiler.Examples.globals0 [] ∅.

(** Thread 42 starts and allocates 64 bytes while [getName] allocates 16 more;
    thread 7, which was never started, allocates 8 bytes with the same 16 inside,
    which do not happen; 42 ends. *)
Definition alloc0 (size : Z) : event :=
  Java (Allocated Agent.Examples.rt0
    [MethodEntered Agent.Examples.rt0; Allocated Agent.Examples.rt0 [] 99 1 6 7 16] 99 1 5 7 size).
Definition events0 : list (Z * event) :=
  [(42, ThreadStarted); (42, alloc0 64); (7, alloc0 8); (7, Java GarbageStart);
   (42, Signal 0 5); (42, ThreadEnded)].

Definition result0 : process :=
  match steps system0 process0 events0 with Val p => p | Fault _ => process0 end.

Lemma run0 : steps system0 process0 events0 = Val result0.
Proof. vm_compute. reflexivity. Qed.

(** The mark that is removed at the end of a thread makes a new record after the
    old one is deleted; nothing frees it. *)
Example ended_thread_has_record :
  td_ptr (th_tls (thread_of result0 42)) = Some (zero_td 42).
Proof. vm_compute. reflexivity. Qed.

Lemma process0_ok : process_ok Profiler.Examples.globals0 process0.
Proof.
  split; [|done]. split; try done. constructor.
Qed.

Lemma totals0_u64 c : is_u64 (grandTot Profiler.Examples.globals0 c).
Proof. by split. Qed.

Lemma process_invariant_witness : process_ok Profiler.Examples.globals0 result0.
Proof.
  pose proof (process_invariant system0 Profiler.Examples.globals0 events0 process0 totals0_u64 process0_ok) as H.
  rewrite run0 in H. exact H.
Defined.

Lemma process_refines_witness :
  active_memory_usage (shared result0) = 64 + 16 + 8 + active_memory_usage (shared process0) /\
  ready (th_tls (thread_of result0 42)) = false.
Proof.
  destruct (process_refines system0 Profiler.Examples.globals0 events0 process0 result0 totals0_u64 process0_ok run0)
    as (H1 & H2 & _).
  split; [rewrite H1; vm_compute; reflexivity|rewrite H2; vm_compute; reflexivity].
Defined.
End Examples.
