(* ===== verification/Startup.v ===== *)
(** From the argument of the agent to the running process: [Agent_OnAttach] with
    [JVM::init] and [Profiler::init], from the static values of the variables of
    [agent.cpp], [profiler.cpp], [perf_interface.cpp] and [perf_mmap.cpp].

    The theorem says for every list of events what the agent is after it was attached
    with their text: which of them it accepts, and that what it leaves is a process as
    [Process.v] has it, with the events, metrics, callback and buffer mask that the
    signal handler relies on. *)
From stdpp Require Import base numbers option list gmap strings.
From Stdlib Require Import ZArith Lia Ascii.
From S2P Require Import Prelude.
From S2P Require Import Cxx.
From S2P Require Import PerfMmap.
From S2P Require Import Metrics.
From S2P Require Import Jvmti.
From S2P Require Import NewContext.
From S2P Require Import Argument.
From S2P Require Import OutBuf.
From S2P Require Import Output.
From S2P Require Import ThreadData.
From S2P Require Import PerfUtil.
From S2P Require Import ProfilerSupport.
From S2P Require Import PerfConfig.
From S2P Require Import PerfEvents.
From S2P Require Import Profiler.
From S2P Require Import Registration.
From S2P Require Import Frame.
From S2P Require Import Process.

Import Enum.

(** * The entry point *)

(** The variables as the program starts. *)
Definition static_globals : globals := mk_globals [] false false zero_totals 0 0 false
  ofstream0 ofstream0 ofstream0 [] [] (mk_blacklist false []) [] false [] 0 [].

Definition static_state {C} : start_state C :=
  mk_start_state perf_vars0 static_globals (mk_keyed false (mk_tls None [])).

(** What the system answers at the start. *)
Record environment := mk_environment {
  en_key_created : bool;
  en_pfm_initialized : bool;
  en_pagesize : Z;
  en_sigaction : Z;
  en_sigmask : Z;
  en_sizeof_attr : Z;
  en_pfm_encode : str -> perf_event_attr -> option perf_event_attr
}.

Section Attach.
Context {C : Type} (t : Z) (answer : log_t handler -> jvmti_call handler -> jvmtiError).
Context (env : environment) (OnSample : C).

(** The marks around the start; the first comes before the key is created. *)
Definition on_caller {A} (m : prog (start_state C) A) : prog (start_state C * JVM) A := fun s =>
  '(a, s1) ← m s.1; mret (a, (s1, s.2)).
Definition block_caller : prog (start_state C * JVM) unit :=
  on_caller (on_thread (through_key (BLOCK_SAMPLE t))).
Definition unblock_caller : prog (start_state C * JVM) unit :=
  on_caller (on_thread (through_key (UNBLOCK_SAMPLE t))).

Definition profiler_init : list str -> prog (start_state C) unit :=
  init (en_sizeof_attr env) (en_pfm_encode env) (en_key_created env) (en_pfm_initialized env)
    (en_pagesize env) (en_sigaction env) (en_sigmask env) OnSample.

Definition attach (arg : str) : prog (start_state C * JVM) Z :=
  Agent_OnAttach block_caller unblock_caller
    (JVM_init answer profiler_init arg true 0 JVMTI_JLOCATION_JVMBCI).
End Attach.

(** The process of an agent that was attached on thread [t]. *)
Definition attached {C} (t : Z) (s : start_state C) : process :=
  mk_process (ss_glob s) []
    {[ t := mk_thread (behind (ss_thread s)) ∅ [] (mk_locals zero_totals ∅ ∅ []) ]}.

(** * The reference *)

(** The text of the argument for some events. *)
Definition argument_of (es : list event_text) : str := join (print_event <$> es).

Definition parsed_of (e : event_text) : parsed :=
  mk_parsed (to_upper (et_client e)) (event_name e) (u32 (digits (et_rate e) 0))
    (Z.of_nat (nat_of_ascii (et_level e) - 48) mod 4).

(** An event whose text is one token of the argument. *)
Record token_ok (e : event_text) : Prop := mk_token_ok {
  to_event : event_ok e;
  to_plain : Forall (fun c => c <> ","%char /\ c <> NUL) (print_event e)
}.

Definition environment_ok (env : environment) : bool :=
  en_key_created env && en_pfm_initialized env && (en_sigaction env =? 0) && (en_sigmask env =? 0).

(** What the agent is after it was attached with some events. *)
Record started {C} (t : Z) (env : environment) (cb : C) (es : list event_text) (s : start_state C)
  : Prop := mk_started {
  st_number : num_events (pv_config (ss_perf s)) = Z.of_nat (length es);
  st_events : forall i e, es !! i = Some e -> exists info,
    event_info (pv_config (ss_perf s)) !! i = Some info /\
    ei_name info = event_name e /\ sample_period (ei_attr info) = u32 (digits (et_rate e) 0) /\
    forall m, m ∈ [metric_id1 info; metric_id2 info; metric_id3 info] ->
      getMetricInfo m (metric_infos (ss_glob s)) = Some (metric_of (parsed_of e));
  st_client : forall e, head es = Some e -> clientName (ss_glob s) = to_upper (et_client e);
  st_callback : user_sample_cb (ss_perf s) = Some cb;
  st_mask : page_mask (ss_perf s) = en_pagesize env - 1;
  st_mode : attached_mode (ss_glob s);
  st_process : process_ok (ss_glob s) (attached t s);
  st_records : ss_thread s = mk_keyed true
    (mk_tls (Some (zero_td t)) [set_inside_agent true (zero_td t)])
}.

(** * Facts *)

Lemma toupper_idem c : toupper (toupper c) = toupper c.
Proof. by destruct c as [[] [] [] [] [] [] [] []]; vm_compute. Qed.

Lemma to_upper_idem s : to_upper (to_upper s) = to_upper s.
Proof. unfold to_upper. rewrite <- list_fmap_compose. apply list_fmap_ext. intros i c _. apply toupper_idem. Qed.

Lemma parse_tokens es : Forall token_ok es ->
  Forall2 (fun event p => parse_event event = Val p) (print_event <$> es) (parsed_of <$> es).
Proof.
  induction 1 as [|e es [He _] _ IH]; cbn; constructor; [by apply parse_event_correct|exact IH].
Qed.

Lemma print_event_not_nil e : print_event e <> [].
Proof. unfold print_event. by destruct (et_client e). Qed.

Lemma argument_tokens es : Forall token_ok es -> size (argument_of es) < npos ->
  exists a, new_Argument (argument_of es) = Val a /\ getPerfEventList a = print_event <$> es.
Proof.
  intros Hes Hsize. apply Argument_roundtrip; [|exact Hsize]. apply Forall_fmap.
  eapply Forall_impl; [exact Hes|]. intros e [_ He]. split; [apply print_event_not_nil|exact He].
Qed.

Lemma metrics_of_lookup ps i p k : ps !! i = Some p -> (k < 3)%nat ->
  metrics_of ps !! (3 * i + k)%nat = Some (metric_of p).
Proof.
  revert i. induction ps as [|q ps IH]; intros i Hi Hk; [done|].
  change (metrics_of (q :: ps)) with ([metric_of q; metric_of q; metric_of q] ++ metrics_of ps).
  destruct i as [|i].
  - injection Hi as ->. rewrite lookup_app_l by (simpl; lia). by do 3 (destruct k as [|k]; [done|]); lia.
  - rewrite lookup_app_r by (simpl; lia). replace (3 * S i + k - _)%nat with (3 * i + k)%nat by (simpl; lia).
    by apply IH.
Qed.

Lemma metric_lookup ps i p k : (length ps <= 10)%nat -> ps !! i = Some p -> (k < 3)%nat ->
  getMetricInfo (3 * Z.of_nat i + Z.of_nat k) (metrics_of ps) = Some (metric_of p).
Proof.
  intros Hlen Hi Hk. pose proof (lookup_lt_Some _ _ _ Hi). unfold getMetricInfo.
  rewrite length_metrics_of. rewrite s32_small by (unfold is_s32; lia).
  destruct (Z.ltb_spec (3 * Z.of_nat i + Z.of_nat k) 0); [lia|].
  destruct (Z.leb_spec (Z.of_nat (3 * length ps)) (3 * Z.of_nat i + Z.of_nat k)); [lia|]. cbn [orb].
  replace (Z.to_nat (3 * Z.of_nat i + Z.of_nat k)) with (3 * i + k)%nat by lia. by apply metrics_of_lookup.
Qed.

Section Run.
Context {C : Type} (t : Z) (answer : log_t handler -> jvmti_call handler -> jvmtiError).
Context (env : environment) (cb : C).
Implicit Types (es : list event_text) (k : @keyed events NewContextTree OUTPUT unit).

(** The list of events on the static configuration. *)
Lemma event_list_accepted es : Forall token_ok es -> (1 <= length es <= 4)%nat ->
  exists c, process_event_list (en_sizeof_attr env) (en_pfm_encode env) (print_event <$> es) config0 =
      Val (true, c) /\
    num_events c = Z.of_nat (length es) /\ registry c = metrics_of (parsed_of <$> es) /\
    (forall i p, (parsed_of <$> es) !! i = Some p -> exists e, event_info c !! i = Some e /\ registered i p e) /\
    (forall p, head (parsed_of <$> es) = Some p -> GetClientName (wmark c) (registry c) = Val (p_client p)).
Proof.
  intros Hes Hlen.
  pose proof (process_event_list_correct (en_sizeof_attr env) (en_pfm_encode env) _ _ (parse_tokens es Hes)) as H.
  rewrite !length_fmap in H. specialize (H ltac:(lia)). by destruct (Nat.leb_spec (length es) 4); [|lia].
Qed.

Lemma event_list_refused es : Forall token_ok es -> (4 < length es)%nat -> Z.of_nat (length es) < 2 ^ 31 ->
  process_event_list (en_sizeof_attr env) (en_pfm_encode env) (print_event <$> es) config0 = Fault AssertFailure.
Proof.
  intros Hes Hlen Hmax.
  pose proof (process_event_list_correct (en_sizeof_attr env) (en_pfm_encode env) _ _ (parse_tokens es Hes)) as H.
  rewrite !length_fmap in H. specialize (H Hmax). by destruct (Nat.leb_spec (length es) 4); [lia|].
Qed.

Lemma perf_mmap_init_run p : 0 < p < 2 ^ 32 -> perf_mmap_init p = (p, p - 1).
Proof.
  intros Hp. unfold perf_mmap_init, PERF_BUFFER_PAGES. rewrite (u32_small p) by (unfold is_u32; lia).
  rewrite Z.mul_1_l, (u32_small p) by (unfold is_u32; lia). by rewrite u32_small by (unfold is_u32; lia).
Qed.

(** [Profiler::init] from the static variables, on a list that is read or refused. *)
Definition initialised (es : list event_text) (c : config) k : start_state C :=
  mk_start_state (mk_perf_vars c (en_pagesize env) (en_pagesize env - 1) (Some cb))
    (set_infos (registry c) (set_clientName (from_option (fun e => to_upper (et_client e)) [] (head es)) static_globals))
    (mk_keyed true (forget (behind k))).

Lemma init_accepts es k : environment_ok env = true -> 0 < en_pagesize env < 2 ^ 32 ->
  Forall token_ok es -> (1 <= length es <= 4)%nat ->
  exists c, profiler_init env cb (print_event <$> es) (mk_start_state perf_vars0 static_globals k) =
      Val (tt, initialised es c k) /\
    num_events c = Z.of_nat (length es) /\ registry c = metrics_of (parsed_of <$> es) /\
    (forall i p, (parsed_of <$> es) !! i = Some p -> exists e, event_info c !! i = Some e /\ registered i p e).
Proof.
  intros Henv Hp Hes Hlen. destruct (event_list_accepted es Hes Hlen) as (c & Hrun & Hn & Hr & Hi & Hc).
  exists c. split; [|by split_and!]. destruct es as [|e es]; [simpl in Hlen; lia|].
  unfold environment_ok in Henv. apply andb_prop in Henv as [Henv H4]. apply andb_prop in Henv as [Henv H3].
  apply andb_prop in Henv as [H1 H2].
  unfold profiler_init, init, processInit, installSignal, on_thread, on_perf, on_config, set_sample_cb, set_pages,
    thread_data_init. rewrite H1, H2, H3, H4, (perf_mmap_init_run _ Hp).
  unfold mbind, prog_bind, prog_lift, prog_get, outcome_bind, mret, prog_ret, outcome_ret. cbn -[print_event process_event_list GetClientName].
  cbn [fmap list_fmap] in Hrun. change (pv_config perf_vars0) with config0. rewrite Hrun. cbn -[GetClientName].
  rewrite (Hc _ eq_refl). cbn. unfold initialised. cbn. by rewrite to_upper_idem.
Qed.

Lemma event_list_outcome es : Forall token_ok es -> Z.of_nat (length es) < 2 ^ 31 ->
  (exists c, process_event_list (en_sizeof_attr env) (en_pfm_encode env) (print_event <$> es) config0 =
      Val (true, c) /\ (es = [] -> GetClientName (wmark c) (registry c) = Fault AssertFailure)) \/
  process_event_list (en_sizeof_attr env) (en_pfm_encode env) (print_event <$> es) config0 = Fault AssertFailure.
Proof.
  intros Hes Hmax. destruct es as [|e es].
  - left. eexists. split; [reflexivity|done].
  - destruct (Nat.le_gt_cases (length (e :: es)) 4).
    + left. destruct (event_list_accepted (e :: es) Hes) as (c & H' & _); [simpl in *; lia|by exists c].
    + right. by apply event_list_refused.
Qed.

Lemma init_refuses es k : Forall token_ok es -> Z.of_nat (length es) < 2 ^ 31 ->
  environment_ok env && bool_decide (1 <= length es <= 4)%nat = false ->
  profiler_init env cb (print_event <$> es) (mk_start_state perf_vars0 static_globals k) = Fault AssertFailure.
Proof.
  intros Hes Hmax Hbad.
  unfold profiler_init, init, processInit, installSignal, on_thread, on_perf, on_config, set_sample_cb, set_pages,
    thread_data_init, mbind, prog_bind, prog_lift, prog_get, outcome_bind, mret, prog_ret, outcome_ret.
  cbn -[print_event process_event_list GetClientName]. unfold environment_ok in Hbad.
  destruct (en_key_created env); [|done]. destruct (en_pfm_initialized env); [|done].
  cbn -[print_event process_event_list GetClientName]. change (pv_config perf_vars0) with config0.
  destruct (event_list_outcome es Hes Hmax) as [(c & Hrun & Hnil)|Hrun]; rewrite Hrun; [|done].
  cbn -[GetClientName]. destruct (en_sigaction env =? 0); [|done]. destruct (en_sigmask env =? 0); [|done].
  cbn -[GetClientName]. cbn [andb] in Hbad. apply bool_decide_eq_false in Hbad.
  destruct es as [|e es]; [by rewrite Hnil|].
  rewrite event_list_refused in Hrun by (simpl in *; (done || lia)). done.
Qed.
End Run.

(** The requests that were made, whatever was answered. *)
Lemma requested_calls {H} (answer : log_t H -> jvmti_call H -> jvmtiError) cs log :
  (foldl (ask answer) log cs).*1 = log.*1 ++ cs.
Proof.
  revert log. induction cs as [|c cs IH]; intros log; cbn [foldl]; [by rewrite app_nil_r|].
  rewrite IH. unfold ask at 1. by rewrite fmap_app, <- app_assoc.
Qed.

(** What the first mark leaves, and the second. *)
Definition marked {C} (t : Z) : start_state C :=
  mk_start_state perf_vars0 static_globals (mk_keyed false (mk_tls None [set_inside_agent true (zero_td t)])).

Lemma attach_run {C} t answer env (cb : C) es a :
  new_Argument (argument_of es) = Val a -> getPerfEventList a = print_event <$> es ->
  attach t answer env cb (argument_of es) (static_state, JVM0) =
  match profiler_init env cb (print_event <$> es) (marked t) with
  | Val (_, s) =>
    match through_key (UNBLOCK_SAMPLE t) (ss_thread s) with
    | Val (_, k) => Val (0, (mk_start_state (ss_perf s) (ss_glob s) k,
        foldl (fun j c => call answer c j) (mk_JVM (Some a) []) requests))
    | Fault f => Fault f
    end
  | Fault f => Fault f
  end.
Proof.
  intros Ha Hlist. unfold attach, Agent_OnAttach, block_caller, unblock_caller, on_caller, JVM_init, parseArgs.
  unfold mbind, prog_bind, mret, prog_ret, outcome_ret, outcome_bind. cbn [on_thread]. rewrite Ha.
  cbn -[profiler_init requests through_key UNBLOCK_SAMPLE argument_of]. rewrite Hlist.
  change (on_thread (through_key (BLOCK_SAMPLE t)) static_state) with (Val (tt, @marked C t)).
  cbn -[profiler_init requests through_key UNBLOCK_SAMPLE argument_of].
  destruct (profiler_init env cb (print_event <$> es) (marked t)) as [[u s]|f]; [|done].
  cbn -[requests through_key UNBLOCK_SAMPLE].
  unfold on_thread, mbind, outcome_bind. by destruct (through_key _ _) as [[u' k]|f].
Qed.

Lemma started_initialised {C} t env (cb : C) es c :
  0 < en_pagesize env < 2 ^ 32 -> (1 <= length es <= 4)%nat ->
  num_events c = Z.of_nat (length es) -> registry c = metrics_of (parsed_of <$> es) ->
  (forall i p, (parsed_of <$> es) !! i = Some p -> exists e, event_info c !! i = Some e /\ registered i p e) ->
  let s := initialised env cb es c (ss_thread (@marked C t)) in
  started t env cb es (mk_start_state (ss_perf s) (ss_glob s)
    (mk_keyed true (mk_tls (Some (zero_td t)) (lost (behind (ss_thread s)))))).
Proof.
  intros Hp Hlen Hn Hr Hi s. split; try done.
  - intros i e He. destruct (Hi i (parsed_of e)) as (info & Hinfo & H1 & H2 & H3 & H4 & _ & H6 & _).
    { by rewrite list_lookup_fmap, He. }
    exists info. split_and!; [done|done|done|]. intros m Hm. cbn. rewrite Hr.
    assert (exists k, (k < 3)%nat /\ m = 3 * Z.of_nat i + Z.of_nat k) as (k & Hk & ->).
    { rewrite !elem_of_cons, elem_of_nil in Hm. destruct Hm as [->|[->|[->|[]]]];
        [exists 0%nat|exists 1%nat|exists 2%nat]; lia. }
    apply metric_lookup; [rewrite length_fmap; lia|by rewrite list_lookup_fmap, He|done].
  - intros e He. cbn. by rewrite He.
  - split.
    + split; try done. constructor.
    + apply map_Forall_singleton. split; [|by split]. split; [by split|]. constructor; [by split|constructor].
Qed.

(** * Properties *)

(** C2: attached with the text of some events, the agent starts with one to four of
    them when the system grants the key, libpfm, and the signal, and the assertions
    stop the process otherwise.  Started, it has made its requests of the runtime in
    order, registered the events in order with metrics of their own, taken the client
    of the first, and left a process as the theorems on processes need it.  The record
    that it marked before the key was created is lost. *)
Theorem attach_starts {C} t answer env (cb : C) es
  (Hes : Forall token_ok es) (Hsize : size (argument_of es) < npos)
  (Hmax : Z.of_nat (length es) < 2 ^ 31) (Hpage : 0 < en_pagesize env < 2 ^ 32) :
  if environment_ok env && bool_decide (1 <= length es <= 4)%nat
  then exists s j, attach t answer env cb (argument_of es) (static_state, JVM0) = Val (0, (s, j)) /\
    started t env cb es s /\ (calls j).*1 = requests
  else attach t answer env cb (argument_of es) (static_state, JVM0) = Fault AssertFailure.
Proof.
  destruct (argument_tokens es Hes Hsize) as (a & Ha & Hlist).
  rewrite (attach_run t answer env cb es a Ha Hlist).
  destruct (environment_ok env && bool_decide (1 <= length es <= 4)%nat) eqn:Hok.
  - apply andb_prop in Hok as [Henv Hlen%bool_decide_eq_true].
    destruct (init_accepts env cb es (ss_thread (@marked C t)) Henv Hpage Hes Hlen) as (c & Hrun & Hn & Hr & Hi).
    change (mk_start_state perf_vars0 static_globals (ss_thread (@marked C t))) with (@marked C t) in Hrun.
    rewrite Hrun. eexists _, _. split; [reflexivity|].
    split; [by apply (started_initialised t env cb es c)|]. rewrite calls_foldl. apply requested_calls.
  - unfold marked. by rewrite init_refuses.
Qed.

Module Examples.
Definition env0 : environment := mk_environment true true 4096 0 0 128 (fun _ a => Some a).
Definition event0 : event_text := mk_event_text (lit "Generic") (lit "CYCLES:p") "2"%char (lit "100000").
Definition event1 : event_text := mk_event_text (lit "Heap") (lit "L1-MISSES:p") "0"%char (lit "5000").

Definition attach0 (arg : str) : prog (start_state unit * JVM) Z :=
  attach 42 (fun _ _ => JVMTI_ERROR_NONE) env0 tt arg.

(** A second attachment appends to the name of the client, which then is the name of
    none: no sample is analysed any more.  The key is made anew, and what was behind the
    old one is lost. *)
Example attached_twice :
  match (attach0 (lit "Generic::CYCLES:p2@100000");; attach0 (lit "Generic::CYCLES:p2@100000"))
    (static_state, JVM0) with
  | Val (_, (s, _)) => clientName (ss_glob s) = lit "GENERICGENERIC" /\
      is_client (clientName (ss_glob s)) GENERIC = false /\ length (lost (behind (ss_thread s))) = 2%nat
  | Fault _ => False
  end.
Proof. vm_compute. by split_and!. Qed.

(** Without events there is no client. *)
Example attached_without_events : attach0 [] (static_state, JVM0) = Fault AssertFailure.
Proof. vm_compute. reflexivity. Qed.

Lemma events0_ok : Forall token_ok [event0; event1].
Proof.
  repeat constructor; cbn; try discriminate; try done; repeat constructor; discriminate.
Qed.

Lemma attach_starts_witness :
  exists s j, attach 42 (fun _ _ => JVMTI_ERROR_NONE) env0 tt
      (lit "Generic::CYCLES:p2@100000,Heap::L1-MISSES:p0@5000") (static_state, JVM0) = Val (0, (s, j)) /\
    clientName (ss_glob s) = lit "GENERIC" /\ num_events (pv_config (ss_perf s)) = 2 /\
    process_ok (ss_glob s) (attached 42 s).
Proof.
  destruct (attach_starts 42 (fun _ _ => JVMTI_ERROR_NONE) env0 tt [event0; event1]) as (s & j & Hrun & Hs & _).
  - exact events0_ok.
  - reflexivity.
  - reflexivity.
  - done.
  - exists s, j. split; [exact Hrun|]. destruct Hs as [Hn _ Hc _ _ _ Hp _]. split_and!; [|exact Hn|exact Hp].
    exact (Hc _ eq_refl).
Defined.
End Examples.
