(* ===== verification/Instrument.v ===== *)
(** The former agent ([old_agent.cpp]): it rewrites the class
    [android.app.Activity] so that [onCreate] reports each entry, and offers the
    retransformation of classes to Java.  The build leaves the file out.

    The classes of the dex library are declared in headers ([dex_ir.h],
    [code_ir.h], [intrusive_list.h]): nodes are values here, and what the library
    implements elsewhere (reading, writing, assembling, printing of types) is the
    record [slicer] over an abstract state [D] of a dex file. *)
From stdpp Require Import base numbers option list strings.
From Stdlib Require Import ZArith Lia Ascii.
From S2P Require Import Prelude.
From S2P Require Import Cxx.
From S2P Require Import Jvmti.
From S2P Require Import Registration.

(** * Nodes of the dex library *)

(** [ir::Proto], [ir::MethodDecl], [ir::Code], [ir::EncodedMethod], the fields that
    are used; a type is its descriptor. *)
Record Proto := mk_Proto { return_type : str; param_types : option (list str) }.
Record MethodDecl := mk_MethodDecl { md_name : str; prototype : Proto; parent : str }.
Record Code := mk_Code { registers : Z; ins_count : Z; code_units : list Z }.
Record EncodedMethod := mk_EncodedMethod { decl : MethodDecl; code : option Code }.

(** [lir::Operand], [dex::Opcode] (the ones that are inserted), [lir::Instruction];
    the operand of a string or a method has its index as well. *)
Inductive Operand :=
| VReg (reg : Z)
| VRegList (registers : list Z)
| StringOperand (ir_string : str) (index : Z)
| MethodOperand (ir_method : MethodDecl) (index : Z).

Inductive Opcode := OP_MOVE_OBJECT | OP_CONST_STRING | OP_INVOKE_STATIC.

Inductive Instruction :=
| Label (offset : Z)
| Bytecode (opcode : Opcode) (operands : list Operand)
| Original (n : Z).

(** The list of instructions; a node has a number, which stands for its address. *)
Record CodeIr := mk_CodeIr { ir_code : Code; instructions : list (nat * Instruction); next_node : nat }.

(** [InsertBefore]; the end of the list is a node too. *)
Fixpoint insert_before (pos : nat) (x : nat * Instruction) (l : list (nat * Instruction))
  : list (nat * Instruction) :=
  match l with
  | [] => [x]
  | y :: l => if (y.1 =? pos)%nat then x :: y :: l else y :: insert_before pos x l
  end.

Definition InsertBefore (pos : nat) (i : Instruction) (c : CodeIr) : CodeIr :=
  mk_CodeIr (ir_code c) (insert_before pos (next_node c, i) (instructions c)) (S (next_node c)).

(** The library: [ir::Builder] gets or creates nodes, strings and methods with
    their [orig_index]; [CodeIr] of a method has its instructions; [Assemble]
    stores code in the method of a number. *)
Record slicer (D : Type) := mk_slicer {
  Decl : str -> str;
  Signature : Proto -> str;
  GetIr : list Z -> D;
  encoded_methods : D -> list EncodedMethod;
  GetAsciiString : str -> D -> Z * D;
  GetType : str -> D -> D;
  GetTypeList : list str -> D -> D;
  GetProto : Proto -> D -> D;
  GetMethodDecl : MethodDecl -> D -> Z * D;
  disassemble : EncodedMethod -> list Instruction;
  Assemble : nat -> Code -> list Instruction -> D -> D;
  CreateImage : D -> list Z
}.
Arguments Decl {D}. Arguments Signature {D}. Arguments GetIr {D}. Arguments encoded_methods {D}.
Arguments GetAsciiString {D}. Arguments GetType {D}. Arguments GetTypeList {D}.
Arguments GetProto {D}. Arguments GetMethodDecl {D}. Arguments disassemble {D}.
Arguments Assemble {D}. Arguments CreateImage {D}.

(** What a hook gives back: the length, the four bytes beside it, the new class;
    and the images that nobody can free any more. *)
Record hook_out := mk_hook_out {
  newClassDataLen : Z; beside : Z; newClassData : option (list Z); images : Z
}.

(** * Helpers *)

Definition strcmp_eq (a b : str) : bool := bool_decide (c_str a = c_str b).

Definition ClassNameToDescriptor (class_name : str) : str :=
  lit "L" ++ replace_char "." "/" (c_str class_name) ++ lit ";".

Definition getNumParams (m : EncodedMethod) : Z :=
  match param_types (prototype (decl m)) with
  | None => 0
  | Some types => Z.of_nat (length types)
  end.

Section Transform.
Context {D : Type} (sl : slicer D).

(** The state while a method is changed: the dex file and the method's code. *)
Definition T : Type := D * CodeIr.

Definition on_dex (f : D -> D) : prog T unit := fun s => mret (tt, (f s.1, s.2)).
Definition get_dex {A} (f : D -> A * D) : prog T A := fun s =>
  let '(a, d) := f s.1 in mret (a, (d, s.2)).
Definition on_code (f : CodeIr -> CodeIr) : prog T unit := fun s => mret (tt, (s.1, f s.2)).

(** [addLabel] and [addInstr]: a node before another one. *)
Definition addLabel (instructionAfter : nat) (offset : Z) : prog T unit :=
  on_code (InsertBefore instructionAfter (Label offset)).

Definition addInstr (instructionAfter : nat) (opcode : Opcode) (operands : list Operand)
  : prog T unit :=
  on_code (InsertBefore instructionAfter (Bytecode opcode operands)).

Definition addCall (instructionAfter : nat) (opcode : Opcode) (type methodName returnType : str)
  (types : list str) (regs : list Z) : prog T unit :=
  on_dex (GetTypeList sl types);;
  let proto := mk_Proto returnType (Some types) in
  on_dex (GetProto sl proto);;
  get_dex (GetAsciiString sl methodName);;
  let method := mk_MethodDecl methodName proto type in
  orig_index ← get_dex (GetMethodDecl sl method);
  addInstr instructionAfter opcode [VRegList regs; MethodOperand method orig_index].

(** * The transformation of a class *)

(** [std::max(0, 1 - originalNumRegisters)] and [thisReg], which are [int]s. *)
Definition originalNumRegisters (c : Code) : Z := registers c - ins_count c.
Definition numAdditionalRegs (c : Code) : Z := Z.max 0 (1 - originalNumRegisters c).
Definition thisReg (c : Code) : Z := numAdditionalRegs c + registers c - ins_count c.

Definition add_registers (n : Z) (c : Code) : Code :=
  if 0 <? n then mk_Code (u16 (registers c + n)) (ins_count c) (code_units c) else c.

(** The types of the parameters with commas between. *)
Fixpoint join_types (first : bool) (types : list str) : str :=
  match types with
  | [] => []
  | t :: types => (if first then [] else lit ",") ++ c_str (Decl sl t) ++ join_types false types
  end.

Definition methodDescStr (m : MethodDecl) : str :=
  Decl sl (parent m) ++ lit "#" ++ c_str (md_name m) ++ lit "(" ++
  match param_types (prototype m) with None => [] | Some types => join_types true types end ++
  lit ")".

Definition is_onCreate (m : EncodedMethod) : bool :=
  strcmp_eq (lit "onCreate") (md_name (decl m)) &&
  strcmp_eq (Signature sl (prototype (decl m))) (lit "(Landroid/os/Bundle;)V").

(** The first node; the end of an empty list. *)
Definition first_instruction (c : CodeIr) : nat :=
  match instructions c with [] => next_node c | (id, _) :: _ => id end.

(** [CodeIr c(method.get(), dex_ir)]; the number after those of the nodes is the
    end of the list. *)
Definition new_CodeIr (m : EncodedMethod) (c : Code) : CodeIr :=
  let l := disassemble sl m in mk_CodeIr c (imap pair l) (length l).
Definition past_end (c : CodeIr) : CodeIr :=
  mk_CodeIr (ir_code c) (instructions c) (S (next_node c)).

(** What is done to [onCreate] before it is assembled. *)
Definition instrument (m : EncodedMethod) (fi : nat) (c : Code) : prog T unit :=
  let thiz := thisReg c in
  on_code (fun ir => mk_CodeIr (add_registers (numAdditionalRegs c) (ir_code ir))
                       (instructions ir) (next_node ir));;
  on_dex (GetType sl (lit "Ljava/lang/String;"));;
  on_dex (GetType sl (lit "Landroid/app/Activity;"));;
  on_dex (GetType sl (lit "Lcom/dodola/jvmtilib/JVMTIHelper;"));;
  on_dex (GetType sl (lit "V"));;
  let methodDesc := c_str (methodDescStr (decl m)) in
  orig_index ← get_dex (GetAsciiString sl methodDesc);
  addInstr fi OP_MOVE_OBJECT [VReg 0; VReg thiz];;
  addInstr fi OP_CONST_STRING [VReg 1; StringOperand methodDesc orig_index];;
  addCall fi OP_INVOKE_STATIC (lit "Lcom/dodola/jvmtilib/JVMTIHelper;") (lit "printEnter") (lit "V")
    [lit "Landroid/app/Activity;"; lit "Ljava/lang/String;"] [0; 1].

(** The image is copied into a block of the runtime.  The writer stores its length
    as a [size_t] where the hook has a [jint], and nothing frees the image. *)
Definition give_image (Allocate : Z -> Z) (d : D) (out : hook_out) : outcome hook_out :=
  let transformed := CreateImage sl d in
  let image_size := Z.of_nat (length transformed) in
  let len := s32 image_size in
  if negb (Allocate len =? JVMTI_ERROR_NONE) then Fault UndefinedBehaviour
  else if image_size <? u64 len then Fault UndefinedBehaviour
  else mret (mk_hook_out len (u32 (Z.shiftr image_size 32))
               (Some (take (Z.to_nat (u64 len)) transformed)) (images out + 1)).

(** The loop over the methods, which ends with the first one that is changed. *)
Fixpoint transform_methods (Allocate : Z -> Z) (d : D) (k : nat) (methods : list EncodedMethod)
  (out : hook_out) : outcome hook_out :=
  match methods with
  | [] => mret out
  | m :: methods =>
    if is_onCreate m then
      match code m with
      | None => Fault UndefinedBehaviour
      | Some c =>
        let ir := new_CodeIr m c in
        '(_, (d, ir)) ← instrument m (first_instruction ir) c (d, past_end ir);
        give_image Allocate (Assemble sl k (ir_code ir) (instructions ir).*2 d) out
      end
    else transform_methods Allocate d (S k) methods out
  end.

(** [ClassTransform]; a class without a name has none. *)
Definition ClassTransform (Allocate : Z -> Z) (name : option str) (classData : list Z)
  (out : hook_out) : outcome hook_out :=
  match name with
  | None => Fault UndefinedBehaviour
  | Some name =>
    if strcmp_eq name (lit "android/app/Activity") then
      let dex_ir := GetIr sl classData in
      transform_methods Allocate dex_ir 0 (encoded_methods sl dex_ir) out
    else mret out
  end.
End Transform.

(** * What the inserted instructions do *)

(** A value: argument [i] of the method, or a string. *)
Inductive value := Arg (i : Z) | Str (s : str) | Unset.

(** The registers at the entry of a method: its arguments are in the last ones. *)
Definition entry (c : Code) (r : Z) : value :=
  if (registers c - ins_count c <=? r) && (r <? registers c)
  then Arg (r - (registers c - ins_count c)) else Unset.

Definition set_reg (r : Z) (v : value) (f : Z -> value) : Z -> value :=
  fun r' => if r' =? r then v else f r'.

(** The documented meaning of the three opcodes: the registers afterwards and the
    calls made. *)
Definition exec (i : Instruction) (s : (Z -> value) * list (str * list value))
  : (Z -> value) * list (str * list value) :=
  match i with
  | Bytecode OP_MOVE_OBJECT [VReg a; VReg b] => (set_reg a (s.1 b) s.1, s.2)
  | Bytecode OP_CONST_STRING [VReg a; StringOperand t _] => (set_reg a (Str t) s.1, s.2)
  | Bytecode OP_INVOKE_STATIC [VRegList rs; MethodOperand m _] =>
    (s.1, s.2 ++ [(md_name m, s.1 <$> rs)])
  | _ => s
  end.

Definition run (l : list Instruction) (f : Z -> value) := foldl (fun s i => exec i s) (f, []) l.

(** * Facts *)

Section Facts.
Context {D : Type} (sl : slicer D).

(** The inserted instructions, and what the builder makes of the dex file. *)
Definition printEnter : MethodDecl := mk_MethodDecl (lit "printEnter")
  (mk_Proto (lit "V") (Some [lit "Landroid/app/Activity;"; lit "Ljava/lang/String;"]))
  (lit "Lcom/dodola/jvmtilib/JVMTIHelper;").

Definition prologue (thiz : Z) (text : str) (string_index method_index : Z) : list Instruction :=
  [Bytecode OP_MOVE_OBJECT [VReg 0; VReg thiz];
   Bytecode OP_CONST_STRING [VReg 1; StringOperand text string_index];
   Bytecode OP_INVOKE_STATIC [VRegList [0; 1]; MethodOperand printEnter method_index]].

Definition built (text : str) (d : D) : Z * Z * D :=
  let d := foldl (fun d t => GetType sl t d) d
    [lit "Ljava/lang/String;"; lit "Landroid/app/Activity;";
     lit "Lcom/dodola/jvmtilib/JVMTIHelper;"; lit "V"] in
  let '(i, d) := GetAsciiString sl text d in
  let d := GetProto sl (prototype printEnter)
    (GetTypeList sl [lit "Landroid/app/Activity;"; lit "Ljava/lang/String;"] d) in
  let '(_, d) := GetAsciiString sl (lit "printEnter") d in
  let '(j, d) := GetMethodDecl sl printEnter d in (i, j, d).

Lemma insert_before_skip pos x y l :
  (pos < y.1)%nat -> insert_before pos x (y :: l) = y :: insert_before pos x l.
Proof. intros Hy. cbn [insert_before]. by destruct (Nat.eqb_spec y.1 pos); [lia|]. Qed.

Lemma insert_before_first pos x l :
  match l with [] => True | y :: _ => y.1 = pos end -> insert_before pos x l = x :: l.
Proof. destruct l as [|y l]; [done|]. intros Hy. cbn [insert_before]. by rewrite Hy, Nat.eqb_refl. Qed.

(** Three insertions before the first node. *)
Lemma insert_three fi n a b c l :
  (fi < n)%nat -> match l with [] => True | y :: _ => y.1 = fi end ->
  insert_before fi (S (S n), c) (insert_before fi (S n, b) (insert_before fi (n, a) l)) =
  (n, a) :: (S n, b) :: (S (S n), c) :: l.
Proof.
  intros Hlt Hl. rewrite (insert_before_first fi (n, a) l Hl).
  rewrite !insert_before_skip by (simpl; lia). rewrite (insert_before_first fi (S n, b) l Hl).
  rewrite insert_before_skip by (simpl; lia). by rewrite (insert_before_first fi _ l Hl).
Qed.

Lemma nodes_imap (l : list Instruction) : (imap pair l).*2 = l.
Proof. rewrite fmap_imap. apply list_eq. intros i. rewrite list_lookup_imap. by destruct (l !! i). Qed.

Lemma instrument_run m c d i j d' :
  built (c_str (methodDescStr sl (decl m))) d = (i, j, d') ->
  let ir := new_CodeIr sl m c in
  exists ir', instrument sl m (first_instruction ir) c (d, past_end ir) = Val (tt, (d', ir')) /\
    ir_code ir' = add_registers (numAdditionalRegs c) c /\
    (instructions ir').*2 =
      prologue (thisReg c) (c_str (methodDescStr sl (decl m))) i j ++ disassemble sl m.
Proof.
  intros Hb ir. unfold built in Hb. cbn [foldl] in Hb.
  unfold instrument, addCall, addInstr, on_code, on_dex, get_dex, mbind, prog_bind, mret, outcome_ret.
  cbn [fst snd].
  destruct (GetAsciiString sl (c_str _) _) as [i' d1]. cbn [fst snd].
  change (mk_Proto (lit "V") (Some _)) with (prototype printEnter).
  destruct (GetAsciiString sl (lit "printEnter") _) as [k d2]. cbn [fst snd].
  change (mk_MethodDecl (lit "printEnter") _ _) with printEnter.
  destruct (GetMethodDecl sl printEnter d2) as [j' d3]. cbn [fst snd].
  injection Hb as <- <- <-. eexists. split; [reflexivity|]. split; [done|].
  unfold InsertBefore. cbn [instructions next_node past_end].
  rewrite insert_three.
  - cbn [fmap list_fmap snd]. unfold prologue. cbn [app]. do 3 f_equal. apply nodes_imap.
  - unfold first_instruction, ir, new_CodeIr. cbn [instructions next_node].
    destruct (disassemble sl m) as [|y l]; simpl; lia.
  - unfold first_instruction, ir, new_CodeIr. cbn [instructions next_node].
    by destruct (disassemble sl m) as [|y l].
Qed.

Lemma transform_skip Allocate d k l methods out :
  Forall (fun m => is_onCreate sl m = false) l ->
  transform_methods sl Allocate d k (l ++ methods) out =
  transform_methods sl Allocate d (k + length l) methods out.
Proof.
  intros Hl. revert k. induction Hl as [|m l Hm _ IH]; intros k; cbn [app length].
  - by rewrite Nat.add_0_r.
  - cbn [transform_methods]. rewrite Hm, IH. f_equal. lia.
Qed.

Lemma give_image_run Allocate d out :
  (forall n, 0 <= n -> Allocate n = JVMTI_ERROR_NONE) ->
  Z.of_nat (length (CreateImage sl d)) < 2 ^ 31 ->
  give_image sl Allocate d out =
    Val (mk_hook_out (Z.of_nat (length (CreateImage sl d))) 0 (Some (CreateImage sl d)) (images out + 1)).
Proof.
  intros Ha Hlen. unfold give_image. cbv zeta. set (n := Z.of_nat _) in *.
  assert (s32 n = n) as -> by (apply s32_small; unfold is_s32; lia).
  assert (u64 n = n) as -> by (apply u64_small; unfold is_u64; lia).
  rewrite (Ha n) by lia. cbn [Z.eqb JVMTI_ERROR_NONE negb]. rewrite Z.ltb_irrefl.
  assert (u32 (Z.shiftr n 32) = 0) as ->.
  { rewrite Z.shiftr_div_pow2, Z.div_small by lia. reflexivity. }
  unfold n. by rewrite Nat2Z.id, firstn_all.
Qed.
End Facts.

(** The registers of the original arguments after the inserted instructions. *)
Definition arguments_kept (c : Code) (l : list Instruction) : Prop :=
  forall i, 0 <= i < ins_count c ->
    (run l (entry (add_registers (numAdditionalRegs c) c))).1 (registers c - ins_count c + i) = Arg i.

Lemma run_prologue c text i j :
  0 < ins_count c -> ins_count c <= registers c < 2 ^ 16 - 1 ->
  run (prologue (thisReg c) text i j) (entry (add_registers (numAdditionalRegs c) c)) =
    (set_reg 1 (Str text) (set_reg 0 (Arg 0) (entry (add_registers (numAdditionalRegs c) c))),
     [(lit "printEnter", [Arg 0; Str text])]).
Proof.
  intros Hi Hr. unfold run, prologue. cbn [foldl exec fst snd app fmap list_fmap md_name printEnter].
  assert (entry (add_registers (numAdditionalRegs c) c) (thisReg c) = Arg 0) as ->; [|done].
  unfold thisReg, add_registers, numAdditionalRegs, originalNumRegisters.
  destruct (Z.ltb_spec 0 (Z.max 0 (1 - (registers c - ins_count c)))) as [H|H];
    unfold entry; cbn [registers ins_count].
  - assert (u16 (registers c + Z.max 0 (1 - (registers c - ins_count c))) = registers c + 1) as ->.
    { unfold u16, to_unsigned. rewrite Z.mod_small; lia. }
    rewrite (proj2 (Z.leb_le _ _)), (proj2 (Z.ltb_lt _ _)) by lia. cbn [andb]. f_equal. lia.
  - rewrite (proj2 (Z.leb_le _ _)), (proj2 (Z.ltb_lt _ _)) by lia. cbn [andb]. f_equal. lia.
Qed.

(** * The start of the agent *)

(** The functions of the former agent that the runtime can call. *)
Inductive old_handler :=
| fn_ClassTransform | fn_ObjectAlloc | fn_JvmTINativeMethodBind | fn_GCStartCallback
| fn_GCFinishCallback.

Module Start.
Import Enum.

Section Start.
Context (answer : log_t old_handler -> jvmti_call old_handler -> jvmtiError).
Notation L := (log_t old_handler).

(** [SetAllCapabilities]: all that the runtime can offer. *)
Definition SetAllCapabilities (potential : Z) (log : L) : L := ask answer log (AddCapabilities potential).

(** [CreateJvmtiEnv]: [env] is what [GetEnv] answers. *)
Definition CreateJvmtiEnv (env : option Z) : option Z := env.

Definition SetEventNotification (mode : Z) (event_type : jvmtiEvent) (log : L) : L :=
  ask answer log (SetEventNotificationMode mode event_type).

Definition old_callbacks : callbacks_t old_handler := foldl set_callback memset_callbacks [
  (cb_ClassFileLoadHook, fn_ClassTransform); (cb_VMObjectAlloc, fn_ObjectAlloc);
  (cb_NativeMethodBind, fn_JvmTINativeMethodBind);
  (cb_GarbageCollectionStart, fn_GCStartCallback);
  (cb_GarbageCollectionFinish, fn_GCFinishCallback)].

Definition old_events : list jvmtiEvent := [
  JVMTI_EVENT_VM_INIT; JVMTI_EVENT_GARBAGE_COLLECTION_START;
  JVMTI_EVENT_GARBAGE_COLLECTION_FINISH; JVMTI_EVENT_NATIVE_METHOD_BIND;
  JVMTI_EVENT_VM_OBJECT_ALLOC; JVMTI_EVENT_OBJECT_FREE; JVMTI_EVENT_CLASS_FILE_LOAD_HOOK].

Definition JNI_ERR : Z := -1.

(** [Agent_OnAttach]: the result, [localJvmtiEnv] and the calls. *)
Definition old_Agent_OnAttach (env : option Z) (potential : Z) (localJvmtiEnv : option Z)
  : Z * option Z * L :=
  match CreateJvmtiEnv env with
  | None => (JNI_ERR, localJvmtiEnv, [])
  | Some jvmti_env =>
    let log := SetAllCapabilities potential [] in
    let log := ask answer log (SetEventCallbacks old_callbacks) in
    (JNI_OK, Some jvmti_env, foldl (fun log e => SetEventNotification JVMTI_ENABLE e log) log old_events)
  end.
End Start.

(** The function for each event. *)
Definition old_event_handler (e : jvmtiEvent) : option old_handler :=
  match e with
  | JVMTI_EVENT_CLASS_FILE_LOAD_HOOK => Some fn_ClassTransform
  | JVMTI_EVENT_VM_OBJECT_ALLOC => Some fn_ObjectAlloc
  | JVMTI_EVENT_NATIVE_METHOD_BIND => Some fn_JvmTINativeMethodBind
  | JVMTI_EVENT_GARBAGE_COLLECTION_START => Some fn_GCStartCallback
  | JVMTI_EVENT_GARBAGE_COLLECTION_FINISH => Some fn_GCFinishCallback
  | _ => None
  end.

Lemma old_callbacks_slot e : old_callbacks !! slot e = Some (old_event_handler e).
Proof. destruct e; vm_compute; reflexivity. Qed.

(** An event reaches its function exactly when the runtime offers the capabilities
    it needs; VM start and object free are enabled without a function. *)
Theorem attach_delivers answer needs env potential local e h :
  documented potential needs answer ->
  delivers (old_Agent_OnAttach answer (Some env) potential local).2 e h <->
  old_event_handler e = Some h /\ forall c, c ∈ needs e -> has_capability potential c = true.
Proof.
  intros Hdoc.
  pose proof (delivers_log answer potential old_callbacks old_events needs Hdoc e h) as Hd.
  rewrite old_callbacks_slot in Hd.
  assert ((old_Agent_OnAttach answer (Some env) potential local).2 =
          foldl (ask answer) [] (registration potential old_callbacks old_events)) as -> by done.
  rewrite Hd. split; [by intros (_ & [= ->] & Hc)|].
  intros [Hh Hc]. split_and!; [|by rewrite Hh|done]. apply (bool_decide_unpack _). by destruct e.
Qed.
End Start.

(** * Functions for Java *)

(** The references and searches of the runtime that the functions leave behind:
    global references (by the object they hold), class path elements that were
    added, classes that were retransformed, native methods registered. *)
Record jni := mk_jni {
  global_refs : list Z; boot_path : list str; retransformed : list (list Z);
  natives : list (Z * str)
}.
Definition set_global_refs (v : list Z) (s : jni) : jni :=
  mk_jni v (boot_path s) (retransformed s) (natives s).

Section Java.
(** A new global reference to an object, given those there are. *)
Context (NewGlobalRef : list Z -> Z -> Z).

Fixpoint remove_ref (r : Z) (l : list Z) : list Z :=
  match l with [] => [] | x :: l => if x =? r then l else x :: remove_ref r l end.
Definition DeleteGlobalRef (r : Z) (s : jni) : jni :=
  set_global_refs (remove_ref r (global_refs s)) s.

(** The first loop of [retransformClasses]; the array is [transformedClasses]. *)
Fixpoint make_refs (elements : list Z) (s : jni) : list Z * jni :=
  match elements with
  | [] => ([], s)
  | o :: elements =>
    let r := NewGlobalRef (global_refs s) o in
    let '(rs, s) := make_refs elements (set_global_refs (global_refs s ++ [r]) s) in (r :: rs, s)
  end.

(** [retransformClasses]; without an attached agent the environment is null, and
    the error is not looked at. *)
Definition retransformClasses (localJvmtiEnv : option Z) (classes : list Z) (s : jni) : outcome jni :=
  let '(transformedClasses, s) := make_refs classes s in
  match localJvmtiEnv with
  | None => Fault UndefinedBehaviour
  | Some _ =>
    let s := mk_jni (global_refs s) (boot_path s) (retransformed s ++ [transformedClasses]) (natives s) in
    mret (foldl (fun s r => DeleteGlobalRef r s) s transformedClasses)
  end.

(** [JvmTINativeMethodBind]: the address of [retransformClasses] is offered for the
    method of the helper class; [path] is the string of its field. *)
Definition JvmTINativeMethodBind (methodid fn_retransformClasses method address : Z) (path : str)
  (s : jni) : Z * jni :=
  (if methodid =? method then fn_retransformClasses else address,
   mk_jni (global_refs s) (boot_path s ++ [c_str path]) (retransformed s) (natives s)).

(** [JNI_OnLoad], with the one method of [methods]. *)
Definition JNI_VERSION_1_6 : Z := 0x00010006.
Definition JNI_OnLoad (get_env_ok : bool) (clazz : Z) (s : jni) : Z * jni :=
  if get_env_ok then
    (JNI_VERSION_1_6,
     mk_jni (global_refs s) (boot_path s) (retransformed s)
       (natives s ++ [(clazz, lit "retransformClasses([Ljava/lang/Class;)V")]))
  else (Start.JNI_ERR, s).

Lemma make_refs_run elements s :
  let '(rs, s') := make_refs elements s in
  length rs = length elements /\ s' = set_global_refs (global_refs s ++ rs) s.
Proof.
  revert s. induction elements as [|o l IH]; intros s; cbn [make_refs].
  - split; [done|]. rewrite app_nil_r. by destruct s.
  - specialize (IH (set_global_refs (global_refs s ++ [NewGlobalRef (global_refs s) o]) s)).
    destruct (make_refs l _) as [rs s']. destruct IH as [Hlen ->]. split; [by simpl; rewrite Hlen|].
    simpl. by rewrite <- app_assoc.
Qed.

Lemma remove_ref_perm r l : r ∈ l -> l ≡ₚ r :: remove_ref r l.
Proof.
  induction l as [|x l IH]; [by intros ?%elem_of_nil|]. cbn [remove_ref].
  destruct (Z.eqb_spec x r) as [->|Hn]; [done|]. intros [?|H]%elem_of_cons; [done|].
  etrans; [apply perm_skip, IH, H|apply perm_swap].
Qed.

Lemma delete_refs_run rs s l :
  global_refs s ≡ₚ l ++ rs ->
  let s' := foldl (fun s r => DeleteGlobalRef r s) s rs in
  global_refs s' ≡ₚ l /\ s' = set_global_refs (global_refs s') s.
Proof.
  revert s. induction rs as [|r rs IH]; intros s Hs; cbn [foldl].
  - rewrite app_nil_r in Hs. split; [done|]. by destruct s.
  - destruct (IH (DeleteGlobalRef r s)) as [H1 H2].
    { apply (inj (r ::.)). cbn [global_refs DeleteGlobalRef set_global_refs].
      rewrite <- remove_ref_perm, Hs; [by rewrite Permutation_middle|]. rewrite Hs. apply elem_of_app; right; left. }
    split; [done|]. rewrite H2. reflexivity.
Qed.

(** The retransformation is asked for once, with a reference per class, and leaves
    no reference behind, whatever handles the runtime gives. *)
Theorem retransformClasses_balanced env classes s :
  exists s', retransformClasses (Some env) classes s = Val s' /\
    global_refs s' ≡ₚ global_refs s /\ boot_path s' = boot_path s /\
    exists rs, length rs = length classes /\ retransformed s' = retransformed s ++ [rs].
Proof.
  unfold retransformClasses. pose proof (make_refs_run classes s) as H.
  destruct (make_refs classes s) as [rs s1]. destruct H as [Hlen ->]. cbn.
  match goal with |- context [foldl _ ?s1 rs] =>
    destruct (delete_refs_run rs s1 (global_refs s)) as [H1 H2]; [done|] end.
  eexists. split; [reflexivity|]. split; [exact H1|]. rewrite H2. split; [done|]. by exists rs.
Qed.
End Java.

(** * Properties *)

(** C38: the hook changes the class [android/app/Activity] only, and there only the
    first [onCreate(Bundle)]: its code gets a prologue and, when it has no local
    register, one more register; the new class is the image of the changed file, the
    four bytes beside the length are zeroed, and the image itself is never freed. *)
Theorem ClassTransform_effect {D} (sl : slicer D) Allocate classData out pre m post c i j d
  (Hmem : forall n, 0 <= n -> Allocate n = JVMTI_ERROR_NONE)
  (Hmethods : encoded_methods sl (GetIr sl classData) = pre ++ m :: post)
  (Hpre : Forall (fun m => is_onCreate sl m = false) pre) (Hm : is_onCreate sl m = true)
  (Hcode : code m = Some c)
  (Hbuilt : built sl (c_str (methodDescStr sl (decl m))) (GetIr sl classData) = (i, j, d)) :
  let image := CreateImage sl (Assemble sl (length pre) (add_registers (numAdditionalRegs c) c)
    (prologue (thisReg c) (c_str (methodDescStr sl (decl m))) i j ++ disassemble sl m) d) in
  Z.of_nat (length image) < 2 ^ 31 ->
  forall name, ClassTransform sl Allocate (Some name) classData out =
    Val (if strcmp_eq name (lit "android/app/Activity")
         then mk_hook_out (Z.of_nat (length image)) 0 (Some image) (images out + 1) else out).
Proof.
  intros image Hlen name. unfold ClassTransform.
  destruct (strcmp_eq name _); [|done]. rewrite Hmethods, transform_skip by done.
  cbn [transform_methods Nat.add]. rewrite Hm, Hcode.
  destruct (instrument_run sl m c _ _ _ _ Hbuilt) as (ir & Hrun & Hc & Hl).
  cbv zeta. unfold mbind, outcome_bind. rewrite Hrun, Hc, Hl.
  by apply give_image_run.
Qed.

(** C39: the prologue reports the receiver with the name of the method, and leaves
    every argument where the code of the method expects it exactly when the method
    has two local registers or more: one register is provided for two that are
    written. *)
Theorem prologue_keeps_arguments c text i j
  (Hins : 2 <= ins_count c) (Hregs : ins_count c <= registers c < 2 ^ 16 - 1) :
  (run (prologue (thisReg c) text i j) (entry (add_registers (numAdditionalRegs c) c))).2 =
    [(lit "printEnter", [Arg 0; Str text])] /\
  (arguments_kept c (prologue (thisReg c) text i j) <-> 2 <= registers c - ins_count c).
Proof.
  unfold arguments_kept. rewrite run_prologue by lia. split; [done|]. cbn [fst].
  set (loc := registers c - ins_count c). split.
  - intros H. destruct (decide (2 <= loc)) as [|Hn]; [done|]. exfalso.
    specialize (H (1 - loc) ltac:(lia)). replace (loc + (1 - loc)) with 1 in H by lia. done.
  - intros H k Hk. unfold set_reg.
    destruct (Z.eqb_spec (loc + k) 1), (Z.eqb_spec (loc + k) 0); [lia..|].
    unfold add_registers, numAdditionalRegs, originalNumRegisters. fold loc.
    rewrite Z.max_l by lia. cbn [Z.ltb Z.compare]. unfold entry. fold loc.
    rewrite (proj2 (Z.leb_le _ _)), (proj2 (Z.ltb_lt _ _)) by lia. cbn [andb]. f_equal. lia.
Qed.

Module Examples.
(** A dex file of one class as its list of methods; the image is a byte per
    instruction. *)
Definition onCreate0 (registers : Z) : EncodedMethod := mk_EncodedMethod
  (mk_MethodDecl (lit "onCreate") (mk_Proto (lit "V") (Some [lit "Landroid/os/Bundle;"]))
     (lit "Landroid/app/Activity;"))
  (Some (mk_Code registers 2 [])).
Definition finish0 : EncodedMethod := mk_EncodedMethod
  (mk_MethodDecl (lit "finish") (mk_Proto (lit "V") None) (lit "Landroid/app/Activity;")) None.

Definition slicer0 : slicer (list EncodedMethod * list Z) := mk_slicer _
  (fun t => t) (fun _ => lit "(Landroid/os/Bundle;)V") (fun data => ([finish0; onCreate0 3], data))
  fst (fun _ d => (0, d)) (fun _ d => d) (fun _ d => d) (fun _ d => d) (fun _ d => (0, d))
  (fun _ => [Original 5; Original 6])
  (fun _ c l d => (d.1, registers c :: Z.of_nat (length l) :: d.2)) snd.

Definition out0 : hook_out := mk_hook_out 7 99 None 0.

Example description :
  methodDescStr slicer0 (decl (onCreate0 3)) = lit "Landroid/app/Activity;#onCreate(Landroid/os/Bundle;)".
Proof. reflexivity. Qed.

Lemma ClassTransform_effect_witness :
  ClassTransform slicer0 (fun _ => 0) (Some (lit "android/app/Activity")) [1; 2] out0 =
    Val (mk_hook_out 4 0 (Some [3; 5; 1; 2]) 1) /\
  ClassTransform slicer0 (fun _ => 0) (Some (lit "a/Foo")) [1; 2] out0 = Val out0.
Proof.
  assert (Hpre : Forall (fun m => is_onCreate slicer0 m = false) [finish0]) by (repeat constructor).
  pose proof (ClassTransform_effect slicer0 (fun _ => 0) [1; 2] out0 [finish0] (onCreate0 3) []
    (mk_Code 3 2 []) 0 0 ([finish0; onCreate0 3], [1; 2]) (fun _ _ => eq_refl) eq_refl Hpre eq_refl
    eq_refl eq_refl) as H.
  split; [exact (H ltac:(reflexivity) (lit "android/app/Activity"))|exact (H ltac:(reflexivity) (lit "a/Foo"))].
Defined.

(** The class in use has one local register: its [onCreate] loses the receiver. *)
Lemma prologue_keeps_arguments_witness :
  arguments_kept (mk_Code 4 2 []) (prologue (thisReg (mk_Code 4 2 [])) (lit "t") 0 0) /\
  ~ arguments_kept (mk_Code 3 2 []) (prologue (thisReg (mk_Code 3 2 [])) (lit "t") 0 0).
Proof.
  split.
  - apply (prologue_keeps_arguments (mk_Code 4 2 []) (lit "t") 0 0); simpl; lia.
  - intros H. apply (prologue_keeps_arguments (mk_Code 3 2 []) (lit "t") 0 0) in H; simpl in *; lia.
Defined.
End Examples.
