(* ===== verification/Lifetime.v ===== *)
(** The life of a thread, across [profiler.cpp], [agent.cpp], [io.cpp] and the
    output buffer: it starts, enters methods, allocates objects and is sampled in any
    order, also while an allocation waits for the runtime and while other threads
    change the memory in use, and ends.  The theorem says what its
    files hold then. *)
From stdpp Require Import base numbers option list gmap strings.
From Stdlib Require Import ZArith Lia Ascii.
From S2P Require Import Prelude.
From S2P Require Import Cxx.
From S2P Require Import PerfMmap.
From S2P Require Import Metrics.
From S2P Require Import Jvmti.
From S2P Require Import NewContext.
From S2P Require Import OutBuf.
From S2P Require Import Output.
From S2P Require Import ThreadData.
From S2P Require Import ProfilerSupport.
From S2P Require Import PerfEvents.
From S2P Require Import Profiler.
From S2P Require Import CodeCache.
From S2P Require Import Critical.
From S2P Require Import Agent.
From S2P Require Import Shared.

(** What happens to a thread between its start and its end: a method is entered
    (with the stack that the runtime shows), an object is allocated, during which
    the method that the callback calls causes more events, a sample is delivered,
    other threads allocate and free. *)
Inductive thread_event :=
| Enter (rt : runtime)
| Alloc (rt : runtime) (during : list thread_event) (mid_getName thread object klass size : Z)
| Sample (eventID : Z) (sd : perf_sample_data_t) (metric_id1 metric_id2 metric_id3 : Z)
| Others (memory : Z) (info : str).

Section Life.
Context (gettid : Z) (sys_open : str -> open_result) (answers : nat -> write_event) (ffuel : nat).
Context (tdata td sizeof_td : Z) (raw : outbuf) (mem : list ascii).
Context (realpath : option str -> str -> str) (loadmap : option (list str)) (garbage : str) (pagesize : Z).
Context (ratio : Z -> Z -> str).

Fixpoint run_event (e : thread_event) : P unit :=
  match e with
  | Enter rt => MethodEntry gettid sys_open answers ffuel rt
  | Alloc rt during mid thread object klass size =>
    ObjectAllocCallback gettid sys_open answers ffuel rt
      (foldr (fun e rest => run_event e;; rest) (mret tt) during) mid thread object klass size
  | Sample id sd m1 m2 m3 => OnSample gettid sys_open answers ffuel tdata td sizeof_td id sd m1 m2 m3
  | Others memory info =>
    mod_glob (fun g => set_memory memory (set_objects (object_live_cycle g) info g))
  end.

Definition run_events (es : list thread_event) : P unit :=
  foldr (fun e rest => run_event e;; rest) (mret tt) es.

Definition thread_life (es : list thread_event) : P (list (option OUTPUT)) :=
  start_thread gettid raw mem realpath loadmap garbage pagesize;;
  run_events es;;
  threadEnd gettid answers true ffuel ratio.
End Life.

(** * The reference

    The text of four files, with the call path, the methods already listed, the
    number of allocations per object, the memory in use and the text of the live
    objects that determine what comes next. *)
Record files := mk_files {
  fl_path : list (Z * str);
  fl_listed : gset Z;
  fl_counts : gmap Z Z;
  fl_memory : Z;
  fl_info : str;
  fl_method : str;
  fl_trace : str;
  fl_alloc : str;
  fl_miss : str
}.

Definition frames_of (rt : runtime) : list jvmtiFrameInfo := reverse (GetStackTrace rt None 0 32).2.
Definition entries_of (rt : runtime) : list (Z * str) :=
  match path_of rt (frames_of rt) with Val entries => entries | Fault _ => [] end.

(** What an allocation writes: the frames of its stack without [getName], and the
    objects that it records. *)
Definition stack_of (rt : runtime) (thread : Z) : list jvmtiFrameInfo :=
  reverse (GetStackTrace rt (Some thread) 0 10).2.
Definition texts_of (rt : runtime) (mid thread : Z) : list str :=
  match alloc_texts rt mid (stack_of rt thread) with Val texts => texts | Fault _ => [] end.
Definition records_of (rt : runtime) (mid thread object klass size : Z) : list part :=
  match class_of_signature (c_str (GetClassSignature (rt_env rt) klass).2) with
  | Val class =>
    match frames_parts rt mid (u64 size) (u64 (GetTag rt object).2) (stack_of rt thread) class with
    | Val ps => ps
    | Fault _ => []
    end
  | Fault _ => []
  end.
Definition count_line (n : Z) : str := lit "|" ++ fmt_ld n ++ [ascii_of_nat 10].
Definition alloc_line_of (texts : list str) (n : Z) : str :=
  mjoin texts ++ (if texts is [] then [] else count_line n).

Section Reference.
Context (name_of class_of : Z -> str) (infos : list metric_info_t).

(** The object is counted before the method is called, the line is written after. *)
Definition count_object (object size : Z) (s : files) : files :=
  mk_files (fl_path s) (fl_listed s)
    (<[object := u64 (default 0 (fl_counts s !! object) + 1)]> (fl_counts s))
    (u64 (fl_memory s + u64 size)) (fl_info s) (fl_method s) (fl_trace s) (fl_alloc s) (fl_miss s).
Definition object_written (rt : runtime) (mid thread object klass size : Z) (s : files) : files :=
  mk_files (fl_path s) (fl_listed s) (fl_counts s) (fl_memory s)
    (noted_info (records_of rt mid thread object klass size) (fl_info s)) (fl_method s) (fl_trace s)
    (fl_alloc s ++ alloc_line_of (texts_of rt mid thread) (default 0 (fl_counts s !! object))) (fl_miss s).

Fixpoint after (e : thread_event) (s : files) : files :=
  match e with
  | Enter rt =>
    mk_files (entries_of rt) (fl_listed s ∪ list_to_set (entries_of rt).*1) (fl_counts s) (fl_memory s)
      (fl_info s)
      (fl_method s ++ (first_seen (fl_listed s) (fi_method <$> frames_of rt)
                        ≫= line_of name_of class_of (fl_info s)))
      (fl_trace s) (fl_alloc s) (fl_miss s)
  | Alloc rt during mid thread object klass size =>
    object_written rt mid thread object klass size
      (foldl (fun s e => after e s) (count_object object size s) during)
  | Sample _ _ _ _ _ =>
    mk_files (fl_path s) (fl_listed s) (fl_counts s) (fl_memory s) (fl_info s) (fl_method s)
      (fl_trace s ++ trace_text (fl_path s) (fl_memory s)) (fl_alloc s)
      (fl_miss s ++ trace_text (fl_path s) 100000000)
  | Others memory info =>
    mk_files (fl_path s) (fl_listed s) (fl_counts s) memory info (fl_method s) (fl_trace s) (fl_alloc s)
      (fl_miss s)
  end.

Definition after_all (es : list thread_event) (s : files) : files := foldl (fun s e => after e s) s es.

(** The runtime answers, and no line exceeds the buffer of [writef]. *)
Fixpoint event_ok (e : thread_event) (s : files) : Prop :=
  match e with
  | Enter rt => (GetStackTrace rt None 0 32).1 = JVMTI_ERROR_NONE /\
      path_of rt (frames_of rt) = Val (entries_of rt) /\
      Forall (fun f => described (rt_env rt) name_of class_of (fi_method f) /\
        printable (line_of name_of class_of (fl_info s) (fi_method f))) (frames_of rt)
  | Alloc rt during mid thread object klass size =>
      (GetTag rt object).1 = JVMTI_ERROR_NONE /\
      (GetClassSignature (rt_env rt) klass).1 = JVMTI_ERROR_NONE /\
      (exists class, class_of_signature (c_str (GetClassSignature (rt_env rt) klass).2) = Val class) /\
      (GetStackTrace rt (Some thread) 0 10).1 = JVMTI_ERROR_NONE /\
      alloc_texts rt mid (stack_of rt thread) = Val (texts_of rt mid thread) /\
      Forall printable (texts_of rt mid thread) /\
      (fix events_ok (es : list thread_event) (s : files) : Prop :=
         match es with [] => True | e :: es => event_ok e s /\ events_ok es (after e s) end)
        during (count_object object size s) /\
      exists n, fl_counts (after_all during (count_object object size s)) !! object = Some n /\
        printable (count_line n)
  | Sample _ _ m1 _ _ => is_Some (getMetricInfo m1 infos) /\
      Forall printable (trace_pieces (fl_path s) (fl_memory s)) /\
      Forall printable (trace_pieces (fl_path s) 100000000)
  | Others _ _ => True
  end.

Fixpoint events_ok (es : list thread_event) (s : files) : Prop :=
  match es with
  | [] => True
  | e :: es => event_ok e s /\ events_ok es (after e s)
  end.
End Reference.

(** Induction with the nested events. *)
Lemma thread_event_nested (Q : thread_event -> Prop) :
  (forall rt, Q (Enter rt)) ->
  (forall rt during mid thread object klass size, Forall Q during ->
     Q (Alloc rt during mid thread object klass size)) ->
  (forall id sd m1 m2 m3, Q (Sample id sd m1 m2 m3)) -> (forall m i, Q (Others m i)) -> forall e, Q e.
Proof.
  intros HE HA HS HO. fix IH 1. intros [ |rt during| | ]; [apply HE| |apply HS|apply HO].
  apply HA. induction during as [|e l IHl]; constructor; [apply IH|exact IHl].
Qed.

(** * The simulation *)

Abbreviation TD := (@thread_data_t events NewContextTree OUTPUT unit).

(** An output of the thread with the text written to it so far. *)
Definition holding (sys_open : str -> open_result) (o : option OUTPUT) (text : str) : Prop :=
  exists o', o = Some o' /\ usable sys_open o' /\ file_text o' = text.

Record tracks (sys_open : str -> open_result) (infos : list metric_info_t) (tot : counter -> Z)
  (s : files) (td : TD) (p : profiler) : Prop := mk_tracks {
  tr_context : is_Some (context_state td);
  tr_method : holding sys_open (output_state td) (fl_method s);
  tr_trace : holding sys_open (output_state_trace td) (fl_trace s);
  tr_alloc : holding sys_open (output_state_alloc td) (fl_alloc s);
  tr_miss : holding sys_open (output_state_cachemiss td) (fl_miss s);
  tr_path : callpath_vec (loc p) = fl_path s;
  tr_listed : method_id_list (loc p) = fl_listed s;
  tr_counts : object_alloc_counter (loc p) = fl_counts s;
  tr_free : object_cyc_lock (glob p) = false;
  tr_memory : active_memory_usage (glob p) = fl_memory s;
  tr_info : object_info (glob p) = fl_info s;
  tr_client : clientName (glob p) = GENERIC;
  tr_mode : attached_mode (glob p);
  tr_infos : metric_infos (glob p) = infos;
  tr_totals : total (loc p) = zero_totals;
  tr_grand : forall c, grandTot (glob p) c = tot c
}.

Section Simulation.
Context (gettid : Z) (sys_open : str -> open_result) (answers : nat -> write_event).
Context (K ffuel : nat) (Hk : steady answers K) (Hfuel : (K * PRINT_BUFFER_SIZE < ffuel)%nat).
Context (tdata tdaddr sizeof_td : Z).
Context (name_of class_of : Z -> str) (infos : list metric_info_t) (tot : counter -> Z).

Abbreviation tracked := (tracks sys_open infos tot).
Abbreviation run1 := (run_event gettid sys_open answers ffuel tdata tdaddr sizeof_td).
Abbreviation run_all := (run_events gettid sys_open answers ffuel tdata tdaddr sizeof_td).

Lemma enter_tracks rt s td lst p :
  tracked s td p -> event_ok name_of class_of infos (Enter rt) s ->
  exists td' p', run1 (Enter rt) (mk_tls (Some td) lst, p) = Val (tt, (mk_tls (Some td') lst, p')) /\
    tracked (after name_of class_of (Enter rt) s) td' p'.
Proof.
  intros [Hct (o1 & Ho1 & Hu1 & Hs1) Htr Hal Hmi Hpath Hlisted Hcounts Hfree Hmem Hinfo Hclient Hmode
    Hinfos Htot Hgrand] (Herr & Hentries & Hd). unfold frames_of in *. cbn [run_event after].
  destruct (GetStackTrace rt None 0 32) as [err frames] eqn:Hstack. simpl in Herr. subst err.
  destruct (MethodEntry_run gettid sys_open answers K ffuel Hk Hfuel rt name_of class_of frames
    (entries_of rt) td lst p o1 Ho1 Hu1 Hstack Hentries) as (o' & Hrun & Hu' & Hst).
  { rewrite Hinfo. rewrite <- (reverse_involutive frames). by apply Forall_reverse. }
  eexists _, _. split; [exact Hrun|]. split; simpl; try done.
  - exists o'. split_and!; [done|done|]. unfold frames_of. by rewrite Hstack, Hst, Hs1, Hlisted, Hinfo.
  - by rewrite Hlisted.
  - by destruct Hmode.
Qed.

Lemma sample_tracks id sd m1 m2 m3 s td lst p :
  tracked s td p -> event_ok name_of class_of infos (Sample id sd m1 m2 m3) s ->
  exists td' p', run1 (Sample id sd m1 m2 m3) (mk_tls (Some td) lst, p) =
      Val (tt, (mk_tls (Some td') lst, p')) /\
    tracked (after name_of class_of (Sample id sd m1 m2 m3) s) td' p'.
Proof.
  intros [[ct Hct] Hme (o2 & Ho2 & Hu2 & Hs2) Hal (o4 & Ho4 & Hu4 & Hs4) Hpath Hlisted Hcounts Hfree Hmem
    Hinfo Hclient Hmode Hinfos Htot Hgrand] ([mi Hmi] & Hp1 & Hp2). cbn [run_event after].
  rewrite <- Hpath, <- ?Hmem in *.
  destruct (constructContext_run gettid sys_open answers K ffuel td lst p ct o2 o4 Hk Hfuel Hct
    Ho2 Hu2 Ho4 Hu4 Hp1 Hp2) as (o2' & o4' & Hrun & Hu2' & Hu4' & Hst2 & Hst4).
  eexists _, p. split.
  - unfold OnSample, get_prof, mbind at 1, prog_bind at 1. simpl. rewrite Hclient, Hinfos, Hmi. exact Hrun.
  - split; simpl; try done.
    + exists o2'. by rewrite Hst2, Hs2, trace_line.
    + exists o4'. by rewrite Hst4, Hs4, trace_line.
Qed.

Lemma counted_tracks object size s td p :
  tracked s td p -> tracked (count_object object size s) (set_inside_agent true td) (counted object size p).
Proof.
  intros [? ? ? ? ? ? ? Hc ? Hm ? ? Hmode ? ? ?]. split; simpl in *; try done.
  - by rewrite Hc.
  - by rewrite Hm.
  - by destruct Hmode.
Qed.

(** [during] runs as the reference says; so does the allocation around it. *)
Lemma alloc_tracks rt during mid thread object klass size s td lst p :
  (forall s td p, tracked s td p -> events_ok name_of class_of infos during s ->
     exists td' p', run_all during (mk_tls (Some td) lst, p) = Val (tt, (mk_tls (Some td') lst, p')) /\
       tracked (after_all name_of class_of during s) td' p') ->
  tracked s td p ->
  event_ok name_of class_of infos (Alloc rt during mid thread object klass size) s ->
  exists td' p', run1 (Alloc rt during mid thread object klass size) (mk_tls (Some td) lst, p) =
      Val (tt, (mk_tls (Some td') lst, p')) /\
    tracked (after name_of class_of (Alloc rt during mid thread object klass size) s) td' p'.
Proof.
  intros IH Ht (Htag & Hsig & [class Hclass] & Herr & Htexts & Hp & Hok & n & Hn & Hlast).
  destruct (IH _ _ _ (counted_tracks object size s td p Ht) Hok) as (td2 & p2 & Hcall & Ht2).
  pose proof Ht2 as [Hct2 Hme2 Htr2 (o & Ho & Hu & Hs) Hmi2 Hpath2 Hlisted2 Hcounts2 Hfree2 Hmem2 Hinfo2
    Hclient2 Hmode2 Hinfos2 Htot2 Hgrand2].
  destruct Ht as [[ct Hct] _ _ (oa & Hoa & _) _ _ _ _ _ _ _ _ _ _ _ _].
  cbn [run_event after]. unfold after_all in *. set (s2 := foldl _ _ during) in *.
  unfold object_written, records_of, texts_of, stack_of in *. rewrite Hclass in *.
  destruct (GetTag rt object) as [te tag] eqn:Htg,
    (GetClassSignature (rt_env rt) klass) as [ce signature] eqn:Hcs,
    (GetStackTrace rt (Some thread) 0 10) as [se frames] eqn:Hstack. cbn [fst snd] in *. subst te ce se.
  rewrite <- Hcounts2 in Hn.
  destruct (ObjectAlloc_run gettid sys_open answers K ffuel rt (run_all during) mid thread object klass size tag
    signature class frames _ td lst p td2 p2 ct o n Hk Hfuel Htg Hcs Hclass Hct (ex_intro _ oa Hoa) Hcall Hn
    Hfree2 Ho Hu Hstack Htexts Hp Hlast) as (o' & live' & info' & b & t' & Hrun & Hframes & Hu' & Hst & _).
  destruct (frames_info gettid sys_open answers ffuel rt _ _ _ _ _ _ _ _ _ Hframes) as (ps & Hps & Hinfo').
  cbn in Hinfo'. subst info'. rewrite Hps.
  eexists _, _. split; [exact Hrun|]. split; simpl; try done.
  - exists o'. split_and!; [done|done|]. rewrite Hst, Hs, <- Hcounts2, Hn. done.
  - by rewrite Hinfo2.
  - by destruct Hmode2.
Qed.

(** From one event to several. *)
Lemma list_tracks lst es :
  Forall (fun e => forall s td p, tracked s td p -> event_ok name_of class_of infos e s ->
    exists td' p', run1 e (mk_tls (Some td) lst, p) = Val (tt, (mk_tls (Some td') lst, p')) /\
      tracked (after name_of class_of e s) td' p') es ->
  forall s td p, tracked s td p -> events_ok name_of class_of infos es s ->
    exists td' p', run_all es (mk_tls (Some td) lst, p) = Val (tt, (mk_tls (Some td') lst, p')) /\
      tracked (after_all name_of class_of es s) td' p'.
Proof.
  induction 1 as [|e es He _ IH]; intros s td p Ht Hok; [by exists td, p|].
  destruct Hok as [Hok1 Hok2]. destruct (He s td p Ht Hok1) as (td1 & p1 & Hrun & Ht1).
  destruct (IH _ td1 p1 Ht1 Hok2) as (td' & p' & Hrun' & Ht'). exists td', p'. split; [|done].
  cbn [run_events foldr]. by rewrite (prog_bind_val _ _ _ _ _ Hrun).
Qed.

Lemma run_event_tracks e s td lst p :
  tracked s td p -> event_ok name_of class_of infos e s ->
  exists td' p', run1 e (mk_tls (Some td) lst, p) = Val (tt, (mk_tls (Some td') lst, p')) /\
    tracked (after name_of class_of e s) td' p'.
Proof.
  revert s td p. induction e as [rt|rt during mid thread object klass size IH|id sd m1 m2 m3|m info]
    using thread_event_nested; intros s td p Ht He.
  - by apply enter_tracks.
  - apply alloc_tracks; [|done|done]. intros. by apply list_tracks.
  - by apply sample_tracks.
  - eexists td, _. split; [reflexivity|]. destruct Ht as [? ? ? ? ? ? ? ? ? ? ? ? Hmode ? ? ?].
    split; simpl; try done. by destruct Hmode.
Qed.

Lemma run_events_tracks es s td lst p :
  tracked s td p -> events_ok name_of class_of infos es s ->
  exists td' p', run_all es (mk_tls (Some td) lst, p) = Val (tt, (mk_tls (Some td') lst, p')) /\
    tracked (after_all name_of class_of es s) td' p'.
Proof. apply list_tracks, Forall_true. intros e s' td' p'. apply run_event_tracks. Qed.
End Simulation.

(** * Start and end *)

Definition file_name (gettid : Z) (kind : string) : str := c_str (output_name gettid (lit kind)).

Lemma file_name_nonempty gettid kind : file_name gettid kind <> [].
Proof. discriminate. Qed.

Lemma closed_holding sys_open gettid kind o :
  closed_output (file_name gettid kind) o -> can_open sys_open (file_name gettid kind) ->
  holding sys_open (Some o) [].
Proof.
  intros Hc Ho. exists o. split_and!; [done| |].
  - right. exists (file_name gettid kind). split_and!; [done|apply file_name_nonempty|done].
  - unfold file_text. destruct Hc as [_ Hfd _ _]. by destruct (Z.ltb_spec (fd (_output_buffer o)) 0); [|lia].
Qed.

(** The file of a deleted stream holds a text (an empty one may have no file). *)
Definition file_holds (r : option OUTPUT) (text : str) : Prop :=
  text <> [] -> exists o, r = Some o /\ contents (o_kernel o) = text /\ is_open (o_kernel o) = false.

Lemma holding_dropped sys_open o r text : holding sys_open o text -> dropped o r -> file_holds r text.
Proof.
  intros (o' & -> & _ & Ht) Hd Hne. destruct r as [r|]; [|done]. exists r. simpl in Hd.
  unfold file_text in *. destruct (Z.ltb_spec (fd (_output_buffer o')) 0); [by subst|].
  destruct Hd as [Hc Ho]; [done|]. rewrite Ht in Hc. done.
Qed.

Lemma holding_droppable sys_open o text : holding sys_open o text -> droppable sys_open o.
Proof. by intros (o' & -> & Hu & _). Qed.

(** * Properties *)

Section Theorems.
Context (gettid : Z) (sys_open : str -> open_result) (answers : nat -> write_event).

(** A thread of the GENERIC client that starts, enters methods, allocates and is
    sampled in any order, with methods and allocations nested in allocations, and
    ends leaves four files: every method listed once with the live objects of the
    time; a line per sample with the call path that was current and the memory in
    use, or the fixed period; a line per allocation with its stack and the number of
    allocations of that object; its record is gone and it adds nothing to the totals. *)
Theorem thread_files K ffuel tdata tdaddr sizeof_td raw mem realpath loadmap garbage pagesize ratio
    name_of class_of es old lst p b
  (Hk : steady answers K) (Hfuel : (K * PRINT_BUFFER_SIZE < ffuel)%nat)
  (Hmem : length mem = PRINT_BUFFER_SIZE)
  (Hclient : clientName (glob p) = GENERIC) (Hmode : attached_mode (glob p))
  (Hfree : object_cyc_lock (glob p) = false)
  (Hb : PopulateBlackListAddresses realpath loadmap garbage pagesize (black_list (glob p)) = Val b)
  (Hopen : Forall (fun kind => can_open sys_open (file_name gettid kind))
     ["method"; "trace"; "alloc"; "cachemiss"]%string) :
  let s0 := mk_files [] ∅ ∅ (active_memory_usage (glob p)) (object_info (glob p)) [] [] [] [] in
  let s := after_all name_of class_of es s0 in
  events_ok name_of class_of (metric_infos (glob p)) es s0 ->
  exists r1 r2 r3 r4 lst' p',
    thread_life gettid sys_open answers ffuel tdata tdaddr sizeof_td raw mem realpath loadmap garbage
      pagesize ratio es (mk_tls old lst, p) = Val ([r1; r2; r3; r4], (mk_tls None lst', p')) /\
    file_holds r1 (fl_method s) /\ file_holds r2 (fl_trace s) /\ file_holds r3 (fl_alloc s) /\
    file_holds r4 (fl_miss s) /\
    (forall c, grandTot (glob p') c = u64 (grandTot (glob p) c)).
Proof.
  intros s0 s Hok.
  destruct (start_thread_run gettid raw mem realpath loadmap garbage pagesize old lst p b Hmem Hb)
    as (o1 & o2 & o3 & o4 & Hstart & C1 & C2 & C3 & C4).
  rewrite !Forall_cons in Hopen. destruct Hopen as (A1 & A2 & A3 & A4 & _).
  destruct (run_events_tracks gettid sys_open answers K ffuel Hk Hfuel tdata tdaddr sizeof_td name_of
    class_of (metric_infos (glob p)) (grandTot (glob p)) es s0 (started gettid o1 o2 o3 o4)
    (match old with Some t => t :: lst | None => lst end)
    (mk_profiler (set_black_list b (glob p)) (mk_locals zero_totals ∅ ∅ [])))
    as (td' & p1 & Hrun & [_ T1 T2 T3 T4 _ _ _ _ _ _ Hc' Hm' _ Ht' Hg']); [|done|].
  { split; [by eexists|exact (closed_holding _ _ _ _ C1 A1)|exact (closed_holding _ _ _ _ C2 A2)
      |exact (closed_holding _ _ _ _ C3 A3)|exact (closed_holding _ _ _ _ C4 A4)|done|done|done|exact Hfree|done|done|exact Hclient
      |by destruct Hmode|reflexivity..]. }
  pose proof (threadEnd_run gettid sys_open answers K ffuel Hk Hfuel ratio td'
    (match old with Some t => t :: lst | None => lst end) p1 Hm'
    (holding_droppable _ _ _ T1) (holding_droppable _ _ _ T2) (holding_droppable _ _ _ T3)
    (holding_droppable _ _ _ T4)) as Hend.
  cbv zeta in Hend. rewrite Hc' in Hend. unfold is_client at 1 in Hend.
  rewrite bool_decide_eq_true_2 in Hend by done. cbn [orb] in Hend.
  destruct Hend as (r1 & r2 & r3 & r4 & p' & Hend & (D1 & D2 & D3 & D4) & Htot & _).
  exists r1, r2, r3, r4, (match old with Some t => t :: lst | None => lst end), p'.
  split_and!; [|by eapply holding_dropped..|].
  - unfold thread_life. rewrite (prog_bind_val _ _ _ _ _ Hstart), (prog_bind_val _ _ _ _ _ Hrun).
    exact Hend.
  - intros c. rewrite Htot, Ht', Hg'. unfold zero_totals. by rewrite Z.add_0_r.
Qed.
End Theorems.

Module Examples.
Definition sample0 : thread_event := Sample 0 (mk_sample 0 0 0 0 0 false) 0 1 2.
Definition info0 : metric_info_t := mk_metric_info (lit "GENERIC") (lit "CYCLES") 100 METRIC_VAL_INT.
Definition globals1 : globals := set_infos [info0] Profiler.Examples.globals0.
(** An allocation of 64 bytes; [getName] enters a method and allocates 16 bytes. *)
Definition alloc0 : thread_event :=
  Alloc Agent.Examples.rt0 [Enter Agent.Examples.rt0; Alloc Agent.Examples.rt0 [] 99 1 6 7 16] 99 1 5 7 64.
Definition life0 : list thread_event :=
  [Enter Agent.Examples.rt0; sample0; alloc0; Others 96 (lit "[x]"); Enter Agent.Examples.rt0; sample0].

Lemma file_name0 kind : can_open Profiler.Examples.always_open (file_name 42 kind).
Proof.
  exists 0%nat, 5. split_and!; [by intros ? ?%Nat.nlt_0_r|done|done|].
  rewrite size_candidate. unfold file_name, NAME_BUFFER_SIZE.
  pose proof (size_c_str (output_name 42 (lit kind))) as H.
  assert (size (output_name 42 (lit kind)) <= 127); [|lia].
  unfold size, output_name. rewrite length_take. lia.
Qed.

Definition name0 (m : Z) : str := lit "m" ++ dec m.
Definition class0 (m : Z) : str := lit "a.Foo".

Lemma enter_ok s :
  fl_info s = [] \/ fl_info s = lit "[x]" -> event_ok name0 class0 [info0] (Enter Agent.Examples.rt0) s.
Proof.
  intros Hs. split; [reflexivity|]. split; [vm_compute; reflexivity|].
  change (frames_of Agent.Examples.rt0) with [mk_frame_info 1 20; mk_frame_info 2 6; mk_frame_info 2 0].
  destruct Hs as [-> | ->]; repeat (apply Forall_cons; split; [|try apply Forall_nil; try exact I]).
  all: split; [eexists _, _, _; split_and!; reflexivity|split; vm_compute; reflexivity].
Qed.

Lemma sample_ok s :
  fl_path s = entries_of Agent.Examples.rt0 -> fl_memory s = 64 \/ fl_memory s = 96 ->
  event_ok name0 class0 [info0] sample0 s.
Proof.
  intros Hp Hm. split; [by exists info0|]. rewrite Hp.
  destruct Hm as [-> | ->]; split; vm_compute; repeat constructor.
Qed.

Lemma alloc_ok s : fl_info s = [] -> fl_counts s = ∅ -> event_ok name0 class0 [info0] alloc0 s.
Proof.
  intros Hi Hc. split; [reflexivity|]. split; [reflexivity|]. split; [eexists; vm_compute; reflexivity|].
  split; [reflexivity|]. split; [vm_compute; reflexivity|]. split; [vm_compute; repeat constructor|].
  split; [split; [apply enter_ok; by left|split; [|exact I]]|].
  - split; [reflexivity|]. split; [reflexivity|]. split; [eexists; vm_compute; reflexivity|].
    split; [reflexivity|]. split; [vm_compute; reflexivity|]. split; [vm_compute; repeat constructor|].
    split; [exact I|]. exists 1. cbn. rewrite Hc. split; [vm_compute; reflexivity|split; vm_compute; reflexivity].
  - exists 1. cbn. rewrite Hc. split; [vm_compute; reflexivity|split; vm_compute; reflexivity].
Qed.

Definition alloc_text0 : str := lit "13010013:1 11010013:2 10010013:2 |1" ++ [ascii_of_nat 10].

Lemma thread_files_witness :
  exists r1 r2 r3 r4 lst p,
    thread_life 42 Profiler.Examples.always_open Output.Examples.answers 3000 0 0 0
      Output.Examples.raw Output.Examples.mem (fun _ s => s) (Some []) [] 4096 (fun _ _ => []) life0
      (mk_tls None [], mk_profiler globals1 Profiler.Examples.locals0) =
      Val ([r1; r2; r3; r4], (mk_tls None lst, p)) /\
    file_holds r2 (lit "13010013:1 11010013:2 |64" ++ [ascii_of_nat 10] ++
                   lit "13010013:1 11010013:2 |96" ++ [ascii_of_nat 10]) /\
    file_holds r1 (lit "1 m1 a.Foo.java" ++ [ascii_of_nat 10] ++ lit "2 m2 a.Foo.java" ++ [ascii_of_nat 10]) /\
    file_holds r3 (alloc_text0 ++ alloc_text0).
Proof.
  destruct (thread_files 42 Profiler.Examples.always_open Output.Examples.answers 2 3000 0 0 0
    Output.Examples.raw Output.Examples.mem (fun _ s => s) (Some []) [] 4096 (fun _ _ => [])
    name0 class0 life0 None []
    (mk_profiler globals1 Profiler.Examples.locals0) (mk_blacklist false [mk_blrange 0 4096]))
    as (r1 & r2 & r3 & r4 & lst & p & Hrun & H1 & H2 & H3 & _).
  - apply Output.Examples.answers_steady.
  - apply Nat.ltb_lt. reflexivity.
  - reflexivity.
  - reflexivity.
  - by split.
  - reflexivity.
  - reflexivity.
  - repeat constructor; apply file_name0.
  - split; [apply enter_ok; left; reflexivity|].
    split; [apply sample_ok; [reflexivity|left; reflexivity]|].
    split; [apply alloc_ok; reflexivity|]. split; [exact I|].
    split; [apply enter_ok; right; reflexivity|].
    split; [apply sample_ok; [reflexivity|right; reflexivity]|exact I].
  - exists r1, r2, r3, r4, lst, p. split_and!; [exact Hrun| | |].
    + exact H2.
    + exact H1.
    + exact H3.
Defined.
End Examples.
