(* ===== verification/Threads.v ===== *)
(** One thread of a process with many: what other threads do reaches it only as
    changes of the memory in use and of the text of the live objects, so its files
    hold what the reference of [Lifetime.v] says, whatever runs in between.  The
    samples come from the buffers that the kernel fills, through the signal
    handler. *)
From stdpp Require Import base numbers option list gmap strings.
From Stdlib Require Import ZArith Lia Ascii.
From S2P Require Import Prelude.
From S2P Require Import Cxx.
From S2P Require Import PerfMmap.
From S2P Require Import Metrics.
From S2P Require Import Jvmti.
From S2P Require Import NewContext.
From S2P Require Import OutBuf.
From S2P Require Import Output.
From S2P Require Import ThreadData.
From S2P Require Import PerfUtil.
From S2P Require Import ProfilerSupport.
From S2P Require Import PerfConfig.
From S2P Require Import PerfEvents.
From S2P Require Import Profiler.
From S2P Require Import Critical.
From S2P Require Import Agent.
From S2P Require Import Shared.
From S2P Require Import Frame.
From S2P Require Import Process.
From S2P Require Import Lifetime.

(** * Programs that only touch the events of the thread *)

Definition only_events (s s' : TLS * profiler) : Prop :=
  s'.2 = s.2 /\ forall td lst, s.1 = mk_tls (Some td) lst ->
    exists e, s'.1 = mk_tls (Some (set_perf_state e td)) lst.

#[export] Instance only_events_preorder : PreOrder only_events.
Proof.
  split.
  - intros [t u]. split; [done|]. intros td lst ->. exists (perf_state td). by destruct td.
  - intros s1 s2 s3 [H1 H2] [H3 H4]. split; [congruence|]. intros td lst Ht.
    destruct (H2 _ _ Ht) as [e He]. destruct (H4 _ _ He) as [e' He']. by exists e'.
Qed.

Definition respects {B} (m : A B) : Prop := forall w a w', m w = Val (a, w') ->
  only_events (w_tls w, w_user w) (w_tls w', w_user w').

Section Respects.
Lemma respects_bind {B C} (m : A B) (k : B -> A C) :
  respects m -> (forall a, respects (k a)) -> respects (m ≫= k).
Proof. intros Hm Hk w b w' (a & w1 & H1 & H2)%prog_bind_inv. etrans; [by eapply Hm|by eapply Hk]. Qed.

Lemma respects_same {B} (m : A B) :
  (forall w a w', m w = Val (a, w') -> w_tls w' = w_tls w /\ w_user w' = w_user w) -> respects m.
Proof. intros Hm w a w' H. destruct (Hm _ _ _ H) as [-> ->]. done. Qed.

Lemma respects_ret {B} (a : B) : respects (mret a).
Proof. apply respects_same. by intros w b w' [= _ <-]. Qed.
Lemma respects_fault {B} f : respects (@prog_fault _ B f).
Proof. by intros w b w'. Qed.
Lemma respects_get : respects prog_get.
Proof. apply respects_same. by intros w b w' [= _ <-]. Qed.
Lemma respects_ioctl ret fd q : respects (ioctl ret fd q).
Proof. apply respects_same. by intros w b w' [= _ <-]. Qed.
Lemma respects_modify f :
  (forall w : agent, w_tls (f w) = w_tls w /\ w_user (f w) = w_user w) -> respects (modify f).
Proof. intros Hf. apply respects_same. intros w b w' [= _ <-]. apply Hf. Qed.

Lemma respects_TD_GET {B} t (field : TD -> B) : respects (on_tls (TD_GET t field)).
Proof.
  intros w a w' H. unfold on_tls, TD_GET, thread_data_get in H.
  destruct (w_tls w) as [[td|] lst] eqn:Ht; injection H as _ <-; split; try done.
  intros td' lst' [= -> ->]. exists (perf_state td'). by destruct td'.
Qed.

Lemma respects_set_perf t (f : TD -> option events) :
  respects (on_tls (TD_SET t (fun td => set_perf_state (f td) td))).
Proof.
  intros w a w' H. unfold on_tls, TD_SET, thread_data_get in H.
  destruct (w_tls w) as [[td|] lst] eqn:Ht; injection H as _ <-; split; try done.
  intros td' lst' [= -> ->]. by exists (f td').
Qed.
End Respects.

Ltac respect :=
  repeat first
    [ progress cbn beta
    | match goal with
      | |- respects (mret _) => apply respects_ret
      | |- respects (prog_fault _) => apply respects_fault
      | |- respects prog_get => apply respects_get
      | |- respects (ioctl _ _ _) => apply respects_ioctl
      | |- respects (modify _) => apply respects_modify; by intros ?
      | |- respects (on_tls (TD_GET _ _)) => apply respects_TD_GET
      | |- respects (_ ≫= _) => apply respects_bind; [|intros ?]
      | |- respects (match ?x with _ => _ end) => destruct x
      | |- respects (let '_ := ?x in _) => destruct x
      end
    | done
    | solve [eauto 2] ].

Lemma respects_setupEvents t info n io op fc mm : respects (setupEvents t info n io op fc mm).
Proof.
  assert (Hset := respects_set_perf t).
  assert (Hcpus : forall i cpus fds buf, respects (open_cpus io op fc mm i cpus fds buf)).
  { intros i cpus. induction cpus as [|cpu cpus IH]; intros fds buf; cbn [open_cpus]; [respect|].
    apply respects_bind; [unfold open_cpu; respect|]. intros [[fd p]|]; [apply IH|apply respects_ret]. }
  assert (Hev : forall m i, respects (setup_events t info io op fc mm m i)).
  { intros m. induction m as [|m IH]; intros i; cbn [setup_events]; unfold push_event; respect. }
  assert (Hall : forall q fds, respects (all_fds io q fds)).
  { intros q fds. induction fds as [|fd fds IH]; cbn [all_fds]; respect. }
  unfold setupEvents, perf_start_all. respect.
Qed.

(** * What a thread sees of a process *)

Section Observed.
Context (sys : system) (t : Z).

Definition local_state (p : process) : TLS * profiler :=
  (th_tls (thread_of p t), mk_profiler (shared p) (th_loc (thread_of p t))).

(** The sample that the handler finds among the records of an event: the first. *)
Definition samples (current : perf_event_thread_t) (info : perf_event_info_t) (rs : list record)
  : list thread_event :=
  match first_sample rs with
  | Some (misc, sd) => [Sample (et_id current) (sample_of (sample_type (ei_attr info)) misc sd)
                          (metric_id1 info) (metric_id2 info) (metric_id3 info)]
  | None => []
  end.

(** A signal of the kernel reaches the thread outside of the agent, and the buffer
    of its event holds records as the kernel writes them, with this sample in front. *)
Inductive pending (p : process) (si_code si_fd : Z) : list thread_event -> Prop :=
| is_pending td lst l current info r k rs :
    th_tls (thread_of p t) = mk_tls (Some td) lst -> inside_agent td = false ->
    perf_state td = Some l -> 0 <= si_code -> find_event si_fd l = Some current ->
    s_event_info sys !! et_event current = Some info -> Forall (fun fd => 0 <= fd) (et_fd current) ->
    initialised (ei_attr info) -> th_rings (thread_of p t) !! mmap_buf current = Some r ->
    ring_size (s_page_mask sys) k -> k <= 30 -> wf_ring k r ->
    Forall (record_ok (ei_attr info)) rs ->
    unread k r = (rs ≫= encode_record (sample_type (ei_attr info))) ->
    (S (length rs) < s_fuel sys)%nat ->
    pending p si_code si_fd (samples current info rs).

(** Events of the thread that write nothing. *)
Definition quiet (e : event) : bool :=
  match e with
  | KernelWrote _ _ _ | Java GarbageStart | Java GarbageEnd | Java ClassLoaded => true
  | _ => false
  end.

(** A method entry, or an allocation during which nothing but these happens. *)
Fixpoint as_event (e : java_event) : option thread_event :=
  match e with
  | MethodEntered rt => Some (Enter rt)
  | Allocated rt during mid thread object klass size =>
    during' ← foldr (fun e r => e' ← as_event e; r' ← r; Some (e' :: r')) (Some []) during;
    Some (Alloc rt during' mid thread object klass size)
  | _ => None
  end.

(** A run of the process and what the thread sees of it: its own frees reach its
    files only through the shared variables. *)
Inductive observed : process -> list (Z * event) -> list thread_event -> process -> Prop :=
| ob_nil p : observed p [] [] p
| ob_other p t' e p1 es l p2 : t' <> t -> step sys p (t', e) = Val p1 -> observed p1 es l p2 ->
    observed p ((t', e) :: es) (Others (active_memory_usage (shared p1)) (object_info (shared p1)) :: l) p2
| ob_freed p order tag p1 es l p2 : step sys p (t, Java (Freed order tag)) = Val p1 ->
    observed p1 es l p2 ->
    observed p ((t, Java (Freed order tag)) :: es)
      (Others (active_memory_usage (shared p1)) (object_info (shared p1)) :: l) p2
| ob_java p e e' p1 es l p2 : as_event e = Some e' -> step sys p (t, Java e) = Val p1 ->
    observed p1 es l p2 -> observed p ((t, Java e) :: es) (e' :: l) p2
| ob_signal p code fd evs p1 es l p2 : pending p code fd evs ->
    step sys p (t, Signal code fd) = Val p1 -> observed p1 es l p2 ->
    observed p ((t, Signal code fd) :: es) (evs ++ l) p2
| ob_quiet p e p1 es l p2 : quiet e = true -> step sys p (t, e) = Val p1 -> observed p1 es l p2 ->
    observed p ((t, e) :: es) l p2.

Lemma observed_steps p es l p' : observed p es l p' -> steps sys p es = Val p'.
Proof.
  induction 1; [done|..]; cbn [steps];
    match goal with H : step _ _ _ = Val _ |- _ => by rewrite (outcome_bind_val _ _ _ H) end.
Qed.
End Observed.

Section Simulation.
Context (sys : system) (t : Z) (K : nat).
Context (Hk : steady (s_answers sys) K) (Hfuel : (K * PRINT_BUFFER_SIZE < s_ffuel sys)%nat).
Context (Hioctl : forall h q fd, 0 <= s_ioctl sys h q fd).
Context (g0 : globals) (Htotals : forall c, is_u64 (grandTot g0 c)).
Context (Hclient : clientName g0 = GENERIC) (Hmode : attached_mode g0).
Context (name_of class_of : Z -> str).

Abbreviation tracked := (tracks (s_open sys) (metric_infos g0) (grandTot g0)).

(** The thread in the state of the reference. *)
Definition follows (s : files) (p : process) : Prop :=
  exists td lst, th_tls (thread_of p t) = mk_tls (Some td) lst /\
    tracked s td (mk_profiler (shared p) (th_loc (thread_of p t))).

(** What [tracks] does not look at. *)
Lemma tracks_inside s td p b : tracked s (set_inside_agent b td) p <-> tracked s td p.
Proof. split; intros []; by split. Qed.

Lemma step_ok p e p1 : process_ok g0 p -> step sys p e = Val p1 -> process_ok g0 p1.
Proof.
  intros Hp Hs. pose proof (step_describes sys g0 Htotals _ p e (abstract_of_describes g0 p Hp)) as H.
  rewrite Hs in H. apply H.
Qed.

Lemma step_inv p e p1 : step sys p (t, e) = Val p1 ->
  exists w, run sys t e (view p t) = Val (tt, w) /\ p1 = commit p t w.
Proof.
  unfold step. cbn [fst snd]. destruct (run sys t e (view p t)) as [[[] w]|f]; [|done].
  intros [= <-]. by exists w.
Qed.

Lemma thread_of_self p w :
  thread_of (commit p t w) t = mk_thread (w_tls w) (w_rings w) (w_ioctls w) (loc (w_user w)).
Proof. rewrite thread_of_commit. by rewrite decide_True. Qed.

Lemma follows_commit s p w td lst :
  w_tls w = mk_tls (Some td) lst -> tracked s td (w_user w) -> follows s (commit p t w).
Proof.
  intros Ht Htr. exists td, lst. rewrite thread_of_self. split; [exact Ht|]. cbn.
  by destruct (w_user w).
Qed.

Lemma other_follows p t' e p1 s :
  t' <> t -> process_ok g0 p -> step sys p (t', e) = Val p1 -> follows s p ->
  follows (after name_of class_of (Others (active_memory_usage (shared p1)) (object_info (shared p1))) s) p1.
Proof.
  intros Hne Hp Hs (td & lst & Ht & Htr). pose proof (po_shared _ _ (step_ok _ _ _ Hp Hs)) as Hg.
  exists td, lst. assert (thread_of p1 t = thread_of p t) as ->.
  { unfold step in Hs. destruct (run sys _ _ _) as [[u w]|]; [|done]. injection Hs as <-.
    rewrite thread_of_commit. by rewrite decide_False. }
  split; [done|]. destruct Htr as [? ? ? ? ? ? ? ? ? ? ? ? ? ? ? ?], Hg, Hmode. split; simpl in *; try done.
  - congruence.
  - split; simpl; congruence.
Qed.

Lemma freed_follows p order tag p1 s :
  process_ok g0 p -> step sys p (t, Java (Freed order tag)) = Val p1 -> follows s p ->
  follows (after name_of class_of (Others (active_memory_usage (shared p1)) (object_info (shared p1))) s) p1.
Proof.
  intros Hp (w & Hrun & ->)%step_inv (td & lst & Ht & Htr).
  cbn [run run_java] in Hrun. unfold on_agent, view in Hrun. cbn [w_tls w_user] in Hrun.
  rewrite free_run, Ht, (agree_parts _ _ _ _ (gl_cyc_lock _ _ (po_shared _ _ Hp))) in Hrun.
  destruct (serial _ _) as [o|]; [|done]. injection Hrun as <-.
  apply (follows_commit _ _ _ td lst); [done|]. cbn [shared commit w_user glob].
  destruct Htr as [? ? ? ? ? ? ? ? ? ? ? ? Hm ? ? ?]. split; simpl in *; try done. by destruct Hm.
Qed.

(** What the process runs for an event is what the life of a thread runs. *)
Lemma as_event_runs e e' : as_event e = Some e' ->
  run_java sys t e = run_event t (s_open sys) (s_answers sys) (s_ffuel sys) 0 0 0 e'.
Proof.
  revert e'. induction e as [rt|rt during mid thread object klass size IH| | | | | | |]
    using java_event_nested; intros e'; try done; [by intros [= <-]|].
  intros (during' & Hd & [= <-])%bind_Some. cbn [run_java run_event]. f_equal.
  revert during' Hd. induction IH as [|e during He _ IH]; intros during'; [by intros [= <-]|].
  cbn [foldr]. intros (e' & He' & (r' & Hr' & [= <-])%bind_Some)%bind_Some.
  by rewrite (He _ He'), (IH _ Hr').
Qed.

Lemma java_follows p e e' p1 s :
  as_event e = Some e' -> step sys p (t, Java e) = Val p1 -> follows s p ->
  event_ok name_of class_of (metric_infos g0) e' s ->
  follows (after name_of class_of e' s) p1.
Proof.
  intros He' (w & Hrun & ->)%step_inv (td & lst & Ht & Htr) He.
  destruct (run_event_tracks t (s_open sys) (s_answers sys) K (s_ffuel sys) Hk Hfuel 0 0 0 name_of class_of
    (metric_infos g0) (grandTot g0) e' s td lst _ Htr He) as (td' & p' & Hev & Htr').
  cbn [run] in Hrun. rewrite (as_event_runs _ _ He') in Hrun. unfold on_agent, view in Hrun.
  cbn [w_tls w_user] in Hrun. rewrite Ht, Hev in Hrun. injection Hrun as <-.
  by apply (follows_commit _ _ _ td' lst).
Qed.

Lemma deliver_tracks current info rs s td lst p :
  tracked s td p -> events_ok name_of class_of (metric_infos g0) (samples current info rs) s ->
  exists td' p', deliver (sample_callback sys t) current info rs (mk_tls (Some td) lst, p) =
      Val (tt, (mk_tls (Some td') lst, p')) /\
    tracked (after_all name_of class_of (samples current info rs) s) td' p'.
Proof.
  unfold samples, deliver. destruct (first_sample rs) as [[misc sd]|]; intros Htr Hok; [|by exists td, p].
  destruct Hok as [He _].
  exact (run_event_tracks t (s_open sys) (s_answers sys) K (s_ffuel sys) Hk Hfuel (s_tdata sys)
    (s_td sys) (s_sizeof_td sys) name_of class_of _ _ _ s td lst p Htr He).
Qed.

Lemma signal_follows p code fd evs p1 s :
  pending sys t p code fd evs -> step sys p (t, Signal code fd) = Val p1 -> follows s p ->
  events_ok name_of class_of (metric_infos g0) evs s ->
  follows (after_all name_of class_of evs s) p1.
Proof.
  intros Hp (w & Hrun & ->)%step_inv (td & lst & Ht & Htr) Hok.
  destruct Hp as [td0 lst0 l current info r k rs Ht0 Hin Hps Hcode Hcur Hinfo Hfds Hattr Hr Hsz Hk30 Hwf Hrs Hu Hf].
  rewrite Ht in Ht0. injection Ht0 as <- <-.
  destruct (deliver_tracks current info rs s (set_inside_agent true td) lst
    (mk_profiler (shared p) (th_loc (thread_of p t)))) as (td' & p' & Hdel & Htr');
    [by apply tracks_inside|done|].
  destruct (handler_run t (s_page_mask sys) (s_event_info sys) (s_ioctl sys) Hioctl k
    (sample_callback sys t) current info rs l (s_fuel sys) code fd (view p t) td lst r
    (mk_tls (Some td') lst) p') as (r' & Hh & _); try done.
  pose proof (eq_trans (eq_sym Hrun) Hh) as E. injection E as ->.
  apply (follows_commit _ _ _ (set_inside_agent false td') lst); [done|]. by apply tracks_inside.
Qed.

Lemma quiet_follows p e p1 s :
  quiet e = true -> step sys p (t, e) = Val p1 -> follows s p -> follows s p1.
Proof.
  intros Hq (w & Hrun & ->)%step_inv (td & lst & Ht & Htr).
  assert (exists b, w_tls w = mk_tls (Some (set_inside_agent b td)) lst /\
    w_user w = mk_profiler (shared p) (th_loc (thread_of p t))) as (b & Hw & Hu).
  { destruct e as [| |[]| |]; try done; cbn [run run_java] in Hrun.
    4: { injection Hrun as <-. cbn. rewrite Ht. exists (inside_agent td). by destruct td. }
    all: unfold on_agent, view in Hrun; cbn [w_tls w_user] in Hrun; rewrite Ht in Hrun;
      injection Hrun as <-; by exists false. }
  apply (follows_commit _ _ _ (set_inside_agent b td) lst); [done|]. rewrite Hu. by apply tracks_inside.
Qed.

Lemma events_ok_app infos l1 l2 s :
  events_ok name_of class_of infos (l1 ++ l2) s <->
  events_ok name_of class_of infos l1 s /\ events_ok name_of class_of infos l2 (after_all name_of class_of l1 s).
Proof.
  revert s. induction l1 as [|e l1 IH]; intros s; [by split; [|intros [_ ?]]|]. cbn. rewrite IH. tauto.
Qed.

Lemma observed_follows p es l p' s :
  observed sys t p es l p' -> process_ok g0 p -> follows s p ->
  events_ok name_of class_of (metric_infos g0) l s ->
  process_ok g0 p' /\ follows (after_all name_of class_of l s) p'.
Proof.
  intros Hob. revert s. induction Hob as [p|p t' e p1 es l p2 Hne Hs _ IH
    |p order tag p1 es l p2 Hs _ IH|p e e' p1 es l p2 He' Hs _ IH
    |p code fd evs p1 es l p2 Hpe Hs _ IH|p e p1 es l p2 Hq Hs _ IH]; intros s Hp Hf Hok; [done|..].
  - apply IH; [by eapply step_ok|by eapply other_follows|apply Hok].
  - apply IH; [by eapply step_ok|by eapply freed_follows|apply Hok].
  - apply IH; [by eapply step_ok|eapply java_follows; [done|done|done|apply Hok]|apply Hok].
  - apply events_ok_app in Hok as [H1 H2]. unfold after_all. rewrite foldl_app.
    apply IH; [by eapply step_ok|by eapply signal_follows|done].
  - apply IH; [by eapply step_ok|by eapply quiet_follows|done].
Qed.

(** ** The start *)

Lemma start_thread_val old lst p s' :
  start_thread t (s_raw sys) (s_mem sys) (s_realpath sys) (s_loadmap sys) (s_garbage sys) (s_pagesize sys)
    (mk_tls old lst, p) = Val (tt, s') ->
  exists b, PopulateBlackListAddresses (s_realpath sys) (s_loadmap sys) (s_garbage sys) (s_pagesize sys)
    (black_list (glob p)) = Val b.
Proof.
  unfold start_thread, new_output.
  destruct (setFileName (output_name t (lit "method")) _) as [b1 o1],
    (setFileName (output_name t (lit "trace")) _) as [b2 o2],
    (setFileName (output_name t (lit "alloc")) _) as [b3 o3],
    (setFileName (output_name t (lit "cachemiss")) _) as [b4 o4].
  unfold mbind, prog_bind, mod_loc, tls_op, get_prof, prog_lift. cbn.
  destruct (PopulateBlackListAddresses _ _ _ _ _) as [b|f]; [by exists b|done].
Qed.

Lemma block_run s : exists td lst, block t s = Val (tt, (mk_tls (Some td) lst, s.2)).
Proof. destruct s as [[[td|] lst] p]; [by eexists _, lst|by eexists _, lst]. Qed.

Lemma start_follows p p1 :
  length (s_mem sys) = PRINT_BUFFER_SIZE ->
  Forall (fun kind => can_open (s_open sys) (file_name t kind))
    ["method"; "trace"; "alloc"; "cachemiss"]%string ->
  process_ok g0 p -> step sys p (t, ThreadStarted) = Val p1 ->
  follows (mk_files [] ∅ ∅ (active_memory_usage (shared p1)) (object_info (shared p1)) [] [] [] []) p1.
Proof.
  intros Hmem Hopen Hp Hs. pose proof (po_shared _ _ (step_ok _ _ _ Hp Hs)) as Hg.
  apply step_inv in Hs as (w & Hrun & ->). cbn [shared commit] in *.
  cbn [run] in Hrun. unfold callbackThreadStart, threadStart in Hrun.
  apply prog_bind_inv in Hrun as (u1 & w1 & H1 & Hrun).
  apply prog_bind_inv in Hrun as (u2 & w4 & H2 & H5).
  apply prog_bind_inv in H2 as (u3 & w2 & H2 & H3).
  apply prog_bind_inv in H3 as (ok & w3 & H3 & H4). injection H4 as _ <-.
  destruct (block_run (w_tls (view p t), w_user (view p t))) as (td0 & lst0 & Hb).
  unfold on_agent in H1. rewrite Hb in H1. injection H1 as _ <-.
  unfold on_agent in H2. cbn [w_tls w_user snd] in H2.
  destruct (start_thread _ _ _ _ _ _ _ _) as [[u s2]|] eqn:Hst in H2; [|done].
  destruct u. destruct (start_thread_val _ _ _ _ Hst) as [b Hbl].
  destruct (start_thread_run t (s_raw sys) (s_mem sys) (s_realpath sys) (s_loadmap sys) (s_garbage sys)
    (s_pagesize sys) (Some td0) lst0 _ b Hmem Hbl) as (o1 & o2 & o3 & o4 & Hstart & C1 & C2 & C3 & C4).
  rewrite Hstart in Hst. injection Hst as <-. injection H2 as _ <-.
  destruct (respects_setupEvents _ _ _ _ _ _ _ _ _ _ H3) as [Hu Htls]. cbn in Hu, Htls.
  destruct (Htls _ _ eq_refl) as [e He]. unfold on_agent in H5. rewrite He in H5. injection H5 as <-.
  rewrite !Forall_cons in Hopen. destruct Hopen as (A1 & A2 & A3 & A4 & _).
  apply (follows_commit _ _ _ (set_inside_agent false (set_perf_state e (started t o1 o2 o3 o4))) (td0 :: lst0));
    [done|]. cbn [w_user]. cbn [w_user] in Hg. rewrite Hu in Hg |- *.
  destruct Hg, Hmode.
  split; [by eexists|exact (closed_holding _ _ _ _ C1 A1)|exact (closed_holding _ _ _ _ C2 A2)
    |exact (closed_holding _ _ _ _ C3 A3)|exact (closed_holding _ _ _ _ C4 A4)|done|done|done|done|done|done
    |cbn in *; congruence|split; cbn in *; congruence|done|done|done].
Qed.

(** ** The end *)

Lemma end_files s p :
  follows s p -> s_close_ok sys = true ->
  exists r1 r2 r3 r4 s', (block t;; threadEnd t (s_answers sys) (s_close_ok sys) (s_ffuel sys) (s_ratio sys))
      (local_state t p) = Val ([r1; r2; r3; r4], s') /\ td_ptr s'.1 = None /\
    file_holds r1 (fl_method s) /\ file_holds r2 (fl_trace s) /\ file_holds r3 (fl_alloc s) /\
    file_holds r4 (fl_miss s).
Proof.
  intros (td & lst & Ht & Htr) Hclose. rewrite Hclose.
  apply (tracks_inside s td _ true) in Htr.
  destruct Htr as [_ T1 T2 T3 T4 _ _ _ _ _ _ Hc Hm _ _ _].
  pose proof (threadEnd_run t (s_open sys) (s_answers sys) K (s_ffuel sys) Hk Hfuel (s_ratio sys)
    (set_inside_agent true td) lst (mk_profiler (shared p) (th_loc (thread_of p t))) Hm
    (holding_droppable _ _ _ T1) (holding_droppable _ _ _ T2) (holding_droppable _ _ _ T3)
    (holding_droppable _ _ _ T4)) as Hend.
  cbv zeta in Hend. rewrite Hc in Hend. unfold is_client at 1 in Hend.
  rewrite bool_decide_eq_true_2 in Hend by done. cbn [orb] in Hend.
  destruct Hend as (r1 & r2 & r3 & r4 & p' & Hend & (D1 & D2 & D3 & D4) & _).
  exists r1, r2, r3, r4, (mk_tls None lst, p').
  split_and!; [|done|by eapply holding_dropped..].
  unfold local_state. rewrite Ht.
  set (u := mk_profiler (shared p) (th_loc (thread_of p t))) in *.
  rewrite (prog_bind_val (block t) _ (mk_tls (Some td) lst, u) tt
    (mk_tls (Some (set_inside_agent true td)) lst, u) eq_refl).
  exact Hend.
Qed.
End Simulation.

(** * Properties *)

(** C1: in a process with any number of threads, where other threads run whatever
    they run in between, a thread of the GENERIC client that starts, enters methods,
    allocates and frees, gets signals for buffers that hold records as the kernel writes
    them, and ends, leaves the files of the reference: every method it entered once; a
    line for the first sample of the buffer at each signal (the handler drops what is
    behind it) with its own call path of that time and the memory then in use by all
    threads, or the fixed period; a line per allocation with its stack and count; nothing
    of another thread. *)
Theorem thread_files_in_process sys t K g0 name_of class_of p0 p1 es l p2
  (Hk : steady (s_answers sys) K) (Hfuel : (K * PRINT_BUFFER_SIZE < s_ffuel sys)%nat)
  (Hioctl : forall h q fd, 0 <= s_ioctl sys h q fd) (Hclose : s_close_ok sys = true)
  (Hmem : length (s_mem sys) = PRINT_BUFFER_SIZE)
  (Hopen : Forall (fun kind => can_open (s_open sys) (file_name t kind))
     ["method"; "trace"; "alloc"; "cachemiss"]%string)
  (Htotals : forall c, is_u64 (grandTot g0 c)) (Hclient : clientName g0 = GENERIC)
  (Hmode : attached_mode g0) (Hp : process_ok g0 p0)
  (Hstart : step sys p0 (t, ThreadStarted) = Val p1) (Hrun : observed sys t p1 es l p2) :
  let s0 := mk_files [] ∅ ∅ (active_memory_usage (shared p1)) (object_info (shared p1)) [] [] [] [] in
  let s := after_all name_of class_of l s0 in
  events_ok name_of class_of (metric_infos g0) l s0 ->
  steps sys p1 es = Val p2 /\
  exists r1 r2 r3 r4 s',
    (block t;; threadEnd t (s_answers sys) (s_close_ok sys) (s_ffuel sys) (s_ratio sys)) (local_state t p2) =
      Val ([r1; r2; r3; r4], s') /\ td_ptr s'.1 = None /\
    file_holds r1 (fl_method s) /\ file_holds r2 (fl_trace s) /\ file_holds r3 (fl_alloc s) /\
    file_holds r4 (fl_miss s).
Proof.
  intros s0 s Hok. split; [by eapply observed_steps|].
  pose proof (start_follows sys t g0 Htotals Hclient Hmode p0 p1 Hmem Hopen Hp Hstart) as Hf.
  destruct (observed_follows sys t K Hk Hfuel Hioctl g0 Htotals Hclient Hmode name_of class_of p1 es l p2
    s0 Hrun (step_ok sys g0 Htotals _ _ _ Hp Hstart) Hf Hok) as [_ Hf2].
  by eapply (end_files sys t K Hk Hfuel g0).
Qed.

Module Examples.
(** One event on eight cpus with buffers of 64 bytes. *)
Definition system1 : system := mk_system Profiler.Examples.always_open Output.Examples.answers true
  Output.Examples.raw Output.Examples.mem (fun _ s => s) (Some []) [] 4096 63 [PerfEvents.Examples.info0] 1
  PerfEvents.Examples.ioctl0 PerfEvents.Examples.open0 (fun _ => true)
  (fun _ => Some (mk_mmap 0 0 (replicate 64 0))) 0 0 0 (fun _ _ => []) 3000 10.
Definition process1 : process := mk_process Lifetime.Examples.globals1 [] ∅.

Definition next (p : process) (e : Z * event) : process :=
  match step system1 p e with Val p' => p' | Fault _ => p end.
Definition started1 : process := next process1 (42, ThreadStarted).

(** What the thread has set up. *)
Definition thread1 : perf_event_thread_t := mk_event_thread 0 [1; 2; 3; 4; 5; 6; 7; 8] 8 0.

Definition enter1 : Z * event := (42, Java (MethodEntered Agent.Examples.rt0)).
Definition records1 : list record := [SampleRecord 16384 PerfMmap.Examples.sd0 []].
Definition kernel_bytes1 : list Z :=
  records1 ≫= encode_record (sample_type (ei_attr PerfEvents.Examples.info0)).
Definition write1 : Z * event :=
  (42, KernelWrote (mmap_buf thread1) 48 (kernel_bytes1 ++ replicate 16 0)).
Definition foreign1 : Z * event := (7, Java (Allocated Agent.Examples.rt0 [] 99 1 5 7 32)).
Definition signal1 : Z * event := (42, Signal 0 3).

Definition entered1 : process := next started1 enter1.
Definition written1 : process := next entered1 write1.
Definition foreign_done1 : process := next written1 foreign1.
Definition sampled1 : process := next foreign_done1 signal1.
Definition alloc1 : Z * event := (42, Process.Examples.alloc0 64).
Definition freed1 : Z * event := (42, Java (Freed id 5)).
Definition allocated1 : process := next sampled1 alloc1.
Definition end1 : process := next allocated1 freed1.

Lemma process1_ok : process_ok Lifetime.Examples.globals1 process1.
Proof. split; [|done]. split; try done. constructor. Qed.

Lemma pending1 : pending system1 42 foreign_done1 0 3
  (samples thread1 PerfEvents.Examples.info0 records1).
Proof.
  eapply (is_pending system1 42 foreign_done1 0 3 _ _ [thread1] thread1 PerfEvents.Examples.info0
    (mk_mmap 48 0 (kernel_bytes1 ++ replicate 16 0)) 6).
  - vm_compute. reflexivity.
  - reflexivity.
  - reflexivity.
  - lia.
  - reflexivity.
  - reflexivity.
  - repeat (constructor; [lia|]). constructor.
  - by eexists _, _, _.
  - vm_compute. reflexivity.
  - exact PerfMmap.Examples.size6.
  - lia.
  - split; simpl; [lia|lia|lia|reflexivity].
  - apply Forall_singleton, PerfEvents.Examples.sample_record_ok; repeat split; by vm_compute.
  - vm_compute. reflexivity.
  - apply Nat.ltb_lt. reflexivity.
Qed.

Definition seen1 : list thread_event :=
  [Enter Agent.Examples.rt0; Others 96 []] ++
  samples thread1 PerfEvents.Examples.info0 records1 ++
  [Lifetime.Examples.alloc0; Others (active_memory_usage (shared end1)) (object_info (shared end1))].

Lemma observed1 :
  observed system1 42 started1 [enter1; write1; foreign1; signal1; alloc1; freed1] seen1 end1.
Proof.
  apply (ob_java system1 42 started1 _ _ entered1); [reflexivity|vm_compute; reflexivity|].
  apply (ob_quiet system1 42 entered1 _ written1); [done|vm_compute; reflexivity|].
  apply (ob_other system1 42 written1 7 _ foreign_done1); [done|vm_compute; reflexivity|].
  apply (ob_signal system1 42 foreign_done1 _ _ _ sampled1); [exact pending1|vm_compute; reflexivity|].
  apply (ob_java system1 42 sampled1 _ _ allocated1); [reflexivity|vm_compute; reflexivity|].
  apply (ob_freed system1 42 allocated1 _ _ end1); [vm_compute; reflexivity|]. apply ob_nil.
Qed.

Lemma thread_files_in_process_witness :
  exists r1 r2 r3 r4 s',
    (block 42;; threadEnd 42 (s_answers system1) true 3000 (fun _ _ => [])) (local_state 42 end1) =
      Val ([r1; r2; r3; r4], s') /\
    file_holds r1 (lit "1 m1 a.Foo.java" ++ [ascii_of_nat 10] ++ lit "2 m2 a.Foo.java" ++ [ascii_of_nat 10]) /\
    file_holds r2 (lit "13010013:1 11010013:2 |96" ++ [ascii_of_nat 10]) /\
    file_holds r3 (Lifetime.Examples.alloc_text0 ++ Lifetime.Examples.alloc_text0).
Proof.
  destruct (thread_files_in_process system1 42 2 Lifetime.Examples.globals1 Lifetime.Examples.name0
    Lifetime.Examples.class0 process1 started1 [enter1; write1; foreign1; signal1; alloc1; freed1] seen1 end1)
    as [_ (r1 & r2 & r3 & r4 & s' & Hrun & _ & H1 & H2 & H3 & _)].
  - apply Output.Examples.answers_steady.
  - apply Nat.ltb_lt. reflexivity.
  - intros. cbn. unfold PerfEvents.Examples.ioctl0. lia.
  - reflexivity.
  - reflexivity.
  - repeat constructor; apply Lifetime.Examples.file_name0.
  - by split.
  - reflexivity.
  - by split.
  - exact process1_ok.
  - vm_compute. reflexivity.
  - exact observed1.
  - split; [apply Lifetime.Examples.enter_ok; left; vm_compute; reflexivity|]. split; [exact I|].
    split; [apply Lifetime.Examples.sample_ok; [reflexivity|right; reflexivity]|].
    split; [apply Lifetime.Examples.alloc_ok; reflexivity|]. split; exact I.
  - exists r1, r2, r3, r4, s'. split_and!; [exact Hrun|exact H1|exact H2|exact H3].
Defined.
End Examples.
